(* ===== verification/_CoqProject ===== *)
-Q . S2P
Prelude.v
GoErr.v
GoStr.v
JobStore.v
Pool.v
PoolTheorems.v
Db.v
Migrate.v
MigrateLaws.v
IngestPg.v
IngestPgLaws.v
Enqueue.v
EdgeId.v
Lightrag.v
Translate.v
Tombstone.v
Service.v
ServiceTheorems.v
Fake.v
FakeLaws.v
Ingestion.v
Reingest.v
Reaper.v
LightragHttp.v
Purge.v
HttpApi.v
Admission.v
CodeGraph.v
CodeGraphLaws.v
CodeService.v
CodeReads.v
CodeReadsLaws.v
CodeHttp.v
CodeHttpLaws.v
Web.v
MigrateStub.v
MigrateStubLaws.v
Router.v
RouterLaws.v
Startup.v
StartupLaws.v
Lifecycle.v
LifecycleLaws.v
Eval.v
EvalLaws.v
CodeEval.v
CodeEvalLaws.v
Analytics.v
AnalyticsWorker.v
Label.v
Metrics.v
