(* ===== verification/Prelude.v ===== *)
(** * tatara-memory: a verification development

    tatara-memory is a Go service that puts a durable front end before LightRAG:
    clients store memories, ingest them in bulk, query them and push code graphs;
    the service keeps jobs, tombstones, source indexes and the code graph in
    PostgreSQL and forwards texts and graph edits to LightRAG over HTTP.  This
    library translates its core into executable definitions and proves what makes
    them correct.

    ** How the program is put together, and which file models what

    - HTTP front ([internal/httpapi]).  [HttpApi.v]: the handlers of memories,
      queries, entities, edges, bulk ingest and jobs with the two-step
      classification of failures ([errmap.go], [dberrors.go] after the service's
      [wrapUpstream]); a handler is a computation over any state with the
      interfaces [MemoryService] and [IngestService].  [CodeHttp.v],
      [CodeHttpLaws.v]: the handlers of the code graph ([codegraph.go]) over the
      interface [CodeGraphService].  [Admission.v]: the concurrency limiter of the
      bulk routes ([admission.go]), a step relation over any number of requests.
      [Web.v]: the response writer and its stack of status recorders, request IDs,
      recovery, access log, metrics ([middleware.go], [errors.go]) and the bearer
      middleware ([internal/auth]).  [Router.v], [RouterLaws.v]: the route table and
      the whole path of a request ([router.go]) down to the handlers of the two
      services.
    - Ingest ([internal/ingest]).  [JobStore.v]: jobs, items, the store contract
      ([store.go]) as the classes [JobStore] and [JobStoreLaws], and the in-memory
      store ([memstore.go]).  [IngestPg.v], [IngestPgLaws.v]: the Postgres store
      ([pgstore.go]) statement by statement and its refinement of the contract.
      [Pool.v], [PoolTheorems.v]: the worker pool ([pool.go]), its workers cut at
      every store or upstream call and interleaved.  [Enqueue.v]: accepting a batch
      ([enqueue.go]).
    - Memory domain ([internal/memory]).  [Translate.v]: the mappings between
      domain and wire types ([types.go], [translate.go]).  [EdgeId.v]: edge IDs
      ([edgeid.go]).  [Tombstone.v]: the stores of deleted memories and of sources
      ([tombstone.go], [sources.go]) and the interfaces under which they are used.
      [Service.v], [ServiceTheorems.v]: the service ([service.go]) over any client,
      tombstone store and source index.  [Reaper.v]: the background removal of
      tombstones ([reaper.go]).
    - LightRAG ([internal/lightrag]).  [Lightrag.v]: wire types and the client
      interface ([types.go], [client.go]).  [LightragHttp.v]: the HTTP client with
      its retries, its timeouts and its poll of a busy pipeline ([http.go]).  [Fake.v],
      [FakeLaws.v]: the in-memory LightRAG of the tests ([fake/fake.go]), a second
      instance of that interface, and the service on top of it.
    - Compositions.  [Purge.v]: a batch purge of the service over the HTTP client, under
      the one deadline the service sets for it.  [Ingestion.v], [Reingest.v]: the service
      as what the worker pool runs its items with ([app.go]), from an accepted batch to
      the answers of the service, over the in-memory LightRAG.
    - Metrics ([service.go], the [metrics.go] files, [reaper.go]).  [Metrics.v]: the
      families of counters, registered at zero.
    - Schema and start-up ([internal/pgmigrate], the [migrate.go] and the SQL files of
      the three packages, [cmd/tatara-memory]).  [Migrate.v], [MigrateLaws.v]: the
      catalogue of a database, the twelve migrations as lists of DDL statements, the
      runner, and replicas racing through it.  [MigrateStub.v], [MigrateStubLaws.v]: the
      texts the runner sends and the stub database its tests replay them on
      ([pgmigratetest/stub.go]).  [Startup.v], [StartupLaws.v]: the
      configuration and its validation ([config.go]), session parameters and the wait
      for the database ([app.go]), the readiness gate ([startup.go], [health.go]).
      [Lifecycle.v], [LifecycleLaws.v]: the construction of the process layer by layer,
      its listener and signals, and its shutdown ([app.go], [main.go], [serve.go]).
    - Code graph ([internal/codegraph], [internal/analytics]).  [CodeGraph.v],
      [CodeGraphLaws.v]: the tables, the reconciliation of a push and the neighbour
      walk ([types.go], [pgstore.go]).  [CodeReads.v], [CodeReadsLaws.v]: the other
      reads of the store: search, shortest path, statistics, rankings, communities,
      hyperedges, links across repositories.  [CodeService.v]: the validation and the
      caps in front of the store ([service.go]).  [Analytics.v]: communities and
      centrality ([compute.go]).  [AnalyticsWorker.v]: the worker that recomputes
      them while pushes arrive ([worker.go], [analytics_store.go]).  [Label.v]: the
      labels of communities, asked of a language model ([openai.go]).
    - Evaluation.  [Eval.v], [EvalLaws.v]: the retrieval evaluation ([src/eval],
      [src/cmd/eval]): loading of seeds and golden cases, the client, recall and rank.
      [CodeEval.v], [CodeEvalLaws.v]: that of the code graph ([src/eval/codegraph],
      [src/cmd/codegraph-eval]), run against the modelled handlers.
    - Shared.  This file: results, the state monad and its notations, the tactics
      [run], the keyed-table lemmas.  [GoErr.v]: Go errors, wrapping and
      [errors.Is]/[errors.As].  [GoStr.v]: functions of [strings].  [Db.v]: [database/sql], transactions that can fail
      at every round trip.

    ** How state and operations correspond to the code

    A Go method that touches state is a computation [M W A], a function from the
    world to a result and the next world; [x <- m ;; k] is sequencing and [try x <-
    m in k] the early return on a non-nil error. A returned pair of value and error
    is [result] when the value is meaningless on error and a pair when it is not
    (the purge counts). Errors are trees of wrappings, because which sentinel an
    error still carries decides its status code. Maps are [gmap], rows keyed by
    their primary key; integers are [Z] with the wrap-around written where the code
    multiplies unchecked values ([int64]); stored scores and confidences are exact
    rationals, a bound on them may be NaN or infinite. The environment (which round
    trip fails, what LightRAG answers, how long it takes, in which order a map is
    ranged over) is a parameter or a script, never fixed by the model.

    ** What the theorems show

    - Ingest.  Under any interleaving of workers, sweeps, crashes and store
      failures a terminal job status is the truth about its items
      ([terminal_status_truthful]); a worker left alone finishes its job
      ([runJob_completes]); the Postgres store refines the contract the pool is
      proved against ([PGStore_refines]); sweeps recover what a crash left behind
      ([Resume_recovers]).  Two theorems are about what does go wrong: a stale
      snapshot makes a job unfinishable ([stuck_job_never_finishes]) and a sweep
      duplicates a live item ([sweep_duplicates_live_item]).
    - From end to end.  Ingesting a file again replaces what was ingested from it: the old
      memories are gone, each new one is served, the rest is untouched, and the index lists
      exactly the new ones ([reingest_replaces]).
    - Deletion.  A deleted memory stays invisible while its tombstone stands
      ([get_after_delete], [QueryData_hides_deleted]); purges clear exactly their
      files and resume ([purge_file], [purge_resumes]); the reaper removes a
      tombstone only on confirmation ([tick_safe]).
    - Upstream.  A call makes at most four requests and three bounded waits, takes at
      most 210 seconds and never outlives its context ([roundTrip_bounded]); the poll of a
      busy pipeline ends ([DeleteDocs_polls]); a purge stays within its budget whatever
      LightRAG does ([purge_within_budget]);
      every upstream failure has one answer through both classifications
      ([upstream_failure_answer]).  Service and in-memory LightRAG together: a memory
      and a relation are stored, listed and deleted as told ([memory_lifecycle],
      [edge_lifecycle]), and the fake stays consistent under any calls
      ([fake_consistent]).
    - Metrics.  No operation of the service, the HTTP client, the worker, the reaper or
      the code graph service counts under a label that was not registered ([series_fixed]).
    - Code graph.  A push is atomic and has a key-by-key specification
      ([Reconcile_refines]), is idempotent and isolated; the recursive neighbour
      query computes shortest distances ([Neighbors_spec]); the analytics of a
      repository marked clean are those of the graph stored now
      ([analytics_never_stale]).  Shortest paths are shortest ([ShortestPath_spec]),
      searches literal and ranked ([SearchEntities_spec]), statistics exact
      ([Stats_spec]).  Over HTTP a push is answered 200 exactly when it is reconciled
      ([code_graph_push]) and then served ([pushed_entity_served]); list answers are
      capped ([list_answers_bounded]).
    - Requests.  At most [MaxInFlight] bulk requests run, no slot leaks
      ([admission_bounded]).  Whatever a handler does, a request gets one answer under
      one safe ID and is accounted for ([request_accounted], [request_id_safe],
      [one_answer_per_request]); nothing but the probes is reached without a token
      ([no_route_without_token]).
    - Schema and start-up.  Starts that fail anywhere complete the schema, executing
      each missing migration once ([Migrate_completes]); racing replicas of two of the
      three packages converge ([replicas_converge]), those of the third may not
      ([replica_race_regresses]); driven over the stub of the tests the runner does what
      the catalogue model does ([stub_matches_catalogue]).  The service outlives any finite outage
      ([startup_recovers]), is never ready without its schema
      ([ready_means_migrated]), and a bounded wait ends ([startup_budget]).  A valid
      configuration does not oversubscribe the pool ([validated_pool_budget]).  A run
      that served releases everything it opened, the database last ([run_releases]).
    - Evaluation.  Scores are what they are named after and do not depend on the order
      of equal answers ([ScoreCase_spec], [set_score_order_free]); what loads is
      accepted by the service ([loaded_set_accepted], [fixture_accepted]) and asked as
      written ([golden_cases_served]); an evaluation ends, and what a passing one shows
      ([evaluation_gates], [code_evaluation_passes]).

    The contracts [JobStoreLaws], [TombstonerLaws], [SourceIndexLaws] and
    [ReaperLaws] are what the clients' theorems use; the stores discharge the first
    three as instances.

    ** Bounds and fuel

    - [Pool.drive]: a run of one worker; [runJob_completes] shows that five steps
      per pending item and five more are enough.
    - [LightragHttp.attempts]: structural on the attempts left, [retryMax + 1 = 4]; four
      requests of at most 30 seconds and three waits of at most 30 are the 210 seconds.
    - [LightragHttp.busy_loop]: fuel [busy_fuel], one poll per [retryBaseDelay]
      until the deadline (225 for the 45 seconds of the code);
      [DeleteDocs_polls] shows that it never runs out.
    - [Reaper.backoff_loop]: the delay doubles from one hour to the cap of 24 hours,
      so five iterations; [forceReapBackoff_spec] covers every attempt count.
    - [CodeStore.walk], [CodeReads.path_rows], [CodeReads.cycle_rows]: structural on
      the depth of the query.
    - [Startup.wait_loop]: fuel counts attempts; [startup_recovers] shows that one more
      than the failing round trips is enough, [startup_budget] that
      timeout / interval + 2 are.  In [Lifecycle.shutdown] the wait it ends is cancelled;
      its fuel is a parameter, a wait that outlives it counts as not ended, and the
      theorems hold for every fuel.
    - [Eval.wait_job]: one unit per poll; [evaluation_gates] shows that timeout / 2 s + 2
      are enough.

    ** What is not modelled

    SQL text, the driver and PostgreSQL's planner (a statement is its effect on the
    tables or on the catalogue); JSON and URL codecs, regular expressions other than
    the two of the code, flag parsing; chi's matching of paths, OIDC discovery and
    signatures, gonum's Louvain and Brandes algorithms (parameters); log lines other
    than those of requests, logins and purges; histograms and the registry of metrics;
    tracing; the write deadline the bulk route clears; the time database statements take.  [net/http], the listener and the signals are the
    parameters of [Lifecycle.v]: when requests and workers finish is given.  The key
    server of the authentication tests ([testjwks]) is left out. *)
From stdpp Require Export base tactics gmap strings list fin_maps sorting relations.
From Stdlib Require Export ZArith Lia.

#[global] Open Scope Z_scope.

(** * Results and the state monad of the Go handlers *)

(** A Go call [(value, error)] whose value is meaningless when the error is
    non-nil.  Calls that return a meaningful value *and* an error are modelled
    with an explicit pair. *)
Inductive result (E A : Type) : Type :=
| Ok (a : A)
| Err (e : E).
Arguments Ok {E A} a.
Arguments Err {E A} e.

Definition is_ok {E A} (r : result E A) : bool :=
  match r with Ok _ => true | Err _ => false end.

(** Stateful code: explicit state passing over a world [W]. *)
Definition M (W A : Type) : Type := W -> A * W.

Definition ret {W A} (a : A) : M W A := fun w => (a, w).
Definition bind {W A B} (m : M W A) (k : A -> M W B) : M W B :=
  fun w => let p := m w in k p.1 p.2.
(** Functional update of the world, the write of a field. *)
Definition modify {W} (f : W -> W) : M W unit := fun w => (tt, f w).
Definition gets {W A} (f : W -> A) : M W A := fun w => (f w, w).

Declare Scope go_scope.
Delimit Scope go_scope with go.
Notation "x <- m ;; k" := (bind m (fun x => k))
  (at level 100, m at next level, right associativity) : go_scope.
Notation "m1 ;; m2" := (bind m1 (fun _ => m2))
  (at level 100, right associativity) : go_scope.
(** [x, err := m; if err != nil { return err }] with the error passed on. *)
Notation "'try' x <- m 'in' k" :=
  (bind m (fun r => match r with Ok x => k | Err e => ret (Err e) end))
  (at level 100, x name, m at next level, k at level 200, right associativity) : go_scope.
#[global] Open Scope go_scope.

Create HintDb go.
Create Rewrite HintDb go_rw.
#[export] Hint Extern 1 (_ <= _) => lia : go.
#[export] Hint Extern 1 (_ < _) => lia : go.

Section Monad.
Context {W A B : Type}.
Lemma bind_ret_l (a : A) (k : A -> M W B) w : bind (ret a) k w = k a w.
Proof. done. Qed.
Lemma bind_run (m : M W A) (k : A -> M W B) w a w' :
  m w = (a, w') -> bind m k w = k a w'.
Proof. unfold bind. by intros ->. Qed.
End Monad.
#[export] Hint Rewrite @bind_ret_l : go_rw.

(** ** Running a handler
    [run H] executes the first call of the handler in [H] and names its outcome;
    [run_goal] does so in the goal. *)
Ltac run_one t :=
  match t with
  | context [bind ?m ?k ?w] =>
      lazymatch m with
      | ret ?a => rewrite (bind_ret_l a k w)
      | _ => let r := fresh "r" in let w' := fresh "w" in let E := fresh "E" in
             destruct (m w) as [r w'] eqn:E; rewrite (bind_run m k w r w' E)
      end
  end.
Ltac run_goal := match goal with |- ?g => run_one g end.
Tactic Notation "run" "in" hyp(H) :=
  match type of H with
  | context [bind ?m ?k ?w] =>
      lazymatch m with
      | ret ?a => rewrite (bind_ret_l a k w) in H
      | _ => let r := fresh "r" in let w' := fresh "w" in let E := fresh "E" in
             destruct (m w) as [r w'] eqn:E; rewrite (bind_run m k w r w' E) in H
      end
  end.

(** Compute through the monad and solve for the outcome. *)
Ltac go_simpl := unfold bind, ret, modify, gets in *; simplify_eq/=.

(** A closed equation: both sides are evaluated by the virtual machine. *)
Ltac by_evaluation := match goal with |- _ = ?b => vm_cast_no_check (eq_refl b) end.

(** Case analysis on every [if]/[match] scrutinee of the goal or of [H]. *)
Ltac cases := repeat (case_match; simplify_eq/=; try done).

(** * Machine integers *)

Definition two63 : Z := 2 ^ 63.
Definition two64 : Z := 2 ^ 64.
(** Go's [int] and [time.Duration] on the 64-bit targets the service ships to. *)
Definition int64 (z : Z) : Z := (z + two63) mod two64 - two63.
Definition in_int64 (z : Z) : Prop := - two63 <= z < two63.

Lemma int64_id z : in_int64 z -> int64 z = z.
Proof.
  unfold in_int64, int64, two63, two64. intros H.
  rewrite Z.mod_small; lia.
Qed.
Lemma int64_bounds z : in_int64 (int64 z).
Proof.
  unfold in_int64, int64, two63, two64.
  pose proof (Z.mod_pos_bound (z + 2 ^ 63) (2 ^ 64) ltac:(lia)). lia.
Qed.
#[export] Hint Resolve int64_bounds : go.

(** Durations in nanoseconds, as [time.Duration]. *)
Definition Millisecond : Z := 1000000.
Definition Second : Z := 1000000000.
Definition Minute : Z := 60 * Second.
Definition Hour : Z := 60 * Minute.

(** The clamp shape the service uses for every paging parameter:
    [if n <= 0 { n = def }; if n > max { n = max }]. *)
Definition clamp (def mx n : Z) : Z :=
  if bool_decide (n <= 0) then def
  else if bool_decide (n > mx) then mx else n.
Lemma clamp_bounds def mx n : 1 <= def <= mx -> 1 <= clamp def mx n <= mx.
Proof. unfold clamp. intros. repeat case_bool_decide; lia. Qed.
Lemma clamp_id def mx n : 1 <= n <= mx -> clamp def mx n = n.
Proof. unfold clamp. intros. repeat case_bool_decide; lia. Qed.
#[export] Hint Resolve clamp_bounds : go.

(** * Lists *)

(** [for _, x := range xs { if seen[key x] { continue }; seen[key x] = true;
    out = append(out, x) }]: the first occurrence per key survives, in order. *)
Section DedupBy.
Context {A K : Type} `{Countable K} (key : A -> K).
Fixpoint dedup_by (seen : gset K) (xs : list A) : list A :=
  match xs with
  | [] => []
  | x :: xs =>
      if bool_decide (key x ∈ seen) then dedup_by seen xs
      else x :: dedup_by ({[key x]} ∪ seen) xs
  end.

Lemma dedup_by_keys_fresh seen xs x :
  x ∈ dedup_by seen xs -> (key x ∉ seen) /\ x ∈ xs.
Proof.
  revert seen. induction xs as [|y xs IH]; intros seen Hx; simpl in Hx.
  - by apply elem_of_nil in Hx.
  - case_bool_decide.
    + destruct (IH _ Hx). split; [done|]. by right.
    + apply elem_of_cons in Hx as [->|Hx]; [split; [done|by left] | ].
      destruct (IH _ Hx) as [Hn ?]. split; [|by right].
      intros Hin. apply Hn. by apply elem_of_union_r.
Qed.

Lemma dedup_by_NoDup seen xs : NoDup (key <$> dedup_by seen xs).
Proof.
  revert seen. induction xs as [|y xs IH]; intros seen; simpl; [constructor|].
  case_bool_decide; [apply IH|]. constructor; [|apply IH].
  intros (z & Hk & Hz)%list_elem_of_fmap.
  apply dedup_by_keys_fresh in Hz as [Hz _]. apply Hz. set_solver.
Qed.

Lemma dedup_by_complete seen xs x :
  x ∈ xs -> key x ∈ seen \/ key x ∈ key <$> dedup_by seen xs.
Proof.
  revert seen. induction xs as [|y xs IH]; intros seen Hx; simpl.
  - by apply elem_of_nil in Hx.
  - apply elem_of_cons in Hx as [->|Hx]; case_bool_decide; [by left| | |].
    + right. left.
    + by apply IH.
    + destruct (IH ({[key y]} ∪ seen) Hx) as [Hs|Hs].
      * apply elem_of_union in Hs as [Hs|Hs]; [|by left].
        apply elem_of_singleton in Hs. right. rewrite Hs. left.
      * right. by right.
Qed.
Lemma dedup_by_app seen xs ys :
  dedup_by seen (xs ++ ys)
  = dedup_by seen xs ++ dedup_by (seen ∪ list_to_set (key <$> xs)) ys.
Proof.
  revert seen. induction xs as [|x xs IH]; intros seen; simpl.
  { by rewrite union_empty_r_L. }
  case_bool_decide as Hx.
  - rewrite IH. do 2 f_equal. rewrite (union_comm_L {[key x]}), union_assoc_L.
    rewrite (union_comm_L (seen ∪ _) {[key x]}). symmetry. apply subseteq_union_1_L.
    apply singleton_subseteq_l. by apply elem_of_union_l.
  - simpl. rewrite IH. do 3 f_equal. by rewrite (union_comm_L {[key x]} seen), union_assoc_L.
Qed.
End DedupBy.

(** [Forall2]-style counting used by the job counters. *)
Definition count {A} (p : A -> bool) (l : list A) : Z :=
  Z.of_nat (length (List.filter p l)).
Section Count.
Context {A : Type} (p : A -> bool).
Lemma count_nil : count p [] = 0.
Proof. done. Qed.
Lemma count_cons x l : count p (x :: l) = (if p x then 1 else 0) + count p l.
Proof. unfold count; simpl. destruct (p x); simpl; lia. Qed.
Lemma count_app l k : count p (l ++ k) = count p l + count p k.
Proof. unfold count. rewrite List.filter_app, length_app. lia. Qed.
Lemma count_nonneg l : 0 <= count p l.
Proof. unfold count. lia. Qed.
Lemma count_le_length l : count p l <= Z.of_nat (length l).
Proof. unfold count. pose proof (List.filter_length_le p l). lia. Qed.
(** Replacing one element moves the count by the difference at that element. *)
Lemma count_insert (l : list A) i x y :
  l !! i = Some x ->
  count p (<[i:=y]> l) = count p l - (if p x then 1 else 0) + (if p y then 1 else 0).
Proof.
  revert i. induction l as [|z l IH]; intros [|i] Hi; simplify_eq/=.
  - rewrite !count_cons. lia.
  - rewrite !count_cons, (IH i Hi). lia.
Qed.
Lemma count_all l : count p l = Z.of_nat (length l) -> Forall (fun x => p x = true) l.
Proof.
  induction l as [|x l IH]; [constructor|].
  rewrite count_cons. simpl length. pose proof (count_le_length l).
  destruct (p x) eqn:Hp; intros; [constructor; [done|apply IH; lia]|lia].
Qed.
Lemma count_zero l : count p l = 0 -> Forall (fun x => p x = false) l.
Proof.
  induction l as [|x l IH]; [constructor|].
  rewrite count_cons. pose proof (count_nonneg l).
  destruct (p x) eqn:Hp; intros; [lia|constructor; [done|apply IH; lia]].
Qed.
End Count.
#[export] Hint Resolve count_nonneg count_le_length : go.
#[export] Hint Rewrite @count_nil @count_cons @count_app : go_rw.

Lemma filter_sublist {A} (p : A -> bool) (l : list A) : List.filter p l `sublist_of` l.
Proof.
  induction l as [|x l IH]; simpl; [constructor|]. destruct (p x); by constructor.
Qed.

(** * Go maps

    [for k, v := range m] visits every entry once, in an order the language
    leaves open: the model takes that order as a parameter. *)
Class MapRange := {
  range : forall {V}, gmap string V -> list (string * V);
  range_perm : forall {V} (m : gmap string V), range m ≡ₚ map_to_list m }.

(** The order used by the closed examples. *)
Definition map_to_list_range : MapRange :=
  {| range := fun V m => map_to_list m; range_perm := fun V m => reflexivity _ |}.

(** First-match update of a slice: [for _, it := range xs { if p(it) { f(it);
    return } }]. *)
Fixpoint update_first {A} (p : A -> bool) (f : A -> A) (l : list A) : list A :=
  match l with
  | [] => []
  | x :: l => if p x then f x :: l else x :: update_first p f l
  end.
Section UpdateFirst.
Context {A : Type} (p : A -> bool) (f : A -> A).
Lemma update_first_lookup l :
  (exists i x, l !! i = Some x /\ p x = true /\ List.find p l = Some x /\
               update_first p f l = <[i := f x]> l) \/
  (List.find p l = None /\ Forall (fun x => p x = false) l /\ update_first p f l = l).
Proof.
  induction l as [|x l [(i & y & Hi & Hp & Hf & He)|(Hf & Ha & He)]]; simpl.
  - right. by repeat split.
  - destruct (p x) eqn:Hx; left; [by exists 0%nat, x|].
    exists (S i), y. simpl. by rewrite He.
  - destruct (p x) eqn:Hx; [left; by exists 0%nat, x|].
    right. rewrite He. repeat split; [done|by constructor].
Qed.
Lemma length_update_first l : length (update_first p f l) = length l.
Proof. induction l as [|x l IH]; simpl; [done|]. destruct (p x); simpl; lia. Qed.
End UpdateFirst.
#[export] Hint Rewrite @length_update_first : go_rw.

(** [errors.Is]-free counters: a Prometheus counter vector, by label. *)
Definition inc (label : string) (m : gmap string Z) : gmap string Z :=
  <[label := default 0 (m !! label) + 1]> m.

Section UpdateFirstMap.
Context {A B : Type} (h : A -> B) (p : A -> bool) (q : B -> bool) (f : A -> A) (g : B -> B).
Hypothesis (Hpq : forall x, q (h x) = p x) (Hfg : forall x, p x = true -> h (f x) = g (h x)).
Lemma fmap_update_first l : h <$> update_first p f l = update_first q g (h <$> l).
Proof using Hpq Hfg.
  induction l as [|x l IH]; [done|]. simpl. rewrite Hpq.
  destruct (p x) eqn:Hx; simpl; [by rewrite Hfg|by f_equal].
Qed.
Lemma find_fmap l : List.find q (h <$> l) = h <$> List.find p l.
Proof using Hpq.
  induction l as [|x l IH]; [done|]. simpl. rewrite Hpq. by destruct (p x).
Qed.
End UpdateFirstMap.

(** Updating every element with a given key, when keys are unique. *)
Section UpdateUnique.
Context {A K : Type} `{EqDecision K} (key : A -> K) (f : A -> A).
Lemma fmap_if_absent k (l : list A) :
  (k ∉ key <$> l) -> (fun y => if bool_decide (key y = k) then f y else y) <$> l = l.
Proof.
  induction l as [|x l IH]; [done|]. csimpl. rewrite not_elem_of_cons. intros [Hx Hl].
  rewrite bool_decide_eq_false_2 by congruence. by rewrite IH.
Qed.
Lemma fmap_if_unique i x (l : list A) :
  NoDup (key <$> l) -> l !! i = Some x ->
  (fun y => if bool_decide (key y = key x) then f y else y) <$> l = <[i := f x]> l.
Proof.
  revert i. induction l as [|y l IH]; intros [|i] Hnd Hi; simplify_eq/=;
    csimpl in Hnd; apply NoDup_cons in Hnd as [Hy Hnd].
  - rewrite bool_decide_eq_true_2 by done. by rewrite fmap_if_absent.
  - rewrite bool_decide_eq_false_2; [by rewrite (IH i)|].
    intros Hk. apply Hy. rewrite Hk. apply list_elem_of_fmap. exists x.
    split; [done|by eapply list_elem_of_lookup_2].
Qed.
Lemma fmap_if_update_first k (l : list A) :
  NoDup (key <$> l) ->
  (fun y => if bool_decide (key y = k) then f y else y) <$> l
  = update_first (fun y => bool_decide (key y = k)) f l.
Proof.
  induction l as [|x l IH]; [done|]. csimpl. intros [Hx Hnd]%NoDup_cons.
  case_bool_decide as Hk; [|by rewrite IH]. f_equal. apply fmap_if_absent. by rewrite <- Hk.
Qed.
Lemma find_key_unique k (l : list A) :
  NoDup (key <$> l) ->
  match List.find (fun y => bool_decide (key y = k)) l with
  | Some x => x ∈ l /\ key x = k /\ forall y, y ∈ l -> key y = k -> y = x
  | None => forall y, y ∈ l -> key y <> k
  end.
Proof.
  induction l as [|x l IH]; [intros _ y Hy; by apply elem_of_nil in Hy|].
  csimpl. intros [Hx Hnd]%NoDup_cons. case_bool_decide as Hk.
  - split; [by left|]. split; [done|]. intros y [->|Hy]%elem_of_cons Hky; [done|].
    exfalso. apply Hx. apply list_elem_of_fmap. exists y. by rewrite Hk.
  - specialize (IH Hnd). destruct (List.find _ l).
    + destruct IH as (? & ? & Hu). split; [by right|]. split; [done|].
      intros y [->|Hy]%elem_of_cons Hky; [done|by apply Hu].
    + intros y [->|Hy]%elem_of_cons; [done|by apply IH].
Qed.
End UpdateUnique.

Lemma count_pos {A} (p : A -> bool) (l : list A) x : x ∈ l -> p x = true -> 0 < count p l.
Proof.
  intros Hx Hp. pose proof (count_nonneg p l). destruct (decide (count p l = 0)) as [H0|]; [|lia].
  pose proof (count_zero _ _ H0) as Hz. rewrite Forall_forall in Hz. by rewrite (Hz x Hx) in Hp.
Qed.
Lemma count_none {A} (p : A -> bool) (l : list A) : (forall x, x ∈ l -> p x = false) -> count p l = 0.
Proof.
  induction l as [|x l IH]; intros Hl; [done|]. rewrite count_cons, (Hl x) by left.
  rewrite IH; [done|]. intros y Hy. apply Hl. by right.
Qed.
Lemma fmap_if_none {A} (p : A -> bool) (f : A -> A) (l : list A) :
  (forall x, x ∈ l -> p x = false) -> (fun y => if p y then f y else y) <$> l = l.
Proof.
  induction l as [|x l IH]; intros Hl; [done|]. csimpl. rewrite (Hl x) by left.
  f_equal. apply IH. intros y Hy. apply Hl. by right.
Qed.

Lemma filter_fmap_same {A} (p : A -> bool) (f : A -> A) (l : list A) :
  (forall x, p (f x) = p x) -> List.filter p (f <$> l) = f <$> List.filter p l.
Proof.
  intros Hp. induction l as [|x l IH]; [done|]. csimpl. rewrite Hp, IH. by destruct (p x).
Qed.
Lemma elem_of_filter_bool {A} (p : A -> bool) (l : list A) x :
  x ∈ List.filter p l <-> x ∈ l /\ p x = true.
Proof. rewrite !list_elem_of_In. apply List.filter_In. Qed.
Lemma NoDup_filter_bool {A B} (g : A -> B) (p : A -> bool) (l : list A) :
  NoDup (g <$> l) -> NoDup (g <$> List.filter p l).
Proof. intros Hl. eapply sublist_NoDup; [apply Hl|]. apply fmap_sublist, filter_sublist. Qed.
Lemma filter_all {A} (p : A -> bool) (l : list A) : Forall (fun x => p x = true) l -> List.filter p l = l.
Proof. induction 1 as [|x l Hx _ IH]; [done|]. simpl. by rewrite Hx, IH. Qed.
Lemma filter_none {A} (p : A -> bool) (l : list A) : Forall (fun x => p x = false) l -> List.filter p l = [].
Proof. induction 1 as [|x l Hx _ IH]; [done|]. simpl. by rewrite Hx. Qed.

(** Distinctness under a finer key. *)
Lemma NoDup_fmap_finer {A B C} (f : A -> B) (g : A -> C) (l : list A) :
  (forall x y, x ∈ l -> y ∈ l -> g x = g y -> f x = f y) -> NoDup (f <$> l) -> NoDup (g <$> l).
Proof.
  induction l as [|x l IH]; intros Hfg Hnd; [constructor|]. csimpl in *.
  apply NoDup_cons in Hnd as [Hx Hnd]. constructor.
  - intros (y & Hy & Hin)%list_elem_of_fmap. apply Hx. apply list_elem_of_fmap. exists y.
    split; [apply Hfg; [by left|by right|done]|done].
  - apply IH; [|done]. intros a b Ha Hb. apply Hfg; by right.
Qed.

(** [DELETE .. WHERE] on a keyed table. *)
Definition delete_where {K V} `{Countable K} (p : K -> V -> bool) (m : gmap K V) : gmap K V :=
  filter (fun kv => p kv.1 kv.2 = false) m.

Lemma existsb_false_le {A} (P : A -> bool) l : (forall x, P x = false) -> existsb P l = false.
Proof. intros HP. induction l as [|x l IH]; [done|]. simpl. by rewrite HP. Qed.
Lemma last_elem_of {A} (l : list A) x : last l = Some x -> x ∈ l.
Proof. intros Hl. apply last_Some in Hl as [l' ->]. set_solver. Qed.

(** * Keyed tables under deletes and upserts *)

Section Tables.
Context {K V X : Type} `{Countable K}.
Lemma lookup_delete_where (p : K -> V -> bool) (m : gmap K V) k :
  delete_where p m !! k = match m !! k with Some v => if p k v then None else Some v | None => None end.
Proof.
  unfold delete_where. rewrite map_lookup_filter. destruct (m !! k) as [v|]; simpl; [|done].
  destruct (p k v) eqn:Hp; [by rewrite option_guard_False by congruence|by rewrite option_guard_True by done].
Qed.
(** What survives the deletes of a list of files. *)
Definition surviving (own : X -> K -> V -> bool) (l : list X) (m : gmap K V) (k : K) : option V :=
  match m !! k with Some v => if existsb (fun f => own f k v) l then None else Some v | None => None end.
Lemma lookup_deletes (own : X -> K -> V -> bool) l (m : gmap K V) k :
  foldl (fun m f => delete_where (own f) m) m l !! k = surviving own l m k.
Proof.
  unfold surviving. revert m. induction l as [|f l IH]; intros m; simpl; [by destruct (m !! k)|].
  rewrite IH, lookup_delete_where. destruct (m !! k) as [v|]; [|done]. by destruct (own f k v).
Qed.
(** The last element of a list with a given key. *)
Definition last_with (key : X -> K) (k : K) (l : list X) : option X :=
  last (List.filter (fun x => bool_decide (key x = k)) l).
Lemma last_with_cons key k x l :
  last_with key k (x :: l) = match last_with key k l with
                             | Some y => Some y
                             | None => if bool_decide (key x = k) then Some x else None end.
Proof.
  unfold last_with. simpl. destruct (bool_decide (key x = k)); [|by destruct (last _)].
  by rewrite last_cons.
Qed.
(** Upserts whose new row may keep columns of the row it replaces. *)
Lemma lookup_upserts (key : X -> K) (val : X -> option V -> V) l (m : gmap K V) k :
  (forall x y o, val x (Some (val y o)) = val x o) ->
  foldl (fun m x => <[key x := val x (m !! key x)]> m) m l !! k =
    match last_with key k l with Some x => Some (val x (m !! k)) | None => m !! k end.
Proof.
  intros Habs. revert m. induction l as [|x l IH]; intros m; [done|].
  simpl. rewrite IH, last_with_cons. destruct (decide (key x = k)) as [<-|Hk].
  - rewrite bool_decide_true by done.
    destruct (last_with key (key x) l) as [y|]; rewrite lookup_insert_eq; [by rewrite Habs|done].
  - rewrite bool_decide_false by done.
    by destruct (last_with key k l) as [y|]; rewrite lookup_insert_ne.
Qed.
End Tables.
Lemma last_with_key {K X} `{EqDecision K} (key : X -> K) k l x : last_with key k l = Some x -> key x = k /\ x ∈ l.
Proof.
  unfold last_with. intros Hl%last_elem_of. apply list_elem_of_In, filter_In in Hl as [Hx Hk%bool_decide_eq_true].
  by rewrite list_elem_of_In.
Qed.
Lemma last_with_none {K X} `{EqDecision K} (key : X -> K) k l : (forall x, key x <> k) -> last_with key k l = None.
Proof.
  intros Hk. destruct (last_with key k l) as [x|] eqn:E; [|done]. apply last_with_key in E as [Hx _]. by destruct (Hk x).
Qed.
Lemma surviving_none {K V X} `{Countable K} (own : X -> K -> V -> bool) l (m : gmap K V) k :
  (forall f v, own f k v = false) -> surviving own l m k = m !! k.
Proof. unfold surviving. intros Ho. destruct (m !! k) as [v|]; [|done]. by rewrite existsb_false_le. Qed.
Lemma surviving_idem {K V X} `{Countable K} (own : X -> K -> V -> bool) l (m m' : gmap K V) k :
  m' !! k = surviving own l m k -> surviving own l m' k = m' !! k.
Proof.
  unfold surviving. intros ->. destruct (m !! k) as [v|]; [|done].
  destruct (existsb _ l) eqn:E; [done|]. by rewrite E.
Qed.
Lemma last_with_in {K X} `{EqDecision K} (key : X -> K) l x : x ∈ l ->
  exists y, last_with key (key x) l = Some y /\ key y = key x /\ y ∈ l.
Proof.
  intros Hx. destruct (last_with key (key x) l) as [y|] eqn:E; [exists y; by apply last_with_key in E|].
  unfold last_with in E. apply last_None in E. apply list_elem_of_In in Hx.
  assert (Hin : List.In x (List.filter (fun y => bool_decide (key y = key x)) l)) by (apply filter_In; by rewrite bool_decide_true).
  by rewrite E in Hin.
Qed.
