(* ===== verification/GoErr.v ===== *)
(** Go error values: the sentinels and typed errors of the program, wrapping
    with [fmt.Errorf] and the chain walks [errors.Is] and [errors.As].

    [fmt.Errorf("...: %w", err)] keeps [err] on the chain; in
    [fmt.Errorf("%w: %v", ErrBusy, err)] only the sentinel is on the chain and
    [err] is merely printed.  The whole classification of upstream failures
    depends on that difference, so both forms are constructors. *)
From S2P Require Import Prelude.

(** Sentinel errors ([errors.New] package variables compared by identity). *)
Inductive sentinel : Set :=
(* internal/memory/service.go *)
| ErrNotFound | ErrUpstream | ErrTransient | ErrBusy | ErrInvalid
(* internal/ingest *)
| ErrJobExists | ErrJobNotFound | ErrDuplicateKey
(* internal/codegraph/types.go *)
| ErrEntityNotFound | ErrInvalidScope
(* package context *)
| DeadlineExceeded | Canceled
(* database/sql, database/sql/driver *)
| ErrNoRows | ErrConnDone | ErrBadConn.
#[global] Instance sentinel_eq_dec : EqDecision sentinel.
Proof. solve_decision. Defined.

Inductive err : Type :=
| Sentinel (s : sentinel)
| HTTPError (Status : Z) (Body Path : string)           (* *lightrag.HTTPError *)
| LogicalError (Op Status Message : string)             (* *lightrag.LogicalError *)
| BusyError (Op : string) (Attempts Waited : Z)         (* *lightrag.BusyError *)
| PgError (Code : string)                               (* *pgconn.PgError *)
| ConnectError                                          (* *pgconn.ConnectError *)
| NetError                                              (* any other net.Error *)
| Errorf (text : string)                                (* no wrapped error *)
| Wrap (text : string) (inner : err)                    (* "...: %w" *)
| WrapAs (s : sentinel) (shown : err)                   (* "%w: %v", s, shown *)
| WrapMsg (s : sentinel) (text : string).               (* "%w: text", s *)
#[global] Instance err_eq_dec : EqDecision err.
Proof. solve_decision. Defined.

Coercion Sentinel : sentinel >-> err.

(** The chain [errors.Unwrap] walks, outermost first. *)
Fixpoint chain (e : err) : list err :=
  e :: match e with
       | Wrap _ i => chain i
       | WrapAs s _ | WrapMsg s _ => [Sentinel s]
       | _ => []
       end.

(** [errors.Is(e, s)]. *)
Definition errors_Is (e : err) (s : sentinel) : bool :=
  existsb (fun x => bool_decide (x = Sentinel s)) (chain e).

(** [errors.As(e, &target)] for the typed errors: the first chain element of the
    type, if any. *)
Fixpoint first_some {A B} (f : A -> option B) (l : list A) : option B :=
  match l with
  | [] => None
  | x :: l => match f x with Some b => Some b | None => first_some f l end
  end.
Definition As_HTTPError (e : err) : option Z :=
  first_some (fun x => match x with HTTPError st _ _ => Some st | _ => None end) (chain e).
Definition As_BusyError (e : err) : bool :=
  existsb (fun x => match x with BusyError _ _ _ => true | _ => false end) (chain e).
Definition As_PgError (e : err) : option string :=
  first_some (fun x => match x with PgError c => Some c | _ => None end) (chain e).
Definition As_ConnectError (e : err) : bool :=
  existsb (fun x => match x with ConnectError => true | _ => false end) (chain e).
(** [net.Error] is an interface ([Timeout], [Temporary]);
    [context.DeadlineExceeded] implements it too. *)
Definition As_NetError (e : err) : bool :=
  existsb (fun x => match x with
                    | NetError => true
                    | Sentinel DeadlineExceeded => true
                    | _ => false end) (chain e).

Lemma errors_Is_self s : errors_Is (Sentinel s) s = true.
Proof. by destruct s. Qed.
Lemma errors_Is_Wrap t e s : errors_Is (Wrap t e) s = errors_Is e s.
Proof. done. Qed.
Lemma errors_Is_WrapAs s x s' :
  errors_Is (WrapAs s x) s' = bool_decide (s = s').
Proof. by destruct s, s'. Qed.
Lemma errors_Is_WrapMsg s x s' :
  errors_Is (WrapMsg s x) s' = bool_decide (s = s').
Proof. by destruct s, s'. Qed.
Lemma errors_Is_Sentinel s s' : errors_Is (Sentinel s) s' = bool_decide (s = s').
Proof. by destruct s, s'. Qed.
Lemma As_PgError_Wrap t e : As_PgError (Wrap t e) = As_PgError e.
Proof. done. Qed.
Lemma As_PgError_WrapAs s x : As_PgError (WrapAs s x) = None.
Proof. done. Qed.
#[export] Hint Rewrite errors_Is_self errors_Is_Wrap errors_Is_WrapAs errors_Is_WrapMsg
  errors_Is_Sentinel As_PgError_Wrap As_PgError_WrapAs : go_rw.
