(* ===== verification/GoStr.v ===== *)
(** The functions of [strings] and [strconv] several components use, on strings of
    bytes: [ToLower] (ASCII letters), [Contains], [Index], slices and [Itoa]. *)
From S2P Require Import Prelude.
From stdpp Require Import pretty.

(** [strings.ToLower] on ASCII. *)
Definition lower_ascii (c : Ascii.ascii) : Ascii.ascii :=
  let n := Ascii.nat_of_ascii c in if ((65 <=? n) && (n <=? 90))%nat then Ascii.ascii_of_nat (n + 32) else c.
Fixpoint ToLower (s : string) : string :=
  match s with EmptyString => EmptyString | String c s => String (lower_ascii c) (ToLower s) end.

(** [strings.Contains]; [strings.Index], whose -1 is [None]. *)
Fixpoint Contains (s sub : string) : bool :=
  String.prefix sub s || match s with EmptyString => false | String _ s => Contains s sub end.
Fixpoint Index (s sub : string) : option nat :=
  if String.prefix sub s then Some 0%nat
  else match s with EmptyString => None | String _ s => S <$> Index s sub end.

(** [s[:n]] and [s[n:]]. *)
Fixpoint slice_to (n : nat) (s : string) : string :=
  match n, s with S n, String c s => String c (slice_to n s) | _, _ => EmptyString end.
Fixpoint slice_from (n : nat) (s : string) : string :=
  match n, s with O, _ => s | S n, String _ s => slice_from n s | S _, EmptyString => EmptyString end.

(** [strconv.Itoa]. *)
Definition itoa (n : Z) : string := pretty n.

(** * Lemmas *)

#[export] Instance itoa_inj : Inj (=) (=) itoa.
Proof. unfold itoa. apply _. Qed.

Definition occurs (sub s : string) : Prop := exists a b, s = String.append a (String.append sub b).
Lemma prefix_occurs sub s : String.prefix sub s = true <-> exists b, s = String.append sub b.
Proof.
  revert s. induction sub as [|c sub IH]; intros [|d s]; simpl; try (split; [done|by intros [b ?]]).
  - split; [intros _; by exists ""%string|done].
  - split; [intros _; by exists (String d s)|done].
  - destruct (Ascii.ascii_dec c d) as [->|Hd].
    + rewrite IH. split; intros [b Hb]; exists b; [by rewrite Hb|by injection Hb].
    + split; [done|]. intros [b Hb]. by injection Hb.
Qed.
Lemma Contains_spec s sub : Contains s sub = true <-> occurs sub s.
Proof.
  induction s as [|c s IH]; cbn [Contains]; rewrite orb_true_iff, prefix_occurs.
  - split.
    + intros [[b Hb]|?]; [|done]. by exists ""%string, b.
    + intros (a & b & Hab). left. exists b. by destruct a.
  - rewrite IH. split.
    + intros [[b Hb]|(a & b & ->)]; [by exists ""%string, b|by exists (String c a), b].
    + intros (a & b & Hab). destruct a as [|d a]; [left; by exists b|right; exists a, b; by injection Hab].
Qed.
Lemma slice_to_app a b : slice_to (String.length a) (String.append a b) = a.
Proof. induction a as [|c a IH]; [by destruct b|]. simpl. by rewrite IH. Qed.
Lemma length_slice_to n s : String.length (slice_to n s) = Nat.min n (String.length s).
Proof. revert s. induction n as [|n IH]; intros [|c s]; simpl; [done..|]. by rewrite IH. Qed.
Lemma slice_from_app a b n : slice_from (String.length a + n) (String.append a b) = slice_from n b.
Proof. induction a as [|c a IH]; [done|]. simpl. by rewrite IH. Qed.
Lemma Index_before s sub i : Index s sub = Some i -> exists b, s = String.append (slice_to i s) (String.append sub b).
Proof.
  revert i. induction s as [|c s IH]; intros i; cbn [Index]; destruct (String.prefix sub _) eqn:Hp.
  - intros [= <-]. apply prefix_occurs in Hp as [b Hb]. by exists b.
  - done.
  - intros [= <-]. apply prefix_occurs in Hp as [b Hb]. by exists b.
  - intros (j & Hj & ->)%fmap_Some. destruct (IH j Hj) as [b Hb]. exists b. exact (f_equal (String c) Hb).
Qed.
Lemma append_cons c (a b : string) : String.append (String c a) b = String c (String.append a b).
Proof. done. Qed.
Lemma length_append a b : String.length (String.append a b) = (String.length a + String.length b)%nat.
Proof. induction a as [|c a IH]; [done|]. rewrite append_cons. simpl. by rewrite IH. Qed.
Lemma append_assoc (a b c : string) : String.append (String.append a b) c = String.append a (String.append b c).
Proof. induction a as [|x a IH]; [done|]. rewrite !append_cons. by f_equal. Qed.
Lemma append_nil_r (a : string) : String.append a "" = a.
Proof. induction a as [|x a IH]; [done|]. rewrite append_cons. by f_equal. Qed.
Lemma list_ascii_append a b :
  String.list_ascii_of_string (String.append a b) = String.list_ascii_of_string a ++ String.list_ascii_of_string b.
Proof. induction a as [|c a IH]; [done|]. rewrite append_cons. simpl. by rewrite IH. Qed.
