(* ===== verification/JobStore.v ===== *)
(** Ingest jobs and their store: the data of [internal/memory/types.go], the
    contract every job store promises to the worker pool ([JobStore], from
    [internal/ingest/store.go]), and the in-memory store
    ([internal/ingest/memstore.go]) that implements it.

    The contract is stated on a [view]: the jobs by ID, each with its items in
    order.  [MemStore] is its own view; the Postgres store is in [IngestPg.v]. *)
From S2P Require Import Prelude GoErr.

(** * Data *)

Inductive JobStatus : Set :=
| JobStatusQueued | JobStatusRunning | JobStatusSucceeded | JobStatusFailed | JobStatusPartial.
#[global] Instance JobStatus_eq_dec : EqDecision JobStatus.
Proof. solve_decision. Defined.

Definition Terminal (s : JobStatus) : bool :=
  match s with
  | JobStatusSucceeded | JobStatusFailed | JobStatusPartial => true
  | _ => false
  end.

Record IngestItemError := mkItemError { ie_IdempotencyKey : string; ie_Error : string }.
#[global] Instance IngestItemError_eq_dec : EqDecision IngestItemError.
Proof. solve_decision. Defined.

Record IngestJob := mkJob {
  j_ID : string; j_Status : JobStatus; j_Total : Z; j_Done : Z; j_Failed : Z;
  j_Errors : list IngestItemError; j_CreatedAt : Z; j_UpdatedAt : Z }.

Record IngestItem := mkItem {
  it_IdempotencyKey : string; it_Text : string;
  it_Metadata : gmap string string; it_TrackID : string }.
#[global] Instance IngestItem_eq_dec : EqDecision IngestItem.
Proof. solve_decision. Defined.

(** The [status] column of an item. *)
Inductive ItemStatus : Set := pending | running | done | failed.
#[global] Instance ItemStatus_eq_dec : EqDecision ItemStatus.
Proof. solve_decision. Defined.
Definition item_terminal (s : ItemStatus) : bool :=
  match s with done | failed => true | _ => false end.

Record memItem := mkMemItem {
  mi_item : IngestItem; mi_status : ItemStatus; mi_err : string; mi_trackID : string }.
Record memJobBundle := mkBundle { b_job : IngestJob; b_items : list memItem }.

Definition maxErrors : nat := 50.

(** Every error value has an [Error() string] method; the store keeps its text. *)
Class GoError := Error : err -> string.

(** ** Field updates *)
Definition set_status (s : JobStatus) (now : Z) (j : IngestJob) : IngestJob :=
  mkJob (j_ID j) s (j_Total j) (j_Done j) (j_Failed j) (j_Errors j) (j_CreatedAt j) now.
Definition set_updated (now : Z) (j : IngestJob) : IngestJob :=
  mkJob (j_ID j) (j_Status j) (j_Total j) (j_Done j) (j_Failed j) (j_Errors j) (j_CreatedAt j) now.
Definition bump_done (now : Z) (j : IngestJob) : IngestJob :=
  mkJob (j_ID j) (j_Status j) (j_Total j) (j_Done j + 1) (j_Failed j) (j_Errors j) (j_CreatedAt j) now.
Definition cap_append (errs : list IngestItemError) (e : IngestItemError) : list IngestItemError :=
  if bool_decide (length errs < maxErrors)%nat then errs ++ [e] else errs.
Definition bump_failed (now : Z) (e : IngestItemError) (j : IngestJob) : IngestJob :=
  mkJob (j_ID j) (j_Status j) (j_Total j) (j_Done j) (j_Failed j + 1)
        (cap_append (j_Errors j) e) (j_CreatedAt j) now.
Definition bump (now : Z) (itemErr : option IngestItemError) : IngestJob -> IngestJob :=
  match itemErr with None => bump_done now | Some e => bump_failed now e end.
Definition set_item_status (s : ItemStatus) (m : memItem) : memItem :=
  mkMemItem (mi_item m) s (mi_err m) (mi_trackID m).
Definition set_item_track (t : string) (m : memItem) : memItem :=
  mkMemItem (mi_item m) (mi_status m) (mi_err m) t.
Definition finish_item (runErr : option string) (m : memItem) : memItem :=
  match runErr with
  | Some e => mkMemItem (mi_item m) failed e (mi_trackID m)
  | None => mkMemItem (mi_item m) done (mi_err m) (mi_trackID m)
  end.
Definition with_track (m : memItem) : IngestItem :=
  mkItem (it_IdempotencyKey (mi_item m)) (it_Text (mi_item m)) (it_Metadata (mi_item m)) (mi_trackID m).
Definition mi_key (m : memItem) : string := it_IdempotencyKey (mi_item m).
Definition has_key (key : string) (m : memItem) : bool := bool_decide (mi_key m = key).
Definition is_pending (m : memItem) : bool := bool_decide (mi_status m = pending).
Definition is_running (m : memItem) : bool := bool_decide (mi_status m = running).
Definition is_done (m : memItem) : bool := bool_decide (mi_status m = done).
Definition is_failed (m : memItem) : bool := bool_decide (mi_status m = failed).
Definition unfinished (j : IngestJob) : bool :=
  bool_decide (j_Status j = JobStatusQueued) || bool_decide (j_Status j = JobStatusRunning).

(** * MemStore *)
Module MemStore.
Abbreviation t := (gmap string memJobBundle).

Definition NewMemStore : t := ∅.

Definition CreateJob (j : IngestJob) (items : list IngestItem) : M t (result err unit) :=
  fun s => match s !! j_ID j with
  | Some _ => (Err (Sentinel ErrJobExists), s)
  | None =>
      let b := mkBundle j ((fun it => mkMemItem it pending ""%string ""%string) <$> items) in
      (Ok tt, <[j_ID j := b]> s)
  end.

Definition GetJob (id : string) : M t (result err IngestJob) :=
  fun s => match s !! id with
  | None => (Err (Sentinel ErrJobNotFound), s)
  | Some b => (Ok (b_job b), s)
  end.

Definition UpdateJob (now : Z) (j : IngestJob) : M t (result err unit) :=
  fun s => match s !! j_ID j with
  | None => (Err (Sentinel ErrJobNotFound), s)
  | Some b => (Ok tt, <[j_ID j := mkBundle (set_updated now j) (b_items b)]> s)
  end.

Definition ClaimNextItem (jobID : string) : M t (result err (option IngestItem)) :=
  fun s => match s !! jobID with
  | None => (Err (Sentinel ErrJobNotFound), s)
  | Some b =>
      match List.find is_pending (b_items b) with
      | None => (Ok None, s)
      | Some m =>
          let b' := mkBundle (b_job b)
                      (update_first is_pending (set_item_status running) (b_items b)) in
          (Ok (Some (with_track m)), <[jobID := b']> s)
      end
  end.

Definition SetItemTrackID (jobID key trackID : string) : M t (result err unit) :=
  fun s => match s !! jobID with
  | None => (Err (Sentinel ErrJobNotFound), s)
  | Some b =>
      let b' := mkBundle (b_job b)
                  (update_first (has_key key) (set_item_track trackID) (b_items b)) in
      (Ok tt, <[jobID := b']> s)
  end.

Definition MarkItemDone (jobID key : string) (runErr : option string) : M t (result err unit) :=
  fun s => match s !! jobID with
  | None => (Err (Sentinel ErrJobNotFound), s)
  | Some b =>
      let b' := mkBundle (b_job b) (update_first (has_key key) (finish_item runErr) (b_items b)) in
      (Ok tt, <[jobID := b']> s)
  end.

Definition MarkItemDoneAndProgress (now : Z) (jobID key : string) (runErr : option string)
    : M t (result err unit) :=
  fun s => match s !! jobID with
  | None => (Err (Sentinel ErrJobNotFound), s)
  | Some b =>
      match List.find (has_key key) (b_items b) with
      | None => (Ok tt, s)
      | Some m =>
          if item_terminal (mi_status m) then (Ok tt, s)
          else
            let itemErr := (fun e => mkItemError key e) <$> runErr in
            let b' := mkBundle (bump now itemErr (b_job b))
                        (update_first (has_key key) (finish_item runErr) (b_items b)) in
            (Ok tt, <[jobID := b']> s)
      end
  end.

Definition IncrementJobProgress (now : Z) (jobID : string) (itemErr : option IngestItemError)
    : M t (result err unit) :=
  fun s => match s !! jobID with
  | None => (Err (Sentinel ErrJobNotFound), s)
  | Some b => (Ok tt, <[jobID := mkBundle (bump now itemErr (b_job b)) (b_items b)]> s)
  end.

Definition reset_bundle (b : memJobBundle) : memJobBundle :=
  if unfinished (b_job b)
  then mkBundle (b_job b)
         ((fun m => if is_running m then set_item_status pending m else m) <$> b_items b)
  else b.
Definition reset_count (b : memJobBundle) : Z :=
  if unfinished (b_job b) then count is_running (b_items b) else 0.
Definition ResetRunningItems `{MapRange} : M t (result err Z) :=
  fun s => (Ok (foldr (fun kb n => reset_count kb.2 + n) 0 (range s)), reset_bundle <$> s).

Definition ListUnfinishedJobs `{MapRange} : M t (result err (list string)) :=
  fun s => (Ok (fst <$> List.filter (fun kb => unfinished (b_job kb.2)) (range s)), s).
End MemStore.

(** * The job-store contract *)

(** The abstract state: what a client can observe of a job and its items. *)
Record aitem := mkAItem {
  a_key : string; a_text : string; a_meta : gmap string string;
  a_status : ItemStatus; a_track : string }.
Record ajob := mkAJob {
  a_jstatus : JobStatus; a_total : Z; a_done : Z; a_failed : Z;
  a_errors : list IngestItemError; a_items : list aitem }.
Abbreviation view := (gmap string ajob).

Definition abs_item (m : memItem) : aitem :=
  mkAItem (mi_key m) (it_Text (mi_item m)) (it_Metadata (mi_item m)) (mi_status m) (mi_trackID m).
Definition abs_job (j : IngestJob) (items : list aitem) : ajob :=
  mkAJob (j_Status j) (j_Total j) (j_Done j) (j_Failed j) (j_Errors j) items.
Definition abs_bundle (b : memJobBundle) : ajob := abs_job (b_job b) (abs_item <$> b_items b).

Module Spec.
Definition st_is (s : ItemStatus) (a : aitem) : bool := bool_decide (a_status a = s).
Definition key_is (k : string) (a : aitem) : bool := bool_decide (a_key a = k).
Definition set_st (s : ItemStatus) (a : aitem) : aitem :=
  mkAItem (a_key a) (a_text a) (a_meta a) s (a_track a).
Definition set_tr (t : string) (a : aitem) : aitem :=
  mkAItem (a_key a) (a_text a) (a_meta a) (a_status a) t.
Definition out_st (runErr : option string) : ItemStatus :=
  match runErr with Some _ => failed | None => done end.
Definition with_items (l : list aitem) (a : ajob) : ajob :=
  mkAJob (a_jstatus a) (a_total a) (a_done a) (a_failed a) (a_errors a) l.
Definition bump (itemErr : option IngestItemError) (a : ajob) : ajob :=
  match itemErr with
  | None => mkAJob (a_jstatus a) (a_total a) (a_done a + 1) (a_failed a) (a_errors a) (a_items a)
  | Some e => mkAJob (a_jstatus a) (a_total a) (a_done a) (a_failed a + 1)
                     (cap_append (a_errors a) e) (a_items a)
  end.
Definition aunfinished (a : ajob) : bool :=
  bool_decide (a_jstatus a = JobStatusQueued) || bool_decide (a_jstatus a = JobStatusRunning).
Definition fresh_items (items : list IngestItem) : list aitem :=
  (fun it => mkAItem (it_IdempotencyKey it) (it_Text it) (it_Metadata it) pending ""%string) <$> items.
Definition reset (a : ajob) : ajob :=
  if aunfinished a
  then with_items ((fun x => if st_is running x then set_st pending x else x) <$> a_items a) a
  else a.

(** Postconditions of the successful operations, relating the state before and after. *)
Definition create (j : IngestJob) (items : list IngestItem) (_ : unit) (v v' : view) : Prop :=
  v !! j_ID j = None /\ v' = <[j_ID j := abs_job j (fresh_items items)]> v.
Definition get (id : string) (j : IngestJob) (v v' : view) : Prop :=
  v' = v /\ j_ID j = id /\ exists a, v !! id = Some a /\ a = abs_job j (a_items a).
Definition update (j : IngestJob) (_ : unit) (v v' : view) : Prop :=
  exists a, v !! j_ID j = Some a /\ v' = <[j_ID j := abs_job j (a_items a)]> v.
(** Which pending item is claimed is left open: the stores order them
    differently, and Postgres skips rows that other transactions hold. *)
Definition claim (id : string) (r : option IngestItem) (v v' : view) : Prop :=
  match r with
  | None => v' = v
  | Some it => exists a i x, v !! id = Some a /\ a_items a !! i = Some x /\ a_status x = pending /\
      it = mkItem (a_key x) (a_text x) (a_meta x) (a_track x) /\
      v' = <[id := with_items (<[i := set_st running x]> (a_items a)) a]> v
  end.
Definition set_track (id key t : string) (_ : unit) (v v' : view) : Prop :=
  match v !! id with
  | None => v' = v
  | Some a => v' = <[id := with_items (update_first (key_is key) (set_tr t) (a_items a)) a]> v
  end.
(** The item becomes terminal and the counter moves together, or nothing changes. *)
Definition mark_progress (id key : string) (runErr : option string) (_ : unit) (v v' : view) : Prop :=
  match v !! id with
  | None => v' = v
  | Some a =>
      match List.find (key_is key) (a_items a) with
      | None => v' = v
      | Some x =>
          if item_terminal (a_status x) then v' = v
          else v' = <[id := bump ((fun e => mkItemError key e) <$> runErr)
                     (with_items (update_first (key_is key) (set_st (out_st runErr)) (a_items a)) a)]> v
      end
  end.
Definition reset_running (_ : Z) (v v' : view) : Prop := v' = reset <$> v.
Definition list_unfinished (ids : list string) (v v' : view) : Prop :=
  v' = v /\ NoDup ids /\
  forall id, id ∈ ids <-> exists a, v !! id = Some a /\ aunfinished a = true.
End Spec.

(** Idempotency keys are unique within a job (a unique index in Postgres, checked
    by [Enqueue] before either store sees the batch). *)
Definition keys_unique (v : view) : Prop :=
  forall id a, v !! id = Some a -> NoDup (a_key <$> a_items a).

(** An operation that reports success has its effect; one that reports an error
    has none, or all of it (the acknowledgement was lost) - never a part. *)
Definition all_or_nothing {A} (post : A -> view -> view -> Prop)
    (r : result err A) (v v' : view) : Prop :=
  match r with
  | Ok a => post a v v'
  | Err _ => v' = v \/ exists a, post a v v'
  end.

(** [JobStore] of [internal/ingest/store.go]. *)
Class JobStore (S : Type) := {
  CreateJob : Z -> IngestJob -> list IngestItem -> M S (result err unit);
  GetJob : string -> M S (result err IngestJob);
  UpdateJob : Z -> IngestJob -> M S (result err unit);
  ClaimNextItem : string -> M S (result err (option IngestItem));
  SetItemTrackID : string -> string -> string -> M S (result err unit);
  MarkItemDone : string -> string -> option string -> M S (result err unit);
  IncrementJobProgress : Z -> string -> option IngestItemError -> M S (result err unit);
  MarkItemDoneAndProgress : Z -> string -> string -> option string -> M S (result err unit);
  ListUnfinishedJobs : M S (result err (list string));
  ResetRunningItems : M S (result err Z) }.

Class JobStoreLaws (S : Type) `{JobStore S} := {
  js_view : S -> view;
  js_inv : S -> Prop;
  js_keys : forall s, js_inv s -> keys_unique (js_view s);
  create_law : forall now j its s r s', js_inv s ->
    NoDup (it_IdempotencyKey <$> its) -> CreateJob now j its s = (r, s') ->
    js_inv s' /\ all_or_nothing (Spec.create j its) r (js_view s) (js_view s');
  create_exists_law : forall now j its s r s', js_inv s ->
    js_view s !! j_ID j <> None -> CreateJob now j its s = (r, s') ->
    (exists e, r = Err e) /\ js_view s' = js_view s;
  get_law : forall id s r s', js_inv s -> GetJob id s = (r, s') ->
    js_inv s' /\ all_or_nothing (Spec.get id) r (js_view s) (js_view s');
  update_law : forall now j s r s', js_inv s -> UpdateJob now j s = (r, s') ->
    js_inv s' /\ all_or_nothing (Spec.update j) r (js_view s) (js_view s');
  claim_law : forall id s r s', js_inv s -> ClaimNextItem id s = (r, s') ->
    js_inv s' /\ all_or_nothing (Spec.claim id) r (js_view s) (js_view s');
  set_track_law : forall id k t s r s', js_inv s -> SetItemTrackID id k t s = (r, s') ->
    js_inv s' /\ all_or_nothing (Spec.set_track id k t) r (js_view s) (js_view s');
  mark_law : forall now id k e s r s', js_inv s ->
    MarkItemDoneAndProgress now id k e s = (r, s') ->
    js_inv s' /\ all_or_nothing (Spec.mark_progress id k e) r (js_view s) (js_view s');
  list_law : forall s r s', js_inv s -> ListUnfinishedJobs s = (r, s') ->
    js_inv s' /\ all_or_nothing Spec.list_unfinished r (js_view s) (js_view s');
  reset_law : forall s r s', js_inv s -> ResetRunningItems s = (r, s') ->
    js_inv s' /\ all_or_nothing Spec.reset_running r (js_view s) (js_view s') }.

(** The operations as values, with their contracts. *)
Inductive op : Type -> Type :=
| OpCreate (now : Z) (j : IngestJob) (its : list IngestItem) : op unit
| OpGet (id : string) : op IngestJob
| OpUpdate (now : Z) (j : IngestJob) : op unit
| OpClaim (id : string) : op (option IngestItem)
| OpTrack (id key track : string) : op unit
| OpMark (now : Z) (id key : string) (runErr : option string) : op unit
| OpList : op (list string)
| OpReset : op Z.
Definition run_op {S A} `{JobStore S} (o : op A) : M S (result err A) :=
  match o with
  | OpCreate now j its => CreateJob now j its
  | OpGet id => GetJob id
  | OpUpdate now j => UpdateJob now j
  | OpClaim id => ClaimNextItem id
  | OpTrack id k t => SetItemTrackID id k t
  | OpMark now id k e => MarkItemDoneAndProgress now id k e
  | OpList => ListUnfinishedJobs
  | OpReset => ResetRunningItems
  end.
Definition op_post {A} (o : op A) : A -> view -> view -> Prop :=
  match o with
  | OpCreate _ j its => Spec.create j its
  | OpGet id => Spec.get id
  | OpUpdate _ j => Spec.update j
  | OpClaim id => Spec.claim id
  | OpTrack id k t => Spec.set_track id k t
  | OpMark _ id k e => Spec.mark_progress id k e
  | OpList => Spec.list_unfinished
  | OpReset => Spec.reset_running
  end.
(** Only [CreateJob] relies on its caller: [Enqueue] checks the batch. *)
Definition op_pre {A} (o : op A) : Prop :=
  match o with OpCreate _ _ its => NoDup (it_IdempotencyKey <$> its) | _ => True end.

Lemma run_op_law {S A} `{JobStoreLaws S} (o : op A) s r s' :
  js_inv s -> op_pre o -> run_op o s = (r, s') ->
  js_inv s' /\ all_or_nothing (op_post o) r (js_view s) (js_view s').
Proof.
  destruct o; simpl; intros Hi Hp Hr; eauto using create_law, get_law, update_law, claim_law,
    set_track_law, mark_law, list_law, reset_law.
Qed.

(** * MemStore implements the contract *)

#[global] Instance MemStore_JobStore `{MapRange} : JobStore MemStore.t := {
  CreateJob := fun _ => MemStore.CreateJob;
  GetJob := MemStore.GetJob;
  UpdateJob := MemStore.UpdateJob;
  ClaimNextItem := MemStore.ClaimNextItem;
  SetItemTrackID := MemStore.SetItemTrackID;
  MarkItemDone := MemStore.MarkItemDone;
  IncrementJobProgress := MemStore.IncrementJobProgress;
  MarkItemDoneAndProgress := MemStore.MarkItemDoneAndProgress;
  ListUnfinishedJobs := MemStore.ListUnfinishedJobs;
  ResetRunningItems := MemStore.ResetRunningItems }.

(** The representation invariant of the map: a job is stored under its own ID and
    its items have distinct keys. *)
Definition mem_inv (s : MemStore.t) : Prop :=
  forall id b, s !! id = Some b -> j_ID (b_job b) = id /\ NoDup (mi_key <$> b_items b).
Definition mem_view (s : MemStore.t) : view := abs_bundle <$> s.

Lemma mem_view_lookup s id : mem_view s !! id = abs_bundle <$> s !! id.
Proof. unfold mem_view. by rewrite lookup_fmap. Qed.
Lemma mem_view_insert s id b : mem_view (<[id:=b]> s) = <[id:=abs_bundle b]> (mem_view s).
Proof. unfold mem_view. by rewrite fmap_insert. Qed.
#[export] Hint Rewrite mem_view_lookup mem_view_insert : go_rw.

Lemma keys_update_first p f (l : list memItem) :
  (forall m, mi_key (f m) = mi_key m) -> mi_key <$> update_first p f l = mi_key <$> l.
Proof.
  intros Hf. induction l as [|x l IH]; [done|]. simpl.
  destruct (p x); simpl; [by rewrite Hf|by f_equal].
Qed.
Lemma mi_key_finish e m : mi_key (finish_item e m) = mi_key m.
Proof. by destruct e. Qed.

(** Storing a bundle whose items have the keys of the old one keeps the invariant. *)
Lemma mem_inv_insert s id b b' :
  mem_inv s -> s !! id = Some b -> j_ID (b_job b') = id ->
  mi_key <$> b_items b' = mi_key <$> b_items b -> mem_inv (<[id:=b']> s).
Proof.
  intros Hs Hb Hid Hk id' c Hc. apply lookup_insert_Some in Hc as [[-> ->]|[_ Hc]].
  - split; [done|]. rewrite Hk. by apply (Hs _ _ Hb).
  - by apply Hs.
Qed.
Lemma bump_ID now e j : j_ID (bump now e j) = j_ID j.
Proof. by destruct e. Qed.
Lemma abs_bump now e j its : abs_job (bump now e j) its = Spec.bump e (abs_job j its).
Proof. by destruct e. Qed.
Lemma find_pending_abs l : List.find (Spec.st_is pending) (abs_item <$> l) = abs_item <$> List.find is_pending l.
Proof. by apply find_fmap. Qed.
Lemma find_key_abs k l : List.find (Spec.key_is k) (abs_item <$> l) = abs_item <$> List.find (has_key k) l.
Proof. by apply find_fmap. Qed.
Lemma abs_reset_bundle b : abs_bundle (MemStore.reset_bundle b) = Spec.reset (abs_bundle b).
Proof.
  unfold MemStore.reset_bundle, Spec.reset, abs_bundle, unfinished, Spec.aunfinished. simpl.
  destruct (_ || _); [|done]. unfold Spec.with_items; simpl. f_equal.
  rewrite <- !list_fmap_compose. apply list_fmap_ext. intros i x _. simpl.
  unfold is_running, Spec.st_is; simpl. by case_bool_decide.
Qed.
Lemma keys_reset_bundle b : mi_key <$> b_items (MemStore.reset_bundle b) = mi_key <$> b_items b.
Proof.
  unfold MemStore.reset_bundle. destruct (unfinished _); [simpl|done].
  rewrite <- list_fmap_compose. apply list_fmap_ext. intros i x _. simpl. by destruct (is_running x).
Qed.

Section MemStoreLaws.
Context `{MapRange}.
Implicit Types s : MemStore.t.

Lemma mem_create_law j its s r s' : mem_inv s -> NoDup (it_IdempotencyKey <$> its) ->
  MemStore.CreateJob j its s = (r, s') ->
  mem_inv s' /\ all_or_nothing (Spec.create j its) r (mem_view s) (mem_view s').
Proof.
  intros Hs Hn Hc. unfold MemStore.CreateJob in Hc. case_match eqn:Hj; simplify_eq/=.
  { split; [done|by left]. }
  split.
  - intros id b Hb. apply lookup_insert_Some in Hb as [[<- <-]|[_ Hb]]; [|by apply Hs].
    split; [done|]. simpl. by rewrite <- list_fmap_compose.
  - split; autorewrite with go_rw; [by rewrite Hj|]. unfold abs_bundle, Spec.fresh_items; simpl.
    by rewrite <- list_fmap_compose.
Qed.

Lemma mem_claim_law id s r s' : mem_inv s -> MemStore.ClaimNextItem id s = (r, s') ->
  mem_inv s' /\ all_or_nothing (Spec.claim id) r (mem_view s) (mem_view s').
Proof.
  intros Hs Hc. unfold MemStore.ClaimNextItem in Hc.
  destruct (s !! id) as [b|] eqn:Hb; simplify_eq/=; [|split; [done|by left]].
  destruct (update_first_lookup is_pending (set_item_status running) (b_items b))
    as [(i & m & Hi & Hp & Hf & He)|(Hf & Ha & He)]; rewrite Hf in Hc; simplify_eq; [|done].
  split.
  - eapply mem_inv_insert; [done..| |]; simpl; [by apply (Hs _ _ Hb)|].
    by apply keys_update_first.
  - exists (abs_bundle b), i, (abs_item m). unfold is_pending in Hp. apply bool_decide_eq_true in Hp.
    repeat split; simpl; [by rewrite mem_view_lookup, Hb|by rewrite list_lookup_fmap, Hi|done|].
    rewrite mem_view_insert. f_equal. unfold abs_bundle, Spec.with_items; simpl. f_equal.
    by rewrite He, list_fmap_insert.
Qed.

Lemma mem_mark_law now id k e s r s' : mem_inv s ->
  MemStore.MarkItemDoneAndProgress now id k e s = (r, s') ->
  mem_inv s' /\ all_or_nothing (Spec.mark_progress id k e) r (mem_view s) (mem_view s').
Proof.
  intros Hs Hc. unfold MemStore.MarkItemDoneAndProgress in Hc.
  destruct (s !! id) as [b|] eqn:Hb; simplify_eq/=; [|split; [done|by left]].
  unfold all_or_nothing, Spec.mark_progress.
  rewrite mem_view_lookup, Hb. simpl. rewrite find_key_abs.
  destruct (List.find _ _) as [m|]; simplify_eq/=; [|done].
  destruct (item_terminal _); simplify_eq; [done|]. split.
  - eapply mem_inv_insert; [done..| |]; simpl; [rewrite bump_ID; by apply (Hs _ _ Hb)|].
    apply keys_update_first, mi_key_finish.
  - rewrite mem_view_insert. f_equal. unfold abs_bundle; simpl. rewrite abs_bump. f_equal.
    unfold Spec.with_items, abs_job; simpl. f_equal. apply fmap_update_first; [done|].
    intros x _. by destruct e.
Qed.

Lemma unfinished_keys_spec (s : MemStore.t) :
  let ids := fst <$> List.filter (fun kb => unfinished (b_job kb.2)) (range s) in
  NoDup ids /\ forall id, id ∈ ids <-> exists a, mem_view s !! id = Some a /\ Spec.aunfinished a = true.
Proof.
  split.
  - eapply sublist_NoDup; [|apply fmap_sublist, filter_sublist].
    rewrite range_perm. apply NoDup_fst_map_to_list.
  - intros id. rewrite list_elem_of_fmap. split.
    + intros ([k b] & -> & Hin%list_elem_of_In). apply List.filter_In in Hin as [Hin Hu].
      apply list_elem_of_In in Hin. rewrite range_perm in Hin.
      apply elem_of_map_to_list in Hin. exists (abs_bundle b).
      simpl in *. by rewrite mem_view_lookup, Hin.
    + intros (a & Ha & Hu). rewrite mem_view_lookup in Ha.
      destruct (s !! id) as [b|] eqn:Hb; simplify_eq/=. exists (id, b). split; [done|].
      apply list_elem_of_In, List.filter_In. split; [|done].
      apply list_elem_of_In. rewrite range_perm. by apply elem_of_map_to_list.
Qed.

#[global] Program Instance MemStore_Laws : JobStoreLaws MemStore.t :=
  {| js_view := mem_view; js_inv := mem_inv;
     create_law := fun _ => mem_create_law;
     claim_law := mem_claim_law; mark_law := mem_mark_law |}.
Next Obligation.
  intros s Hs id a Ha. rewrite mem_view_lookup in Ha.
  destruct (s !! id) as [b|] eqn:Hb; simplify_eq/=.
  rewrite <- list_fmap_compose. by apply (Hs _ _ Hb).
Qed.
Next Obligation.
  intros now j its s r s' Hs Hx. cbn. unfold MemStore.CreateJob.
  rewrite mem_view_lookup in Hx. destruct (s !! _); [|done]. intros; simplify_eq. eauto.
Qed.
Next Obligation.
  intros id s r s' Hs. cbn. unfold MemStore.GetJob.
  destruct (s !! id) as [b|] eqn:Hb; intros; simplify_eq/=; [|split; [done|by left]].
  split; [done|]. split; [done|]. split; [by apply (Hs _ _ Hb)|].
  exists (abs_bundle b). by rewrite mem_view_lookup, Hb.
Qed.
Next Obligation.
  intros now j s r s' Hs. cbn. unfold MemStore.UpdateJob.
  destruct (s !! _) as [b|] eqn:Hb; intros; simplify_eq/=; [|split; [done|by left]].
  split; [by eapply mem_inv_insert|].
  exists (abs_bundle b). rewrite mem_view_lookup, Hb, mem_view_insert. done.
Qed.
Next Obligation.
  intros id k t s r s' Hs. cbn. unfold MemStore.SetItemTrackID.
  destruct (s !! _) as [b|] eqn:Hb; intros; simplify_eq/=; [|split; [done|by left]].
  split; [eapply mem_inv_insert; [done..|by apply (Hs _ _ Hb)|by apply keys_update_first]|].
  unfold Spec.set_track. rewrite mem_view_lookup, Hb, mem_view_insert. simpl. f_equal.
  unfold abs_bundle, Spec.with_items, abs_job; simpl. f_equal. by apply fmap_update_first.
Qed.
Next Obligation.
  intros s r s' Hs [= <- <-]. split; [done|]. split; [done|].
  apply unfinished_keys_spec.
Qed.
Next Obligation.
  intros s r s' Hs [= <- <-]. split.
  - intros id b Hb. rewrite lookup_fmap in Hb.
    destruct (s !! id) as [c|] eqn:Hc; simplify_eq/=. destruct (Hs _ _ Hc).
    split; [|by rewrite keys_reset_bundle].
    by unfold MemStore.reset_bundle; destruct (unfinished _).
  - unfold Spec.reset_running, mem_view. apply map_eq. intros i.
    rewrite !lookup_fmap. destruct (s !! i); [|done]. simpl. by rewrite abs_reset_bundle.
Qed.
End MemStoreLaws.
