(* ===== verification/Pool.v ===== *)
(** The ingest worker pool ([internal/ingest/pool.go], [enqueue.go]).

    A worker's [runJob] is split at its store calls: each call is one atomic
    step ([worker_step]), and the point between two calls is a [wstate] that
    holds the local variables alive there - in particular the job snapshot a
    worker read earlier and will write back.  [step] interleaves any number of
    workers with [Enqueue], [Resume] sweeps, shutdown and process crashes;
    [drive] runs one worker alone.  The upstream ([CreateMemory], the source
    index) is an environment [U] with arbitrary behaviour. *)
From S2P Require Import Prelude GoErr JobStore.

(** * Definitions *)

(** The upstream calls a worker makes: [itemRunner] and [SourceSink]. *)
Record Upstream (U : Type) := mkUpstream {
  CreateMemory : option Z -> string -> string -> gmap string string -> M U (result err string);
  AddSource : option (string -> string -> string -> M U (result err unit)) }.
Arguments CreateMemory {U} _ _ _ _ _.
Arguments AddSource {U} _.

(** Where a worker is between two store calls. *)
Inductive wstate :=
| Idle                                                   (* waiting on the notify channel *)
| Start (id : string)                                    (* received, before GetJob *)
| Fetched (j : IngestJob)                                (* queued job read, before UpdateJob *)
| Draining (id : string)                                 (* top of the claim loop *)
| Claimed (id : string) (it : IngestItem)                (* in processItem, before CreateMemory *)
| Created (id : string) (it : IngestItem)                (* before SetItemTrackID *)
| Indexing (id : string) (it : IngestItem)               (* before sources.Add *)
| Finished (id key : string) (runErr : option err)       (* before MarkItemDoneAndProgress *)
| Finalizing (id : string)                               (* loop left, before the second GetJob *)
| Deciding (final : IngestJob).                          (* final status chosen, before UpdateJob *)

Record pool (S U : Type) := mkPool {
  p_store : S; p_up : U;
  p_notify : list string;              (* the buffered channel, oldest first *)
  p_metrics : gmap string Z }.
Arguments mkPool {S U} _ _ _ _.
Arguments p_store {S U} _.
Arguments p_up {S U} _.
Arguments p_notify {S U} _.
Arguments p_metrics {S U} _.

(** newPool: size and buffer are at least 1. *)
Record PoolConfig := mkPoolConfig { cfg_size : Z; cfg_buf : Z; cfg_itemTimeout : Z }.
Definition newPool (size buf itemTimeout : Z) : PoolConfig :=
  mkPoolConfig (if bool_decide (size < 1) then 1 else size)
               (if bool_decide (buf < 1) then 1 else buf) itemTimeout.

(** [itemResult]: the label of [ingest_items_total]. *)
Definition itemResult (e : option err) : string :=
  match e with
  | None => "success"
  | Some e => if errors_Is e DeadlineExceeded then "timeout" else "error"
  end.

Definition job_class (s : JobStatus) : string :=
  match s with
  | JobStatusSucceeded => "jobs/succeeded"
  | JobStatusFailed => "jobs/failed"
  | _ => "jobs/partial"
  end.

(** The finalization switch. *)
Definition final_status (j : IngestJob) : JobStatus :=
  if bool_decide (j_Failed j = 0) then JobStatusSucceeded
  else if bool_decide (j_Done j = 0) then JobStatusFailed
  else JobStatusPartial.

Section Pool.
Context {S U : Type} `{JobStore S} `{GoError} (up : Upstream U) (cfg : PoolConfig) (now : Z).

(** A call into the store, the upstream, or a metric, seen from the pool. *)
Definition on_store {A} (m : M S A) : M (pool S U) A := fun p =>
  let q := m (p_store p) in (q.1, mkPool q.2 (p_up p) (p_notify p) (p_metrics p)).
Definition on_up {A} (m : M U A) : M (pool S U) A := fun p =>
  let q := m (p_up p) in (q.1, mkPool (p_store p) q.2 (p_notify p) (p_metrics p)).
Definition metric (l : string) : M (pool S U) unit :=
  modify (fun p => mkPool (p_store p) (p_up p) (p_notify p) (inc l (p_metrics p))).
Definition metric_if {A} (r : result err A) (l : string) : M (pool S U) unit :=
  match r with Ok _ => ret tt | Err _ => metric l end.

(** Notify: a full channel drops the ID. *)
Definition Notify (jobID : string) : M (pool S U) unit := fun p =>
  if bool_decide (Z.of_nat (length (p_notify p)) < cfg_buf cfg)
  then (tt, mkPool (p_store p) (p_up p) (p_notify p ++ [jobID]) (p_metrics p))
  else metric "notify_dropped" p.

(** runJob up to the claim loop. *)
Definition runJob_start (id : string) : M (pool S U) wstate :=
  r <- on_store (GetJob id) ;;
  match r with
  | Err _ => ret Idle
  | Ok j => if Terminal (j_Status j) then ret Idle
            else if bool_decide (j_Status j = JobStatusQueued)
            then ret (Fetched (set_status JobStatusRunning now j))
            else ret (Draining id)
  end.
Definition runJob_mark_running (j : IngestJob) : M (pool S U) wstate :=
  r <- on_store (UpdateJob now j) ;;
  metric_if r "store_op_errors" ;;
  ret (Draining (j_ID j)).

(** One iteration of the claim loop, up to the claim. *)
Definition runJob_claim (id : string) : M (pool S U) wstate :=
  r <- on_store (ClaimNextItem id) ;;
  match r with
  | Ok (Some it) => metric "in_flight/inc" ;; ret (Claimed id it)
  | _ => ret (Finalizing id)
  end.

(** processItem, split at its two external calls and the source index. *)
Definition runItem_timeout : option Z :=
  if bool_decide (cfg_itemTimeout cfg <= 0) then None else Some (cfg_itemTimeout cfg).
Definition processItem_create (id : string) (it : IngestItem) : M (pool S U) wstate :=
  if bool_decide (it_TrackID it = ""%string) then
    r <- on_up (CreateMemory up runItem_timeout (it_IdempotencyKey it) (it_Text it) (it_Metadata it)) ;;
    match r with
    | Err e => ret (Finished id (it_IdempotencyKey it) (Some e))
    | Ok cid => ret (Created id (mkItem (it_IdempotencyKey it) (it_Text it) (it_Metadata it) cid))
    end
  else ret (Indexing id it).
Definition processItem_track (id : string) (it : IngestItem) : M (pool S U) wstate :=
  on_store (SetItemTrackID id (it_IdempotencyKey it) (it_TrackID it)) ;;
  ret (Indexing id it).
Definition processItem_index (id : string) (it : IngestItem) : M (pool S U) wstate :=
  let repo := default ""%string (it_Metadata it !! "repo"%string) in
  let file := default ""%string (it_Metadata it !! "file_path"%string) in
  let fin := Finished id (it_IdempotencyKey it) None in
  match AddSource up with
  | Some add =>
      if bool_decide (repo <> ""%string) && bool_decide (file <> ""%string)
         && bool_decide (it_TrackID it <> ""%string)
      then r <- on_up (add repo file (it_TrackID it)) ;;
           metric_if r "source_index_errors" ;; ret fin
      else ret fin
  | None => ret fin
  end.

(** The rest of the iteration: item and counter move in one store call. *)
Definition runJob_mark (id key : string) (runErr : option err) : M (pool S U) wstate :=
  r <- on_store (MarkItemDoneAndProgress now id key (Error <$> runErr)) ;;
  metric_if r "store_op_errors" ;;
  metric "in_flight/dec" ;;
  metric (String.append "items/" (itemResult runErr)) ;;
  ret (Draining id).

(** Finalization: re-read, guard, decide. *)
Definition runJob_finalize (id : string) : M (pool S U) wstate :=
  r <- on_store (GetJob id) ;;
  match r with
  | Err _ => ret Idle
  | Ok final =>
      if Terminal (j_Status final) then ret Idle
      else if bool_decide (j_Done final + j_Failed final < j_Total final) then ret Idle
      else metric (job_class (final_status final)) ;;
           ret (Deciding (set_status (final_status final) now final))
  end.
Definition runJob_write_final (final : IngestJob) : M (pool S U) wstate :=
  r <- on_store (UpdateJob now final) ;;
  metric_if r "store_op_errors" ;;
  ret Idle.

(** One atomic step of a worker that is inside [runJob]. *)
Definition worker_step (w : wstate) : M (pool S U) wstate :=
  match w with
  | Idle => ret Idle
  | Start id => runJob_start id
  | Fetched j => runJob_mark_running j
  | Draining id => runJob_claim id
  | Claimed id it => processItem_create id it
  | Created id it => processItem_track id it
  | Indexing id it => processItem_index id it
  | Finished id key e => runJob_mark id key e
  | Finalizing id => runJob_finalize id
  | Deciding final => runJob_write_final final
  end.

(** One worker running alone from [w] for at most [fuel] steps. *)
Fixpoint drive (fuel : nat) (w : wstate) : M (pool S U) wstate :=
  match fuel with
  | O => ret w
  | Datatypes.S fuel =>
      match w with
      | Idle => ret Idle
      | _ => w' <- worker_step w ;; drive fuel w'
      end
  end.
Definition runJob (fuel : nat) (jobID : string) : M (pool S U) wstate := drive fuel (Start jobID).

(** Resume: reset the orphans, list, re-queue.  The blocking sends stop at the
    channel's capacity: [Resume] waits there for a worker to receive. *)
Fixpoint requeue (ids : list string) : M (pool S U) Z := fun p =>
  match ids with
  | [] => (0, p)
  | id :: ids =>
      if bool_decide (Z.of_nat (length (p_notify p)) < cfg_buf cfg)
      then let q := requeue ids (mkPool (p_store p) (p_up p) (p_notify p ++ [id]) (p_metrics p)) in
           (q.1 + 1, q.2)
      else (0, p)
  end.
Definition Resume : M (pool S U) (result err Z) :=
  r <- on_store ResetRunningItems ;;
  match r with
  | Err e => ret (Err e)
  | Ok _ =>
      r <- on_store ListUnfinishedJobs ;;
      match r with
      | Err e => ret (Err e)
      | Ok ids => n <- requeue ids ;; ret (Ok n)
      end
  end.

(** The system: the pool and its workers. *)
Record system := mkSys { s_pool : pool S U; s_workers : list wstate }.

Inductive step : system -> system -> Prop :=
(* a worker inside runJob makes its next call *)
| step_worker sys i w w' p' :
    s_workers sys !! i = Some w -> w <> Idle ->
    worker_step w (s_pool sys) = (w', p') ->
    step sys (mkSys p' (<[i := w']> (s_workers sys)))
(* an idle worker receives from the channel *)
| step_receive sys i id ids :
    s_workers sys !! i = Some Idle -> p_notify (s_pool sys) = id :: ids ->
    step sys (mkSys (mkPool (p_store (s_pool sys)) (p_up (s_pool sys)) ids (p_metrics (s_pool sys)))
                    (<[i := Start id]> (s_workers sys)))
(* stop or a cancelled context is observed between two items *)
| step_stop sys i id :
    s_workers sys !! i = Some (Draining id) ->
    step sys (mkSys (s_pool sys) (<[i := Idle]> (s_workers sys)))
(* Enqueue: CreateJob with a validated batch, then Notify *)
| step_enqueue sys t j its r p' :
    NoDup (it_IdempotencyKey <$> its) ->
    j_Status j = JobStatusQueued -> j_Total j = Z.of_nat (length its) ->
    j_Done j = 0 -> j_Failed j = 0 ->
    on_store (CreateJob t j its) (s_pool sys) = (r, p') ->
    step sys (mkSys p' (s_workers sys))
| step_notify sys id p' :
    Notify id (s_pool sys) = (tt, p') -> step sys (mkSys p' (s_workers sys))
(* the two store calls of Resume, at startup or from the periodic sweeper *)
| step_reset sys r p' :
    on_store ResetRunningItems (s_pool sys) = (r, p') -> step sys (mkSys p' (s_workers sys))
| step_requeue sys ids r n p1 p2 :
    on_store ListUnfinishedJobs (s_pool sys) = (r, p1) -> r = Ok ids ->
    requeue ids p1 = (n, p2) ->
    step sys (mkSys p2 (s_workers sys))
(* the process dies: workers and channel are lost, the store is not *)
| step_crash sys :
    step sys (mkSys (mkPool (p_store (s_pool sys)) (p_up (s_pool sys)) [] ∅)
                    ((fun _ => Idle) <$> s_workers sys)).

Definition initial (sys : system) : Prop :=
  Forall (fun w => w = Idle) (s_workers sys).
End Pool.
Arguments mkSys {S U} _ _.
Arguments s_pool {S U} _.
Arguments s_workers {S U} _.

(** * Accounting: no job is finished early, whatever the interleaving *)

Definition n_done (a : ajob) : Z := count (Spec.st_is done) (a_items a).
Definition n_failed (a : ajob) : Z := count (Spec.st_is failed) (a_items a).
Definition n_items (a : ajob) : Z := Z.of_nat (length (a_items a)).

(** The counters never run ahead of the items. *)
Definition counts_ok (a : ajob) : Prop :=
  0 <= a_done a <= n_done a /\ 0 <= a_failed a <= n_failed a /\ a_total a = n_items a.
(** A terminal status is the truth about the items. *)
Definition settled (a : ajob) : Prop :=
  n_done a + n_failed a = n_items a /\
  match a_jstatus a with
  | JobStatusSucceeded => n_failed a = 0
  | JobStatusFailed => n_done a = 0 /\ 0 < n_failed a
  | JobStatusPartial => 0 < n_done a /\ 0 < n_failed a
  | _ => False
  end.
Definition job_ok (a : ajob) : Prop :=
  counts_ok a /\ (Terminal (a_jstatus a) = true -> settled a).
Definition view_ok (v : view) : Prop := forall id a, v !! id = Some a -> job_ok a.

(** Items only move forward: no job loses items, no terminal item is reopened. *)
Definition items_le (l l' : list aitem) : Prop :=
  length l = length l' /\
  count (Spec.st_is done) l <= count (Spec.st_is done) l' /\
  count (Spec.st_is failed) l <= count (Spec.st_is failed) l'.
Definition evolves (v v' : view) : Prop :=
  forall id a, v !! id = Some a -> exists a', v' !! id = Some a' /\ items_le (a_items a) (a_items a').
#[global] Instance items_le_preorder : PreOrder items_le.
Proof.
  split; [intros l; unfold items_le; lia|]. intros l1 l2 l3. unfold items_le. lia.
Qed.
#[global] Instance evolves_preorder : PreOrder evolves.
Proof.
  split; [intros v id a Ha; by exists a|].
  intros v1 v2 v3 H1 H2 id a Ha. destruct (H1 _ _ Ha) as (b & Hb & Hab).
  destruct (H2 _ _ Hb) as (c & Hc & Hbc). exists c. split; [done|by etrans].
Qed.

(** What a worker remembers of a job is a lower bound of the present. *)
Definition snap_ok (v : view) (j : IngestJob) : Prop :=
  exists a, v !! j_ID j = Some a /\
    0 <= j_Done j <= n_done a /\ 0 <= j_Failed j <= n_failed a /\ j_Total j = n_items a.
Definition worker_ok (v : view) (w : wstate) : Prop :=
  match w with
  | Fetched j => snap_ok v j /\ j_Status j = JobStatusRunning
  | Deciding j => snap_ok v j /\ j_Total j <= j_Done j + j_Failed j /\ j_Status j = final_status j
  | _ => True
  end.

Lemma count_done_failed (l : list aitem) :
  count (Spec.st_is done) l + count (Spec.st_is failed) l <= Z.of_nat (length l).
Proof.
  induction l as [|x l IH]; [done|]. rewrite !count_cons. simpl length.
  unfold Spec.st_is at 1 3. repeat case_bool_decide; try congruence; lia.
Qed.
Lemma snap_ok_evolves v v' j : evolves v v' -> snap_ok v j -> snap_ok v' j.
Proof.
  intros He (a & Ha & Hs). destruct (He _ _ Ha) as (a' & Ha' & Hle).
  exists a'. split; [done|]. unfold items_le, n_done, n_failed, n_items in *. lia.
Qed.
Lemma worker_ok_evolves v v' w : evolves v v' -> worker_ok v w -> worker_ok v' w.
Proof. intros He. destruct w; simpl; intuition eauto using snap_ok_evolves. Qed.

(** The effect of one store operation on the whole view. *)
Definition good (v v' : view) : Prop := view_ok v -> view_ok v' /\ evolves v v'.
Lemma good_refl v : good v v.
Proof. by intros Hv. Qed.
Lemma good_insert v id a a' :
  v !! id = Some a -> items_le (a_items a) (a_items a') -> (job_ok a -> job_ok a') ->
  good v (<[id:=a']> v).
Proof.
  intros Ha Hle Hok Hv. split.
  - intros i b Hb. apply lookup_insert_Some in Hb as [[<- <-]|[_ Hb]]; eauto.
  - intros i b Hb. destruct (decide (id = i)) as [<-|Hne].
    + simplify_eq. exists a'. by rewrite lookup_insert_eq.
    + exists b. by rewrite lookup_insert_ne.
Qed.

Lemma count_st_insert s (l : list aitem) i x y :
  l !! i = Some x ->
  count (Spec.st_is s) (<[i:=y]> l) = count (Spec.st_is s) l
    - (if bool_decide (a_status x = s) then 1 else 0)
    + (if bool_decide (a_status y = s) then 1 else 0).
Proof. intros Hi. by rewrite (count_insert _ _ _ _ y Hi). Qed.
(** Arithmetic over item counts: case on the statuses involved. *)
Ltac count_lia := repeat case_bool_decide; try congruence; lia.

(** Moving one item that is not terminal to another status. *)
Lemma items_le_insert (l : list aitem) i x y :
  l !! i = Some x -> item_terminal (a_status x) = false -> items_le l (<[i:=y]> l).
Proof.
  intros Hi Hx. unfold items_le.
  rewrite length_insert, !(count_st_insert _ _ _ _ _ Hi).
  destruct (a_status x), (a_status y); simplify_eq/=; count_lia.
Qed.
Lemma settled_no_open a i x :
  settled a -> a_items a !! i = Some x -> item_terminal (a_status x) = false -> False.
Proof.
  intros [Hs _] Hi Hx. unfold n_done, n_failed, n_items in Hs.
  pose proof (count_done_failed (<[i:=Spec.set_st done x]> (a_items a))) as Hc.
  rewrite length_insert, !(count_st_insert _ _ _ _ _ Hi) in Hc.
  simpl in Hc. destruct (a_status x); simplify_eq/=; count_lia.
Qed.

Lemma good_claim id r v v' : Spec.claim id r v v' -> good v v'.
Proof.
  destruct r as [it|]; simpl; [|intros ->; apply good_refl].
  intros (a & i & x & Ha & Hi & Hx & _ & ->).
  eapply good_insert; [done|eapply items_le_insert; [done|by rewrite Hx]|].
  intros [Hc Ht]. split; simpl.
  - unfold counts_ok, n_done, n_failed, n_items in *; simpl in *.
    rewrite length_insert, !(count_st_insert _ _ _ _ _ Hi).
    rewrite Hx. simpl. count_lia.
  - intros HT. exfalso. eapply settled_no_open; eauto. by rewrite Hx.
Qed.

Lemma items_le_same (l l' : list aitem) :
  length l = length l' -> count (Spec.st_is done) l = count (Spec.st_is done) l' ->
  count (Spec.st_is failed) l = count (Spec.st_is failed) l' -> items_le l l'.
Proof. unfold items_le. lia. Qed.
(** Rewriting items without changing which are done or failed. *)
Lemma good_same_counts v id a l :
  v !! id = Some a -> length (a_items a) = length l ->
  (forall s, item_terminal s = true -> count (Spec.st_is s) (a_items a) = count (Spec.st_is s) l) ->
  good v (<[id := Spec.with_items l a]> v).
Proof.
  intros Ha Hl Hc.
  eapply good_insert; [done|by apply items_le_same; [done|apply Hc|apply Hc]|].
  unfold job_ok, counts_ok, settled, n_done, n_failed, n_items. simpl.
  by rewrite <- Hl, <- !Hc.
Qed.

Lemma count_update_first_same {A} (p q : A -> bool) f (l : list A) :
  (forall x, q (f x) = q x) -> count q (update_first p f l) = count q l.
Proof.
  intros Hf. induction l as [|x l IH]; [done|]. simpl. destruct (p x); rewrite !count_cons.
  - by rewrite Hf.
  - by rewrite IH.
Qed.
Lemma good_set_track id k t u v v' : Spec.set_track id k t u v v' -> good v v'.
Proof.
  unfold Spec.set_track. destruct (v !! id) as [a|] eqn:Ha; intros ->; [|apply good_refl].
  apply good_same_counts; [done|by rewrite length_update_first|].
  intros s _. by rewrite count_update_first_same.
Qed.

Lemma good_mark id k e u v v' : Spec.mark_progress id k e u v v' -> good v v'.
Proof.
  unfold Spec.mark_progress. destruct (v !! id) as [a|] eqn:Ha; [|intros ->; apply good_refl].
  destruct (update_first_lookup (Spec.key_is k) (Spec.set_st (Spec.out_st e)) (a_items a))
    as [(i & x & Hi & Hk & -> & ->)|(-> & _)]; [|intros ->; apply good_refl].
  destruct (item_terminal (a_status x)) eqn:Hx; intros ->; [apply good_refl|].
  eapply good_insert; [done| |].
  - destruct e; simpl; by eapply items_le_insert.
  - intros [Hc Ht]. split.
    + unfold counts_ok, n_done, n_failed, n_items in *.
      destruct e; simpl in *; rewrite length_insert, !(count_st_insert _ _ _ _ _ Hi);
        simpl; destruct (a_status x); simplify_eq/=; count_lia.
    + destruct e; simpl; intros HT; exfalso; eapply settled_no_open; eauto.
Qed.

Lemma good_reset n v v' : Spec.reset_running n v v' -> good v v'.
Proof.
  intros ->. intros Hv.
  assert (Hc : forall a s, item_terminal s = true ->
     count (Spec.st_is s) (a_items (Spec.reset a)) = count (Spec.st_is s) (a_items a)).
  { intros a s Hs. unfold Spec.reset. destruct (Spec.aunfinished a); [|done]. simpl.
    induction (a_items a) as [|x l IH]; [done|]. csimpl. rewrite !count_cons, IH.
    f_equal. unfold Spec.st_is. destruct (a_status x) eqn:E, s; simplify_eq/=; by rewrite ?E. }
  assert (Hl : forall a, length (a_items (Spec.reset a)) = length (a_items a)).
  { intros a. unfold Spec.reset. destruct (Spec.aunfinished a); [|done]. simpl. by rewrite length_fmap. }
  assert (Hst : forall a, Spec.reset a = Spec.with_items (a_items (Spec.reset a)) a).
  { intros a. unfold Spec.reset. destruct (Spec.aunfinished a); by destruct a. }
  split; intros id a Ha.
  - rewrite lookup_fmap in Ha. destruct (v !! id) as [b|] eqn:Hb; simplify_eq/=.
    specialize (Hv _ _ Hb). rewrite Hst.
    unfold job_ok, counts_ok, settled, n_done, n_failed, n_items in *; simpl.
    by rewrite Hl, !Hc.
  - exists (Spec.reset a). rewrite lookup_fmap, Ha. split; [done|].
    apply items_le_same; [by rewrite Hl|by rewrite Hc|by rewrite Hc].
Qed.

Lemma good_create j its u v v' :
  j_Status j = JobStatusQueued -> j_Total j = Z.of_nat (length its) ->
  j_Done j = 0 -> j_Failed j = 0 -> Spec.create j its u v v' -> good v v'.
Proof.
  intros Hs Ht Hd Hf [Hn ->] Hv. split.
  - intros i b Hb. apply lookup_insert_Some in Hb as [[<- <-]|[_ Hb]]; [|by eauto].
    split; simpl; [|by rewrite Hs].
    unfold counts_ok, n_done, n_failed, n_items; simpl.
    unfold Spec.fresh_items. rewrite length_fmap, Hd, Hf, Ht. auto with go.
  - intros i b Hb. exists b. split; [|done].
    rewrite lookup_insert_ne; [done|]. intros <-. congruence.
Qed.

(** Writing a remembered job back: fine for the accounting bounds, and with a
    terminal status only when the snapshot accounts for every item. *)
Lemma good_update j u v v' :
  snap_ok v j ->
  (Terminal (j_Status j) = true -> j_Total j <= j_Done j + j_Failed j /\ j_Status j = final_status j) ->
  Spec.update j u v v' -> good v v'.
Proof.
  intros (a & Ha & Hd & Hf & Ht) Hfin (a' & Ha' & ->). simplify_eq.
  eapply good_insert; [done|done|]. intros _. split; simpl.
  - unfold counts_ok, n_done, n_failed, n_items in *; simpl; lia.
  - intros HT. destruct (Hfin HT) as [Hall Hst]. pose proof (count_done_failed (a_items a)) as Hdf.
    unfold settled, n_done, n_failed, n_items in *; simpl. rewrite Hst. unfold final_status.
    split; [lia|]. repeat case_bool_decide; lia.
Qed.

(** * What one step does to the view *)

(** Nothing, or the whole effect. *)
Definition changes {A} (post : A -> view -> view -> Prop) (v v' : view) : Prop :=
  v' = v \/ exists a, post a v v'.
Lemma all_or_nothing_changes {A} (post : A -> view -> view -> Prop) r v v' :
  all_or_nothing post r v v' -> changes post v v'.
Proof. destruct r; simpl; [right; eauto|done]. Qed.
Lemma changes_ind {A} (P : view -> view -> Prop) (post : A -> view -> view -> Prop) v v' :
  changes post v v' -> P v v -> (forall a, post a v v' -> P v v') -> P v v'.
Proof. intros [->|[a Ha]]; eauto. Qed.

Lemma get_same id r v v' : all_or_nothing (Spec.get id) r v v' -> v' = v.
Proof. destruct r; simpl; [by intros [? _]|]. by intros [?|[? [? _]]]. Qed.

(** Worker states that remember no job. *)
Definition no_snapshot (w : wstate) : Prop :=
  match w with Fetched _ | Deciding _ => False | _ => True end.

(** The effect of a worker step, call by call. *)
Definition effect (now : Z) (w : wstate) (v v' : view) (w' : wstate) : Prop :=
  match w with
  | Start id => v' = v /\ (no_snapshot w' \/
      exists j, Spec.get id j v v /\ w' = Fetched (set_status JobStatusRunning now j))
  | Fetched j => changes (Spec.update j) v v' /\ no_snapshot w'
  | Draining id => changes (Spec.claim id) v v' /\ no_snapshot w'
  | Created id it =>
      changes (Spec.set_track id (it_IdempotencyKey it) (it_TrackID it)) v v' /\ no_snapshot w'
  | Finished id k _ => (exists e, changes (Spec.mark_progress id k e) v v') /\ no_snapshot w'
  | Finalizing id => v' = v /\ (no_snapshot w' \/
      exists j, Spec.get id j v v /\ Terminal (j_Status j) = false /\
        j_Total j <= j_Done j + j_Failed j /\
        w' = Deciding (set_status (final_status j) now j))
  | Deciding j => changes (Spec.update j) v v' /\ no_snapshot w'
  | _ => v' = v /\ no_snapshot w'
  end.

Ltac pool_simpl := unfold on_store, on_up, metric_if, metric in *; go_simpl.

Section Effects.
Context {S U : Type} `{JobStoreLaws S} `{GoError} (up : Upstream U) (cfg : PoolConfig) (now : Z).
Abbreviation step := (step (S:=S) (U:=U) up cfg now).
Abbreviation sys := (system (S:=S) (U:=U)).
Definition sys_view (s : sys) : view := js_view (p_store (s_pool s)).

Lemma worker_step_effect w (p p' : pool S U) w' :
  js_inv (p_store p) -> worker_step up cfg now w p = (w', p') ->
  js_inv (p_store p') /\ effect now w (js_view (p_store p)) (js_view (p_store p')) w'.
Proof.
  intros Hi Hs. destruct w; simpl in Hs.
  - pool_simpl. done.
  - unfold runJob_start in Hs. pool_simpl.
    destruct (GetJob id (p_store p)) as [r s'] eqn:Hg.
    destruct (get_law _ _ _ _ Hi Hg) as [Hi' Ha]. simpl in Hs.
    assert (js_view s' = js_view (p_store p)) as Hv by (by eapply get_same).
    destruct r as [j|e]; [|simplify_eq/=; auto].
    destruct Ha as [_ Ha]. simpl in *.
    repeat case_match; simplify_eq/=; (split; [done|]); (split; [done|]); try by left.
    right. exists j. by split.
  - unfold runJob_mark_running in Hs. pool_simpl.
    destruct (UpdateJob now j (p_store p)) as [r s'] eqn:Hu.
    destruct (update_law _ _ _ _ _ Hi Hu) as [Hi' Ha%all_or_nothing_changes].
    destruct r; by simplify_eq/=.
  - unfold runJob_claim in Hs. pool_simpl.
    destruct (ClaimNextItem id (p_store p)) as [r s'] eqn:Hc.
    destruct (claim_law _ _ _ _ Hi Hc) as [Hi' Hcl%all_or_nothing_changes].
    destruct r as [[]|]; by simplify_eq/=.
  - unfold processItem_create in Hs. pool_simpl. repeat case_match; by simplify_eq/=.
  - unfold processItem_track in Hs. pool_simpl.
    destruct (SetItemTrackID _ _ _ (p_store p)) as [r s'] eqn:Hc.
    destruct (set_track_law _ _ _ _ _ _ Hi Hc) as [Hi' Ha%all_or_nothing_changes].
    by simplify_eq/=.
  - unfold processItem_index in Hs. pool_simpl. repeat case_match; by simplify_eq/=.
  - unfold runJob_mark in Hs. pool_simpl.
    destruct (MarkItemDoneAndProgress _ _ _ _ (p_store p)) as [r s'] eqn:Hc.
    destruct (mark_law _ _ _ _ _ _ _ Hi Hc) as [Hi' Ha%all_or_nothing_changes].
    destruct r; simplify_eq/=; eauto.
  - unfold runJob_finalize in Hs. pool_simpl.
    destruct (GetJob id (p_store p)) as [r s'] eqn:Hg.
    destruct (get_law _ _ _ _ Hi Hg) as [Hi' Ha]. simpl in Hs.
    assert (js_view s' = js_view (p_store p)) as Hv by (by eapply get_same).
    destruct r as [j|e]; [|simplify_eq/=; auto].
    destruct Ha as [_ Ha]. simpl in *.
    repeat case_match; simplify_eq/=; (split; [done|]); (split; [done|]); try by left.
    right. exists j. split_and!; try done. case_bool_decide; [done|lia].
  - unfold runJob_write_final in Hs. pool_simpl.
    destruct (UpdateJob now final (p_store p)) as [r s'] eqn:Hu.
    destruct (update_law _ _ _ _ _ Hi Hu) as [Hi' Ha%all_or_nothing_changes].
    destruct r; by simplify_eq/=.
Qed.

Lemma requeue_store ids (p : pool S U) : p_store (requeue cfg ids p).2 = p_store p.
Proof.
  revert p. induction ids as [|id ids IH]; intros p; [done|]. simpl.
  case_bool_decide; simpl; [by rewrite IH|done].
Qed.

Definition fresh_job (j : IngestJob) (its : list IngestItem) : Prop :=
  j_Status j = JobStatusQueued /\ j_Total j = Z.of_nat (length its) /\ j_Done j = 0 /\ j_Failed j = 0.

(** Every step of the system: a worker's call, a new job, a reset, or no change
    of the view with no new snapshot. *)
Lemma step_effect s s' :
  step s s' -> js_inv (p_store (s_pool s)) ->
  js_inv (p_store (s_pool s')) /\
  ((exists i w w', s_workers s !! i = Some w /\ s_workers s' = <[i := w']> (s_workers s) /\
      effect now w (sys_view s) (sys_view s') w') \/
   (s_workers s' = s_workers s /\
      ((exists j its, fresh_job j its /\ changes (Spec.create j its) (sys_view s) (sys_view s')) \/
       changes Spec.reset_running (sys_view s) (sys_view s'))) \/
   (sys_view s' = sys_view s /\
      Forall (fun w => no_snapshot w \/ w ∈ s_workers s) (s_workers s'))).
Proof.
  intros Hstep Hi. unfold sys_view.
  assert (Hsub : forall l i w, no_snapshot w ->
    Forall (fun x => no_snapshot x \/ x ∈ l) (<[i := w]> l)).
  { intros l i w Hw. apply Forall_insert; [|by left]. apply Forall_forall. by right. }
  destruct Hstep as [s i w w' p' Hiw Hne Hs|s i id ids Hiw Hn|s i id Hiw
    |s t j its r p' Hnd Hq Ht Hd Hf Hc|s id p' Hn|s r p' Hr|s ids r n p1 p2 Hl Hr Hq|s]; simpl.
  - destruct (worker_step_effect _ _ _ _ Hi Hs). split; [done|]. left. by exists i, w, w'.
  - split; [done|]. right. right. split; [done|by apply Hsub].
  - split; [done|]. right. right. split; [done|by apply Hsub].
  - pool_simpl. destruct (CreateJob t j its _) as [r s'] eqn:Hc.
    destruct (create_law _ _ _ _ _ _ Hi Hnd Hc) as [Hi' Ha%all_or_nothing_changes].
    split; [done|]. right. left. split; [done|]. left. by exists j, its.
  - assert (p_store p' = p_store (s_pool s)) as ->.
    { unfold Notify in Hn. case_bool_decide; by pool_simpl. }
    split; [done|]. right. right. split; [done|]. apply Forall_forall. by right.
  - pool_simpl. destruct (ResetRunningItems _) as [r s'] eqn:Hc.
    destruct (reset_law _ _ _ Hi Hc) as [Hi' Ha%all_or_nothing_changes].
    split; [done|]. right. left. split; [done|]. by right.
  - pose proof (requeue_store ids p1) as Hst. rewrite Hq in Hst. simpl in Hst. rewrite Hst.
    pool_simpl. destruct (ListUnfinishedJobs _) as [r s'] eqn:Hc. simpl in *. subst r.
    destruct (list_law _ _ _ Hi Hc) as [Hi' [Hvw _]].
    split; [done|]. right. right. split; [done|]. apply Forall_forall. by right.
  - split; [done|]. right. right. split; [done|]. apply Forall_fmap.
    apply Forall_true. by left.
Qed.
End Effects.

Section Accounting.
Context {S U : Type} `{JobStoreLaws S} `{GoError} (up : Upstream U) (cfg : PoolConfig) (now : Z).
Abbreviation step := (step (S:=S) (U:=U) up cfg now).

Definition sys_ok (s : system (S:=S) (U:=U)) : Prop :=
  js_inv (p_store (s_pool s)) /\ view_ok (sys_view s) /\
  Forall (worker_ok (sys_view s)) (s_workers s).

Lemma get_snapshot id j v v' :
  view_ok v -> Spec.get id j v v' -> snap_ok v j.
Proof.
  intros Hv (_ & <- & a & Ha & Hja). specialize (Hv _ _ Ha) as [Hc _].
  unfold abs_job in Hja. destruct a; simplify_eq/=. by eexists.
Qed.
Lemma no_snapshot_ok v w : no_snapshot w -> worker_ok v w.
Proof. by destruct w. Qed.

Lemma effect_good w v v' w' :
  view_ok v -> worker_ok v w -> effect now w v v' w' -> good v v' /\ worker_ok v' w'.
Proof.
  intros Hv Hw He.
  destruct w; simpl in *;
    try (destruct He as [-> Hw']; split; [apply good_refl|by apply no_snapshot_ok]).
  - destruct He as [-> [Hw'|(j & Hg & ->)]]; (split; [apply good_refl|]); [by apply no_snapshot_ok|].
    split; [exact (get_snapshot _ _ _ _ Hv Hg)|done].
  - destruct He as [Hc Hw']. split; [|by apply no_snapshot_ok]. destruct Hw as [Hsn Hrun].
    eapply changes_ind; [done|apply good_refl|]. intros u. apply good_update; [done|by rewrite Hrun].
  - destruct He as [Hc Hw']. split; [|by apply no_snapshot_ok].
    eapply changes_ind; [done|apply good_refl|]. intros u. apply good_claim.
  - destruct He as [Hc Hw']. split; [|by apply no_snapshot_ok].
    eapply changes_ind; [done|apply good_refl|]. intros u. apply good_set_track.
  - destruct He as [[e Hc] Hw']. split; [|by apply no_snapshot_ok].
    eapply changes_ind; [done|apply good_refl|]. intros u. apply good_mark.
  - destruct He as [-> [Hw'|(j & Hg & Ht & Hall & ->)]]; (split; [apply good_refl|]);
      [by apply no_snapshot_ok|].
    split; [exact (get_snapshot _ _ _ _ Hv Hg)|]. by split.
  - destruct He as [Hc Hw']. split; [|by apply no_snapshot_ok]. destruct Hw as (Hsn & Hall & Hfin).
    eapply changes_ind; [done|apply good_refl|]. intros u. by apply good_update.
Qed.

Lemma sys_ok_step s s' : step s s' -> sys_ok s -> sys_ok s'.
Proof.
  intros Hstep (Hi & Hv & Hw).
  destruct (step_effect _ _ _ _ _ Hstep Hi) as [Hi' [He|[[Hws He]|[Hvw Hws]]]]; split; try done.
  - destruct He as (i & w & w' & Hiw & -> & He).
    destruct (effect_good w _ _ w' Hv (Forall_lookup_1 _ _ _ _ Hw Hiw) He) as [Hg Hw'].
    destruct (Hg Hv) as [Hv' Hev]. split; [done|]. apply Forall_insert; [|done].
    eapply Forall_impl; [exact Hw|]. intros x. by apply worker_ok_evolves.
  - assert (Hg : good (sys_view s) (sys_view s')).
    { destruct He as [(j & its & (?&?&?&?) & Hc)|Hc];
        (eapply changes_ind; [exact Hc|apply good_refl|]); intros u;
        [by apply good_create|apply good_reset]. }
    destruct (Hg Hv) as [Hv' Hev]. split; [done|]. rewrite Hws.
    eapply Forall_impl; [exact Hw|]. intros x. by apply worker_ok_evolves.
  - rewrite Hvw. split; [done|]. eapply Forall_impl; [exact Hws|].
    rewrite Forall_forall in Hw. intros x [?|?]; [by apply no_snapshot_ok|by apply Hw].
Qed.

Lemma sys_ok_reachable s s' : sys_ok s -> rtc step s s' -> sys_ok s'.
Proof. intros Hok Hr. induction Hr; eauto using sys_ok_step. Qed.

(** A fresh service: no jobs, every worker idle. *)
Definition fresh (s : system (S:=S) (U:=U)) : Prop :=
  js_inv (p_store (s_pool s)) /\ sys_view s = ∅ /\ initial s.
Lemma fresh_ok s : fresh s -> sys_ok s.
Proof.
  intros (Hi & Hv & Hw). split; [done|]. split.
  - intros id a Ha. by rewrite Hv in Ha.
  - eapply Forall_impl; [exact Hw|]. by intros w ->.
Qed.
End Accounting.

(** * Executable schedules *)

(** One scheduler decision; [run_schedule] plays a list of them and is sound for
    [step], so closed executions are obtained by evaluation. *)
Inductive action :=
| Work (i : nat) | Receive (i : nat) | StopAt (i : nat)
| Submit (t : Z) (j : IngestJob) (its : list IngestItem)
| NotifyJob (id : string) | ResetAll | Requeue | Crash.

Section Schedule.
Context {S U : Type} `{JobStore S} `{GoError} (up : Upstream U) (cfg : PoolConfig) (now : Z).
Abbreviation sys := (system (S:=S) (U:=U)).

Definition valid_batch (j : IngestJob) (its : list IngestItem) : Prop :=
  NoDup (it_IdempotencyKey <$> its) /\ j_Status j = JobStatusQueued /\
  j_Total j = Z.of_nat (length its) /\ j_Done j = 0 /\ j_Failed j = 0.
#[global] Instance valid_batch_dec j its : Decision (valid_batch j its).
Proof. unfold valid_batch. apply _. Defined.

Definition act (a : action) (s : sys) : option sys :=
  let p := s_pool s in
  match a with
  | Work i => match s_workers s !! i with
              | Some Idle | None => None
              | Some w => let q := worker_step up cfg now w p in
                          Some (mkSys q.2 (<[i := q.1]> (s_workers s)))
              end
  | Receive i => match s_workers s !! i, p_notify p with
                 | Some Idle, id :: ids =>
                     Some (mkSys (mkPool (p_store p) (p_up p) ids (p_metrics p))
                                 (<[i := Start id]> (s_workers s)))
                 | _, _ => None
                 end
  | StopAt i => match s_workers s !! i with
                | Some (Draining id) => Some (mkSys p (<[i := Idle]> (s_workers s)))
                | _ => None
                end
  | Submit t j its => if decide (valid_batch j its)
                      then Some (mkSys (on_store (CreateJob t j its) p).2 (s_workers s)) else None
  | NotifyJob id => Some (mkSys (Notify cfg id p).2 (s_workers s))
  | ResetAll => Some (mkSys (on_store ResetRunningItems p).2 (s_workers s))
  | Requeue => let q := on_store ListUnfinishedJobs p in
               match q.1 with
               | Ok ids => Some (mkSys (requeue cfg ids q.2).2 (s_workers s))
               | Err _ => None
               end
  | Crash => Some (mkSys (mkPool (p_store p) (p_up p) [] ∅) ((fun _ => Idle) <$> s_workers s))
  end.
Fixpoint run_schedule (l : list action) (s : sys) : option sys :=
  match l with
  | [] => Some s
  | a :: l => match act a s with Some s' => run_schedule l s' | None => None end
  end.

Lemma act_sound a s s' : act a s = Some s' -> step up cfg now s s'.
Proof.
  intros Ha. destruct a; simpl in Ha.
  - destruct (s_workers s !! i) as [w|] eqn:Hw; [|done].
    assert (w <> Idle /\ s' = mkSys (worker_step up cfg now w (s_pool s)).2
              (<[i:=(worker_step up cfg now w (s_pool s)).1]> (s_workers s))) as [Hn ->]
      by (destruct w; simplify_eq; done).
    eapply step_worker; [done|done|]. by destruct (worker_step _ _ _ _ _).
  - destruct (s_workers s !! i) as [[]|] eqn:Hw; try done.
    destruct (p_notify (s_pool s)) eqn:Hn; simplify_eq. by apply step_receive.
  - destruct (s_workers s !! i) as [[]|] eqn:Hw; simplify_eq. by eapply step_stop.
  - case_decide as Hv; [|done]. simplify_eq. destruct Hv as (?&?&?&?&?).
    by eapply step_enqueue; try done; apply surjective_pairing.
  - simplify_eq. eapply (step_notify _ _ _ _ id). by destruct (Notify cfg id (s_pool s)) as [[] ?].
  - simplify_eq. eapply step_reset, surjective_pairing.
  - case_match eqn:Hl; simplify_eq. eapply (step_requeue _ _ _ _ _ (Ok a));
      [|done|apply surjective_pairing]. unfold on_store in *. simpl in *. by rewrite Hl.
  - simplify_eq. apply step_crash.
Qed.
Lemma run_schedule_sound l s s' : run_schedule l s = Some s' -> rtc (step up cfg now) s s'.
Proof.
  revert s. induction l as [|a l IH]; intros s Hl; simpl in Hl; [by simplify_eq|].
  destruct (act a s) eqn:Ha; [|done]. eapply rtc_l; [by eapply act_sound|by apply IH].
Qed.
End Schedule.

(** * Running alone: termination and the final state *)

Section Alone.
Context {U : Type} `{MapRange} `{GoError} (up : Upstream U) (cfg : PoolConfig) (now : Z).
Abbreviation mpool := (pool MemStore.t U).
Abbreviation drive := (drive (S:=MemStore.t) up cfg now).
Abbreviation wstep := (worker_step (S:=MemStore.t) up cfg now).

(** A job that is being drained by nobody else: exact counters, no item left
    [running]. *)
Record drainable (id : string) (b : memJobBundle) : Prop := {
  dr_id : j_ID (b_job b) = id;
  dr_open : unfinished (b_job b) = true;
  dr_keys : NoDup (mi_key <$> b_items b);
  dr_done : j_Done (b_job b) = count is_done (b_items b);
  dr_failed : j_Failed (b_job b) = count is_failed (b_items b);
  dr_total : j_Total (b_job b) = Z.of_nat (length (b_items b));
  dr_idle : count is_running (b_items b) = 0 }.

(** The item a key names is the one that was claimed. *)
Lemma update_first_key f (l : list memItem) i m :
  NoDup (mi_key <$> l) -> l !! i = Some m ->
  List.find (has_key (mi_key m)) l = Some m /\
  update_first (has_key (mi_key m)) f l = <[i := f m]> l.
Proof.
  revert i. induction l as [|x l IH]; intros i Hnd Hi; [done|].
  csimpl in Hnd. apply NoDup_cons in Hnd as [Hx Hnd].
  destruct i as [|i]; simplify_eq/=; unfold has_key in *; case_bool_decide as Hk; try done.
  - exfalso. apply Hx. rewrite Hk. apply list_elem_of_fmap. exists m. split; [done|].
    by eapply list_elem_of_lookup_2.
  - destruct (IH i Hnd Hi) as [-> ->]. done.
Qed.

(** The steps of [drive] that only touch this job's entry. *)
Lemma drive_S n w (p p' : mpool) w' :
  w <> Idle -> wstep w p = (w', p') -> drive (S n) w p = drive n w' p'.
Proof. intros Hw Hs. simpl. unfold bind. destruct w; try done; by rewrite Hs. Qed.

Lemma metric_if_store {A} (r : result err A) l (p : mpool) :
  p_store (metric_if r l p).2 = p_store p.
Proof. by destruct r. Qed.

Lemma claim_one id (p : mpool) b m i :
  p_store p !! id = Some b -> List.find is_pending (b_items b) = Some m ->
  update_first is_pending (set_item_status running) (b_items b) = <[i := set_item_status running m]> (b_items b) ->
  exists p1, wstep (Draining id) p = (Claimed id (with_track m), p1) /\
    p_store p1 = <[id := mkBundle (b_job b) (<[i := set_item_status running m]> (b_items b))]> (p_store p) /\
    p_up p1 = p_up p.
Proof.
  intros Hb Hf Hu. eexists. simpl. unfold runJob_claim, on_store, bind, ret, metric, modify. simpl.
  unfold MemStore.ClaimNextItem. rewrite Hb, Hf. simpl. split; [done|]. simpl. by rewrite Hu.
Qed.

(** The upstream part of one item changes at most that item's track_id. *)
Lemma process_one id (p : mpool) b i m it :
  p_store p !! id = Some b -> b_items b !! i = Some m -> NoDup (mi_key <$> b_items b) ->
  it_IdempotencyKey it = mi_key m ->
  exists n e p' m', (n <= 3)%nat /\
    (forall fuel, drive (n + fuel) (Claimed id it) p = drive fuel (Finished id (mi_key m) e) p') /\
    mi_key m' = mi_key m /\ mi_status m' = mi_status m /\
    p_store p' = <[id := mkBundle (b_job b) (<[i := m']> (b_items b))]> (p_store p).
Proof.
  intros Hb Hi Hnd Hk.
  assert (Hsame : p_store p = <[id := mkBundle (b_job b) (<[i := m]> (b_items b))]> (p_store p)).
  { rewrite list_insert_id by done. symmetry. apply insert_id. rewrite Hb. by destruct b. }
  assert (Hix : forall q it', it_IdempotencyKey it' = mi_key m ->
    exists q', wstep (Indexing id it') q = (Finished id (mi_key m) None, q') /\ p_store q' = p_store q).
  { intros q it' Hk'. simpl. rewrite <- Hk'. unfold processItem_index, bind, ret.
    destruct (AddSource up) as [add|]; [|by eexists]. destruct (_ && _); [|by eexists].
    eexists. simpl. split; [done|]. by rewrite metric_if_store. }
  destruct (bool_decide (it_TrackID it = ""%string)) eqn:Ht.
  - destruct (CreateMemory up (runItem_timeout cfg) (it_IdempotencyKey it) (it_Text it)
               (it_Metadata it) (p_up p)) as [r u'] eqn:Hr.
    destruct r as [cid|e].
    + set (it' := mkItem (it_IdempotencyKey it) (it_Text it) (it_Metadata it) cid).
      set (p1 := mkPool (p_store p) u' (p_notify p) (p_metrics p)).
      set (p2 := mkPool (<[id := mkBundle (b_job b) (<[i := set_item_track cid m]> (b_items b))]> (p_store p))
                        u' (p_notify p) (p_metrics p)).
      destruct (Hix p2 it' Hk) as (p3 & H3 & Hs3).
      exists 3%nat, None, p3, (set_item_track cid m). split; [lia|]. split; [|by rewrite Hs3].
      intros fuel. simpl Nat.add.
      rewrite (drive_S _ _ p p1 (Created id it')); [|done|].
      2:{ simpl. unfold processItem_create, bind, ret, on_up. by rewrite Ht, Hr. }
      rewrite (drive_S _ _ p1 p2 (Indexing id it')); [|done|].
      2:{ simpl. unfold processItem_track, bind, ret, on_store. simpl.
          unfold MemStore.SetItemTrackID. rewrite Hb. simpl. rewrite Hk.
          by destruct (update_first_key (set_item_track cid) _ _ _ Hnd Hi) as [_ ->]. }
      by apply drive_S.
    + exists 1%nat, (Some e), (mkPool (p_store p) u' (p_notify p) (p_metrics p)), m.
      split; [lia|]. split; [|done]. intros fuel. simpl Nat.add. apply drive_S; [done|].
      simpl. unfold processItem_create, bind, ret, on_up. by rewrite Ht, Hr, Hk.
  - destruct (Hix p it Hk) as (p3 & H3 & Hs3).
    exists 2%nat, None, p3, m. split; [lia|]. split; [|by rewrite Hs3].
    intros fuel. simpl Nat.add. rewrite (drive_S _ _ p p (Indexing id it)); [|done|].
    2:{ simpl. unfold processItem_create. by rewrite Ht. }
    by apply drive_S.
Qed.

(** The mark moves the item and the counter together. *)
Lemma mark_one id (p : mpool) b i m e :
  p_store p !! id = Some b -> b_items b !! i = Some m -> NoDup (mi_key <$> b_items b) ->
  item_terminal (mi_status m) = false ->
  exists p', wstep (Finished id (mi_key m) e) p = (Draining id, p') /\
    p_store p' = <[id := mkBundle (bump now (mkItemError (mi_key m) <$> (Error <$> e)) (b_job b))
                          (<[i := finish_item (Error <$> e) m]> (b_items b))]> (p_store p) /\
    p_up p' = p_up p.
Proof.
  intros Hb Hi Hnd Hm. destruct (update_first_key (finish_item (Error <$> e)) _ _ _ Hnd Hi) as [Hf Hu].
  eexists. simpl. unfold runJob_mark, on_store, bind, ret, metric_if, metric, modify. simpl.
  unfold MemStore.MarkItemDoneAndProgress. rewrite Hb, Hf, Hm, Hu. simpl. by split.
Qed.

Lemma drainable_cycle id b b1 i m m' e :
  drainable id b -> b_items b !! i = Some m -> mi_status m = pending ->
  mi_key m' = mi_key m ->
  b1 = mkBundle (bump now (mkItemError (mi_key m) <$> (Error <$> e)) (b_job b))
         (<[i := finish_item (Error <$> e) m']> (b_items b)) ->
  drainable id b1 /\ count is_pending (b_items b1) = count is_pending (b_items b) - 1.
Proof.
  intros [] Hi Hm Hk ->. split; [constructor|]; simpl.
  - by rewrite bump_ID.
  - by destruct e.
  - rewrite list_fmap_insert, mi_key_finish, Hk. rewrite list_insert_id; [done|].
    by rewrite list_lookup_fmap, Hi.
  - rewrite (count_insert _ _ _ _ _ Hi). unfold is_done in *. rewrite Hm.
    destruct e; simpl; lia.
  - rewrite (count_insert _ _ _ _ _ Hi). unfold is_failed in *. rewrite Hm.
    destruct e; simpl; lia.
  - rewrite length_insert. by destruct e.
  - rewrite (count_insert _ _ _ _ _ Hi). unfold is_running in *. rewrite Hm.
    destruct e; simpl; lia.
  - rewrite (count_insert _ _ _ _ _ Hi). unfold is_pending. rewrite Hm.
    destruct e; simpl; lia.
Qed.

(** One turn of the claim loop takes at most five steps and one pending item. *)
Lemma item_cycle id (p : mpool) b :
  p_store p !! id = Some b -> drainable id b -> count is_pending (b_items b) <> 0 ->
  exists n p' b', (n <= 5)%nat /\
    (forall fuel, drive (n + fuel) (Draining id) p = drive fuel (Draining id) p') /\
    drainable id b' /\ count is_pending (b_items b') = count is_pending (b_items b) - 1 /\
    p_store p' = <[id := b']> (p_store p).
Proof.
  intros Hb Hd Hp.
  destruct (update_first_lookup is_pending (set_item_status running) (b_items b))
    as [(i & m & Hi & Hm & Hf & Hu)|(_ & Hall & _)].
  2:{ exfalso. apply Hp. clear -Hall. induction Hall as [|x l Hx _ IH]; [done|].
      rewrite count_cons, Hx. lia. }
  apply bool_decide_eq_true in Hm.
  destruct (claim_one id p b m i Hb Hf Hu) as (p1 & H1 & Hs1 & _).
  set (m1 := set_item_status running m).
  set (b1 := mkBundle (b_job b) (<[i := m1]> (b_items b))).
  assert (Hi1 : b_items b1 !! i = Some m1) by (apply list_lookup_insert_eq; by eapply lookup_lt_Some).
  assert (Hnd1 : NoDup (mi_key <$> b_items b1)).
  { simpl. rewrite list_fmap_insert, list_insert_id; [apply Hd|by rewrite list_lookup_fmap, Hi]. }
  destruct (process_one id p1 b1 i m1 (with_track m)) as (n & e & p2 & m2 & Hn & Hdr & Hk2 & Hst2 & Hs2);
    [by rewrite Hs1, lookup_insert_eq|done..|].
  destruct (mark_one id p2 (mkBundle (b_job b) (<[i:=m2]> (b_items b1))) i m2 e) as (p3 & H3 & Hs3 & _).
  { by rewrite Hs2, lookup_insert_eq. }
  { apply list_lookup_insert_eq. by eapply lookup_lt_Some. }
  { change (NoDup (mi_key <$> <[i:=m2]> (b_items b1))).
    rewrite list_fmap_insert, Hk2, list_insert_id; [done|by rewrite list_lookup_fmap, Hi1]. }
  { by rewrite Hst2. }
  simpl in Hs3. rewrite Hs2, Hs1, !insert_insert_eq, !list_insert_insert_eq in Hs3.
  destruct (drainable_cycle id b _ i m m2 e Hd Hi Hm Hk2 eq_refl) as [Hd' Hc'].
  rewrite Hk2 in Hs3. eexists (2 + n)%nat, p3, _. split; [lia|].
  split; [|split_and!; [exact Hd'|exact Hc'|exact Hs3]]. intros fuel. replace (2 + n + fuel)%nat with (S (n + S fuel)) by lia.
  rewrite (drive_S _ (Draining id) _ _ _ ltac:(done) H1), Hdr.
  apply drive_S; [done|]. by rewrite Hk2 in H3.
Qed.

Lemma drive_Idle fuel p : drive fuel Idle p = (Idle, p).
Proof. by destruct fuel. Qed.

(** One turn of the claim loop, with what it keeps true. *)
Definition turns (I : mpool -> memJobBundle -> Prop) (id : string) : Prop := forall p b,
  p_store p !! id = Some b -> drainable id b -> count is_pending (b_items b) <> 0 -> I p b ->
  exists n p' b', (n <= 5)%nat /\
    (forall fuel, drive (n + fuel) (Draining id) p = drive fuel (Draining id) p') /\
    drainable id b' /\ count is_pending (b_items b') = count is_pending (b_items b) - 1 /\
    p_store p' = <[id := b']> (p_store p) /\ I p' b'.
(** Draining: every pending item is processed, then the loop is left. *)
Lemma drain_by I k id (p : mpool) b : turns I id ->
  p_store p !! id = Some b -> drainable id b -> count is_pending (b_items b) = Z.of_nat k -> I p b ->
  exists n p' b', (n <= 5 * k + 1)%nat /\
    (forall fuel, drive (n + fuel) (Draining id) p = drive fuel (Finalizing id) p') /\
    drainable id b' /\ count is_pending (b_items b') = 0 /\
    p_store p' = <[id := b']> (p_store p) /\ I p' b'.
Proof.
  intros Hturn. revert p b. induction k as [|k IH]; intros p b Hb Hd Hk HI.
  - assert (Hf : List.find is_pending (b_items b) = None).
    { destruct (List.find is_pending (b_items b)) as [m|] eqn:Hf; [|done].
      apply List.find_some in Hf as [Hin Hm]. apply list_elem_of_In in Hin.
      pose proof (count_zero _ _ Hk) as Hz. rewrite Forall_forall in Hz.
      by rewrite (Hz m Hin) in Hm. }
    exists 1%nat, p, b. split; [lia|]. split; [|split_and!; [done|done|by rewrite insert_id|done]].
    intros fuel. apply drive_S; [done|]. simpl.
    unfold runJob_claim, on_store, bind, ret. simpl. unfold MemStore.ClaimNextItem.
    rewrite Hb, Hf. by destruct p.
  - destruct (Hturn p b Hb Hd ltac:(lia) HI) as (n & p1 & b1 & Hn & Hdr & Hd1 & Hc1 & Hs1 & HI1).
    destruct (IH p1 b1) as (n2 & p2 & b2 & Hn2 & Hdr2 & Hd2 & Hc2 & Hs2 & HI2);
      [by rewrite Hs1, lookup_insert_eq|done|lia|done|].
    exists (n + n2)%nat, p2, b2. split; [lia|]. split; [|split_and!; [done|done| |done]].
    + intros fuel. by rewrite <- Nat.add_assoc, Hdr, Hdr2.
    + by rewrite Hs2, Hs1, insert_insert_eq.
Qed.
Lemma any_turn id : turns (fun _ _ => True) id.
Proof.
  intros p b Hb Hd Hp _. destruct (item_cycle id p b Hb Hd Hp) as (n & p' & b' & Hn & Hdr & Hd' & Hc & Hs).
  by exists n, p', b'.
Qed.

Lemma count_partition (l : list memItem) :
  count is_pending l + count is_running l + count is_done l + count is_failed l = Z.of_nat (length l).
Proof.
  induction l as [|x l IH]; [done|]. rewrite !count_cons. simpl length.
  unfold is_pending at 1, is_running at 1, is_done at 1, is_failed at 1.
  destruct (mi_status x); simpl; lia.
Qed.

(** What a worker leaves behind: a terminal job whose counters and status are
    exactly its items'. *)
Definition completed (b' : memJobBundle) : Prop :=
  j_Done (b_job b') = count is_done (b_items b') /\
  j_Failed (b_job b') = count is_failed (b_items b') /\
  j_Done (b_job b') + j_Failed (b_job b') = j_Total (b_job b') /\
  j_Total (b_job b') = Z.of_nat (length (b_items b')) /\
  j_Status (b_job b') = final_status (b_job b').

Lemma finalize_alone id (p : mpool) b :
  p_store p !! id = Some b -> drainable id b -> count is_pending (b_items b) = 0 ->
  exists p' b', (forall fuel, drive (2 + fuel) (Finalizing id) p = (Idle, p')) /\
    completed b' /\ b_items b' = b_items b /\ p_store p' = <[id := b']> (p_store p) /\ p_up p' = p_up p.
Proof.
  intros Hb [Hid Ho Hnd Hdn Hfl Ht Hr] Hp. pose proof (count_partition (b_items b)) as Hc.
  set (fin := set_status (final_status (b_job b)) now (b_job b)).
  set (p1 := mkPool (p_store p) (p_up p) (p_notify p)
               (inc (job_class (final_status (b_job b))) (p_metrics p))).
  exists (mkPool (<[id := mkBundle (set_updated now fin) (b_items b)]> (p_store p))
            (p_up p) (p_notify p) (p_metrics p1)), (mkBundle (set_updated now fin) (b_items b)).
  split; [|split; [unfold completed; simpl; split_and!; [done|done|lia|done|done]|by split_and!]].
  intros fuel. simpl Nat.add. rewrite (drive_S _ (Finalizing id) p p1 (Deciding fin)); [|done|].
  2:{ simpl. unfold runJob_finalize, on_store, bind, ret. simpl. unfold MemStore.GetJob. rewrite Hb. simpl.
      assert (Terminal (j_Status (b_job b)) = false) as ->.
      { unfold unfinished in Ho. by destruct (j_Status (b_job b)). }
      rewrite bool_decide_eq_false_2 by lia. done. }
  erewrite (drive_S _ (Deciding fin) p1); [apply drive_Idle|done|].
  simpl. unfold runJob_write_final, on_store, bind, ret, metric_if. simpl.
  unfold MemStore.UpdateJob. unfold fin at 1. simpl. by rewrite Hid, Hb.
Qed.

(** An unfinished job with exact counters and no orphan, whoever read it. *)
Lemma start_alone id (p : mpool) b :
  p_store p !! id = Some b -> drainable id b ->
  exists n p' b', (n <= 2)%nat /\
    (forall fuel, drive (n + fuel) (Start id) p = drive fuel (Draining id) p') /\
    drainable id b' /\ b_items b' = b_items b /\ p_store p' = <[id := b']> (p_store p) /\ p_up p' = p_up p.
Proof.
  intros Hb [Hid Ho Hnd Hdn Hfl Ht Hr].
  assert (HT : Terminal (j_Status (b_job b)) = false).
  { unfold unfinished in Ho. by destruct (j_Status (b_job b)). }
  destruct (bool_decide (j_Status (b_job b) = JobStatusQueued)) eqn:Hq.
  - set (j := set_status JobStatusRunning now (b_job b)).
    set (p1 := mkPool (<[id := mkBundle (set_updated now j) (b_items b)]> (p_store p))
                      (p_up p) (p_notify p) (p_metrics p)).
    exists 2%nat, p1, (mkBundle (set_updated now j) (b_items b)).
    split; [lia|]. split; [|split_and!; [by constructor|done..]].
    intros fuel. simpl Nat.add. rewrite (drive_S _ (Start id) p p (Fetched j)); [|done|].
    2:{ simpl. unfold runJob_start, on_store, bind, ret. simpl. unfold MemStore.GetJob.
        rewrite Hb. simpl. rewrite HT, Hq. by destruct p. }
    apply drive_S; [done|]. simpl. unfold runJob_mark_running, on_store, bind, ret, metric_if. simpl.
    unfold MemStore.UpdateJob. simpl. by rewrite Hid, Hb.
  - exists 1%nat, p, b. split; [lia|]. split; [|split_and!; [by constructor|done|by rewrite insert_id|done]].
    intros fuel. apply drive_S; [done|]. simpl.
    unfold runJob_start, on_store, bind, ret. simpl. unfold MemStore.GetJob.
    rewrite Hb. simpl. rewrite HT, Hq. by destruct p.
Qed.
End Alone.

(** * A job whose counters fell behind *)

Section Stuck.
Context {S U : Type} `{JobStoreLaws S} `{GoError} (up : Upstream U) (cfg : PoolConfig) (now : Z).
Abbreviation step := (step (S:=S) (U:=U) up cfg now).

(** Every item is terminal, the counters do not add up, and no worker holds a
    snapshot that would repair them. *)
Definition short (j : IngestJob) : Prop := j_Done j + j_Failed j < j_Total j.
Definition stuck_job (id : string) (v : view) : Prop :=
  exists a, v !! id = Some a /\ Terminal (a_jstatus a) = false /\
    Forall (fun x => item_terminal (a_status x) = true) (a_items a) /\
    a_done a + a_failed a < a_total a.
Definition stuck_worker (id : string) (w : wstate) : Prop :=
  match w with
  | Fetched j => j_ID j = id -> short j /\ j_Status j = JobStatusRunning
  | Deciding j => j_ID j <> id
  | _ => True
  end.
Definition stuck (id : string) (s : system (S:=S) (U:=U)) : Prop :=
  js_inv (p_store (s_pool s)) /\ stuck_job id (js_view (p_store (s_pool s))) /\
  Forall (stuck_worker id) (s_workers s).

Lemma stuck_insert id id' a a' v :
  v !! id' = Some a -> stuck_job id v ->
  (id' = id -> Terminal (a_jstatus a) = false ->
    Forall (fun x => item_terminal (a_status x) = true) (a_items a) ->
    a_done a + a_failed a < a_total a ->
    Terminal (a_jstatus a') = false /\
    Forall (fun x => item_terminal (a_status x) = true) (a_items a') /\
    a_done a' + a_failed a' < a_total a') ->
  stuck_job id (<[id' := a']> v).
Proof.
  intros Ha (b & Hb & Ht & Hf & Hs) Hstep. destruct (decide (id' = id)) as [->|Hne].
  - simplify_eq. destruct (Hstep eq_refl Ht Hf Hs) as (?&?&?).
    exists a'. by rewrite lookup_insert_eq.
  - exists b. by rewrite lookup_insert_ne.
Qed.

Lemma stuck_claim id id' r v v' : Spec.claim id' r v v' -> stuck_job id v -> stuck_job id v'.
Proof.
  destruct r; simpl; [|by intros ->].
  intros (a & i' & x & Ha & Hi & Hx & _ & ->) Hs. eapply stuck_insert; [done|done|].
  intros -> _ Hf _. rewrite Forall_lookup in Hf. specialize (Hf _ _ Hi). simpl in Hf. by rewrite Hx in Hf.
Qed.
Lemma stuck_set_track id id' k t u v v' :
  Spec.set_track id' k t u v v' -> stuck_job id v -> stuck_job id v'.
Proof.
  unfold Spec.set_track. destruct (v !! id') as [a|] eqn:Ha; intros -> Hs; [|done].
  eapply stuck_insert; [done|done|]. intros _ Ht Hf Hc. split_and!; [done| |done]. simpl.
  clear -Hf. induction Hf as [|x l Hx Hl IH]; [constructor|]. simpl.
  destruct (Spec.key_is k x); by constructor.
Qed.
Lemma stuck_mark id id' k e u v v' :
  Spec.mark_progress id' k e u v v' -> stuck_job id v -> stuck_job id v'.
Proof.
  unfold Spec.mark_progress. destruct (v !! id') as [a|] eqn:Ha; [|by intros ->].
  destruct (List.find _ _) as [x|] eqn:Hfd; [|by intros ->].
  destruct (item_terminal (a_status x)) eqn:Hx; intros -> Hs; [done|].
  eapply stuck_insert; [done|done|]. intros -> _ Hf _. exfalso.
  apply List.find_some in Hfd as [Hin _]. apply list_elem_of_In in Hin.
  rewrite Forall_forall in Hf. specialize (Hf _ Hin). congruence.
Qed.
Lemma stuck_reset id n v v' : Spec.reset_running n v v' -> stuck_job id v -> stuck_job id v'.
Proof.
  intros -> (a & Ha & Ht & Hf & Hs). exists (Spec.reset a). rewrite lookup_fmap, Ha.
  split; [done|]. unfold Spec.reset. destruct (Spec.aunfinished a); [|done].
  split_and!; [done| |done]. simpl. apply Forall_fmap.
  eapply Forall_impl; [exact Hf|]. intros x Hx. unfold compose, Spec.st_is.
  case_bool_decide as Hr; [|done]. simpl in Hx. by rewrite Hr in Hx.
Qed.
Lemma stuck_update id j u v v' :
  (j_ID j = id -> short j /\ Terminal (j_Status j) = false) ->
  Spec.update j u v v' -> stuck_job id v -> stuck_job id v'.
Proof.
  intros Hj (a & Ha & ->) Hs. eapply stuck_insert; [done|done|].
  intros He _ Hf _. destruct (Hj He). by split_and!.
Qed.
Lemma stuck_create id j its u v v' : Spec.create j its u v v' -> stuck_job id v -> stuck_job id v'.
Proof.
  intros [Hn ->] (a & Ha & Hs). exists a. split; [|done].
  rewrite lookup_insert_ne; [done|congruence].
Qed.
Lemma stuck_get id id' j v v' : Spec.get id' j v v' -> stuck_job id v ->
  v' = v /\ (j_ID j = id -> short j /\ Terminal (j_Status j) = false).
Proof.
  intros (-> & <- & a & Ha & Hja) (b & Hb & Ht & _ & Hs). split; [done|]. intros He.
  rewrite He in Ha. simplify_eq. rewrite Hja in Ht, Hs. by split.
Qed.

Lemma stuck_effect id w v v' w' :
  stuck_job id v -> stuck_worker id w -> effect now w v v' w' ->
  stuck_job id v' /\ stuck_worker id w'.
Proof.
  intros Hs Hw He.
  assert (Hns : forall x, no_snapshot x -> stuck_worker id x) by (by intros []).
  destruct w; simpl in *; try (destruct He as [-> Hw']; split; [done|by apply Hns]).
  - destruct He as [-> [Hw'|(j & Hg & ->)]]; (split; [done|]); [by apply Hns|].
    destruct (stuck_get _ _ _ _ _ Hg Hs) as [_ Hj]. simpl. intros Hid. by destruct (Hj Hid).
  - destruct He as [Hc Hw']. split; [|by apply Hns].
    eapply (changes_ind (fun v v' => stuck_job id v')); [exact Hc|done|].
    intros u Hu. eapply stuck_update; [|exact Hu|done]. intros Hid. destruct (Hw Hid) as [? ->]. done.
  - destruct He as [Hc Hw']. split; [|by apply Hns].
    eapply (changes_ind (fun v v' => stuck_job id v')); [exact Hc|done|]. intros u Hu. by eapply stuck_claim.
  - destruct He as [Hc Hw']. split; [|by apply Hns].
    eapply (changes_ind (fun v v' => stuck_job id v')); [exact Hc|done|]. intros u Hu. by eapply stuck_set_track.
  - destruct He as [[e Hc] Hw']. split; [|by apply Hns].
    eapply (changes_ind (fun v v' => stuck_job id v')); [exact Hc|done|]. intros u Hu. by eapply stuck_mark.
  - destruct He as [-> [Hw'|(j & Hg & _ & Hall & ->)]]; (split; [done|]); [by apply Hns|].
    destruct (stuck_get _ _ _ _ _ Hg Hs) as [_ Hj]. simpl. intros Hid.
    destruct (Hj Hid) as [Hsh _]. unfold short in Hsh. lia.
  - destruct He as [Hc Hw']. split; [|by apply Hns].
    eapply (changes_ind (fun v v' => stuck_job id v')); [exact Hc|done|].
    intros u Hu. eapply stuck_update; [|exact Hu|done]. intros Hid. by destruct Hw.
Qed.

Lemma stuck_step id s s' : step s s' -> stuck id s -> stuck id s'.
Proof.
  intros Hstep (Hi & Hv & Hw).
  destruct (step_effect _ _ _ _ _ Hstep Hi) as [Hi' [He|[[Hws He]|[Hvw Hws]]]]; split; try done.
  - destruct He as (i & w & w' & Hiw & -> & He).
    destruct (stuck_effect id w _ _ w' Hv (Forall_lookup_1 _ _ _ _ Hw Hiw) He).
    split; [done|]. by apply Forall_insert.
  - rewrite Hws. split; [|done].
    destruct He as [(j & its & _ & Hc)|Hc];
      (eapply (changes_ind (fun v v' => stuck_job id v')); [exact Hc|done|]); intros u Hu;
      [by eapply stuck_create|by eapply stuck_reset].
  - fold (sys_view s'). rewrite Hvw. split; [done|]. eapply Forall_impl; [exact Hws|].
    rewrite Forall_forall in Hw. intros x [?|?]; [by destruct x|by apply Hw].
Qed.
Lemma stuck_reachable id s s' : rtc step s s' -> stuck id s -> stuck id s'.
Proof. intros Hr. induction Hr; eauto using stuck_step. Qed.
End Stuck.
