(* ===== verification/PoolTheorems.v ===== *)
(** What the worker pool guarantees and where it does not: the theorems of
    [Pool.v] stated for any number of workers and any interleaving, each with a
    closed execution obtained by running a schedule on [MemStore]. *)
From S2P Require Import Prelude GoErr JobStore Pool.

(** * A concrete pool *)

(** An upstream that accepts every memory and logs the idempotency keys it saw. *)
Definition logging_upstream : Upstream (list string) :=
  mkUpstream (list string)
    (fun _ key _ _ => log <- gets id ;; modify (fun l => l ++ [key]) ;;
                      ret (Ok (String.append "doc-" key)))
    None.
(** An upstream that fails on the key ["bad"]. *)
Definition picky_upstream : Upstream (list string) :=
  mkUpstream (list string)
    (fun _ key _ _ => modify (fun l => l ++ [key]) ;;
                      ret (if bool_decide (key = "bad"%string) then Err (Sentinel ErrUpstream)
                           else Ok (String.append "doc-" key)))
    (Some (fun _ _ _ => ret (Ok tt))).
Definition opaque_error : GoError := fun _ => "boom"%string.

Definition example_cfg : PoolConfig := newPool 2 8 0.
Definition plain_item (key : string) : IngestItem := mkItem key "text" ∅ "".
Definition queued_job (id : string) (its : list IngestItem) : IngestJob :=
  mkJob id JobStatusQueued (Z.of_nat (length its)) 0 0 [] 0 0.
Definition idle_system (n : nat) : system (S:=MemStore.t) (U:=list string) :=
  mkSys (mkPool ∅ [] [] ∅) (replicate n Idle).
Definition submit (id : string) (keys : list string) : list action :=
  [Submit 0 (queued_job id (plain_item <$> keys)) (plain_item <$> keys); NotifyJob id].

(** [run_schedule] on the in-memory store. *)
Definition mem_run (up : Upstream (list string)) (l : list action) (n : nat) :
    option (system (S:=MemStore.t) (U:=list string)) :=
  run_schedule (H:=@MemStore_JobStore map_to_list_range) (H0:=opaque_error)
    up example_cfg 7 l (idle_system n).
Definition final_of (up : Upstream (list string)) (l : list action) (n : nat) :
    system (S:=MemStore.t) (U:=list string) := default (idle_system n) (mem_run up l n).
Definition job_of (id : string) (s : system (S:=MemStore.t) (U:=list string)) : option IngestJob :=
  b_job <$> p_store (s_pool s) !! id.

(** Schedules used below: a worker that takes a one-item job to the end; the same
    job handed to two workers, the second of which writes its stale copy last;
    a periodic sweep in the middle of a worker's [CreateMemory]. *)
Definition one_item_run : list action := submit "j" ["a"] ++ Receive 0 :: replicate 10 (Work 0).
Definition clobber_run : list action :=
  submit "j" ["a"] ++ [Requeue; Receive 0; Receive 1; Work 0; Work 1] ++
  replicate 9 (Work 0) ++ [Work 1].
Definition sweep_run : list action :=
  submit "j" ["a"] ++ Receive 0 :: replicate 3 (Work 0) ++ [ResetAll; Requeue; Receive 1; Work 1; Work 1]
  ++ [Work 0; Work 1].

Section Witnesses.
(** The instances the closed executions run with. *)
#[local] Instance example_range : MapRange := map_to_list_range.
#[local] Instance example_error : GoError := opaque_error.

Lemma idle_fresh n : fresh (U:=list string) (idle_system n).
Proof.
  split; [|split]; simpl.
  - intros id b Hb. by rewrite lookup_empty in Hb.
  - apply fmap_empty.
  - unfold initial. simpl. by apply Forall_replicate.
Qed.
Lemma final_of_reachable up l n :
  rtc (step up example_cfg 7) (idle_system n) (final_of up l n).
Proof.
  unfold final_of. destruct (mem_run up l n) eqn:E; [|done]. by eapply run_schedule_sound.
Qed.
End Witnesses.

(** * Safety and liveness, for every store and schedule *)

Section Safety.
Context {S U : Type} `{JobStoreLaws S} `{GoError} (up : Upstream U) (cfg : PoolConfig) (now : Z).

(** C1: whatever the number of workers, the interleaving, the store failures and
    the crashes, a job that shows a terminal status has every item finished, and
    the status is the one its items justify: succeeded iff none failed, failed
    iff none succeeded, partial otherwise.  Until then its counters never run
    ahead of its items. *)
Theorem terminal_status_truthful s0 s id a :
  fresh s0 -> rtc (step (S:=S) (U:=U) up cfg now) s0 s ->
  sys_view s !! id = Some a ->
  counts_ok a /\ (Terminal (a_jstatus a) = true -> settled a).
Proof.
  intros Hf Hr Ha. destruct (sys_ok_reachable _ _ _ _ _ (fresh_ok _ Hf) Hr) as (_ & Hv & _).
  exact (Hv _ _ Ha).
Qed.

(** Once every item of an unfinished job is terminal while its counters fall
    short of the total, and no worker holds a copy that would repair them, no
    execution of the service - sweeps, restarts and new workers included - ever
    finishes that job. *)
Theorem stuck_job_never_finishes id s s' :
  stuck id s -> rtc (step (S:=S) (U:=U) up cfg now) s s' ->
  exists a, sys_view s' !! id = Some a /\ Terminal (a_jstatus a) = false /\
    a_done a + a_failed a < a_total a.
Proof.
  intros Hs Hr. destruct (stuck_reachable _ _ _ _ _ _ Hr Hs) as (_ & (a & Ha & Ht & _ & Hc) & _).
  by exists a.
Qed.

Lemma requeue_all ids (p p' : pool S U) n :
  requeue cfg ids p = (n, p') -> n + Z.of_nat (length (p_notify p)) < cfg_buf cfg ->
  p_notify p' = p_notify p ++ ids.
Proof.
  revert p n. induction ids as [|id ids IH]; intros p n Hq Hn; simpl in Hq.
  { simplify_eq. by rewrite app_nil_r. }
  case_bool_decide; simplify_eq; [|lia].
  rewrite (IH _ _ (surjective_pairing _)); simpl.
  - by rewrite <- app_assoc.
  - rewrite length_app; simpl. lia.
Qed.

(** C37: a [Resume] that did not fill the channel leaves no item of an unfinished
    job [running] - the orphans of a crash are claimable again - and has queued
    the ID of every unfinished job. *)
Theorem Resume_recovers (p p' : pool S U) n id a :
  js_inv (p_store p) -> Resume cfg p = (Ok n, p') ->
  n + Z.of_nat (length (p_notify p)) < cfg_buf cfg ->
  js_view (p_store p') !! id = Some a -> Spec.aunfinished a = true ->
  id ∈ p_notify p' /\ Forall (fun x => a_status x <> running) (a_items a).
Proof.
  intros Hi Hres Hroom Ha Hopen. unfold Resume in Hres. pool_simpl.
  destruct (ResetRunningItems (p_store p)) as [r1 s1] eqn:E1.
  destruct (reset_law _ _ _ Hi E1) as [Hi1 Hr]. simpl in *. destruct r1 as [k|e]; simpl in Hres; [|done].
  destruct (ListUnfinishedJobs s1) as [r2 s2] eqn:E2.
  destruct (list_law _ _ _ Hi1 E2) as [Hi2 Hl]. simpl in *. destruct r2 as [ids|e]; simpl in Hres; [|done].
  simpl in *. destruct (requeue cfg ids _) as [m q] eqn:Eq. simplify_eq/=.
  destruct Hl as (Hv & _ & Hids).
  pose proof (requeue_store cfg ids (mkPool s2 (p_up p) (p_notify p) (p_metrics p))) as Hst.
  rewrite Eq in Hst. simpl in Hst. rewrite Hst, Hv in Ha.
  split.
  - rewrite (requeue_all _ _ _ _ Eq Hroom). simpl. apply elem_of_app. right.
    apply Hids. by exists a.
  - rewrite Hr, lookup_fmap in Ha. destruct (_ !! id) as [b|]; [|done]. simplify_eq/=.
    unfold Spec.reset in *. destruct (Spec.aunfinished b) eqn:Eb; [|congruence]. simpl.
    apply Forall_fmap, Forall_true. intros x. unfold compose, Spec.st_is.
    by case_bool_decide.
Qed.
End Safety.


(** * Closed executions *)

#[local] Existing Instances example_range example_error.

Section Runs.
Abbreviation sys := (system (S:=MemStore.t) (U:=list string)).
Abbreviation run := (rtc (step (S:=MemStore.t) (U:=list string) logging_upstream example_cfg 7)).

(** One worker takes a one-item job to [succeeded]. *)
Lemma terminal_status_truthful_witness :
  exists a, sys_view (final_of logging_upstream one_item_run 2) !! "j"%string = Some a /\
    a_jstatus a = JobStatusSucceeded /\
    counts_ok a /\ (Terminal (a_jstatus a) = true -> settled a).
Proof.
  eexists. assert (Hv : sys_view (final_of logging_upstream one_item_run 2) !! "j"%string = Some _)
    by (vm_compute; reflexivity).
  split; [exact Hv|]. split; [reflexivity|].
  exact (terminal_status_truthful logging_upstream example_cfg 7 _ _ _ _ (idle_fresh 2)
           (final_of_reachable logging_upstream one_item_run 2) Hv).
Defined.

(** A job with a good, an already created and a failing item. *)
Definition mixed_items : list IngestItem := [plain_item "a"; plain_item "bad"; plain_item "c"].
Definition mixed_bundle : memJobBundle :=
  mkBundle (queued_job "j" mixed_items)
    ((fun it => mkMemItem it pending "" (if has_key "c" (mkMemItem it pending "" "") then "doc" else ""))
       <$> mixed_items).
Definition mixed_pool : pool MemStore.t (list string) :=
  mkPool {["j"%string := mixed_bundle]} [] [] ∅.


(** The stale write: both workers read the job while it is queued, one of them
    finishes it, the other one writes its copy back. *)
Lemma clobbered_stuck : stuck "j" (final_of logging_upstream clobber_run 2).
Proof.
  split; [|split].
  - assert (sys_ok (final_of logging_upstream clobber_run 2)) as [Hi _].
    { eapply sys_ok_reachable; [apply fresh_ok, (idle_fresh 2)|apply final_of_reachable]. }
    exact Hi.
  - eexists. split; [vm_compute; reflexivity|]. split; [reflexivity|]. split; [|vm_compute; reflexivity].
    apply (bool_decide_unpack _). vm_compute. exact I.
  - vm_compute. repeat constructor.
Defined.
Lemma stuck_job_never_finishes_witness :
  run (idle_system 2) (final_of logging_upstream clobber_run 2) /\
  forall s', run (final_of logging_upstream clobber_run 2) s' ->
    exists a, sys_view s' !! "j"%string = Some a /\ Terminal (a_jstatus a) = false /\
      a_done a + a_failed a < a_total a.
Proof.
  split; [apply final_of_reachable|]. intros s'.
  apply (stuck_job_never_finishes logging_upstream example_cfg 7 "j" _ s').
  apply clobbered_stuck.
Defined.

(** A crash leaves the item running; after [Resume] it is pending and queued. *)
Definition crashed : pool MemStore.t (list string) :=
  s_pool (final_of logging_upstream (submit "j" ["a"%string] ++ Receive 0 :: replicate 3 (Work 0) ++ [Crash]) 2).
Lemma Resume_recovers_witness :
  Resume example_cfg crashed = (Ok 1, (Resume example_cfg crashed).2) /\
  forall a, js_view (p_store (Resume example_cfg crashed).2) !! "j"%string = Some a ->
    Spec.aunfinished a = true ->
    "j"%string ∈ p_notify (Resume example_cfg crashed).2 /\
    Forall (fun x => a_status x <> running) (a_items a).
Proof.
  assert (Hres : Resume example_cfg crashed = (Ok 1, (Resume example_cfg crashed).2))
    by (vm_compute; reflexivity).
  split; [exact Hres|]. intros a Ha Hu.
  apply (Resume_recovers example_cfg crashed _ 1 "j" a);
    [|exact Hres|vm_compute; reflexivity|exact Ha|exact Hu].
  assert (sys_ok (final_of logging_upstream
     (submit "j" ["a"%string] ++ Receive 0 :: replicate 3 (Work 0) ++ [Crash]) 2)) as [Hi _].
  { eapply sys_ok_reachable; [apply fresh_ok, (idle_fresh 2)|apply final_of_reachable]. }
  exact Hi.
Defined.

(** A periodic sweep during a worker's [CreateMemory] resets that worker's
    live item: without any crash, the same item is created upstream twice. *)
Theorem sweep_duplicates_live_item :
  run (idle_system 2) (final_of logging_upstream sweep_run 2) /\
  (Crash ∉ sweep_run) /\
  p_up (s_pool (final_of logging_upstream sweep_run 2)) = ["a"%string; "a"%string].
Proof.
  split; [apply final_of_reachable|]. split; [|vm_compute; reflexivity].
  unfold sweep_run, submit. simpl. rewrite !not_elem_of_cons. repeat split; try done. apply not_elem_of_nil.
Qed.
End Runs.
