(* ===== verification/Db.v ===== *)
(** PostgreSQL as the stores see it: [database/sql] over a set of tables [T].

    Every round trip ([BeginTx], a statement, [Commit]) consumes one [env] of the
    environment's script, which decides whether it succeeds, fails, or is applied
    with its acknowledgement lost, and supplies what the server chooses by itself
    (which rows other transactions hold locked, how ties are ordered, random row
    IDs).  A transaction works on a private copy that replaces the tables at a
    successful commit and is dropped by a rollback: transactions are serialised,
    which is the isolation the stores rely on their row locks for. *)
From S2P Require Import Prelude GoErr.

(** * Definitions *)

Inductive fate :=
| Fine
| Fails (e : err)       (* no effect *)
| LostAck (e : err).    (* the effect, and an error *)

Record env := mkEnv { ev_fate : fate; ev_locked : gset string; ev_tie : nat; ev_rand : string }.
Definition calm : env := mkEnv Fine ∅ 0 "".

Record Db (T : Type) := mkDb { db_tab : T; db_script : list env }.
Arguments mkDb {T} _ _.
Arguments db_tab {T} _.
Arguments db_script {T} _.

Section Db.
Context {T : Type}.

Definition next : M (Db T) env := fun d =>
  match db_script d with
  | [] => (calm, d)
  | e :: es => (e, mkDb (db_tab d) es)
  end.

(** A statement: [f] computes its result and the new tables, or an SQL error. *)
Definition statement {A} (f : env -> T -> result err A * T) : M (Db T) (result err A) :=
  e <- next ;;
  match ev_fate e with
  | Fine => fun d => let q := f e (db_tab d) in
            match q.1 with
            | Ok a => (Ok a, mkDb q.2 (db_script d))
            | Err x => (Err x, d)
            end
  | Fails x => ret (Err x)
  | LostAck x => fun d => let q := f e (db_tab d) in
            match q.1 with
            | Ok _ => (Err x, mkDb q.2 (db_script d))
            | Err x => (Err x, d)
            end
  end.
(** A read, and a statement that cannot violate a constraint. *)
Definition select {A} (f : env -> T -> A) : M (Db T) (result err A) :=
  statement (fun e t => (Ok (f e t), t)).
Definition exec {A} (f : T -> A * T) : M (Db T) (result err A) :=
  statement (fun _ t => let q := f t in (Ok q.1, q.2)).

(** How a function leaves its transaction: [return ..., tx.Commit()] with the
    value on success and what is made of a commit error, or any other return,
    which the deferred [Rollback] undoes. *)
Inductive exit (A : Type) :=
| Commit (a : A) (wrap : err -> err)
| Rollback (r : result err A).
Arguments Commit {A} _ _.
Arguments Rollback {A} _.

Definition transaction {A} (begin_wrap : err -> err) (body : M (Db T) (exit A)) :
    M (Db T) (result err A) :=
  e <- next ;;
  match ev_fate e with
  | Fails x | LostAck x => ret (Err (begin_wrap x))
  | Fine => fun d =>
      let q := body d in
      match q.1 with
      | Rollback r => (r, mkDb (db_tab d) (db_script q.2))
      | Commit a wrap =>
          let c := next q.2 in
          match ev_fate c.1 with
          | Fine => (Ok a, c.2)
          | Fails x => (Err (wrap x), mkDb (db_tab d) (db_script c.2))
          | LostAck x => (Err (wrap x), c.2)
          end
      end
  end.

(** Inside a transaction: [x, err := stmt; if err != nil { return wrap(err) }]. *)
Definition or_rollback {A B} (wrap : err -> err) (m : M (Db T) (result err A))
    (k : A -> M (Db T) (exit B)) : M (Db T) (exit B) :=
  r <- m ;; match r with Ok a => k a | Err e => ret (Rollback (Err (wrap e))) end.
End Db.
Arguments exit : clear implicits.
Arguments Commit {A} _ _.
Arguments Rollback {A} _.

(** * What a round trip does to the tables *)

Section Laws.
Context {T : Type}.

(** [m] started on tables [t] returns [r] and leaves [t'], for some script. *)
Definition runs {A} (m : M (Db T) A) (t : T) (r : A) (t' : T) : Prop :=
  exists s s', m (mkDb t s) = (r, mkDb t' s').
Lemma runs_intro {A} (m : M (Db T) A) d r d' : m d = (r, d') -> runs m (db_tab d) r (db_tab d').
Proof. destruct d, d'. intros. eexists _, _. done. Qed.
Lemma runs_ret {A} (a r : A) t t' : runs (ret a) t r t' -> r = a /\ t' = t.
Proof. intros (s & s' & E). by inversion E. Qed.
Lemma runs_bind {A B} (m : M (Db T) A) (k : A -> M (Db T) B) t r t' :
  runs (bind m k) t r t' -> exists a t1, runs m t a t1 /\ runs (k a) t1 r t'.
Proof.
  intros (s & s' & E). unfold bind in E. destruct (m (mkDb t s)) as [a [t1 s1]] eqn:Em. simpl in E.
  exists a, t1. by split; eexists _, _.
Qed.
Lemma runs_map {A B} (m : M (Db T) A) (g : A -> B) t r t' :
  runs (bind m (fun a => ret (g a))) t r t' -> exists a, runs m t a t' /\ r = g a.
Proof. intros (a & t1 & Hm & [-> ->]%runs_ret)%runs_bind. eauto. Qed.
Lemma next_tab (d : Db T) : db_tab (next d).2 = db_tab d.
Proof. unfold next. by destruct (db_script d). Qed.

(** A statement has its effect or none; success means the effect. *)
Lemma runs_statement {A} (f : env -> T -> result err A * T) t r t' :
  runs (statement f) t r t' ->
  match r with
  | Ok a => exists e, f e t = (Ok a, t')
  | Err x => t' = t \/ exists e a, f e t = (Ok a, t')
  end.
Proof.
  intros (s & s' & E). unfold statement, bind, ret in E.
  pose proof (next_tab (mkDb t s)) as Ht. destruct (next (mkDb t s)) as [e [t0 s0]]. simpl in *. subst t0.
  destruct (f e t) as [q t1] eqn:Ef. destruct (ev_fate e); simpl in E; rewrite ?Ef in E; destruct q; simplify_eq/=; eauto.
Qed.
Lemma runs_select {A} (f : env -> T -> A) t r t' :
  runs (select f) t r t' -> t' = t /\ match r with Ok a => exists e, a = f e t | Err _ => True end.
Proof.
  intros H%runs_statement. destruct r as [a|x].
  - destruct H as [e ?]. simplify_eq. by split; [|exists e].
  - by destruct H as [->|(e & a & ?)]; simplify_eq.
Qed.
Lemma runs_exec {A} (f : T -> A * T) t r t' :
  runs (exec f) t r t' ->
  match r with Ok a => (a, t') = f t | Err x => t' = t \/ t' = (f t).2 end.
Proof.
  intros H%runs_statement. destruct (f t) as [a0 t0] eqn:Ef.
  destruct r as [a|x]; simpl in *.
  - by destruct H as [e ?]; simplify_eq.
  - destruct H as [->|(e & a & ?)]; simplify_eq; auto.
Qed.
(** An autocommitted statement and what the caller makes of its result. *)
Lemma runs_exec_map {A B} (f : T -> A * T) (g : result err A -> B) t r t' :
  runs (bind (exec f) (fun x => ret (g x))) t r t' ->
  (r = g (Ok (f t).1) /\ t' = (f t).2) \/ (exists e, r = g (Err e) /\ (t' = t \/ t' = (f t).2)).
Proof.
  intros ([a|e] & Hx%runs_exec & ->)%runs_map; [left; by rewrite <- Hx|right; eauto].
Qed.

(** A transaction either leaves the tables alone or has the effect its body had
    when it reached [Commit]; it succeeds only after that. *)
Lemma runs_transaction {A} w (body : M (Db T) (exit A)) t r t' :
  runs (transaction w body) t r t' ->
  (t' = t /\ forall a, r = Ok a -> exists t1, runs body t (Rollback (Ok a)) t1) \/
  (exists a w', runs body t (Commit a w') t' /\ (r = Ok a \/ exists e, r = Err e)).
Proof.
  intros (s & s' & E). unfold transaction, bind, ret in E.
  pose proof (next_tab (mkDb t s)) as Ht. destruct (next (mkDb t s)) as [e [t0 s0]]. simpl in *. subst t0.
  destruct (ev_fate e); [|by left; simplify_eq..].
  destruct (body (mkDb t s0)) as [x [t1 s1]] eqn:Eb. simpl in E.
  destruct x as [a w'|x].
  - pose proof (next_tab (mkDb t1 s1)) as Ht. destruct (next (mkDb t1 s1)) as [c [t2 s2]]. simpl in *. subst t2.
    destruct (ev_fate c); simplify_eq.
    + right. exists a, w'. split; [|by left]. by eexists _, _.
    + by left.
    + right. exists a, w'. split; [|right; by eexists]. by eexists _, _.
  - left. simplify_eq. split; [done|]. intros a ->. exists t1. by eexists _, _.
Qed.
Lemma runs_or_rollback {A B} w (m : M (Db T) (result err A)) (k : A -> M (Db T) (exit B)) t x t' :
  runs (or_rollback w m k) t x t' ->
  (exists a t1, runs m t (Ok a) t1 /\ runs (k a) t1 x t') \/
  (exists e, x = Rollback (Err (w e)) /\ runs m t (Err e) t').
Proof.
  unfold or_rollback. intros ([a|e] & t1 & Hm & Hk)%runs_bind; [left; eauto|].
  apply runs_ret in Hk as [-> ->]. right. eauto.
Qed.
End Laws.
