(* ===== verification/Migrate.v ===== *)
(** Schema migrations ([internal/pgmigrate/pgmigrate.go] and the three
    [migrate.go] with their [migrations/*.sql]): the version-tracked runner, the
    schema changes of the three packages as statements over a catalog, and what
    happens when several replicas start at once.

    A migration's text is its first line (all the runner itself looks at) and its
    statements; a statement is its effect on the catalog.  Row data is not part
    of the catalog: a primary key is only ever widened here. *)
From S2P Require Import Prelude GoErr Db.

(** * The catalog and its statements *)

Record column := mkColumn { co_type : string; co_not_null : bool; co_default : option string }.
#[global] Instance column_eq_dec : EqDecision column.
Proof. solve_decision. Defined.
(** Primary key: constraint name and columns.  Foreign keys: column, referenced
    table and column; they cascade. *)
Record cat_table := mkCatTable {
  ct_columns : gmap string column; ct_pkey : option (string * list string);
  ct_fkeys : list (string * string * string) }.
Record cat_index := mkIndex { ix_table : string; ix_columns : list string; ix_unique : bool }.
Record catalog := mkCatalog { ca_tables : gmap string cat_table; ca_indexes : gmap string cat_index }.
Definition no_tables : catalog := mkCatalog ∅ ∅.

Inductive ddl :=
| CreateTable (name : string) (columns : list (string * column)) (pkey : list string)
    (fkeys : list (string * string * string))                            (* IF NOT EXISTS *)
| CreateIndex (name table : string) (columns : list string) (unique : bool)  (* IF NOT EXISTS *)
| AddColumn (table name : string) (c : column)                           (* IF NOT EXISTS *)
| DropColumn (table name : string)                                       (* IF EXISTS *)
| DropConstraint (table name : string)                                   (* IF EXISTS *)
| AddPrimaryKey (table : string) (columns : list string)
| AlterType (table name type : string).

Definition undefined_table : err := PgError "42P01".
Definition undefined_column : err := PgError "42703".
Definition invalid_table_definition : err := PgError "42P16".
Definition pkey_name (table : string) : string := String.append table "_pkey".
Definition set_table (name : string) (t : cat_table) (c : catalog) : catalog :=
  mkCatalog (<[name := t]> (ca_tables c)) (ca_indexes c).
(** [ALTER TABLE]: the table must exist. *)
Definition alter_table (name : string) (f : cat_table -> result err cat_table) (c : catalog) :
    result err catalog :=
  match ca_tables c !! name with
  | None => Err undefined_table
  | Some t => match f t with Ok t => Ok (set_table name t c) | Err e => Err e end
  end.
Definition exec_ddl (s : ddl) (c : catalog) : result err catalog :=
  match s with
  | CreateTable name columns pkey fkeys =>
      match ca_tables c !! name with
      | Some _ => Ok c
      | None =>
          if forallb (fun fk : string * string * string => bool_decide (is_Some (ca_tables c !! fk.1.2))) fkeys
          then Ok (set_table name (mkCatTable (list_to_map columns) (Some (pkey_name name, pkey)) fkeys) c)
          else Err undefined_table
      end
  | CreateIndex name table columns unique =>
      match ca_indexes c !! name with
      | Some _ => Ok c
      | None =>
          match ca_tables c !! table with
          | None => Err undefined_table
          | Some t =>
              if forallb (fun col => bool_decide (is_Some (ct_columns t !! col))) columns
              then Ok (mkCatalog (ca_tables c) (<[name := mkIndex table columns unique]> (ca_indexes c)))
              else Err undefined_column
          end
      end
  | AddColumn table name col =>
      alter_table table (fun t =>
        match ct_columns t !! name with
        | Some _ => Ok t
        | None => Ok (mkCatTable (<[name := col]> (ct_columns t)) (ct_pkey t) (ct_fkeys t))
        end) c
  | DropColumn table name =>
      match alter_table table (fun t =>
        Ok (mkCatTable (delete name (ct_columns t))
          (match ct_pkey t with
           | Some (n, cols) => if bool_decide (name ∈ cols) then None else Some (n, cols)
           | None => None end)
          (List.filter (fun fk => negb (bool_decide (fk.1.1 = name))) (ct_fkeys t)))) c with
      | Ok c => Ok (mkCatalog (ca_tables c)
                  (filter (fun kv => ~ (ix_table kv.2 = table /\ name ∈ ix_columns kv.2)) (ca_indexes c)))
      | Err e => Err e
      end
  | DropConstraint table name =>
      alter_table table (fun t =>
        Ok (mkCatTable (ct_columns t)
          (match ct_pkey t with
           | Some (n, cols) => if bool_decide (n = name) then None else Some (n, cols)
           | None => None end) (ct_fkeys t))) c
  | AddPrimaryKey table columns =>
      alter_table table (fun t =>
        match ct_pkey t with
        | Some _ => Err invalid_table_definition
        | None =>
            if forallb (fun col => bool_decide (is_Some (ct_columns t !! col))) columns
            then Ok (mkCatTable (ct_columns t) (Some (pkey_name table, columns)) (ct_fkeys t))
            else Err undefined_column
        end) c
  | AlterType table name type =>
      alter_table table (fun t =>
        match ct_columns t !! name with
        | None => Err undefined_column
        | Some col => Ok (mkCatTable (<[name := mkColumn type (co_not_null col) (co_default col)]> (ct_columns t))
                            (ct_pkey t) (ct_fkeys t))
        end) c
  end.
(** A multi-statement body runs as one implicit transaction. *)
Fixpoint exec_script (l : list ddl) (c : catalog) : result err catalog :=
  match l with
  | [] => Ok c
  | s :: l => match exec_ddl s c with Ok c => exec_script l c | Err e => Err e end
  end.

(** * pgmigrate: the runner *)

Definition StatementTag : string := "-- pgmigrate: ".
(** [^[a-z_][a-z0-9_]*$]. *)
Definition in_range (lo hi : nat) (c : Ascii.ascii) : bool :=
  let n := Ascii.nat_of_ascii c in ((lo <=? n) && (n <=? hi))%nat.
Definition ident_start (c : Ascii.ascii) : bool := in_range 97 122 c || in_range 95 95 c.
Definition ident_char (c : Ascii.ascii) : bool := ident_start c || in_range 48 57 c.
Definition safeTrackerName (s : string) : bool :=
  match String.list_ascii_of_string s with
  | [] => false
  | c :: l => ident_start c && forallb ident_char l
  end.
(** [strings.TrimSpace] at the front, on ASCII white space. *)
Fixpoint trim_left (s : string) : string :=
  match s with
  | String c s' => if in_range 9 13 c || in_range 32 32 c then trim_left s' else s
  | EmptyString => s
  end.

(** The tables a runner works on: the schema, and the tracker tables by name,
    each with the migration names recorded in it. *)
Record mig_tab (S : Type) := mkMigTab { mt_schema : S; mt_trackers : gmap string (gset string) }.
Arguments mkMigTab {S} _ _.
Arguments mt_schema {S} _.
Arguments mt_trackers {S} _.

Section Runner.
Context {S : Type}.

Record Migration := mkMigration {
  mg_Name : string;
  mg_head : string;                       (* the first line of its SQL *)
  mg_SQL : S -> result err S;             (* what executing its SQL does *)
  mg_AlreadyApplied : option (S -> bool)  (* the query of its baseline probe *) }.
Record Runner := mkRunner { rn_Tracker : string; rn_Migrations : list Migration }.

Abbreviation T := (mig_tab S).
Abbreviation DB := (Db T).
Context (r : Runner).

Definition Names : list string := mg_Name <$> rn_Migrations r.

(** The statements: the tracker bootstrap, the applied check, the probe, the
    body, the stamp. *)
Definition create_tracker (t : T) : T :=
  mkMigTab (mt_schema t)
    (<[rn_Tracker r := default ∅ (mt_trackers t !! rn_Tracker r)]> (mt_trackers t)).
Definition tracker_has (name : string) (t : T) : result err bool :=
  match mt_trackers t !! rn_Tracker r with
  | None => Err undefined_table
  | Some names => Ok (bool_decide (name ∈ names))
  end.
Definition run_body (m : Migration) (t : T) : result err T :=
  match mg_SQL m (mt_schema t) with
  | Ok s => Ok (mkMigTab s (mt_trackers t))
  | Err e => Err e
  end.
Definition stamp (name : string) (t : T) : result err T :=
  match mt_trackers t !! rn_Tracker r with
  | None => Err undefined_table
  | Some names => Ok (mkMigTab (mt_schema t) (<[rn_Tracker r := {[name]} ∪ names]> (mt_trackers t)))
  end.
(** A statement given by its effect on the tables. *)
Definition effect (f : T -> result err T) : M DB (result err unit) :=
  statement (fun _ t => match f t with Ok t' => (Ok tt, t') | Err e => (Err e, t) end).

Definition applied (name : string) : M DB (result err bool) :=
  statement (fun _ t => (tracker_has name t, t)).

Definition record_and_commit (m : Migration) (execute : bool) : M DB (exit bool) :=
  or_rollback (Wrap "record") (effect (stamp (mg_Name m))) (fun _ =>
  ret (Commit execute (Wrap "commit"))).
Definition execute_and_record (m : Migration) (execute : bool) : M DB (exit bool) :=
  if execute
  then or_rollback (Wrap "exec") (effect (run_body m)) (fun _ => record_and_commit m execute)
  else record_and_commit m execute.
(** [true]: the migration's SQL was executed; [false]: it was baselined. *)
Definition apply_migration (m : Migration) (baselining : bool) : M DB (result err bool) :=
  transaction (Wrap "begin")
    (or_rollback (Wrap "session timeouts") (exec (fun t => (tt, t))) (fun _ =>
     match mg_AlreadyApplied m with
     | Some probe =>
         if baselining
         then or_rollback (Wrap "baseline probe") (select (fun _ t => probe (mt_schema t)))
                (fun present => execute_and_record m (negb present))
         else execute_and_record m true
     | None => execute_and_record m true
     end)).

Fixpoint run_migrations (ms : list Migration) (baselining : bool) : M DB (option err) :=
  match ms with
  | [] => ret None
  | m :: ms =>
      a <- applied (mg_Name m) ;;
      match a with
      | Err e => ret (Some (Wrap "pgmigrate: check" e))
      | Ok true => run_migrations ms baselining
      | Ok false =>
          x <- apply_migration m baselining ;;
          match x with
          | Err e => ret (Some (Wrap "pgmigrate: apply" e))
          | Ok executed => run_migrations ms (if executed then false else baselining)
          end
      end
  end.
Definition reserved_tag (m : Migration) : bool := String.prefix StatementTag (trim_left (mg_head m)).
Definition Run : M DB (option err) :=
  if negb (safeTrackerName (rn_Tracker r)) then ret (Some (Errorf "pgmigrate: unsafe tracker table name"))
  else if existsb reserved_tag (rn_Migrations r)
  then ret (Some (Errorf "pgmigrate: migration starts with the reserved runner tag"))
  else
    b <- exec (fun t => (tt, create_tracker t)) ;;
    match b with
    | Err e => ret (Some (Wrap "pgmigrate: create tracker" e))
    | Ok _ => run_migrations (rn_Migrations r) true
    end.
End Runner.
Arguments Migration : clear implicits.
Arguments Runner : clear implicits.
(** [Migrate] of a package. *)
Definition Migrate {S} (pkg : string) (r : Runner S) : M (Db (mig_tab S)) (option err) :=
  e <- Run r ;; ret (Wrap (String.append pkg " migrate") <$> e).

(** * The three migration sets *)

Definition not_null (type : string) : column := mkColumn type true None.
Definition with_default (type d : string) : column := mkColumn type true (Some d).
Definition nullable (type : string) : column := mkColumn type false None.
Definition sql (head : string) (l : list ddl) : string * (catalog -> result err catalog) := (head, exec_script l).
Definition migration (name : string) (s : string * (catalog -> result err catalog))
    (probe : option (catalog -> bool)) : Migration catalog := mkMigration name s.1 s.2 probe.

(** [to_regclass(t) IS NOT NULL], and a live column of [t]. *)
Definition to_regclass (t : string) (c : catalog) : bool := bool_decide (is_Some (ca_tables c !! t)).
Definition has_column (t col : string) (c : catalog) : bool :=
  match ca_tables c !! t with Some x => bool_decide (is_Some (ct_columns x !! col)) | None => false end.
Definition column_type (t col : string) (c : catalog) : option string :=
  ca_tables c !! t ≫= fun x => co_type <$> ct_columns x !! col.
Definition primary_key (t : string) (c : catalog) : option (gset string) :=
  ca_tables c !! t ≫= fun x => (fun pk : string * list string => list_to_set pk.2) <$> ct_pkey x.

(** internal/ingest/migrations *)
Definition ingest_0001 := sql "CREATE TABLE IF NOT EXISTS ingest_jobs (" [
  CreateTable "ingest_jobs" [
    ("id", not_null "text"); ("status", not_null "text"); ("total", with_default "int4" "0");
    ("done", with_default "int4" "0"); ("failed", with_default "int4" "0");
    ("errors_json", with_default "text" "[]"); ("created_at", with_default "timestamptz" "now()");
    ("updated_at", with_default "timestamptz" "now()")]%string ["id"%string] [];
  CreateTable "ingest_job_items" [
    ("id", not_null "text"); ("job_id", not_null "text"); ("idempotency_key", not_null "text");
    ("status", with_default "text" "pending"); ("error", with_default "text" "");
    ("created_at", with_default "timestamptz" "now()")]%string ["id"%string]
    [("job_id", "ingest_jobs", "id")]%string;
  CreateIndex "idx_job_items_unique_key" "ingest_job_items" ["job_id"; "idempotency_key"]%string true;
  CreateIndex "idx_jobs_status" "ingest_jobs" ["status"]%string false;
  CreateIndex "idx_job_items_pending" "ingest_job_items" ["job_id"; "status"]%string false].
Definition ingest_0002 := sql "-- The async ingest worker needs each item's payload (the chunk text it sends to" [
  AddColumn "ingest_job_items" "text" (with_default "text" "");
  AddColumn "ingest_job_items" "metadata" (with_default "jsonb" "{}")].
Definition ingest_0003 := sql "-- track_id records the LightRAG track_id assigned on a successful CreateMemory." [
  AddColumn "ingest_job_items" "track_id" (with_default "text" "")].
Definition ingest_runner : Runner catalog := mkRunner "ingest_schema_migrations" [
  migration "0001_jobs" ingest_0001
    (Some (fun c => to_regclass "ingest_jobs" c && to_regclass "ingest_job_items" c));
  migration "0002_job_item_payload" ingest_0002
    (Some (fun c => has_column "ingest_job_items" "text" c && has_column "ingest_job_items" "metadata" c));
  migration "0003_item_track_id" ingest_0003
    (Some (has_column "ingest_job_items" "track_id"))].

(** internal/memory/migrations *)
Definition memory_0001 := sql "CREATE TABLE IF NOT EXISTS deleted_memories (" [
  CreateTable "deleted_memories" [
    ("track_id", not_null "text"); ("deleted_at", with_default "timestamptz" "now()")]%string
    ["track_id"%string] [];
  CreateIndex "deleted_memories_deleted_at_idx" "deleted_memories" ["deleted_at"%string] false].
Definition memory_0002 := sql "CREATE TABLE IF NOT EXISTS memory_sources (" [
  CreateTable "memory_sources" [
    ("repo", not_null "text"); ("file_path", not_null "text"); ("track_id", not_null "text")]%string
    ["repo"; "file_path"; "track_id"]%string [];
  CreateIndex "memory_sources_repo_file" "memory_sources" ["repo"; "file_path"]%string false].
Definition memory_0003 := sql "ALTER TABLE deleted_memories" [
  AddColumn "deleted_memories" "force_reap_attempts" (with_default "int4" "0");
  AddColumn "deleted_memories" "next_force_check_at" (nullable "timestamptz")].
Definition memory_runner : Runner catalog := mkRunner "memory_schema_migrations" [
  migration "0001_tombstones" memory_0001 None;
  migration "0002_memory_sources" memory_0002 None;
  migration "0003_tombstone_backoff" memory_0003 None].

(** internal/codegraph/migrations *)
Definition codegraph_0001 := sql "CREATE TABLE IF NOT EXISTS code_entities (" [
  CreateTable "code_entities" [
    ("repo", not_null "text"); ("id", not_null "text"); ("name", not_null "text"); ("type", not_null "text");
    ("description", with_default "text" ""); ("file_path", with_default "text" "");
    ("properties", with_default "jsonb" "{}")]%string ["repo"; "id"]%string [];
  CreateIndex "idx_code_entities_repo_file" "code_entities" ["repo"; "file_path"]%string false;
  CreateIndex "idx_code_entities_type" "code_entities" ["repo"; "type"]%string false;
  CreateIndex "idx_code_entities_name" "code_entities" ["repo"; "name"]%string false;
  CreateTable "code_edges" [
    ("repo", not_null "text"); ("from_id", not_null "text"); ("to_id", not_null "text");
    ("relation", not_null "text"); ("src_file", with_default "text" "");
    ("properties", with_default "jsonb" "{}")]%string ["repo"; "from_id"; "to_id"; "relation"]%string [];
  CreateIndex "idx_code_edges_to" "code_edges" ["repo"; "to_id"; "relation"]%string false;
  CreateIndex "idx_code_edges_from" "code_edges" ["repo"; "from_id"; "relation"]%string false;
  CreateIndex "idx_code_edges_src_file" "code_edges" ["repo"; "src_file"]%string false].
Definition codegraph_0002 := sql "CREATE TABLE IF NOT EXISTS cross_repo_symbols (" [
  CreateTable "cross_repo_symbols" [
    ("repo", not_null "text"); ("symbol", not_null "text"); ("lang", not_null "text");
    ("kind", with_default "text" ""); ("role", not_null "text"); ("entity_id", not_null "text");
    ("src_file", with_default "text" "")]%string ["repo"; "symbol"; "role"; "entity_id"]%string [];
  CreateIndex "idx_crs_join" "cross_repo_symbols" ["symbol"; "lang"; "role"]%string false;
  CreateIndex "idx_crs_src" "cross_repo_symbols" ["repo"; "src_file"]%string false].
Definition codegraph_0003 := sql "-- Phase 0: graphify-forward-compatible capture. Confidence is promoted to typed" [
  AddColumn "code_edges" "confidence_score" (with_default "float4" "1.0");
  AddColumn "code_edges" "confidence_tier" (with_default "text" "EXTRACTED");
  CreateIndex "code_edges_repo_tier" "code_edges" ["repo"; "confidence_tier"]%string false;
  AddColumn "code_entities" "community" (nullable "int4");
  AddColumn "code_entities" "cohesion" (nullable "float4");
  AddColumn "code_entities" "degree" (nullable "int4");
  AddColumn "code_entities" "betweenness" (nullable "float4");
  AddColumn "code_entities" "source_url" (nullable "text");
  AddColumn "code_entities" "author" (nullable "text");
  AddColumn "code_entities" "captured_at" (nullable "timestamptz");
  AddColumn "code_entities" "line_start" (nullable "int4");
  AddColumn "code_entities" "line_end" (nullable "int4");
  CreateTable "code_hyperedges" [
    ("repo", not_null "text"); ("id", not_null "text"); ("label", not_null "text");
    ("relation", not_null "text"); ("confidence_score", with_default "float4" "1.0");
    ("src_file", not_null "text"); ("properties", with_default "jsonb" "{}")]%string ["repo"; "id"]%string [];
  CreateTable "code_hyperedge_members" [
    ("repo", not_null "text"); ("hyperedge_id", not_null "text"); ("entity_id", not_null "text")]%string
    ["repo"; "hyperedge_id"; "entity_id"]%string [];
  CreateIndex "code_hyperedges_src" "code_hyperedges" ["repo"; "src_file"]%string false].
Definition codegraph_0004 := sql "-- Phase 2: origin-scoped reconcile (extractor), semantic extraction cache," [
  AddColumn "code_edges" "extractor" (with_default "text" "ast");
  AddColumn "code_entities" "extractor" (with_default "text" "ast");
  AddColumn "code_hyperedges" "extractor" (with_default "text" "ast");
  CreateIndex "code_edges_repo_extractor" "code_edges" ["repo"; "extractor"]%string false;
  CreateIndex "code_entities_repo_extractor" "code_entities" ["repo"; "extractor"]%string false;
  CreateIndex "code_hyperedges_repo_extractor" "code_hyperedges" ["repo"; "extractor"]%string false;
  CreateTable "semantic_extractions" [
    ("repo", not_null "text"); ("file_path", not_null "text"); ("content_sha", not_null "text");
    ("extracted_at", with_default "timestamptz" "now()")]%string ["repo"; "file_path"]%string [];
  CreateTable "code_communities" [
    ("repo", not_null "text"); ("community", not_null "int4"); ("label", with_default "text" "");
    ("cohesion", with_default "float4" "0"); ("size", with_default "int4" "0")]%string
    ["repo"; "community"]%string [];
  CreateTable "repo_analytics_state" [
    ("repo", not_null "text"); ("dirty", with_default "bool" "false");
    ("reconciled_at", nullable "timestamptz"); ("computed_at", nullable "timestamptz")]%string
    ["repo"%string] []].
Definition codegraph_0005 := sql "-- Audit fixes 2026-06-15." [
  DropConstraint "code_edges" "code_edges_pkey";
  AddPrimaryKey "code_edges" ["repo"; "from_id"; "to_id"; "relation"; "extractor"]%string;
  DropColumn "code_entities" "cohesion"].
Definition codegraph_0006 := sql "-- Audit round-2 fixes 2026-06-16." [
  DropColumn "code_entities" "degree";
  AlterType "code_entities" "betweenness" "float8"].
Definition codegraph_runner : Runner catalog := mkRunner "codegraph_schema_migrations" [
  migration "0001_codegraph" codegraph_0001
    (Some (fun c => to_regclass "code_entities" c && to_regclass "code_edges" c));
  migration "0002_cross_repo_symbols" codegraph_0002 (Some (to_regclass "cross_repo_symbols"));
  migration "0003_phase0_graphify" codegraph_0003
    (Some (fun c => to_regclass "code_hyperedges" c && to_regclass "code_hyperedge_members" c
             && has_column "code_edges" "confidence_tier" c && has_column "code_entities" "community" c));
  migration "0004_phase2_semantic" codegraph_0004
    (Some (fun c => to_regclass "semantic_extractions" c && to_regclass "code_communities" c
             && to_regclass "repo_analytics_state" c && has_column "code_edges" "extractor" c
             && has_column "code_entities" "extractor" c && has_column "code_hyperedges" "extractor" c));
  migration "0005_audit_fixes" codegraph_0005
    (Some (fun c => bool_decide (primary_key "code_edges" c =
                       Some (list_to_set ["extractor"; "from_id"; "relation"; "repo"; "to_id"]%string))
             && negb (has_column "code_entities" "cohesion" c)));
  migration "0006_audit_r2_fixes" codegraph_0006
    (Some (fun c => negb (has_column "code_entities" "degree" c)
             && bool_decide (column_type "code_entities" "betweenness" c = Some "float8"%string)))].

(** * Several replicas starting at once

    A step of a replica is one statement it depends on: the bootstrap, an applied
    check, a probe, or the rest of the transaction (body, stamp, commit).  The
    probe reads a snapshot that the transaction of another replica may overtake
    before the body gets its lock. *)

Inductive replica :=
| RStart
| RCheck (i : nat) (baselining : bool)
| RApply (i : nat) (baselining : bool)
| RProbed (i : nat) (baselining execute : bool)
| RDone
| RDead.

Section Replicas.
Context {C : Type} (r : Runner C).
Abbreviation T := (mig_tab C).

(** What the transaction of migration [m] makes of the tables. *)
Definition apply_effect (m : Migration C) (execute : bool) (t : T) : result err T :=
  match (if execute then run_body m t else Ok t) with
  | Ok t => stamp r (mg_Name m) t
  | Err e => Err e
  end.
Definition probe_result (m : Migration C) (baselining : bool) (t : T) : bool :=
  match mg_AlreadyApplied m with
  | Some probe => if baselining then negb (probe (mt_schema t)) else true
  | None => true
  end.
Definition replica_step (x : replica) (t : T) : replica * T :=
  match x with
  | RStart => (RCheck 0 true, create_tracker r t)
  | RCheck i b =>
      match rn_Migrations r !! i with
      | None => (RDone, t)
      | Some m => match tracker_has r (mg_Name m) t with
                  | Ok true => (RCheck (S i) b, t)
                  | Ok false => (RApply i b, t)
                  | Err _ => (RDead, t)
                  end
      end
  | RApply i b =>
      match rn_Migrations r !! i with
      | None => (RDead, t)
      | Some m => (RProbed i b (probe_result m b t), t)
      end
  | RProbed i b execute =>
      match rn_Migrations r !! i with
      | None => (RDead, t)
      | Some m => match apply_effect m execute t with
                  | Ok t' => (RCheck (S i) (if execute then false else b), t')
                  | Err _ => (RDead, t)
                  end
      end
  | RDone | RDead => (x, t)
  end.
(** A cluster: replicas may start, step, and die at any point (a failed
    statement, a lost connection, a killed process), before or after the effect. *)
Inductive mig_step : list replica * T -> list replica * T -> Prop :=
| mig_boot rs t : mig_step (rs, t) (rs ++ [RStart], t)
| mig_move rs t i x : rs !! i = Some x ->
    mig_step (rs, t) (<[i := (replica_step x t).1]> rs, (replica_step x t).2)
| mig_die rs t i x : rs !! i = Some x -> mig_step (rs, t) (<[i := RDead]> rs, t)
| mig_die_late rs t i x : rs !! i = Some x ->
    mig_step (rs, t) (<[i := RDead]> rs, (replica_step x t).2).
End Replicas.
