(* ===== verification/MigrateLaws.v ===== *)
(** What the migration runner guarantees: a database left by earlier versions at
    any level is brought to the last one, each missing migration executed exactly
    once, whatever fails on the way; and what several replicas can do to each
    other. *)
From S2P Require Import Prelude GoErr Db Migrate.

#[global] Instance cat_table_eq_dec : EqDecision cat_table.
Proof. solve_decision. Defined.
#[global] Instance cat_index_eq_dec : EqDecision cat_index.
Proof. solve_decision. Defined.
#[global] Instance catalog_eq_dec : EqDecision catalog.
Proof. solve_decision. Defined.
#[global] Instance result_eq_dec {E A} `{EqDecision E, EqDecision A} : EqDecision (result E A).
Proof. solve_decision. Defined.

(** * One transaction *)

Section Transaction.
Context {C : Type} (r : Runner C).
Abbreviation T := (mig_tab C).

Lemma runs_effect (f : T -> result err T) t x t' :
  runs (effect f) t x t' ->
  match x with Ok _ => f t = Ok t' | Err _ => t' = t \/ f t = Ok t' end.
Proof.
  intros H%runs_statement. destruct x.
  - destruct H as [_ H]. destruct (f t); by simplify_eq.
  - destruct H as [->|(_ & a & H)]; [by left|]. destruct (f t); simplify_eq. by right.
Qed.
Lemma runs_applied name t x t' :
  runs (applied r name) t x t' -> t' = t /\ forall b, x = Ok b -> tracker_has r name t = Ok b.
Proof.
  intros H%runs_statement. destruct x as [b|e].
  - destruct H as [_ H]. simplify_eq. split; [done|]. by intros b' [= <-].
  - split; [|done]. destruct H as [->|(_ & a & H)]; [done|]. by simplify_eq.
Qed.
Lemma runs_record (m : Migration C) x t c t' :
  runs (record_and_commit r m x) t c t' ->
  match c with
  | Commit y _ => y = x /\ stamp r (mg_Name m) t = Ok t'
  | Rollback y => exists e, y = Err e
  end.
Proof.
  intros [([] & t1 & Hm & Hk)|(e & -> & _)]%runs_or_rollback; [|by exists (Wrap "record" e)].
  apply runs_effect in Hm. apply runs_ret in Hk as [-> ->]. by split.
Qed.
Lemma runs_execute (m : Migration C) x t c t' :
  runs (execute_and_record r m x) t c t' ->
  match c with
  | Commit y _ => y = x /\ apply_effect r m x t = Ok t'
  | Rollback y => exists e, y = Err e
  end.
Proof.
  unfold execute_and_record, apply_effect. destruct x; [|apply runs_record].
  intros [([] & t1 & Hm & Hk)|(e & -> & _)]%runs_or_rollback; [|by exists (Wrap "exec" e)].
  apply runs_effect in Hm. rewrite Hm. by apply runs_record in Hk.
Qed.

(** [apply_migration] has the effect of its transaction or none. *)
Lemma runs_apply (m : Migration C) b t x t' :
  runs (apply_migration r m b) t x t' ->
  (t' = t /\ exists e, x = Err e) \/
  (apply_effect r m (probe_result m b t) t = Ok t' /\
   (x = Ok (probe_result m b t) \/ exists e, x = Err e)).
Proof.
  assert (Hbody : forall t c t', runs (or_rollback (Wrap "session timeouts") (exec (fun t : T => (tt, t))) (fun _ =>
     match mg_AlreadyApplied m with
     | Some probe =>
         if b
         then or_rollback (Wrap "baseline probe") (select (fun _ t => probe (mt_schema t)))
                (fun present => execute_and_record r m (negb present))
         else execute_and_record r m true
     | None => execute_and_record r m true
     end)) t c t' ->
    match c with
    | Commit y _ => y = probe_result m b t /\ apply_effect r m (probe_result m b t) t = Ok t'
    | Rollback y => exists e, y = Err e
    end).
  { clear. intros t c t' [([] & t1 & Hm & Hk)|(e & -> & _)]%runs_or_rollback; [|eauto].
    apply runs_exec in Hm. simplify_eq. unfold probe_result.
    destruct (mg_AlreadyApplied m) as [p|], b; try by apply runs_execute in Hk.
    apply runs_or_rollback in Hk as [(y & t2 & Hs & Hk)|(e & -> & _)]; [|eauto].
    apply runs_select in Hs as [-> [e ->]]. by apply runs_execute in Hk. }
  intros [[-> Hr]|(a & w & Hb & Hx)]%runs_transaction.
  - left. split; [done|]. destruct x as [y|e]; [|eauto].
    destruct (Hr y eq_refl) as [t1 H1]. apply Hbody in H1 as [e He]. done.
  - right. apply Hbody in Hb as [-> He]. by split.
Qed.
Lemma calm_apply (m : Migration C) b t t' :
  apply_effect r m (probe_result m b t) t = Ok t' ->
  apply_migration r m b (mkDb t []) = (Ok (probe_result m b t), mkDb t' []).
Proof.
  unfold apply_effect, probe_result, apply_migration, transaction, or_rollback, execute_and_record,
    record_and_commit, run_body, or_rollback, effect, select, exec, statement, bind, ret, next. simpl.
  destruct (mg_AlreadyApplied m) as [p|], b; simpl;
    try destruct (p (mt_schema t)) eqn:Ep; simpl; rewrite ?Ep; simpl;
    destruct (mg_SQL m (mt_schema t)); simpl; intros He; simplify_eq; by rewrite He.
Qed.
End Transaction.

(** * Levels

    [sch m] is the schema after the first [m] migrations.  From [base] on every
    migration takes one level to the next, and a probe recognises exactly the
    levels that have its migration. *)
Record chain_of {C} (r : Runner C) (sch : nat -> C) (base : nat) : Prop := {
  ch_names : NoDup (Names r);
  ch_step i m : (base <= i)%nat -> rn_Migrations r !! i = Some m -> mg_SQL m (sch i) = Ok (sch (S i));
  ch_probe i m p k : rn_Migrations r !! i = Some m -> mg_AlreadyApplied m = Some p ->
    (base <= k <= length (rn_Migrations r))%nat -> p (sch k) = bool_decide (i < k)%nat }.
Arguments ch_names {C r sch base}.
Arguments ch_step {C r sch base}.
Arguments ch_probe {C r sch base}.
Definition all_probed {C} (r : Runner C) : Prop :=
  Forall (fun m => is_Some (mg_AlreadyApplied m)) (rn_Migrations r).

Section Chain.
Context {C : Type} (r : Runner C) (sch : nat -> C) (base : nat) (Hch : chain_of r sch base).
Abbreviation T := (mig_tab C).
Abbreviation n := (length (rn_Migrations r)).
#[local] Open Scope nat_scope.

Definition stamped (j : nat) : gset string := list_to_set (take j (Names r)).
(** Schema at level [m], the first [j] migrations recorded. *)
Definition at_level (j m : nat) (t : T) : Prop :=
  mt_schema t = sch m /\ mt_trackers t !! rn_Tracker r = Some (stamped j).
(** The same before the tracker table need exist. *)
Definition legacy (j m : nat) (t : T) : Prop :=
  mt_schema t = sch m /\ default ∅ (mt_trackers t !! rn_Tracker r) = stamped j.

Lemma at_level_legacy j m t : at_level j m t -> legacy j m t.
Proof. intros [Hs Ht]. split; [done|by rewrite Ht]. Qed.
Lemma create_tracker_level j m t : legacy j m t -> at_level j m (create_tracker r t).
Proof. intros [Hs Ht]. split; [done|]. simpl. by rewrite lookup_insert_eq, Ht. Qed.

Lemma name_stamped i m j : rn_Migrations r !! i = Some m -> (mg_Name m ∈ stamped j <-> i < j).
Proof using Hch.
  intros Hi. unfold stamped. rewrite elem_of_list_to_set, list_elem_of_lookup.
  assert (Hn : Names r !! i = Some (mg_Name m)) by (unfold Names; by rewrite list_lookup_fmap, Hi).
  split.
  - intros (x & Hx). apply lookup_take_Some in Hx as [Hx Hlt].
    by rewrite (NoDup_lookup _ _ _ _ (ch_names Hch) Hn Hx).
  - intros Hlt. exists i. by rewrite lookup_take_lt.
Qed.
Lemma tracker_has_level i m j k t :
  at_level j k t -> rn_Migrations r !! i = Some m -> tracker_has r (mg_Name m) t = Ok (bool_decide (i < j)).
Proof using Hch.
  intros [_ Ht] Hi. unfold tracker_has. rewrite Ht. f_equal. apply bool_decide_ext. by apply name_stamped.
Qed.
Lemma stamped_S j m : rn_Migrations r !! j = Some m -> stamped (S j) = {[mg_Name m]} ∪ stamped j.
Proof.
  intros Hj. unfold stamped. erewrite take_S_r by (unfold Names; by rewrite list_lookup_fmap, Hj).
  rewrite list_to_set_app_L. simpl. by rewrite union_empty_r_L, union_comm_L.
Qed.
Lemma stamp_level j m k t : at_level j k t -> rn_Migrations r !! j = Some m ->
  exists t', stamp r (mg_Name m) t = Ok t' /\ at_level (S j) k t'.
Proof.
  intros [Hs Ht] Hj. unfold stamp. rewrite Ht. eexists. split; [done|]. split; [done|]. simpl.
  by rewrite lookup_insert_eq, (stamped_S _ _ Hj).
Qed.

(** Baselining may end only when nothing below the schema's level is left. *)
Definition may_run (b : bool) (j k : nat) : Prop :=
  j <= k <= n /\ base <= k /\ (b = false -> j = k) /\ (all_probed r \/ j = k).
Lemma apply_level j m k b t :
  at_level j k t -> rn_Migrations r !! j = Some m -> may_run b j k ->
  let x := probe_result m b t in
  exists t' k', apply_effect r m x t = Ok t' /\ at_level (S j) k' t' /\ k <= k' /\
    may_run (if x then false else b) (S j) k'.
Proof using Hch.
  intros Hl Hj (Hjk & Hb & Hbl & Hp) x.
  assert (Hlt : j < n) by by eapply lookup_lt_Some.
  assert (Hx : x = bool_decide (j = k)).
  { unfold x, probe_result. destruct (mg_AlreadyApplied m) as [p|] eqn:Em.
    - destruct b; [|by rewrite Hbl, bool_decide_eq_true_2].
      rewrite (proj1 Hl), (ch_probe Hch j m p k Hj Em) by lia.
      destruct (decide (j < k)); [rewrite (bool_decide_eq_true_2 (j < k)), (bool_decide_eq_false_2 (j = k)) by lia
        |rewrite (bool_decide_eq_false_2 (j < k)), (bool_decide_eq_true_2 (j = k)) by lia]; done.
    - destruct Hp as [Hp| ->]; [|by rewrite bool_decide_eq_true_2].
      unfold all_probed in Hp. rewrite Forall_lookup in Hp. destruct (Hp _ _ Hj). congruence. }
  rewrite Hx. unfold apply_effect. case_bool_decide as Hk.
  - subst k. unfold run_body. rewrite (proj1 Hl), (ch_step Hch j m) by (done || lia).
    destruct (stamp_level j m (S j) (mkMigTab (sch (S j)) (mt_trackers t))) as (t' & -> & Hl');
      [split; [done|apply Hl]|done|]. exists t', (S j). unfold may_run. split_and!; try done; try lia.
  - destruct (stamp_level j m k t Hl Hj) as (t' & -> & Hl'). exists t', k. unfold may_run.
    split_and!; try done; try lia; [|by destruct Hp as [?|?]; [left|lia]].
    intros ->. specialize (Hbl eq_refl). lia.
Qed.

(** What a run leaves: the levels only grow, and a successful one is complete. *)
Definition progress (j k : nat) (x : option err) (t' : T) : Prop :=
  exists j' k', at_level j' k' t' /\ j <= j' /\ k <= k' /\ may_run true j' k' /\
    (x = None -> j' = n /\ k' = n).
Lemma may_run_true b j k : may_run b j k -> may_run true j k.
Proof. unfold may_run. intros (? & ? & _ & ?). split_and!; try done; lia. Qed.
Lemma progress_here j k b t e : at_level j k t -> may_run b j k -> progress j k (Some e) t.
Proof. intros Hl Hm%may_run_true. exists j, k. by split_and!. Qed.
Lemma progress_le j k j1 k1 x t' : progress j1 k1 x t' -> j <= j1 -> k <= k1 -> progress j k x t'.
Proof. intros (j' & k' & ? & ? & ? & ? & ?) ? ?. exists j', k'. split_and!; try done; lia. Qed.

Lemma runs_migrations ms i : rn_Migrations r = take i (rn_Migrations r) ++ ms -> length ms + i = n ->
  forall b j k t x t', at_level j k t -> may_run b j k -> i <= j ->
  runs (run_migrations r ms b) t x t' -> progress j k x t'.
Proof using Hch.
  revert i. induction ms as [|m ms IH]; intros i Hms Hlen b j k t x t' Hl Hm Hij Hr; simpl in Hlen.
  - apply runs_ret in Hr as [-> ->]. exists j, k. pose proof (may_run_true _ _ _ Hm).
    destruct Hm as (? & ? & ? & ?). split_and!; try done; try lia.
  - assert (Hi : rn_Migrations r !! i = Some m).
    { rewrite Hms, lookup_app_r; rewrite length_take; [|lia]. replace (i - _) with 0 by lia. done. }
    assert (Hms' : rn_Migrations r = take (S i) (rn_Migrations r) ++ ms).
    { rewrite (take_S_r _ _ _ Hi), <- app_assoc. done. }
    cbn [run_migrations] in Hr. apply runs_bind in Hr as (a & t1 & [-> Ha]%runs_applied & Hr).
    destruct a as [[|]|e]; [| |by apply runs_ret in Hr as [-> ->]; eapply progress_here].
    + specialize (Ha _ eq_refl). rewrite (tracker_has_level i m j k t Hl Hi) in Ha.
      injection Ha as Ha%bool_decide_eq_true. eapply (IH (S i)); try done; lia.
    + specialize (Ha _ eq_refl). rewrite (tracker_has_level i m j k t Hl Hi) in Ha.
      injection Ha as Ha%bool_decide_eq_false. assert (i = j) as -> by lia.
      destruct (apply_level j m k b t Hl Hi Hm) as (t2 & k2 & He & Hl2 & Hk2 & Hm2).
      apply runs_bind in Hr as (y & t3 & Hy%runs_apply & Hr).
      destruct Hy as [[-> [e ->]]|[Ha' Hy]].
      * apply runs_ret in Hr as [-> ->]. by eapply progress_here.
      * rewrite He in Ha'. simplify_eq. destruct Hy as [-> |[e ->]].
        -- eapply progress_le; [eapply (IH (S j)); try done; lia|lia|done].
        -- apply runs_ret in Hr as [-> ->]. eapply progress_le; [by eapply progress_here|lia|done].
Qed.
Lemma calm_migrations ms i : rn_Migrations r = take i (rn_Migrations r) ++ ms -> length ms + i = n ->
  forall b j k t, at_level j k t -> may_run b j k -> i <= j ->
  exists t', run_migrations r ms b (mkDb t []) = (None, mkDb t' []).
Proof using Hch.
  revert i. induction ms as [|m ms IH]; intros i Hms Hlen b j k t Hl Hm Hij; simpl in Hlen; [by exists t|].
  assert (Hi : rn_Migrations r !! i = Some m).
  { rewrite Hms, lookup_app_r; rewrite length_take; [|lia]. replace (i - _) with 0 by lia. done. }
  assert (Hms' : rn_Migrations r = take (S i) (rn_Migrations r) ++ ms).
  { rewrite (take_S_r _ _ _ Hi), <- app_assoc. done. }
  cbn [run_migrations].
  assert (Ha : applied r (mg_Name m) (mkDb t []) = (Ok (bool_decide (i < j)), mkDb t [])).
  { unfold applied, statement, bind, next. simpl. by rewrite (tracker_has_level i m j k t Hl Hi). }
  erewrite bind_run by exact Ha. case_bool_decide; [eapply (IH (S i)); try done; lia|].
  assert (i = j) as -> by lia.
  destruct (apply_level j m k b t Hl Hi Hm) as (t2 & k2 & He & Hl2 & _ & Hm2).
  erewrite bind_run by by apply calm_apply. eapply (IH (S j)); try done; lia.
Qed.
End Chain.
Arguments legacy {C}.
Arguments at_level {C}.
Arguments progress {C}.
Arguments stamped {C}.

(** * Replicas

    Either every migration may be run again at any later level, or ([quiet]) the
    schema is already complete and every migration has its probe. *)
Section Replicas.
Context {C : Type} (r : Runner C) (sch : nat -> C) (base : nat) (Hch : chain_of r sch base).
Context (quiet : bool).
Abbreviation n := (length (rn_Migrations r)).
#[local] Open Scope nat_scope.
Definition rerunnable : Prop := forall i m k, base <= k <= n -> i < k ->
  rn_Migrations r !! i = Some m -> mg_SQL m (sch k) = Ok (sch k).
Hypothesis (Hmode : if quiet then all_probed r /\ base = n else rerunnable).

Definition replica_ok (j k : nat) (x : replica) : Prop :=
  match x with
  | RStart | RDead => True
  | RCheck i b | RApply i b => i <= j /\ (quiet = true -> b = true)
  | RProbed i b e => i <= j /\ (quiet = true -> b = true /\ e = false) /\ (e = false -> i < k)
  | RDone => j = n
  end.
Definition cluster_inv (st : list replica * mig_tab C) : Prop :=
  exists j k, legacy r sch j k st.2 /\ j <= k <= n /\ base <= k /\ Forall (replica_ok j k) st.1.

Lemma replica_ok_mono j k j' k' x : replica_ok j k x -> j <= j' <= n -> k <= k' -> replica_ok j' k' x.
Proof using. destruct x; simpl; intros; try done; repeat split; try naive_solver lia; lia. Qed.
Lemma legacy_tracker_has i m j k t b :
  legacy r sch j k t -> rn_Migrations r !! i = Some m -> tracker_has r (mg_Name m) t = Ok b -> b = bool_decide (i < j).
Proof using Hch.
  intros [_ Ht] Hi. unfold tracker_has. destruct (mt_trackers t !! rn_Tracker r) eqn:E; [|done].
  simpl in Ht. subst g. intros [= <-]. apply bool_decide_ext. by eapply name_stamped.
Qed.
(** Recording a migration extends the recorded prefix or leaves it. *)
Lemma stamp_prefix i m j k t t' :
  legacy r sch j k t -> rn_Migrations r !! i = Some m -> i <= j -> stamp r (mg_Name m) t = Ok t' ->
  exists j', legacy r sch j' k t' /\ j' = Nat.max j (S i).
Proof using Hch.
  intros [Hs Ht] Hi Hij. unfold stamp. destruct (mt_trackers t !! rn_Tracker r) eqn:E; [|done].
  simpl in Ht. subst g. intros [= <-]. eexists. split; [|done].
  split; [done|]. simpl. rewrite lookup_insert_eq. simpl.
  destruct (decide (i < j)) as [Hlt|].
  - rewrite Nat.max_l by lia. apply subseteq_union_1_L, singleton_subseteq_l. by eapply name_stamped.
  - assert (i = j) as -> by lia. rewrite Nat.max_r by lia. symmetry. by apply stamped_S.
Qed.
Lemma probed_ok i m j k b t :
  legacy r sch j k t -> rn_Migrations r !! i = Some m -> base <= k <= n -> (quiet = true -> b = true) ->
  let e := probe_result m b t in (quiet = true -> b = true /\ e = false) /\ (e = false -> i < k).
Proof using Hch Hmode.
  intros [Hs _] Hi Hk Hb e. assert (i < n) by by eapply lookup_lt_Some.
  unfold e, probe_result. rewrite Hs. split.
  - intros Hq. specialize (Hb Hq). subst b. rewrite Hq in Hmode. destruct Hmode as [Hp Hn].
    unfold all_probed in Hp. rewrite Forall_lookup in Hp. destruct (Hp _ _ Hi) as [p Ep]. rewrite Ep.
    rewrite (ch_probe Hch i m p k Hi Ep) by lia. rewrite bool_decide_eq_true_2 by lia. done.
  - destruct (mg_AlreadyApplied m) as [p|] eqn:Ep, b; try done.
    rewrite (ch_probe Hch i m p k Hi Ep) by lia. intros Hx%negb_false_iff%bool_decide_eq_true. done.
Qed.
Lemma applied_ok i m j k e t t' :
  legacy r sch j k t -> rn_Migrations r !! i = Some m -> i <= j -> j <= k <= n -> base <= k ->
  (quiet = true -> e = false) -> (e = false -> i < k) -> apply_effect r m e t = Ok t' ->
  exists j' k', legacy r sch j' k' t' /\ j <= j' /\ k <= k' /\ S i <= j' /\ j' <= k' <= n.
Proof using Hch Hmode.
  intros Hl Hi Hij Hjk Hb Hq He. assert (i < n) by by eapply lookup_lt_Some.
  unfold apply_effect. destruct e.
  - assert (quiet = false) as Hq' by (destruct quiet; naive_solver). rewrite Hq' in Hmode.
    unfold run_body. rewrite (proj1 Hl). destruct (decide (i < k)).
    + rewrite (Hmode i m k) by (done || lia). intros Hst.
      assert (Hl2 : legacy r sch j k (mkMigTab (sch k) (mt_trackers t))) by (split; [done|apply Hl]).
      destruct (stamp_prefix i m j k _ t' Hl2 Hi Hij Hst) as (j' & Hl' & ->).
      exists (Nat.max j (S i)), k. split_and!; (done || lia).
    + assert (i = k /\ j = k) as [-> ->] by lia. rewrite (ch_step Hch k m) by (done || lia). intros Hst.
      assert (Hl2 : legacy r sch k (S k) (mkMigTab (sch (S k)) (mt_trackers t))) by (split; [done|apply Hl]).
      destruct (stamp_prefix k m k (S k) _ t' Hl2 Hi Hij Hst) as (j' & Hl' & ->).
      exists (Nat.max k (S k)), (S k). split_and!; (done || lia).
  - intros Hst. destruct (stamp_prefix i m j k t t' Hl Hi Hij Hst) as (j' & Hl' & ->).
    specialize (He eq_refl). exists (Nat.max j (S i)), k. split_and!; (done || lia).
Qed.

Lemma replica_step_ok rs t i x j k :
  legacy r sch j k t -> j <= k <= n -> base <= k -> Forall (replica_ok j k) rs -> rs !! i = Some x ->
  let q := replica_step r x t in
  exists j' k', legacy r sch j' k' q.2 /\ j <= j' /\ k <= k' /\ j' <= k' <= n /\ replica_ok j' k' q.1.
Proof using Hch Hmode.
  intros Hl Hjk Hb Hrs Hi. rewrite Forall_lookup in Hrs. specialize (Hrs _ _ Hi).
  destruct x as [|p b|p b|p b e| |]; simpl in Hrs |- *; try solve [exists j, k; split_and!; try done; lia].
  - exists j, k. split_and!; try done; try lia. apply at_level_legacy. by apply create_tracker_level.
  - destruct Hrs as [Hp Hq]. destruct (rn_Migrations r !! p) as [m|] eqn:Em.
    + destruct (tracker_has r (mg_Name m) t) as [[|]|] eqn:Ht; exists j, k; split_and!; try done; try lia; simpl.
      split; [|done]. pose proof (legacy_tracker_has _ _ _ _ _ _ Hl Em Ht) as Hb'.
      symmetry in Hb'. apply bool_decide_eq_true in Hb'. lia.
    + apply lookup_ge_None in Em. exists j, k. split_and!; try done; simpl; lia.
  - destruct Hrs as [Hp Hq]. destruct (rn_Migrations r !! p) as [m|] eqn:Em; [|solve [exists j, k; split_and!; try done; lia]].
    exists j, k. split_and!; try done; try lia; simpl. split; [done|]. eapply probed_ok; [exact Hl|exact Em|lia|done].
  - destruct Hrs as (Hp & Hq & He). destruct (rn_Migrations r !! p) as [m|] eqn:Em; [|solve [exists j, k; split_and!; try done; lia]].
    destruct (apply_effect r m e t) as [t'|] eqn:Ea; [|solve [exists j, k; split_and!; try done; lia]].
    destruct (applied_ok p m j k e t t' Hl Em Hp Hjk Hb (fun h => proj2 (Hq h)) He Ea)
      as (j' & k' & Hl' & Hj & Hk & HS & Hjk').
    exists j', k'. split_and!; try done; simpl; try lia. split; [done|]. intros h. destruct (Hq h) as [-> ->]. done.
Qed.
Lemma cluster_inv_step st st' : cluster_inv st -> mig_step r st st' -> cluster_inv st'.
Proof using Hch Hmode.
  intros (j & k & Hl & Hjk & Hb & Hrs) Hst.
  assert (Hdead : forall i, Forall (replica_ok j k) (<[i := RDead]> st.1)) by (intros; by apply Forall_insert).
  assert (Hmono : forall j' k', j <= j' <= n -> k <= k' -> Forall (replica_ok j' k') st.1).
  { intros. eapply Forall_impl; [exact Hrs|]. intros x Hx. by eapply replica_ok_mono. }
  destruct Hst as [rs t|rs t i x Hi|rs t i x Hi|rs t i x Hi]; simpl in *.
  - exists j, k. simpl. split_and!; try done; try lia. rewrite Forall_app. split; [done|]. by repeat constructor.
  - destruct (replica_step_ok rs t i x j k Hl Hjk Hb Hrs Hi) as (j' & k' & ? & ? & ? & ? & ?).
    exists j', k'. simpl. split_and!; try done; try lia. apply Forall_insert; [apply Hmono; lia|done].
  - exists j, k. simpl. split_and!; try done; lia.
  - destruct (replica_step_ok rs t i x j k Hl Hjk Hb Hrs Hi) as (j' & k' & ? & ? & ? & ? & ?).
    exists j', k'. simpl. split_and!; try done; try lia. apply Forall_insert; [apply Hmono; lia|done].
Qed.
Lemma cluster_inv_reachable st st' : cluster_inv st -> rtc (mig_step r) st st' -> cluster_inv st'.
Proof using Hch Hmode. intros Hi Hr. induction Hr; [done|]. eauto using cluster_inv_step. Qed.
End Replicas.
Arguments rerunnable {C}.

(** * The three sets are chains *)

Definition schema_at (r : Runner catalog) (k : nat) : catalog :=
  foldl (fun c m => match mg_SQL m c with Ok c' => c' | Err _ => c end) no_tables (take k (rn_Migrations r)).
Definition probe_ok (r : Runner catalog) (im : nat * Migration catalog) : bool :=
  match mg_AlreadyApplied im.2 with
  | None => true
  | Some p => forallb (fun k => bool_decide (p (schema_at r k) = bool_decide (im.1 < k)%nat))
                (seq 0 (S (length (rn_Migrations r))))
  end.
Definition step_ok (r : Runner catalog) (im : nat * Migration catalog) : bool :=
  match mg_SQL im.2 (schema_at r im.1) with Ok _ => true | Err _ => false end.
Definition indexed {A} (l : list A) : list (nat * A) := imap pair l.
Definition chain_check (r : Runner catalog) : bool :=
  bool_decide (NoDup (Names r)) && forallb (fun im => step_ok r im && probe_ok r im) (indexed (rn_Migrations r)).
Definition rerun_check (r : Runner catalog) : bool :=
  forallb (fun im => forallb (fun k => negb (bool_decide (im.1 < k)%nat) ||
      bool_decide (mg_SQL im.2 (schema_at r k) = Ok (schema_at r k))) (seq 0 (S (length (rn_Migrations r)))))
    (indexed (rn_Migrations r)).

Lemma forallb_indexed {A} (f : nat * A -> bool) (l : list A) i x :
  forallb f (indexed l) = true -> l !! i = Some x -> f (i, x) = true.
Proof.
  rewrite List.forallb_forall. intros Hf Hx. apply Hf, list_elem_of_In, list_elem_of_lookup. exists i.
  unfold indexed. by rewrite list_lookup_imap, Hx.
Qed.
Lemma forallb_seq f n k : forallb f (seq 0 (S n)) = true -> (k <= n)%nat -> f k = true.
Proof.
  rewrite List.forallb_forall. intros Hf Hk. apply Hf, List.in_seq. lia.
Qed.
Lemma schema_at_S r i m : rn_Migrations r !! i = Some m ->
  schema_at r (S i) = match mg_SQL m (schema_at r i) with Ok c => c | Err _ => schema_at r i end.
Proof. intros Hi. unfold schema_at. by rewrite (take_S_r _ _ _ Hi), foldl_snoc. Qed.
Lemma chain_checked r : chain_check r = true -> chain_of r (schema_at r) 0.
Proof.
  intros [Hn%bool_decide_eq_true Hf]%andb_prop. split; [done| |].
  - intros i m _ Hi. apply (forallb_indexed _ _ _ _ Hf) in Hi as Hx. apply andb_prop in Hx as [Hx _].
    unfold step_ok in Hx. simpl in Hx. rewrite (schema_at_S _ _ _ Hi). by destruct (mg_SQL m (schema_at r i)).
  - intros i m p k Hi Hp Hk. apply (forallb_indexed _ _ _ _ Hf) in Hi. apply andb_prop in Hi as [_ Hx].
    unfold probe_ok in Hx. cbn [fst snd] in Hx. rewrite Hp in Hx.
    apply (forallb_seq _ _ k) in Hx; [by apply bool_decide_eq_true in Hx|lia].
Qed.
Lemma rerun_checked r : rerun_check r = true -> rerunnable r (schema_at r) 0.
Proof.
  intros Hf i m k Hk Hik Hi. apply (forallb_indexed _ _ _ _ Hf) in Hi. cbn [fst snd] in Hi.
  apply (forallb_seq _ _ k) in Hi; [|lia]. cbv beta in Hi. rewrite bool_decide_eq_true_2 in Hi by done.
  by apply bool_decide_eq_true in Hi.
Qed.
Definition packages : list (Runner catalog) := [ingest_runner; memory_runner; codegraph_runner].
Lemma packages_checked : forallb chain_check packages = true.
Proof. by vm_compute. Qed.
Lemma packages_chain r : r ∈ packages -> chain_of r (schema_at r) 0.
Proof.
  intros Hr. apply chain_checked. pose proof packages_checked as Hp.
  rewrite List.forallb_forall in Hp. by apply Hp, list_elem_of_In.
Qed.

(** A runner whose migrations also write down that they were executed. *)
Definition log_body (m : Migration catalog) : Migration (catalog * list string) :=
  mkMigration (mg_Name m) (mg_head m)
    (fun s => match mg_SQL m s.1 with Ok c => Ok (c, s.2 ++ [mg_Name m]) | Err e => Err e end)
    ((fun p s => p s.1) <$> mg_AlreadyApplied m).
Definition logged (r : Runner catalog) : Runner (catalog * list string) :=
  mkRunner (rn_Tracker r) (log_body <$> rn_Migrations r).
Definition executed_from (r : Runner catalog) (k i : nat) : catalog * list string :=
  (schema_at r i, drop k (take i (Names r))).
Lemma logged_names r : Names (logged r) = Names r.
Proof. unfold Names, logged. simpl. by rewrite <- list_fmap_compose. Qed.
Lemma logged_length r : length (rn_Migrations (logged r)) = length (rn_Migrations r).
Proof. apply length_fmap. Qed.
Lemma logged_chain r k : chain_of r (schema_at r) 0 -> chain_of (logged r) (executed_from r k) k.
Proof.
  intros [Hn Hs Hp]. split; [by rewrite logged_names| |].
  - intros i m Hki Hi. simpl in Hi. rewrite list_lookup_fmap in Hi.
    destruct (rn_Migrations r !! i) as [m0|] eqn:E; simplify_eq/=. rewrite (Hs i m0) by (done || lia).
    unfold executed_from. do 2 f_equal.
    assert (Hni : Names r !! i = Some (mg_Name m0)) by (unfold Names; by rewrite list_lookup_fmap, E).
    rewrite (take_S_r _ _ _ Hni), drop_app_le; [done|].
    rewrite length_take. apply lookup_lt_Some in Hni. lia.
  - intros i m p k' Hi Hpr Hk. simpl in Hi. rewrite list_lookup_fmap in Hi.
    destruct (rn_Migrations r !! i) as [m0|] eqn:E; simplify_eq/=.
    destruct (mg_AlreadyApplied m0) as [p0|] eqn:E0; simplify_eq/=.
    apply (Hp i m0 p0 k' E E0). rewrite length_fmap in Hk. lia.
Qed.
Lemma logged_probed r : all_probed r -> all_probed (logged r).
Proof.
  unfold all_probed, logged. simpl. rewrite Forall_fmap. intros Hr. eapply Forall_impl; [exact Hr|]. intros m [p Hp]. simpl. by rewrite Hp.
Qed.

(** * What a deployment can rely on *)

(** One start of the service: a run that succeeded or not. *)
Definition attempt {C} (r : Runner C) (t t' : mig_tab C) : Prop := exists x, runs (Run r) t x t'.
Definition accepted {C} (r : Runner C) : bool :=
  safeTrackerName (rn_Tracker r) && negb (existsb reserved_tag (rn_Migrations r)).

Section Runs.
Context {C : Type} (r : Runner C) (sch : nat -> C) (base : nat) (Hch : chain_of r sch base).
Hypothesis (Hacc : accepted r = true).
Abbreviation n := (length (rn_Migrations r)).
#[local] Open Scope nat_scope.
Definition resumable (j k : nat) (t : mig_tab C) : Prop := legacy r sch j k t /\ may_run r base true j k.

Lemma Run_accepted : Run r = (b <- exec (fun t => (tt, create_tracker r t)) ;;
    match b with
    | Err e => ret (Some (Wrap "pgmigrate: create tracker" e))
    | Ok _ => run_migrations r (rn_Migrations r) true
    end).
Proof using Hacc.
  unfold accepted in Hacc. apply andb_prop in Hacc as [H1 H2]. unfold Run. rewrite H1. simpl.
  by destruct (existsb _ _).
Qed.
Lemma runs_Run j k t x t' :
  resumable j k t -> runs (Run r) t x t' ->
  exists j' k', resumable j' k' t' /\ j <= j' /\ k <= k' /\
    (x = None -> j' = n /\ k' = n /\ at_level r sch n n t').
Proof using Hch Hacc.
  intros [Hl Hm] Hr. rewrite Run_accepted in Hr. apply runs_bind in Hr as (b & t1 & Hb%runs_exec & Hr).
  assert (Hhere : forall e, x = Some e -> t' = t \/ t' = create_tracker r t ->
    exists j' k', resumable j' k' t' /\ j <= j' /\ k <= k' /\ (x = None -> j' = n /\ k' = n /\ at_level r sch n n t')).
  { intros e -> Ht. exists j, k. split_and!; try done; try lia. split; [|done].
    destruct Ht as [-> | ->]; [done|]. by apply at_level_legacy, create_tracker_level. }
  destruct b as [u|e].
  - simplify_eq/=. eapply (runs_migrations r sch base Hch _ 0 eq_refl (Nat.add_0_r _)) in Hr as (j' & k' & Hl' & ? & ? & Hm' & Hx);
      [|by apply create_tracker_level|exact Hm|lia].
    exists j', k'. split_and!; try done; [split; [by apply at_level_legacy|done]|].
    intros Hn. destruct (Hx Hn) as [-> ->]. done.
  - apply runs_ret in Hr as [-> ->]. eapply Hhere; [done|]. by destruct Hb as [-> | ->]; auto.
Qed.
Lemma attempts_resumable j k t t' : resumable j k t -> rtc (attempt r) t t' ->
  exists j' k', resumable j' k' t' /\ j <= j' /\ k <= k'.
Proof using Hch Hacc.
  intros Hr H. revert j k Hr. induction H as [|t t1 t2 [x Hx] _ IH]; intros j k Hr; [by exists j, k|].
  destruct (runs_Run _ _ _ _ _ Hr Hx) as (j1 & k1 & Hr1 & ? & ? & _).
  destruct (IH _ _ Hr1) as (j2 & k2 & ? & ? & ?). exists j2, k2. split_and!; try done; lia.
Qed.
Lemma calm_Run j k t : resumable j k t -> exists t', Run r (mkDb t []) = (None, mkDb t' []).
Proof using Hch Hacc.
  intros [Hl Hm]. rewrite Run_accepted.
  destruct (calm_migrations r sch base Hch (rn_Migrations r) 0 eq_refl (Nat.add_0_r _) true j k (create_tracker r t))
    as [t' Ht]; [by apply create_tracker_level|done|lia|]. by exists t'.
Qed.
End Runs.

(** What a package needs of the database it finds: the first [j] migrations
    recorded, the schema of the first [k]; without probes, exactly the recorded. *)
Definition left_by_earlier (r : Runner catalog) (j k : nat) : Prop :=
  r ∈ packages /\ (j <= k <= length (rn_Migrations r))%nat /\ (r = memory_runner -> j = k).
Lemma packages_accepted r : r ∈ packages -> accepted (logged r) = true.
Proof.
  intros Hr. assert (Ha : forallb (fun r => accepted (logged r)) packages = true) by by vm_compute.
  rewrite List.forallb_forall in Ha. by apply Ha, list_elem_of_In.
Qed.
Lemma package_probed r : r ∈ packages -> r = memory_runner \/ all_probed r.
Proof.
  intros [->|[->|[->|[]%elem_of_nil]%elem_of_cons]%elem_of_cons]%elem_of_cons; [right|by left|right];
    unfold all_probed; repeat constructor; by eexists.
Qed.
Lemma logged_resumable r j k t : left_by_earlier r j k ->
  legacy (logged r) (executed_from r k) j k t -> resumable (logged r) (executed_from r k) k j k t.
Proof.
  intros (Hr & Hjk & Hmem) Hl. split; [done|]. unfold may_run. rewrite logged_length.
  split_and!; try done; try lia. destruct (package_probed r Hr) as [Hm|Hp]; [right; by apply Hmem|].
  left. by apply logged_probed.
Qed.

(** C18: a database that an earlier version left with the schema of the first [k]
    migrations, of which any first [j] are recorded, is brought up to date by the
    service's starts, however many of them fail and wherever: when one returns
    without error every migration is recorded, the schema is the last one, and
    exactly the migrations after the [k]th were executed, each once and in order;
    and a start that meets no failure returns without error. *)
Theorem Migrate_completes (r : Runner catalog) (j k : nat) t t1 :
  left_by_earlier r j k ->
  mt_schema t = (schema_at r k, []) ->
  default ∅ (mt_trackers t !! rn_Tracker r) = list_to_set (take j (Names r)) ->
  rtc (attempt (logged r)) t t1 ->
  (forall t2, runs (Run (logged r)) t1 None t2 ->
     mt_schema t2 = (schema_at r (length (rn_Migrations r)), drop k (Names r)) /\
     mt_trackers t2 !! rn_Tracker r = Some (list_to_set (Names r))) /\
  (Run (logged r) (mkDb t1 [])).1 = None.
Proof.
  intros Hleft Hs Ht Hruns. pose proof Hleft as (Hr & Hjk & _).
  pose proof (logged_chain r k (packages_chain r Hr)) as Hch. pose proof (packages_accepted r Hr) as Hacc.
  assert (Hn : length (Names r) = length (rn_Migrations r)) by apply length_fmap.
  assert (Hl : legacy (logged r) (executed_from r k) j k t).
  { split; unfold stamped, executed_from; [|by rewrite logged_names].
    rewrite Hs, drop_ge; [done|]. rewrite length_take. lia. }
  destruct (attempts_resumable _ _ _ Hch Hacc _ _ _ _ (logged_resumable r j k t Hleft Hl) Hruns) as (j1 & k1 & Hr1 & _).
  split.
  - intros t2 H2. destruct (runs_Run _ _ _ Hch Hacc _ _ _ _ _ Hr1 H2) as (? & ? & _ & _ & _ & Hx).
    destruct (Hx eq_refl) as (_ & _ & Hs2 & Ht2). rewrite Hs2. rewrite logged_length in *.
    unfold stamped, executed_from in *. rewrite logged_names in Ht2. rewrite take_ge in Ht2 by lia.
    by rewrite take_ge by lia.
  - by destruct (calm_Run _ _ _ Hch Hacc _ _ _ Hr1) as [t' ->].
Qed.

(** A graph database stopped at 0004 with two migrations recorded: a first start
    loses the connection while committing 0005. *)
Definition interrupted : mig_tab (catalog * list string) :=
  mkMigTab (schema_at codegraph_runner 4, [])
    {["codegraph_schema_migrations"%string := list_to_set (take 2 (Names codegraph_runner))]}.
Definition lost_commit : list env := replicate 21 calm ++ [mkEnv (LostAck ConnectError) ∅ 0 ""].
Definition after_lost_commit := Run (logged codegraph_runner) (mkDb interrupted lost_commit).
Definition after_restart := Run (logged codegraph_runner) (mkDb (db_tab after_lost_commit.2) []).
Lemma lost_commit_fails : is_Some after_lost_commit.1 /\
  (mt_schema (db_tab after_lost_commit.2)).2 = ["0005_audit_fixes"%string].
Proof. split; vm_compute; [by eexists|done]. Qed.
Lemma Migrate_completes_witness :
  mt_schema (db_tab after_restart.2) =
    (schema_at codegraph_runner 6, ["0005_audit_fixes"; "0006_audit_r2_fixes"]%string).
Proof.
  assert (Hl : left_by_earlier codegraph_runner 2 4)
    by (split_and!; [by right; right; left|by vm_compute; repeat constructor|by vm_compute; repeat constructor|done]).
  destruct (Migrate_completes codegraph_runner 2 4 interrupted (db_tab after_lost_commit.2) Hl eq_refl eq_refl)
    as [Hd _].
  - apply rtc_once. exists after_lost_commit.1. exists lost_commit, (db_script after_lost_commit.2).
    unfold after_lost_commit. by destruct (Run _ _) as [x [t s]].
  - apply Hd. exists [], (db_script after_restart.2).
    assert (He : after_restart.1 = None) by (vm_compute; reflexivity). revert He. unfold after_restart.
    destruct (Run _ (mkDb (db_tab after_lost_commit.2) [])) as [x [t s]]. simpl. by intros ->.
Defined.

(** ** Several replicas at once *)

Lemma chain_weaken {C} (r : Runner C) sch b b' : chain_of r sch b -> (b <= b')%nat -> chain_of r sch b'.
Proof. intros [H1 H2 H3] Hb. split; [done| |]; intros; [apply H2; [lia|done]|eapply H3; [done..|lia]]. Qed.
(** What a cluster started on a database leaves. *)
Definition recorded {C} (r : Runner C) (j : nat) (t : mig_tab C) : Prop :=
  default ∅ (mt_trackers t !! rn_Tracker r) = list_to_set (take j (Names r)).

(** C27: replicas of the ingest and memory migrations, any number of them started,
    interleaved and killed at any point: the schema is always that of a prefix of
    the migrations, at least as long as at the start, what is recorded is a prefix
    of what is in place, and once one replica is through the schema is complete and
    everything is recorded. *)
Theorem replicas_converge (r : Runner catalog) (j k : nat) t0 rs t :
  r ∈ [ingest_runner; memory_runner] -> (j <= k <= length (rn_Migrations r))%nat ->
  mt_schema t0 = schema_at r k -> recorded r j t0 ->
  rtc (mig_step r) ([], t0) (rs, t) ->
  exists j' k', (k <= k')%nat /\ (j' <= k' <= length (rn_Migrations r))%nat /\
    mt_schema t = schema_at r k' /\ recorded r j' t /\
    (RDone ∈ rs -> j' = length (rn_Migrations r) /\ k' = length (rn_Migrations r)).
Proof.
  intros Hr Hjk Hs Ht Hreach.
  assert (Hch : chain_of r (schema_at r) k).
  { eapply chain_weaken; [apply packages_chain|lia]. unfold packages. set_solver. }
  assert (Hre : rerunnable r (schema_at r) k).
  { assert (Hc : forallb rerun_check [ingest_runner; memory_runner] = true) by by vm_compute.
    rewrite List.forallb_forall in Hc. apply list_elem_of_In, Hc, rerun_checked in Hr.
    intros i m k' Hk'. apply Hr. lia. }
  assert (Hi : cluster_inv r (schema_at r) k false ([], t0)) by (exists j, k; by split_and!; try lia).
  apply (cluster_inv_reachable r (schema_at r) k Hch false Hre _ _ Hi) in Hreach.
  destruct Hreach as (j' & k' & [Hs' Ht'] & Hjk' & Hk & Hrs). exists j', k'. split_and!; try done; try lia.
  intros Hd. rewrite Forall_forall in Hrs. specialize (Hrs _ Hd). simpl in Hrs. lia.
Qed.

(** Where the schema is already complete and the set carries probes, as the
    ingest and code-graph sets do, no replica of any number, interleaved and killed
    anyhow, ever executes a migration: the upgrade only records names. *)
Theorem probed_rollout_runs_nothing (r : Runner catalog) (j : nat) t0 rs t :
  r ∈ [ingest_runner; codegraph_runner] -> (j <= length (rn_Migrations r))%nat ->
  mt_schema t0 = (schema_at r (length (rn_Migrations r)), []) -> recorded (logged r) j t0 ->
  rtc (mig_step (logged r)) ([], t0) (rs, t) ->
  mt_schema t = (schema_at r (length (rn_Migrations r)), []) /\
  (RDone ∈ rs -> recorded (logged r) (length (rn_Migrations r)) t).
Proof.
  intros Hr Hj Hs Ht Hreach. set (n := length (rn_Migrations r)) in *.
  assert (Hin : r ∈ packages) by (unfold packages; set_solver).
  pose proof (logged_chain r n (packages_chain r Hin)) as Hch.
  assert (Hn : length (rn_Migrations (logged r)) = n) by apply logged_length.
  assert (He : executed_from r n n = (schema_at r n, [])).
  { unfold executed_from. rewrite drop_ge; [done|]. rewrite length_take. lia. }
  assert (Hp : all_probed (logged r) /\ n = length (rn_Migrations (logged r))).
  { split; [|done]. apply logged_probed. destruct (package_probed r Hin) as [->|]; [|done].
    apply list_elem_of_In in Hr. by destruct Hr as [Hr|[Hr|[]]]. }
  assert (Hi : cluster_inv (logged r) (executed_from r n) n true ([], t0)).
  { exists j, n. rewrite Hn. split_and!; try lia; [|constructor]. split; [by rewrite He|exact Ht]. }
  apply (cluster_inv_reachable _ _ _ Hch true Hp _ _ Hi) in Hreach.
  destruct Hreach as (j' & k' & [Hs' Ht'] & Hjk' & Hk & Hrs). simpl in *.
  assert (k' = n) as -> by lia. rewrite Hs', He. split; [done|]. intros Hd.
  rewrite Forall_forall in Hrs. specialize (Hrs _ Hd). simpl in Hrs.
  unfold recorded. etransitivity; [exact Ht'|]. unfold stamped. f_equal. rewrite Hrs. f_equal. apply Hn.
Qed.

(** A schedule: which replica moves next, or a new one. *)
Inductive move := Boot | Go (i : nat).
Definition run_move {C} (r : Runner C) (st : list replica * mig_tab C) (m : move) : list replica * mig_tab C :=
  match m with
  | Boot => (st.1 ++ [RStart], st.2)
  | Go i => match st.1 !! i with
            | Some x => (<[i := (replica_step r x st.2).1]> st.1, (replica_step r x st.2).2)
            | None => st
            end
  end.
Lemma schedule_reachable {C} (r : Runner C) ms st : rtc (mig_step r) st (foldl (run_move r) st ms).
Proof.
  revert st. induction ms as [|m ms IH]; intros [rs t]; simpl; [done|]. destruct m as [|i]; simpl.
  - eapply rtc_l; [apply mig_boot|apply IH].
  - destruct (rs !! i) as [x|] eqn:E; [|apply IH]. eapply rtc_l; [by apply mig_move|apply IH].
Qed.

Lemma replicas_converge_witness :
  exists j' k', (0 <= k')%nat /\ (j' <= k' <= 3)%nat /\
    let st := foldl (run_move ingest_runner) ([], mkMigTab no_tables ∅) ([Boot; Boot] ++ replicate 3 (Go 0) ++ replicate 11 (Go 1)) in
    mt_schema st.2 = schema_at ingest_runner k' /\ recorded ingest_runner j' st.2 /\
    (RDone ∈ st.1 -> j' = 3%nat /\ k' = 3%nat).
Proof.
  apply (replicas_converge ingest_runner 0 0 (mkMigTab no_tables ∅)
    (foldl (run_move ingest_runner) ([], mkMigTab no_tables ∅) ([Boot; Boot] ++ replicate 3 (Go 0) ++ replicate 11 (Go 1))).1
    (foldl (run_move ingest_runner) ([], mkMigTab no_tables ∅) ([Boot; Boot] ++ replicate 3 (Go 0) ++ replicate 11 (Go 1))).2);
    [left|vm_compute; repeat constructor|reflexivity|reflexivity|].
  rewrite <- surjective_pairing. apply schedule_reachable.
Defined.

(** The production database: the full graph schema, nothing recorded; two replicas. *)
Definition untracked : mig_tab (catalog * list string) := mkMigTab (schema_at codegraph_runner 6, []) ∅.
Definition two_upgrades := foldl (run_move (logged codegraph_runner)) ([], untracked)
  ([Boot; Boot] ++ replicate 6 (Go 0) ++ replicate 20 (Go 1) ++ replicate 15 (Go 0)).
Lemma two_upgrades_done : two_upgrades.1 = [RDone; RDone].
Proof. by vm_compute. Qed.
Lemma probed_rollout_runs_nothing_witness :
  mt_schema two_upgrades.2 = (schema_at codegraph_runner 6, []) /\
  (RDone ∈ two_upgrades.1 -> recorded (logged codegraph_runner) 6 two_upgrades.2).
Proof.
  apply (probed_rollout_runs_nothing codegraph_runner 0 untracked two_upgrades.1 two_upgrades.2);
    [by right; left|lia|reflexivity|reflexivity|].
  rewrite <- surjective_pairing. apply schedule_reachable.
Defined.

(** Two replicas on an empty database.  The first one executes 0001 and 0002,
    finds 0003 unrecorded and is held up; the second one goes through to the end;
    the first one, no longer baselining, executes 0003 on the finished schema. *)
Definition overtaken := foldl (run_move codegraph_runner) ([], mkMigTab no_tables ∅)
  ([Boot; Boot] ++ replicate 9 (Go 0) ++ replicate 17 (Go 1) ++ replicate 6 (Go 0)).

(** The code-graph migrations do not have that guarantee: two replicas started
    on an empty database can both finish without error, with everything recorded,
    and leave the columns that 0005 and 0006 drop (0003 is not re-runnable after
    them); no later start repairs it. *)
Theorem replica_race_regresses : exists rs t,
  rtc (mig_step codegraph_runner) ([], mkMigTab no_tables ∅) (rs, t) /\ rs = [RDone; RDone] /\
  recorded codegraph_runner 6 t /\
  has_column "code_entities" "cohesion" (mt_schema t) = true /\
  has_column "code_entities" "degree" (mt_schema t) = true /\
  has_column "code_entities" "cohesion" (schema_at codegraph_runner 6) = false /\
  has_column "code_entities" "degree" (schema_at codegraph_runner 6) = false /\
  Run codegraph_runner (mkDb t []) = (None, mkDb t []).
Proof.
  exists overtaken.1, overtaken.2. split.
  - rewrite <- surjective_pairing. apply schedule_reachable.
  - split_and!; vm_compute; reflexivity.
Qed.
