(* ===== verification/IngestPg.v ===== *)
(** The Postgres job store ([internal/ingest/pgstore.go]): its statements over
    the tables [ingest_jobs] and [ingest_job_items], transaction by transaction,
    and the proof that it keeps the job-store contract of [JobStore.v] whatever
    round trips fail and whatever rows other transactions hold locked.

    A JSON column is held decoded: the value, an empty text, or a text that does
    not parse.  The primary key, the foreign key and the unique index
    [idx_job_items_unique_key] are checked by the inserts. *)
From S2P Require Import Prelude GoErr JobStore Db.

(** * Tables *)

Inductive json_text (A : Type) := JEmpty | JCorrupt | JText (a : A).
Arguments JEmpty {A}.
Arguments JCorrupt {A}.
Arguments JText {A} _.
(** [_ = json.Unmarshal(...)]: what is left in the zero value. *)
Definition unmarshal_or {A} (zero : A) (c : json_text A) : A :=
  match c with JText a => a | _ => zero end.

Record job_row := mkJobRow {
  jr_status : JobStatus; jr_total : Z; jr_done : Z; jr_failed : Z;
  jr_errors_json : json_text (list IngestItemError); jr_created_at : Z; jr_updated_at : Z }.
Record item_row := mkItemRow {
  ir_id : string; ir_job_id : string; ir_key : string; ir_status : ItemStatus; ir_error : string;
  ir_text : string; ir_metadata : json_text (gmap string string); ir_track_id : string;
  ir_created_at : Z }.
Record tables := mkTables { t_jobs : gmap string job_row; t_items : list item_row }.

Definition set_row_status (s : ItemStatus) (r : item_row) : item_row :=
  mkItemRow (ir_id r) (ir_job_id r) (ir_key r) s (ir_error r) (ir_text r) (ir_metadata r)
            (ir_track_id r) (ir_created_at r).
Definition set_row_outcome (s : ItemStatus) (e : string) (r : item_row) : item_row :=
  mkItemRow (ir_id r) (ir_job_id r) (ir_key r) s e (ir_text r) (ir_metadata r)
            (ir_track_id r) (ir_created_at r).
Definition set_row_track (t : string) (r : item_row) : item_row :=
  mkItemRow (ir_id r) (ir_job_id r) (ir_key r) (ir_status r) (ir_error r) (ir_text r)
            (ir_metadata r) t (ir_created_at r).

(** [UPDATE ingest_job_items SET ... WHERE ...]: rows affected and the new table. *)
Definition update_items (p : item_row -> bool) (f : item_row -> item_row) (t : tables) : Z * tables :=
  (count p (t_items t), mkTables (t_jobs t) ((fun r => if p r then f r else r) <$> t_items t)).
(** [UPDATE ingest_jobs SET ... WHERE id = $1]. *)
Definition update_job_row (id : string) (f : job_row -> job_row) (t : tables) : Z * tables :=
  match t_jobs t !! id with
  | None => (0, t)
  | Some r => (1, mkTables (<[id := f r]> (t_jobs t)) (t_items t))
  end.

Definition of_item (jobID key : string) (r : item_row) : bool :=
  bool_decide (ir_job_id r = jobID) && bool_decide (ir_key r = key).
Definition row_unfinished (r : job_row) : bool :=
  bool_decide (jr_status r = JobStatusQueued) || bool_decide (jr_status r = JobStatusRunning).

Definition unique_violation : err := PgError "23505".

Module PGStore.
Abbreviation DB := (Db tables).

Definition isUniqueViolation (e : err) : bool := bool_decide (As_PgError e = Some "23505"%string).

(** Insert the job row: the primary key rejects a taken ID. *)
Definition insert_job (j : IngestJob) (t : tables) : result err unit * tables :=
  match t_jobs t !! j_ID j with
  | Some _ => (Err unique_violation, t)
  | None =>
      (Ok tt, mkTables (<[j_ID j := mkJobRow (j_Status j) (j_Total j) (j_Done j) (j_Failed j)
                 (JText (j_Errors j)) (j_CreatedAt j) (j_UpdatedAt j)]> (t_jobs t)) (t_items t))
  end.
(** Insert one item row: the random ID and the pair (job, key) must be new. *)
Definition insert_item (now : Z) (jobID : string) (it : IngestItem) (e : env) (t : tables) :
    result err unit * tables :=
  let id := String.append "itm_" (ev_rand e) in
  if existsb (fun r => bool_decide (ir_id r = id) || of_item jobID (it_IdempotencyKey it) r) (t_items t)
  then (Err unique_violation, t)
  else (Ok tt, mkTables (t_jobs t) (t_items t ++
          [mkItemRow id jobID (it_IdempotencyKey it) pending "" (it_Text it)
                     (JText (it_Metadata it)) "" now])).

Fixpoint insert_items (now : Z) (jobID : string) (items : list IngestItem) : M DB (exit unit) :=
  match items with
  | [] => ret (Commit tt (Wrap "ingest: create job: commit"))
  | it :: items =>
      or_rollback (Wrap "ingest: create job: insert item")
        (statement (insert_item now jobID it)) (fun _ => insert_items now jobID items)
  end.

Definition CreateJob (now : Z) (j : IngestJob) (items : list IngestItem) : M DB (result err unit) :=
  transaction (Wrap "ingest: create job: begin tx")
    (r <- statement (fun _ => insert_job j) ;;
     match r with
     | Err e => ret (Rollback (Err (if isUniqueViolation e then Sentinel ErrJobExists
                                    else Wrap "ingest: create job: insert job" e)))
     | Ok _ => insert_items now (j_ID j) items
     end).

Definition row_job (id : string) (r : job_row) : IngestJob :=
  mkJob id (jr_status r) (jr_total r) (jr_done r) (jr_failed r)
        (unmarshal_or [] (jr_errors_json r)) (jr_created_at r) (jr_updated_at r).
Definition GetJob (id : string) : M DB (result err IngestJob) :=
  r <- select (fun _ t => t_jobs t !! id) ;;
  ret match r with
      | Err e => Err (Wrap "ingest: get job" e)
      | Ok None => Err (Sentinel ErrJobNotFound)
      | Ok (Some row) =>
          match jr_errors_json row with
          | JCorrupt => Err (Errorf "ingest: get job: unmarshal errors_json")
          | _ => Ok (row_job id row)
          end
      end.

Definition UpdateJob (now : Z) (j : IngestJob) : M DB (result err unit) :=
  r <- exec (update_job_row (j_ID j) (fun r =>
         mkJobRow (j_Status j) (j_Total j) (j_Done j) (j_Failed j) (JText (j_Errors j))
                  (jr_created_at r) now)) ;;
  ret match r with
      | Err e => Err (Wrap "ingest: update job" e)
      | Ok n => if bool_decide (n = 0) then Err (Sentinel ErrJobNotFound) else Ok tt
      end.

(** [ORDER BY created_at FOR UPDATE SKIP LOCKED LIMIT 1]: an oldest pending row
    among those no other transaction has locked; the server breaks ties (all the
    items of a batch share their [created_at]). *)
Definition claimable (jobID : string) (locked : gset string) (t : tables) : list item_row :=
  List.filter (fun r => bool_decide (ir_job_id r = jobID) && bool_decide (ir_status r = pending)
                        && bool_decide (ir_id r ∉ locked)) (t_items t).
Definition oldest (l : list item_row) : list item_row :=
  List.filter (fun r => forallb (fun r' => bool_decide (ir_created_at r <= ir_created_at r')) l) l.
Definition pick_claim (jobID : string) (e : env) (t : tables) : option item_row :=
  let l := oldest (claimable jobID (ev_locked e) t) in l !! (ev_tie e mod length l)%nat.

Definition row_item (r : item_row) : IngestItem :=
  mkItem (ir_key r) (ir_text r) (unmarshal_or ∅ (ir_metadata r)) (ir_track_id r).
Definition ClaimNextItem (jobID : string) : M DB (result err (option IngestItem)) :=
  transaction (Wrap "ingest: claim next item: begin tx")
    (or_rollback (Wrap "ingest: claim next item: scan") (select (pick_claim jobID)) (fun row =>
     match row with
     | None => ret (Commit None id)
     | Some row =>
         or_rollback (Wrap "ingest: claim next item: mark running")
           (exec (update_items (fun r => bool_decide (ir_id r = ir_id row)) (set_row_status running)))
           (fun _ => ret (Commit (Some (row_item row)) (Wrap "ingest: claim next item: commit")))
     end)).

Definition SetItemTrackID (jobID key trackID : string) : M DB (result err unit) :=
  r <- exec (update_items (of_item jobID key) (set_row_track trackID)) ;;
  ret match r with Err e => Err (Wrap "ingest: set item track_id" e) | Ok _ => Ok tt end.

Definition out_status (runErr : option string) : ItemStatus :=
  match runErr with None => done | Some _ => failed end.
Definition MarkItemDone (jobID key : string) (runErr : option string) : M DB (result err unit) :=
  r <- exec (update_items (of_item jobID key)
               (set_row_outcome (out_status runErr) (default ""%string runErr))) ;;
  ret match r with Err e => Err (Wrap "ingest: mark item done" e) | Ok _ => Ok tt end.

(** [SELECT errors_json ... FOR UPDATE], append, [UPDATE ... failed = failed + 1]. *)
Definition bump_row_done (now : Z) (r : job_row) : job_row :=
  mkJobRow (jr_status r) (jr_total r) (jr_done r + 1) (jr_failed r) (jr_errors_json r)
           (jr_created_at r) now.
Definition bump_row_failed (now : Z) (errs : list IngestItemError) (r : job_row) : job_row :=
  mkJobRow (jr_status r) (jr_total r) (jr_done r) (jr_failed r + 1) (JText errs)
           (jr_created_at r) now.
Definition bump_failed_tx (now : Z) (jobID : string) (itemErr : IngestItemError) (w1 w2 w3 : string)
    : M DB (exit unit) :=
  or_rollback (Wrap w1) (select (fun _ t => jr_errors_json <$> t_jobs t !! jobID)) (fun row =>
  match row with
  | None => ret (Rollback (Err (Sentinel ErrJobNotFound)))
  | Some col =>
      let errs := cap_append (unmarshal_or [] col) itemErr in
      or_rollback (Wrap w2) (exec (update_job_row jobID (bump_row_failed now errs)))
        (fun _ => ret (Commit tt (Wrap w3)))
  end).

Definition MarkItemDoneAndProgress (now : Z) (jobID key : string) (runErr : option string)
    : M DB (result err unit) :=
  transaction (Wrap "ingest: mark done and progress: begin tx")
    (or_rollback (Wrap "ingest: mark done and progress: item update")
      (exec (update_items (fun r => of_item jobID key r && negb (item_terminal (ir_status r)))
              (set_row_outcome (out_status runErr) (default ""%string runErr)))) (fun n =>
     if bool_decide (n = 0) then ret (Commit tt id)
     else match runErr with
     | None =>
         or_rollback (Wrap "ingest: mark done and progress: bump done")
           (exec (update_job_row jobID (bump_row_done now))) (fun _ => ret (Commit tt id))
     | Some e =>
         bump_failed_tx now jobID (mkItemError key e)
           "ingest: mark done and progress: scan errors_json"
           "ingest: mark done and progress: bump failed" "ingest: mark done and progress: commit"
     end)).

Definition IncrementJobProgress (now : Z) (jobID : string) (itemErr : option IngestItemError)
    : M DB (result err unit) :=
  match itemErr with
  | None =>
      r <- exec (update_job_row jobID (bump_row_done now)) ;;
      ret match r with
          | Err e => Err (Wrap "ingest: increment done" e)
          | Ok n => if bool_decide (n = 0) then Err (Sentinel ErrJobNotFound) else Ok tt
          end
  | Some e =>
      transaction (Wrap "ingest: increment failed: begin tx")
        (bump_failed_tx now jobID e "ingest: increment failed: scan"
           "ingest: increment failed: update" "ingest: increment failed: commit")
  end.

(** [ORDER BY created_at]. *)
Definition older (a b : string * job_row) : Prop := jr_created_at a.2 <= jr_created_at b.2.
#[global] Instance older_dec a b : Decision (older a b).
Proof. unfold older. apply _. Defined.
Definition ListUnfinishedJobs : M DB (result err (list string)) :=
  r <- select (fun _ t => fst <$> merge_sort older
         (List.filter (fun kr => row_unfinished kr.2) (map_to_list (t_jobs t)))) ;;
  ret match r with Err e => Err (Wrap "ingest: list unfinished jobs" e) | Ok ids => Ok ids end.

Definition ResetRunningItems : M DB (result err Z) :=
  r <- exec (fun t => update_items (fun r =>
         bool_decide (ir_status r = running) &&
         match t_jobs t !! ir_job_id r with Some j => row_unfinished j | None => false end)
         (set_row_status pending) t) ;;
  ret match r with Err e => Err (Wrap "ingest: reset running items" e) | Ok n => Ok n end.
End PGStore.

#[global] Instance PGStore_JobStore : JobStore (Db tables) := {
  CreateJob := PGStore.CreateJob;
  GetJob := PGStore.GetJob;
  UpdateJob := PGStore.UpdateJob;
  ClaimNextItem := PGStore.ClaimNextItem;
  SetItemTrackID := PGStore.SetItemTrackID;
  MarkItemDone := PGStore.MarkItemDone;
  IncrementJobProgress := PGStore.IncrementJobProgress;
  MarkItemDoneAndProgress := PGStore.MarkItemDoneAndProgress;
  ListUnfinishedJobs := PGStore.ListUnfinishedJobs;
  ResetRunningItems := PGStore.ResetRunningItems }.
