(* ===== verification/IngestPgLaws.v ===== *)
(** [PGStore] keeps the job-store contract: every operation has its abstract
    effect or none at all, whichever round trip fails. *)
From S2P Require Import Prelude GoErr JobStore Db IngestPg.

(** * The abstraction *)

Definition in_job (id : string) (r : item_row) : bool := bool_decide (ir_job_id r = id).
Definition rows (id : string) (t : tables) : list item_row := List.filter (in_job id) (t_items t).
Definition abs_irow (r : item_row) : aitem :=
  mkAItem (ir_key r) (ir_text r) (unmarshal_or ∅ (ir_metadata r)) (ir_status r) (ir_track_id r).
Definition abs_row (r : job_row) (items : list aitem) : ajob :=
  mkAJob (jr_status r) (jr_total r) (jr_done r) (jr_failed r) (unmarshal_or [] (jr_errors_json r)) items.
Definition tab_view (t : tables) : view :=
  map_imap (fun id r => Some (abs_row r (abs_irow <$> rows id t))) (t_jobs t).

(** The constraints of the schema. *)
Record tab_inv (t : tables) : Prop := {
  ti_ids : NoDup (ir_id <$> t_items t);
  ti_keys : NoDup ((fun r => (ir_job_id r, ir_key r)) <$> t_items t);
  ti_fk : Forall (fun r => is_Some (t_jobs t !! ir_job_id r)) (t_items t) }.

Lemma tab_view_lookup t id :
  tab_view t !! id = (fun r => abs_row r (abs_irow <$> rows id t)) <$> t_jobs t !! id.
Proof. unfold tab_view. rewrite map_lookup_imap. by destruct (t_jobs t !! id). Qed.
Lemma tab_view_ext t t' :
  t_jobs t' = t_jobs t -> (forall id, abs_irow <$> rows id t' = abs_irow <$> rows id t) ->
  tab_view t' = tab_view t.
Proof. intros Hj Hr. apply map_eq. intros id. by rewrite !tab_view_lookup, Hj, Hr. Qed.
(** Changing one job, or the rows of one job, changes the view there. *)
Lemma tab_view_insert t t' id r' a' :
  t_jobs t' !! id = Some r' -> a' = abs_row r' (abs_irow <$> rows id t') ->
  (forall i, i <> id -> t_jobs t' !! i = t_jobs t !! i /\ rows i t' = rows i t) ->
  tab_view t' = <[id := a']> (tab_view t).
Proof.
  intros Hj -> Ho. apply map_eq. intros i. rewrite tab_view_lookup.
  destruct (decide (i = id)) as [->|Hi]; [by rewrite Hj, lookup_insert_eq|].
  rewrite lookup_insert_ne by done. rewrite tab_view_lookup. by destruct (Ho i Hi) as [-> ->].
Qed.

Lemma rows_key_NoDup t id : tab_inv t -> NoDup (ir_key <$> rows id t).
Proof.
  intros Hi. pose proof (NoDup_filter_bool _ (in_job id) _ (ti_keys _ Hi)) as Hn.
  fold (rows id t) in Hn. assert (Hall : Forall (fun r => ir_job_id r = id) (rows id t)).
  { apply Forall_forall. intros r [_ Hr]%elem_of_filter_bool. by apply bool_decide_eq_true in Hr. }
  induction Hall as [|r l Hr Hall IH]; [constructor|].
  csimpl in Hn. apply NoDup_cons in Hn as [Hx Hn]. csimpl. apply NoDup_cons. split; [|by apply IH].
  intros (r' & Hk & Hin)%list_elem_of_fmap. apply Hx. apply list_elem_of_fmap. exists r'.
  split; [|done]. rewrite Forall_forall in Hall. rewrite (Hall r' Hin). congruence.
Qed.
Lemma ids_unique t x y : tab_inv t -> x ∈ t_items t -> y ∈ t_items t -> ir_id x = ir_id y -> x = y.
Proof.
  intros Hi Hx Hy He. pose proof (find_key_unique ir_id (ir_id x) _ (ti_ids _ Hi)) as Hf.
  destruct (List.find _ _).
  - destruct Hf as (_ & _ & Hu). by rewrite (Hu x), (Hu y).
  - by destruct (Hf x).
Qed.
Lemma rows_absent t id : tab_inv t -> t_jobs t !! id = None -> rows id t = [].
Proof.
  intros Hi Hn. apply elem_of_nil_inv. intros r [Hr Hj]%elem_of_filter_bool.
  apply bool_decide_eq_true in Hj. pose proof (ti_fk _ Hi) as Hfk.
  rewrite Forall_forall in Hfk. destruct (Hfk r Hr). congruence.
Qed.

(** Rewriting items in place: what identifies a row does not move. *)
Definition keeps_key (f : item_row -> item_row) : Prop :=
  forall r, ir_id (f r) = ir_id r /\ ir_job_id (f r) = ir_job_id r /\ ir_key (f r) = ir_key r.
Lemma update_items_inv p f t n t' :
  keeps_key f -> update_items p f t = (n, t') -> tab_inv t -> tab_inv t'.
Proof.
  intros Hf [= _ <-] []. unfold keeps_key in Hf. split; simpl.
  - rewrite <- list_fmap_compose. erewrite list_fmap_ext; [done|].
    intros _ r _. simpl. destruct (p r); [apply Hf|done].
  - rewrite <- list_fmap_compose. erewrite list_fmap_ext; [done|].
    intros _ r _. simpl. destruct (p r); [|done]. by destruct (Hf r) as (_ & -> & ->).
  - apply Forall_fmap. eapply Forall_impl; [done|]. intros r Hr. simpl.
    destruct (p r); [|done]. by destruct (Hf r) as (_ & -> & _).
Qed.
Lemma update_items_rows p f t n t' id :
  keeps_key f -> update_items p f t = (n, t') ->
  rows id t' = (fun r => if p r then f r else r) <$> rows id t.
Proof.
  intros Hf [= _ <-]. unfold rows. simpl. apply filter_fmap_same. intros r. unfold in_job.
  destruct (p r); [|done]. by destruct (Hf r) as (_ & -> & _).
Qed.
Lemma update_items_jobs p f t n t' : update_items p f t = (n, t') -> t_jobs t' = t_jobs t.
Proof. by intros [= _ <-]. Qed.

Lemma rows_update_other p f t n t' id i :
  keeps_key f -> (forall r, p r = true -> ir_job_id r = id) ->
  update_items p f t = (n, t') -> i <> id -> rows i t' = rows i t.
Proof.
  intros Hf Hp Hu Hi. rewrite (update_items_rows _ _ _ _ _ _ Hf Hu). apply fmap_if_none.
  intros r [_ Hr]%elem_of_filter_bool. unfold in_job in Hr. apply bool_decide_eq_true in Hr.
  destruct (p r) eqn:E; [|done]. apply Hp in E. congruence.
Qed.
Lemma count_rows p t id :
  (forall r, p r = true -> ir_job_id r = id) -> count p (t_items t) = count p (rows id t).
Proof.
  intros Hp. unfold count, rows. f_equal. f_equal. induction (t_items t) as [|r l IH]; [done|].
  simpl. destruct (in_job id r) eqn:Hr; simpl; destruct (p r) eqn:Hpr; rewrite ?IH; try done.
  exfalso. apply Hp in Hpr. unfold in_job in Hr. by apply bool_decide_eq_false in Hr.
Qed.

(** [UPDATE ingest_job_items ... WHERE job_id = $1 AND idempotency_key = $2 AND q]. *)
Section KeyedUpdate.
Context (id k : string) (q : item_row -> bool) (f : item_row -> item_row) (Hf : keeps_key f).
Definition keyed (r : item_row) : bool := of_item id k r && q r.
Lemma keyed_job r : keyed r = true -> ir_job_id r = id.
Proof using Type. unfold keyed, of_item. intros H. by apply andb_prop in H as [[?%bool_decide_eq_true _]%andb_prop _]. Qed.

Lemma keyed_rows t n t' :
  tab_inv t -> update_items keyed f t = (n, t') ->
  rows id t' = update_first (fun r => bool_decide (ir_key r = k)) (fun r => if q r then f r else r) (rows id t).
Proof using Hf.
  intros Hi Hu. rewrite (update_items_rows _ _ _ _ _ _ Hf Hu).
  rewrite <- (fmap_if_update_first ir_key) by by apply rows_key_NoDup.
  apply list_fmap_ext. intros i r Hr.
  apply list_elem_of_lookup_2, elem_of_filter_bool in Hr as [_ Hr]. unfold in_job in Hr.
  unfold keyed, of_item. rewrite Hr. simpl. by destruct (bool_decide (ir_key r = k)), (q r).
Qed.

(** Whether a row was affected is decided by the one row with that key. *)
Lemma keyed_count t n t' :
  tab_inv t -> update_items keyed f t = (n, t') ->
  n = match List.find (fun r => bool_decide (ir_key r = k)) (rows id t) with
      | Some r => if q r then n else 0
      | None => 0
      end /\
  match List.find (fun r => bool_decide (ir_key r = k)) (rows id t) with
  | Some r => q r = true -> n <> 0
  | None => True
  end.
Proof using Type.
  intros Hi [= Hn _]. rewrite (count_rows _ _ id keyed_job) in Hn.
  pose proof (find_key_unique ir_key k (rows id t) (rows_key_NoDup _ _ Hi)) as Hfd.
  destruct (List.find _ _) as [x|].
  - destruct Hfd as (Hx & Hk & Hu). destruct (q x) eqn:Hq.
    + split; [done|]. intros _. assert (0 < count keyed (rows id t)); [|lia].
      apply (count_pos _ _ x Hx). unfold keyed, of_item. rewrite Hq, Hk.
      apply elem_of_filter_bool in Hx as [_ Hx]. unfold in_job in Hx. rewrite Hx.
      by rewrite bool_decide_eq_true_2.
    + split; [|done]. rewrite <- Hn. apply count_none. intros y Hy.
      destruct (keyed y) eqn:Ey; [|done]. unfold keyed, of_item in Ey.
      apply andb_prop in Ey as [[_ Hky%bool_decide_eq_true]%andb_prop Hqy].
      rewrite (Hu y Hy Hky) in Hqy. congruence.
  - split; [|done]. rewrite <- Hn. apply count_none. intros y Hy.
    unfold keyed, of_item. rewrite (bool_decide_eq_false_2 (ir_key y = k)) by by apply Hfd.
    by rewrite andb_false_r.
Qed.
End KeyedUpdate.

Lemma update_items_none p f t t' : update_items p f t = (0, t') -> t' = t.
Proof.
  intros [= Hn <-]. destruct t as [js its]. simpl in *. f_equal. apply fmap_if_none.
  intros r Hr. pose proof (count_zero _ _ Hn) as Hz. rewrite Forall_forall in Hz. by apply Hz.
Qed.

Lemma update_job_inv id r' t :
  is_Some (t_jobs t !! id) -> tab_inv t -> tab_inv (mkTables (<[id := r']> (t_jobs t)) (t_items t)).
Proof.
  intros Hid []. split; try done. simpl. eapply Forall_impl; [done|]. intros r Hr. simpl.
  destruct (decide (ir_job_id r = id)) as [->|]; [rewrite lookup_insert_eq|rewrite lookup_insert_ne]; done.
Qed.
Lemma update_job_view id r' t :
  tab_view (mkTables (<[id := r']> (t_jobs t)) (t_items t))
  = <[id := abs_row r' (abs_irow <$> rows id t)]> (tab_view t).
Proof.
  apply (tab_view_insert _ _ _ r'); [by simpl; rewrite lookup_insert_eq|done|].
  intros i Hi. simpl. by rewrite lookup_insert_ne.
Qed.

(** * The laws, operation by operation *)

Abbreviation post_ok post r t t' := (tab_inv t' /\ all_or_nothing post r (tab_view t) (tab_view t')).

Lemma post_nothing {A} (post : A -> view -> view -> Prop) e t :
  tab_inv t -> post_ok post (Err e : result err A) t t.
Proof. intros. split; [done|by left]. Qed.
(** From what the statement does to what the operation reports. *)
Lemma post_effect {A} (post : A -> view -> view -> Prop) (r : result err A) a t t' :
  tab_inv t' -> post a (tab_view t) (tab_view t') ->
  r = Ok a \/ (exists e, r = Err e) -> post_ok post r t t'.
Proof. intros Hi Hp [->|[e ->]]; (split; [done|]); [done|]. right. by exists a. Qed.

(** An autocommitted statement [f] whose effect, when it reports success, is [post]. *)
Lemma post_exec {A B} (post : B -> view -> view -> Prop) (f : tables -> A * tables)
    (g : result err A -> result err B) t r t' :
  tab_inv t -> tab_inv (f t).2 ->
  (forall e, exists e', g (Err e) = Err e') ->
  match g (Ok (f t).1) with
  | Ok b => post b (tab_view t) (tab_view (f t).2)
  | Err _ => (f t).2 = t
  end ->
  runs (bind (exec f) (fun x => ret (g x))) t r t' -> post_ok post r t t'.
Proof.
  intros Hi Hi' Hg Hp [[-> ->]|(e & -> & Ht)]%runs_exec_map.
  - destruct (g _) as [b|e]; [done|]. rewrite Hp. by apply post_nothing.
  - destruct (Hg e) as [e' ->]. destruct Ht as [->| ->]; [by apply post_nothing|].
    destruct (g (Ok _)) as [b|x]; [|rewrite Hp; by apply post_nothing].
    split; [done|]. right. by exists b.
Qed.

Lemma get_runs id t r t' : tab_inv t -> runs (PGStore.GetJob id) t r t' ->
  post_ok (Spec.get id) r t t'.
Proof.
  unfold PGStore.GetJob. intros Hi (x & [-> Hx]%runs_select & ->)%runs_map. split; [done|].
  destruct x as [row|e]; [|by left]. destruct Hx as [_ ->].
  destruct (t_jobs t !! id) as [row|] eqn:Hr; [|by left].
  destruct (jr_errors_json row) eqn:Hj; [|by left|];
    (split; [done|]; split; [done|]; exists (abs_row row (abs_irow <$> rows id t));
     rewrite tab_view_lookup, Hr; split; [done|]; unfold abs_row, abs_job; simpl; by rewrite Hj).
Qed.

Lemma update_job_row_inv id f t : tab_inv t -> tab_inv (update_job_row id f t).2.
Proof.
  intros Hi. unfold update_job_row. destruct (t_jobs t !! id) eqn:Hr; [|done].
  apply update_job_inv; [by rewrite Hr|done].
Qed.

Lemma update_runs now j t r t' : tab_inv t -> runs (PGStore.UpdateJob now j) t r t' ->
  post_ok (Spec.update j) r t t'.
Proof.
  intros Hi. apply post_exec; [done|by apply update_job_row_inv|eauto|]. unfold update_job_row.
  destruct (t_jobs t !! j_ID j) as [row|] eqn:Hr; simpl; [|done].
  eexists. rewrite tab_view_lookup, Hr. split; [done|]. by rewrite update_job_view.
Qed.

Lemma keeps_track v : keeps_key (set_row_track v).
Proof. done. Qed.
Lemma keeps_status s : keeps_key (set_row_status s).
Proof. done. Qed.
Lemma keeps_outcome s e : keeps_key (set_row_outcome s e).
Proof. done. Qed.
#[local] Hint Resolve keeps_track keeps_status keeps_outcome update_items_inv : core.

(** A keyed update seen from the view: the job's items change as [update_first] says. *)
Lemma keyed_view id k q f g t row n t' :
  tab_inv t -> keeps_key f -> update_items (keyed id k q) f t = (n, t') ->
  t_jobs t !! id = Some row ->
  (forall r, abs_irow (if q r then f r else r) = g (abs_irow r)) ->
  abs_irow <$> rows id t' = update_first (Spec.key_is k) g (abs_irow <$> rows id t) /\
  tab_view t' = <[id := abs_row row (abs_irow <$> rows id t')]> (tab_view t).
Proof.
  intros Hi Hf Hu Hr Hg. split.
  - rewrite (keyed_rows _ _ _ _ Hf _ _ _ Hi Hu). by apply fmap_update_first.
  - pose proof (update_items_jobs _ _ _ _ _ Hu) as Hj. apply (tab_view_insert _ _ _ row); [by rewrite Hj|done|].
    intros i Hne. rewrite Hj. split; [done|].
    eapply rows_update_other; [exact Hf|apply keyed_job|exact Hu|done].
Qed.

Lemma keyed_absent id k q f t n t' :
  tab_inv t -> keeps_key f -> update_items (keyed id k q) f t = (n, t') ->
  t_jobs t !! id = None -> t' = t.
Proof.
  intros Hi Hf Hu Hr. destruct (keyed_count id k q f t n t' Hi Hu) as [Hn _].
  rewrite (rows_absent _ _ Hi Hr) in Hn. simpl in Hn. subst n. by eapply update_items_none.
Qed.

Lemma set_track_runs id k v t r t' : tab_inv t -> runs (PGStore.SetItemTrackID id k v) t r t' ->
  post_ok (Spec.set_track id k v) r t t'.
Proof.
  intros Hi. apply post_exec; [done|eapply update_items_inv; [apply keeps_track|apply surjective_pairing|done]|eauto|].
  assert (Hu : update_items (keyed id k (fun _ => true)) (set_row_track v) t
             = update_items (of_item id k) (set_row_track v) t).
  { unfold update_items, keyed. f_equal; [|f_equal].
    - unfold count. f_equal. f_equal. apply List.filter_ext. intros. apply andb_true_r.
    - apply list_fmap_ext. intros. by rewrite andb_true_r. }
  rewrite <- Hu. destruct (update_items (keyed _ _ _) _ t) as [n t2] eqn:Hq. simpl.
  unfold Spec.set_track. rewrite tab_view_lookup.
  destruct (t_jobs t !! id) as [row|] eqn:Hr; simpl.
  - destruct (keyed_view id k (fun _ => true) (set_row_track v) (Spec.set_tr v) t row _ _
      Hi (keeps_track v) Hq Hr) as [Hrows Hv]; [done|].
    by rewrite Hv, Hrows.
  - f_equal. eapply keyed_absent; [exact Hi|apply keeps_track|exact Hq|done].
Qed.

(** ** Transactions *)

(** Every way out of the body rolls back with an error, or commits the effect. *)
Definition body_ok {A} (post : A -> view -> view -> Prop) (body : M (Db tables) (exit A)) (t : tables) : Prop :=
  forall x t1, runs body t x t1 ->
  (exists e, x = Rollback (Err e)) \/
  (exists a w, x = Commit a w /\ tab_inv t1 /\ post a (tab_view t) (tab_view t1)).
Lemma post_transaction {A} (post : A -> view -> view -> Prop) w body t r t' :
  tab_inv t -> body_ok post body t -> runs (transaction w body) t r t' -> post_ok post r t t'.
Proof.
  intros Hi Hb [[-> Hr]|(a & w' & Hc & Hr)]%runs_transaction.
  - destruct r as [a|e]; [|by apply post_nothing]. destruct (Hr a eq_refl) as [t1 H1].
    destruct (Hb _ _ H1) as [[e ?]|(? & ? & ? & _)]; simplify_eq.
  - destruct (Hb _ _ Hc) as [[e ?]|(a' & w'' & ? & Hi1 & Hp)]; simplify_eq.
    by eapply post_effect.
Qed.

Lemma claim_runs id t r t' : tab_inv t -> runs (PGStore.ClaimNextItem id) t r t' ->
  post_ok (Spec.claim id) r t t'.
Proof.
  intros Hi. apply post_transaction; [done|]. intros x t1
    [(row & t2 & [-> [e ->]]%runs_select & Hk)|(e & -> & _)]%runs_or_rollback; [|by left; eexists].
  destruct (PGStore.pick_claim id e t) as [row|] eqn:Hpick.
  2:{ apply runs_ret in Hk as [-> ->]. right. by eexists _, _. }
  apply runs_or_rollback in Hk as [(n & t3 & He%runs_exec & [-> ->]%runs_ret)|(e' & -> & _)];
    [|by left; eexists].
  right. eexists _, _. split; [done|].
  split; [eapply update_items_inv; [apply keeps_status|by rewrite <- He|done]|].
  apply list_elem_of_lookup_2, elem_of_filter_bool in Hpick as [Hpick _].
  apply elem_of_filter_bool in Hpick as [Hin [[Hj%bool_decide_eq_true Hp%bool_decide_eq_true]%andb_prop _]%andb_prop].
  assert (Hrow : row ∈ rows id t) by (apply elem_of_filter_bool; split; [done|by apply bool_decide_eq_true]).
  pose proof (ti_fk _ Hi) as Hfk. rewrite Forall_forall in Hfk. destruct (Hfk row Hin) as [jr Hjr].
  rewrite Hj in Hjr. apply list_elem_of_lookup in Hrow as [i Hrow].
  assert (Hrows : rows id t3 = <[i := set_row_status running row]> (rows id t)).
  { rewrite (update_items_rows _ _ _ _ _ _ (keeps_status running) (eq_sym He)).
    apply fmap_if_unique; [|done]. apply NoDup_filter_bool, ti_ids, Hi. }
  exists (abs_row jr (abs_irow <$> rows id t)), i, (abs_irow row).
  split_and!; [by rewrite tab_view_lookup, Hjr|simpl; by rewrite list_lookup_fmap, Hrow|done|done|].
  rewrite (tab_view_insert t t3 id jr _ ltac:(by rewrite (update_items_jobs _ _ _ _ _ (eq_sym He))) eq_refl).
  - unfold Spec.with_items; simpl. by rewrite Hrows, list_fmap_insert.
  - intros j Hne. rewrite (update_items_jobs _ _ _ _ _ (eq_sym He)). split; [done|].
    rewrite (update_items_rows _ _ _ _ _ _ (keeps_status running) (eq_sym He)).
    apply fmap_if_none. intros y [Hy Hyj]%elem_of_filter_bool. apply bool_decide_eq_false_2.
    intros Heq. apply Hne. apply bool_decide_eq_true in Hyj. rewrite <- Hyj, <- Hj. f_equal.
    by eapply ids_unique.
Qed.

(** What one keyed item update does to the view, by the row it finds. *)
Lemma keyed_cases id k q f g t n t' :
  tab_inv t -> keeps_key f -> update_items (keyed id k q) f t = (n, t') ->
  (forall r, abs_irow (f r) = g (abs_irow r)) ->
  (n = 0 /\ t' = t /\
   forall row, t_jobs t !! id = Some row ->
     match List.find (Spec.key_is k) (abs_irow <$> rows id t) with
     | Some x => exists r, r ∈ rows id t /\ x = abs_irow r /\ q r = false
     | None => True end) \/
  (n <> 0 /\ exists row r, t_jobs t !! id = Some row /\ q r = true /\
     List.find (Spec.key_is k) (abs_irow <$> rows id t) = Some (abs_irow r) /\
     abs_irow <$> rows id t' = update_first (Spec.key_is k) g (abs_irow <$> rows id t) /\
     tab_view t' = <[id := abs_row row (abs_irow <$> rows id t')]> (tab_view t)).
Proof.
  intros Hi Hf Hu Hg. destruct (keyed_count _ _ _ _ _ _ _ Hi Hu) as [Hn Hpos].
  assert (Hfind : List.find (Spec.key_is k) (abs_irow <$> rows id t) =
    abs_irow <$> List.find (fun r => bool_decide (ir_key r = k)) (rows id t)) by by apply find_fmap.
  destruct (t_jobs t !! id) as [row|] eqn:Hr.
  2:{ left. rewrite (rows_absent _ _ Hi Hr) in Hn. simpl in Hn. subst n.
      split; [done|]. split; [by eapply update_items_none|done]. }
  rewrite Hfind. destruct (List.find _ (rows id t)) as [x|] eqn:Hx; simpl in *.
  - destruct (q x) eqn:Hq.
    + right. split; [by apply Hpos|]. exists row, x. split_and!; try done.
      * rewrite (keyed_rows _ _ _ _ Hf _ _ _ Hi Hu).
        transitivity (abs_irow <$> update_first (fun r => bool_decide (ir_key r = k)) f (rows id t)).
        -- f_equal. destruct (update_first_lookup (fun r => bool_decide (ir_key r = k))
             (fun r => if q r then f r else r) (rows id t)) as [(i & y & Hy & Hp & Hfy & ->)|(Hfy & _)];
             [|congruence]. destruct (update_first_lookup (fun r => bool_decide (ir_key r = k))
             f (rows id t)) as [(i' & y' & Hy' & Hp' & Hfy' & ->)|(Hfy' & _)]; [|congruence].
           assert (y = x) as -> by congruence. assert (y' = x) as -> by congruence. rewrite Hq.
           f_equal. pose proof (rows_key_NoDup _ id Hi) as Hnd. eapply NoDup_lookup; [exact Hnd|..];
             by rewrite list_lookup_fmap, ?Hy, ?Hy'.
        -- by apply fmap_update_first.
      * apply (tab_view_insert _ _ _ row); [by rewrite (update_items_jobs _ _ _ _ _ Hu)|done|].
        intros i Hne. rewrite (update_items_jobs _ _ _ _ _ Hu). split; [done|].
        eapply rows_update_other; [exact Hf|apply keyed_job|exact Hu|done].
    + left. split; [done|]. subst n. split; [by eapply update_items_none|]. intros _ _.
      apply List.find_some in Hx as [Hin _]. apply list_elem_of_In in Hin. eauto.
  - left. split; [done|]. subst n. split; [by eapply update_items_none|done].
Qed.

Lemma bump_failed_runs now id ie w1 w2 w3 t x t1 :
  runs (PGStore.bump_failed_tx now id ie w1 w2 w3) t x t1 ->
  (exists e, x = Rollback (Err e)) \/
  (exists w row, x = Commit tt w /\ t_jobs t !! id = Some row /\
     t1 = mkTables (<[id := PGStore.bump_row_failed now
            (cap_append (unmarshal_or [] (jr_errors_json row)) ie) row]> (t_jobs t)) (t_items t)).
Proof.
  unfold PGStore.bump_failed_tx.
  intros [(col & t2 & [-> [e ->]]%runs_select & Hk)|(e & -> & _)]%runs_or_rollback; [|by left; eexists].
  destruct (t_jobs t !! id) as [row|] eqn:Hr; simpl in Hk.
  2:{ apply runs_ret in Hk as [-> _]. left. by eexists. }
  apply runs_or_rollback in Hk as [(n & t3 & He%runs_exec & [-> ->]%runs_ret)|(e' & -> & _)];
    [|by left; eexists].
  right. eexists _, row. split; [done|]. split; [done|].
  unfold update_job_row in He. rewrite Hr in He. by simplify_eq.
Qed.

(** The item update followed by the counter update, seen from the view. *)
Lemma mark_view id k e t t2 row row' r0 :
  tab_inv t2 -> t_jobs t !! id = Some row -> t_jobs t2 = t_jobs t ->
  item_terminal (ir_status r0) = false ->
  List.find (Spec.key_is k) (abs_irow <$> rows id t) = Some (abs_irow r0) ->
  abs_irow <$> rows id t2
    = update_first (Spec.key_is k) (Spec.set_st (Spec.out_st e)) (abs_irow <$> rows id t) ->
  tab_view t2 = <[id := abs_row row (abs_irow <$> rows id t2)]> (tab_view t) ->
  (forall l l0, abs_row row' l =
     Spec.bump ((fun x => mkItemError k x) <$> e) (Spec.with_items l (abs_row row l0))) ->
  let t3 := mkTables (<[id := row']> (t_jobs t2)) (t_items t2) in
  tab_inv t3 /\ Spec.mark_progress id k e tt (tab_view t) (tab_view t3).
Proof.
  intros Hi2 Hr Hj Hq Hf Hrows Hv Hb. split; [apply update_job_inv; [by rewrite Hj, Hr|done]|].
  unfold Spec.mark_progress. rewrite tab_view_lookup, Hr. simpl. rewrite Hf. simpl. rewrite Hq.
  rewrite update_job_view, Hv, insert_insert_eq, Hrows. f_equal. apply Hb.
Qed.

Lemma mark_runs now id k e t r t' :
  tab_inv t -> runs (PGStore.MarkItemDoneAndProgress now id k e) t r t' ->
  post_ok (Spec.mark_progress id k e) r t t'.
Proof.
  intros Hi. apply post_transaction; [done|]. intros x t1
    [(n & t2 & Hu%runs_exec & Hk)|(e' & -> & _)]%runs_or_rollback; [|by left; eexists].
  symmetry in Hu. pose proof (update_items_jobs _ _ _ _ _ Hu) as Hj.
  assert (Hi2 : tab_inv t2) by (eapply update_items_inv; [apply keeps_outcome|exact Hu|done]).
  destruct (keyed_cases id k (fun r => negb (item_terminal (ir_status r)))
      (set_row_outcome (PGStore.out_status e) (default ""%string e))
      (Spec.set_st (PGStore.out_status e)) t n t2 Hi (keeps_outcome _ _) Hu)
    as [(-> & -> & Hsame)|(Hn & row & r0 & Hr & Hq%negb_true_iff & Hf & Hrows & Hv)]; [done|..].
  - rewrite bool_decide_eq_true_2 in Hk by done. apply runs_ret in Hk as [-> ->].
    right. eexists tt, _. split; [done|]. split; [done|].
    unfold Spec.mark_progress. rewrite tab_view_lookup. destruct (t_jobs t !! id) as [row|]; [|done].
    simpl. specialize (Hsame row eq_refl). destruct (List.find _ _); [|done].
    destruct Hsame as (r0 & _ & -> & Hq%negb_false_iff). simpl. by rewrite Hq.
  - rewrite bool_decide_eq_false_2 in Hk by done. destruct e as [e|].
    + apply bump_failed_runs in Hk as [?|(w & row2 & -> & Hr2 & ->)]; [by left|].
      right. exists tt, w. split; [done|]. assert (row2 = row) as -> by congruence.
      by apply (mark_view _ _ _ _ _ row _ r0).
    + apply runs_or_rollback in Hk as [(m & t3 & He%runs_exec & [-> ->]%runs_ret)|(e' & -> & _)];
        [|by left; eexists].
      right. eexists tt, _. split; [done|]. unfold update_job_row in He. rewrite Hj, Hr in He.
      simplify_eq. rewrite <- Hj. by apply (mark_view _ _ _ _ _ row _ r0).
Qed.

(** ** Creation *)

Lemma rows_app id js l l' :
  rows id (mkTables js (l ++ l')) = List.filter (in_job id) l ++ List.filter (in_job id) l'.
Proof. apply List.filter_app. Qed.

Lemma insert_item_ok now id it e t t' :
  PGStore.insert_item now id it e t = (Ok tt, t') -> tab_inv t -> is_Some (t_jobs t !! id) ->
  exists r, t' = mkTables (t_jobs t) (t_items t ++ [r]) /\ tab_inv t' /\
    ir_job_id r = id /\
    abs_irow r = mkAItem (it_IdempotencyKey it) (it_Text it) (it_Metadata it) pending "".
Proof.
  unfold PGStore.insert_item. intros Hins [] Hid. destruct (existsb _ _) eqn:Hex; simplify_eq.
  eexists. split; [done|]. split; [|done].
  assert (Hnew : forall r, r ∈ t_items t -> ir_id r <> String.append "itm_" (ev_rand e) /\
            (ir_job_id r, ir_key r) <> (id, it_IdempotencyKey it)).
  { intros r Hr. apply not_true_iff_false in Hex. split; intros Heq; apply Hex;
      apply List.existsb_exists; exists r; (split; [by apply list_elem_of_In|]).
    - by rewrite bool_decide_eq_true_2.
    - injection Heq as Hj Hk. unfold of_item.
      rewrite (bool_decide_eq_true_2 _ Hj), (bool_decide_eq_true_2 _ Hk). apply orb_true_r. }
  split; simpl.
  - rewrite fmap_app. apply NoDup_app. split_and!; [done| |apply NoDup_singleton].
    intros x (r & -> & Hr)%list_elem_of_fmap Hx%list_elem_of_singleton. exact (proj1 (Hnew r Hr) Hx).
  - rewrite fmap_app. apply NoDup_app. split_and!; [done| |apply NoDup_singleton].
    intros x (r & -> & Hr)%list_elem_of_fmap Hx%list_elem_of_singleton. exact (proj2 (Hnew r Hr) Hx).
  - apply Forall_app. split; [done|]. by constructor.
Qed.

Lemma insert_items_runs now id its t x t' :
  runs (PGStore.insert_items now id its) t x t' -> tab_inv t -> is_Some (t_jobs t !! id) ->
  (exists e, x = Rollback (Err e)) \/
  (exists w new, x = Commit tt w /\ tab_inv t' /\ t' = mkTables (t_jobs t) (t_items t ++ new) /\
     Forall (fun r => ir_job_id r = id) new /\ abs_irow <$> new = Spec.fresh_items its).
Proof.
  revert t. induction its as [|it its IH]; intros t Hr Hi Hid.
  - apply runs_ret in Hr as [-> ->]. right. eexists _, []. split_and!; [done|done| |done|done].
    rewrite app_nil_r. by destruct t.
  - simpl in Hr. apply runs_or_rollback in Hr as [(u & t1 & [e Hs]%runs_statement & Hk)|(e & -> & _)];
      [|by left; eexists]. destruct u.
    destruct (insert_item_ok _ _ _ _ _ _ Hs Hi Hid) as (r & -> & Hi1 & Hjr & Ha).
    destruct (IH _ Hk Hi1 Hid) as [?|(w & new & -> & Hi2 & -> & Hall & Hf)]; [by left|].
    right. exists w, (r :: new). split; [done|]. split; [done|]. csimpl. rewrite <- app_assoc.
    split; [done|]. split; [by constructor|]. by rewrite Hf, Ha.
Qed.

Lemma create_runs now j its t r t' :
  tab_inv t -> runs (PGStore.CreateJob now j its) t r t' ->
  post_ok (Spec.create j its) r t t'.
Proof.
  intros Hi. apply post_transaction; [done|]. intros x t1 ([u|e] & t2 & Hu%runs_statement & Hk)%runs_bind.
  2:{ apply runs_ret in Hk as [-> _]. left. by eexists. }
  destruct Hu as [ev Hu]. unfold PGStore.insert_job in Hu.
  destruct (t_jobs t !! j_ID j) as [row|] eqn:Hn; simplify_eq.
  pose proof (rows_absent _ _ Hi Hn) as Hnone.
  apply insert_items_runs in Hk as [?|(w & new & -> & Hi2 & -> & Hall & Hf)];
    [by left| | |by simpl; rewrite lookup_insert_eq].
  - right. exists tt, w. split; [done|]. split; [done|]. simpl.
    split; [by rewrite tab_view_lookup, Hn|].
    eapply tab_view_insert; [simpl; by rewrite lookup_insert_eq| |].
    + rewrite rows_app. fold (rows (j_ID j) t). rewrite Hnone. simpl. unfold abs_row, abs_job; simpl.
      f_equal. rewrite <- Hf. f_equal. symmetry. apply filter_all.
      eapply Forall_impl; [exact Hall|]. intros r1 Hr1. by apply bool_decide_eq_true_2.
    + intros i Hne. simpl. rewrite lookup_insert_ne by done. split; [done|].
      rewrite rows_app. fold (rows i t). rewrite (filter_none _ new), app_nil_r; [done|].
      eapply Forall_impl; [exact Hall|]. intros r1 Hr1. simpl in Hr1. unfold in_job.
      apply bool_decide_eq_false_2. congruence.
  - destruct Hi. split; [done|done|]. simpl. eapply Forall_impl; [done|]. intros r1 Hr1. simpl.
    destruct (decide (ir_job_id r1 = j_ID j)) as [->|]; [by rewrite lookup_insert_eq|].
    by rewrite lookup_insert_ne.
Qed.

Lemma create_exists_runs now j its t r t' :
  tab_view t !! j_ID j <> None -> runs (PGStore.CreateJob now j its) t r t' ->
  (exists e, r = Err e) /\ t' = t.
Proof.
  intros Hex Hrun. assert (Hbody : forall x t1,
    runs (bind (statement (fun _ => PGStore.insert_job j)) (fun r => match r with
      | Err e => ret (Rollback (Err (if PGStore.isUniqueViolation e then Sentinel ErrJobExists
                                     else Wrap "ingest: create job: insert job" e)))
      | Ok _ => PGStore.insert_items now (j_ID j) its end)) t x t1 -> exists e, x = Rollback (Err e)).
  { intros x t1 ([v|e] & t2 & Hs%runs_statement & Hk)%runs_bind.
    - exfalso. destruct Hs as [_ Hs]. apply Hex. rewrite tab_view_lookup.
      unfold PGStore.insert_job in Hs. by destruct (t_jobs t !! j_ID j).
    - apply runs_ret in Hk as [-> _]. by eexists. }
  apply runs_transaction in Hrun as [[-> Hr]|(a & w & Hc & Hr)].
  - destruct r as [u|e]; [|by split; [eexists|]]. destruct (Hr u eq_refl) as [t1 H1].
    by destruct (Hbody _ _ H1).
  - by destruct (Hbody _ _ Hc).
Qed.

(** ** Sweeping *)

Lemma list_runs t r t' : tab_inv t -> runs PGStore.ListUnfinishedJobs t r t' ->
  post_ok Spec.list_unfinished r t t'.
Proof.
  unfold PGStore.ListUnfinishedJobs. intros Hi (x & [-> Hx]%runs_select & ->)%runs_map.
  split; [done|]. destruct x as [ids|e]; [|by left]. destruct Hx as [_ ->]. split; [done|].
  set (l := List.filter _ _). pose proof (merge_sort_Permutation PGStore.older l) as Hp. split.
  - rewrite Hp. apply NoDup_filter_bool, NoDup_fst_map_to_list.
  - intros id. rewrite Hp, list_elem_of_fmap. setoid_rewrite tab_view_lookup. split.
    + intros ([i row] & -> & [Hin Hu]%elem_of_filter_bool). apply elem_of_map_to_list in Hin.
      simpl. exists (abs_row row (abs_irow <$> rows i t)). by rewrite Hin.
    + intros (a & Ha & Hu). destruct (t_jobs t !! id) as [row|] eqn:Hr; simplify_eq/=.
      exists (id, row). split; [done|]. apply elem_of_filter_bool. split; [|done].
      by apply elem_of_map_to_list.
Qed.

Lemma reset_runs t r t' : tab_inv t -> runs PGStore.ResetRunningItems t r t' ->
  post_ok Spec.reset_running r t t'.
Proof.
  intros Hi. apply post_exec; [done| |eauto|].
  { eapply update_items_inv; [apply keeps_status|apply surjective_pairing|done]. }
  destruct (update_items _ _ t) as [n t2] eqn:Hq. simpl. unfold Spec.reset_running.
  apply map_eq. intros id. rewrite lookup_fmap, !tab_view_lookup, (update_items_jobs _ _ _ _ _ Hq).
  rewrite (update_items_rows _ _ _ _ _ _ (keeps_status pending) Hq).
  destruct (t_jobs t !! id) as [row|] eqn:Hr; [|done]. simpl. f_equal.
  assert (Hsame : forall x, x ∈ rows id t -> match t_jobs t !! ir_job_id x with
      | Some j => row_unfinished j | None => false end = row_unfinished row).
  { intros x [_ Hx%bool_decide_eq_true]%elem_of_filter_bool. by rewrite Hx, Hr. }
  unfold Spec.reset. change (Spec.aunfinished (abs_row row _)) with (row_unfinished row).
  destruct (row_unfinished row) eqn:Hu.
  - unfold Spec.with_items, abs_row; simpl. f_equal. rewrite <- !list_fmap_compose.
    apply list_fmap_ext. intros i x Hx%list_elem_of_lookup_2. simpl. rewrite (Hsame x Hx), andb_true_r.
    unfold Spec.st_is. simpl. by destruct (bool_decide (ir_status x = running)).
  - unfold abs_row. f_equal. f_equal. apply fmap_if_none. intros x Hx.
    rewrite (Hsame x Hx). apply andb_false_r.
Qed.

(** ** The instance *)

#[global] Program Instance PGStore_Laws : JobStoreLaws (Db tables) :=
  {| js_view := fun d => tab_view (db_tab d); js_inv := fun d => tab_inv (db_tab d) |}.
Next Obligation.
  intros d Hi id a Ha. rewrite tab_view_lookup in Ha. destruct (_ !! id); simplify_eq/=.
  rewrite <- list_fmap_compose. by apply (rows_key_NoDup _ id Hi).
Qed.
Next Obligation.
  intros now j its d r d' Hi _ Hr. eapply create_runs, runs_intro; [done|exact Hr].
Qed.
Next Obligation.
  intros now j its d r d' Hi Hex Hr.
  destruct (create_exists_runs _ _ _ _ _ _ Hex (runs_intro _ _ _ _ Hr)) as [? Ht]. by rewrite Ht.
Qed.
Next Obligation. intros id d r d' Hi Hr. eapply get_runs, runs_intro; [done|exact Hr]. Qed.
Next Obligation. intros now j d r d' Hi Hr. eapply update_runs, runs_intro; [done|exact Hr]. Qed.
Next Obligation. intros id d r d' Hi Hr. eapply claim_runs, runs_intro; [done|exact Hr]. Qed.
Next Obligation. intros id k v d r d' Hi Hr. eapply set_track_runs, runs_intro; [done|exact Hr]. Qed.
Next Obligation. intros now id k e d r d' Hi Hr. eapply mark_runs, runs_intro; [done|exact Hr]. Qed.
Next Obligation. intros d r d' Hi Hr. eapply list_runs, runs_intro; [done|exact Hr]. Qed.
Next Obligation. intros d r d' Hi Hr. eapply reset_runs, runs_intro; [done|exact Hr]. Qed.

(** * The property *)


(** A commit whose acknowledgement is lost: the mark took effect, the caller sees
    an error. *)
Definition one_item_tables : tables :=
  mkTables {["j"%string := mkJobRow JobStatusRunning 1 0 0 (JText []) 0 0]}
    [mkItemRow "itm_0" "j" "a" running "" "text" (JText ∅) "doc" 0].
Definition lost_commit : Db tables :=
  mkDb one_item_tables [calm; calm; calm; mkEnv (LostAck NetError) ∅ 0 ""].
