(* ===== verification/Enqueue.v ===== *)
(** Accepting a batch ([internal/ingest/enqueue.go]): missing idempotency keys
    are drawn at random, duplicates are refused before the store is touched, and
    the created job is handed to the pool.  [rand n] is the hex text of the [n]th
    call to [crypto/rand]. *)
From S2P Require Import Prelude GoErr JobStore Pool.

(** * Definitions *)

Section Enqueuer.
Context (rand : nat -> string).
Definition newItemID (n : nat) : string := String.append "itm_" (rand n).
Definition newJobID (n : nat) : string := String.append "job_" (rand n).

(** The loop that fills in missing keys; [n] counts the draws made so far. *)
Fixpoint fill_keys (n : nat) (items : list IngestItem) : list IngestItem * nat :=
  match items with
  | [] => ([], n)
  | it :: items =>
      if bool_decide (it_IdempotencyKey it = ""%string)
      then let q := fill_keys (S n) items in
           (mkItem (newItemID n) (it_Text it) (it_Metadata it) (it_TrackID it) :: q.1, q.2)
      else let q := fill_keys n items in (it :: q.1, q.2)
  end.
(** The [seen] loop. *)
Fixpoint has_duplicate (seen : gset string) (items : list IngestItem) : bool :=
  match items with
  | [] => false
  | it :: items =>
      if bool_decide (it_IdempotencyKey it ∈ seen) then true
      else has_duplicate ({[it_IdempotencyKey it]} ∪ seen) items
  end.

Context {S U : Type} `{JobStore S} (cfg : PoolConfig) (now : Z).
Definition new_job (n : nat) (items : list IngestItem) : IngestJob :=
  mkJob (newJobID n) JobStatusQueued (Z.of_nat (length items)) 0 0 [] now now.
Definition submit_batch (items : list IngestItem) : M (pool S U) (result err IngestJob) :=
  let q := fill_keys 0 items in
  if has_duplicate ∅ q.1 then ret (Err (Sentinel ErrDuplicateKey))
  else
    let job := new_job q.2 q.1 in
    try _ <- on_store (CreateJob now job q.1) in
    (Notify cfg (j_ID job) ;; ret (Ok job)).
Definition Enqueue (items : list IngestItem) : M (pool S U) (result err IngestJob) :=
  match items with
  | [] => ret (Err (Errorf "ingest: empty items"))
  | _ => submit_batch items
  end.
End Enqueuer.

(** * Lemmas *)

Lemma has_duplicate_false seen items :
  has_duplicate seen items = false ->
  NoDup (it_IdempotencyKey <$> items) /\ Forall (fun it => it_IdempotencyKey it ∉ seen) items.
Proof.
  revert seen. induction items as [|it items IH]; intros seen; simpl; [by split; constructor|].
  case_bool_decide as Hin; [done|]. intros [Hnd Hall]%IH. rewrite Forall_forall in Hall.
  split; constructor; try done.
  - intros (x & Hk & Hx)%list_elem_of_fmap. apply (Hall x Hx). rewrite Hk.
    apply elem_of_union_l, elem_of_singleton. done.
  - apply Forall_forall. intros x Hx Hs. apply (Hall x Hx). by apply elem_of_union_r.
Qed.
Lemma has_duplicate_true seen items :
  has_duplicate seen items = true ->
  ~ (NoDup (it_IdempotencyKey <$> items) /\ Forall (fun it => it_IdempotencyKey it ∉ seen) items).
Proof.
  revert seen. induction items as [|it items IH]; intros seen; simpl; [done|].
  intros Hd [[Hx Hnd]%NoDup_cons [Hs Hall]%Forall_cons]. case_bool_decide; [done|].
  apply (IH _ Hd). split; [done|]. rewrite Forall_forall in Hall |- *.
  intros x Hxin [Hk%elem_of_singleton|Hk]%elem_of_union; [|by apply (Hall x Hxin)].
  apply Hx. rewrite <- Hk. by apply list_elem_of_fmap_2.
Qed.
Lemma length_fill_keys rand n items : length (fill_keys rand n items).1 = length items.
Proof.
  revert n. induction items as [|it items IH]; intros n; simpl; [done|].
  case_bool_decide; simpl; by rewrite IH.
Qed.
(** Filling leaves texts and given keys alone. *)
Lemma fill_keys_spec rand n items :
  Forall2 (fun it it' => it_Text it' = it_Text it /\ it_Metadata it' = it_Metadata it /\
             it_IdempotencyKey it' <> ""%string /\
             (it_IdempotencyKey it <> ""%string -> it' = it)) items (fill_keys rand n items).1.
Proof.
  revert n. induction items as [|it items IH]; intros n; simpl; [constructor|].
  case_bool_decide; simpl; constructor; auto; try done.
Qed.

(** * What [Enqueue] guarantees *)

Section EnqueueSpec.
Context {S U : Type} `{JobStoreLaws S} (rand : nat -> string) (cfg : PoolConfig) (now : Z).
Abbreviation Enqueue := (Enqueue (S:=S) (U:=U) rand cfg now).
Abbreviation filled items := (fill_keys rand 0 items).1.

Lemma Notify_spec id (p : pool S U) :
  p_store (Notify cfg id p).2 = p_store p /\ p_up (Notify cfg id p).2 = p_up p /\
  p_notify (Notify cfg id p).2 =
    if bool_decide (Z.of_nat (length (p_notify p)) < cfg_buf cfg) then p_notify p ++ [id] else p_notify p.
Proof. unfold Notify, metric, modify. by case_bool_decide. Qed.

(** C14: an accepted batch is stored as one queued job holding exactly the
    submitted items, all pending, under distinct non-empty keys, and its ID is on
    the channel unless the channel was full.  A batch with duplicate keys, or an
    empty one, is refused without touching anything; a store failure leaves the
    store as it was or with the whole job, never with a part of it. *)
Theorem Enqueue_spec items (p p' : pool S U) r :
  js_inv (p_store p) -> Enqueue items p = (r, p') ->
  js_inv (p_store p') /\
  match r with
  | Ok job =>
      j_Status job = JobStatusQueued /\ j_Total job = Z.of_nat (length items) /\
      NoDup (it_IdempotencyKey <$> filled items) /\
      Spec.create job (filled items) tt (js_view (p_store p)) (js_view (p_store p')) /\
      p_notify p' = if bool_decide (Z.of_nat (length (p_notify p)) < cfg_buf cfg)
                    then p_notify p ++ [j_ID job] else p_notify p
  | Err e =>
      p_notify p' = p_notify p /\
      ((p' = p /\ (items = [] \/
          (e = Sentinel ErrDuplicateKey /\ ~ NoDup (it_IdempotencyKey <$> filled items)))) \/
       js_view (p_store p') = js_view (p_store p) \/
       exists job, Spec.create job (filled items) tt (js_view (p_store p)) (js_view (p_store p')))
  end.
Proof.
  intros Hi He. assert (He' : (items = [] /\ p' = p /\ exists e, r = Err e) \/
    submit_batch rand cfg now items p = (r, p')).
  { destruct items; [left; unfold Enqueue.Enqueue, ret in He; simplify_eq; eauto|by right]. }
  clear He. destruct He' as [(-> & -> & e & ->)|He]; [by auto|].
  unfold submit_batch in He. destruct (has_duplicate ∅ (filled items)) eqn:Hd.
  - unfold ret in He. simplify_eq. split; [done|]. split; [done|]. left. split; [done|]. right. split; [done|].
    intros Hnd. apply (has_duplicate_true _ _ Hd). split; [done|].
    apply Forall_true. intros x. apply not_elem_of_empty.
  - apply has_duplicate_false in Hd as [Hnd _]. unfold bind, on_store, ret in He. simpl in He.
    destruct (CreateJob now _ (filled items) (p_store p)) as [x s'] eqn:Hc. simpl in He.
    destruct (create_law _ _ _ _ _ _ Hi Hnd Hc) as [Hi' Ha].
    destruct x as [u|e]; simplify_eq/=.
    + destruct (Notify_spec (newJobID rand (fill_keys rand 0 items).2)
        (mkPool s' (p_up p) (p_notify p) (p_metrics p))) as (Hs & _ & Hn).
      rewrite Hs, Hn. simpl. rewrite length_fill_keys. by destruct u.
    + split; [done|]. split; [done|]. right. destruct Ha as [Ha|[[] Ha]]; eauto.
Qed.

(** An [Enqueue] is a sequence of system steps, so the theorems about reachable
    systems cover jobs submitted at any moment. *)
Lemma Enqueue_steps `{GoError} (up : Upstream U) items p p' r ws :
  Enqueue items p = (r, p') -> rtc (step up cfg now) (mkSys p ws) (mkSys p' ws).
Proof.
  intros He. destruct items as [|it items]; [unfold Enqueue.Enqueue, ret in He; by simplify_eq|].
  change (submit_batch rand cfg now (it :: items) p = (r, p')) in He. revert He.
  generalize (it :: items). clear it items. intros items He.
  unfold submit_batch in He. destruct (has_duplicate ∅ (filled items)) eqn:Hd;
    [unfold ret in He; by simplify_eq|].
  apply has_duplicate_false in Hd as [Hnd _]. unfold bind in He.
  destruct (on_store _ p) as [x p1] eqn:Hc.
  assert (Hst : step up cfg now (mkSys p ws) (mkSys p1 ws)).
  { by apply (step_enqueue up cfg now (mkSys p ws) now (new_job rand now (fill_keys rand 0 items).2 (filled items))
      (filled items) x p1). }
  eapply rtc_l; [exact Hst|]. simpl in He. destruct x as [u|e]; [|by unfold ret in He; simplify_eq].
  destruct (Notify cfg _ p1) as [[] p2] eqn:Hn. unfold ret in He; simplify_eq/=.
  apply rtc_once. by apply (step_notify up cfg now (mkSys p1 ws) _ _ Hn).
Qed.
End EnqueueSpec.

(** A batch with a missing key, on the in-memory store. *)
Section EnqueueWitness.
#[local] Instance enqueue_range : MapRange := map_to_list_range.
Definition counter_rand (n : nat) : string := nth n ["r0"%string; "r1"%string; "r2"%string] "r"%string.
Definition two_items : list IngestItem := [mkItem "" "first" ∅ ""; mkItem "k" "second" ∅ ""].
Definition empty_pool : pool MemStore.t unit := mkPool ∅ tt [] ∅.
Lemma Enqueue_spec_witness :
  exists job p', Enqueue counter_rand (newPool 1 4 0) 5 two_items empty_pool = (Ok job, p') /\
    p_notify p' = ["job_r1"%string] /\
    Spec.create job (fill_keys counter_rand 0 two_items).1 tt
      (js_view (p_store empty_pool)) (js_view (p_store p')).
Proof.
  eexists _, _. assert (He : Enqueue counter_rand (newPool 1 4 0) 5 two_items empty_pool = _)
    by (vm_compute; reflexivity).
  split; [exact He|]. split; [reflexivity|].
  apply (Enqueue_spec counter_rand (newPool 1 4 0) 5 two_items empty_pool _ _) in He as [_ (_ & _ & _ & Hc & _)];
    [exact Hc|]. intros id b Hb. simpl in Hb. by rewrite lookup_empty in Hb.
Defined.
End EnqueueWitness.
