(* ===== verification/EdgeId.v ===== *)
(** Edge identifiers ([internal/memory/edgeid.go]): [base64.RawURLEncoding] of
    the two node names joined by a NUL byte.  Strings are byte sequences.

    The encoder works on groups of three bytes; the decoder skips line breaks,
    rejects characters outside the alphabet and a last group of a single
    character, and ignores the unused low bits of a short last group. *)
From S2P Require Import Prelude GoErr.
From Stdlib Require Import Ascii.

(** * Definitions *)

Fixpoint bytes (s : string) : list ascii :=
  match s with EmptyString => [] | String c s => c :: bytes s end.
Fixpoint of_bytes (l : list ascii) : string :=
  match l with [] => EmptyString | c :: l => String c (of_bytes l) end.

Definition byte (c : ascii) : Z := Z.of_N (N_of_ascii c).
Definition to_byte (z : Z) : ascii := ascii_of_N (Z.to_N z).

(** The URL-safe alphabet. *)
Definition sextet_char (n : Z) : ascii :=
  if n <? 26 then to_byte (n + 65)
  else if n <? 52 then to_byte (n + 71)
  else if n <? 62 then to_byte (n - 4)
  else if n =? 62 then "-"%char else "_"%char.
Definition char_sextet (c : ascii) : option Z :=
  let b := byte c in
  if (65 <=? b) && (b <=? 90) then Some (b - 65)
  else if (97 <=? b) && (b <=? 122) then Some (b - 71)
  else if (48 <=? b) && (b <=? 57) then Some (b + 4)
  else if b =? 45 then Some 62
  else if b =? 95 then Some 63 else None.

Definition sextet (i n : Z) : Z := Z.land (Z.shiftr n (6 * i)) 63.
Definition octet (i n : Z) : Z := Z.land (Z.shiftr n (8 * i)) 255.

Fixpoint encode (l : list ascii) : list ascii :=
  match l with
  | [] => []
  | [a] => let n := Z.shiftl (byte a) 16 in [sextet_char (sextet 3 n); sextet_char (sextet 2 n)]
  | [a; b] =>
      let n := Z.lor (Z.shiftl (byte a) 16) (Z.shiftl (byte b) 8) in
      [sextet_char (sextet 3 n); sextet_char (sextet 2 n); sextet_char (sextet 1 n)]
  | a :: b :: c :: l =>
      let n := Z.lor (Z.lor (Z.shiftl (byte a) 16) (Z.shiftl (byte b) 8)) (byte c) in
      sextet_char (sextet 3 n) :: sextet_char (sextet 2 n) ::
      sextet_char (sextet 1 n) :: sextet_char (sextet 0 n) :: encode l
  end.

Fixpoint sextets (l : list ascii) : option (list Z) :=
  match l with
  | [] => Some []
  | c :: l => match char_sextet c, sextets l with
              | Some n, Some ns => Some (n :: ns)
              | _, _ => None
              end
  end.
Definition quantum (a b c d : Z) : Z :=
  Z.lor (Z.lor (Z.shiftl a 18) (Z.shiftl b 12)) (Z.lor (Z.shiftl c 6) d).
Fixpoint octets (l : list Z) : option (list ascii) :=
  match l with
  | [] => Some []
  | [_] => None
  | [a; b] => Some [to_byte (octet 2 (quantum a b 0 0))]
  | [a; b; c] => let n := quantum a b c 0 in Some [to_byte (octet 2 n); to_byte (octet 1 n)]
  | a :: b :: c :: d :: l =>
      let n := quantum a b c d in
      match octets l with
      | Some out => Some (to_byte (octet 2 n) :: to_byte (octet 1 n) :: to_byte (octet 0 n) :: out)
      | None => None
      end
  end.
Definition line_break (c : ascii) : bool := (byte c =? 10) || (byte c =? 13).
Definition decode (l : list ascii) : option (list ascii) :=
  match sextets (List.filter (fun c => negb (line_break c)) l) with
  | Some ns => octets ns
  | None => None
  end.

Definition NUL : ascii := "000"%char.

Definition EncodeEdgeID (from to : string) : string :=
  of_bytes (encode (bytes from ++ NUL :: bytes to)).

(** [strings.Index] for the separator, and the two halves around it. *)
Fixpoint cut_nul (l : list ascii) : option (list ascii * list ascii) :=
  match l with
  | [] => None
  | c :: l => if ascii_dec c NUL then Some ([], l)
              else match cut_nul l with Some (a, b) => Some (c :: a, b) | None => None end
  end.
Definition DecodeEdgeID (id : string) : result err (string * string) :=
  match decode (bytes id) with
  | None => Err (Errorf "illegal base64 data")
  | Some raw =>
      match cut_nul raw with
      | None => Err (Errorf "edge id: missing separator")
      | Some (from, to) => Ok (of_bytes from, of_bytes to)
      end
  end.

(** * Lemmas *)

Lemma bytes_of_bytes l : bytes (of_bytes l) = l.
Proof. induction l; simpl; congruence. Qed.
Lemma of_bytes_bytes s : of_bytes (bytes s) = s.
Proof. induction s; simpl; congruence. Qed.
Lemma byte_bounds c : 0 <= byte c < 256.
Proof. unfold byte. pose proof (N_ascii_bounded c). lia. Qed.
Lemma to_byte_byte c : to_byte (byte c) = c.
Proof. unfold to_byte, byte. by rewrite N2Z.id, ascii_N_embedding. Qed.

(** The alphabet is a bijection on 0..63: checked by evaluation. *)
Lemma char_sextet_char n : 0 <= n < 64 -> char_sextet (sextet_char n) = Some n.
Proof.
  intros Hn. assert (Hall : forallb (fun k => bool_decide (char_sextet (sextet_char (Z.of_nat k)) = Some (Z.of_nat k)))
    (List.seq 0 64) = true) by (vm_compute; reflexivity).
  rewrite List.forallb_forall in Hall. specialize (Hall (Z.to_nat n)).
  rewrite Z2Nat.id in Hall by lia. apply bool_decide_eq_true in Hall; [done|].
  apply List.in_seq. lia.
Qed.
Lemma sextet_char_no_break n : 0 <= n < 64 -> line_break (sextet_char n) = false.
Proof.
  intros Hn. assert (Hall : forallb (fun k => negb (line_break (sextet_char (Z.of_nat k)))) (List.seq 0 64) = true)
    by (vm_compute; reflexivity).
  rewrite List.forallb_forall in Hall. specialize (Hall (Z.to_nat n)).
  rewrite Z2Nat.id in Hall by lia. apply negb_true_iff, Hall, List.in_seq. lia.
Qed.
Lemma sextet_bounds i n : 0 <= n -> 0 <= sextet i n < 64.
Proof.
  intros Hn. unfold sextet. change 63 with (Z.ones 6). rewrite Z.land_ones by lia.
  apply Z.mod_pos_bound. lia.
Qed.

(** Disjoint bit fields add up. *)
Lemma lor_shiftl a b k : 0 <= k -> 0 <= b < 2 ^ k -> Z.lor (Z.shiftl a k) b = a * 2 ^ k + b.
Proof.
  intros Hk Hb. rewrite <- Z.shiftl_mul_pow2 by lia. symmetry. rewrite Z.add_nocarry_lxor.
  - apply Z.bits_inj'. intros i Hi. rewrite Z.lxor_spec, Z.lor_spec.
    destruct (decide (i < k)) as [Hlt|Hge].
    + rewrite Z.shiftl_spec_low by lia. by destruct (Z.testbit b i).
    + destruct (decide (b = 0)) as [->|Hb0]; [rewrite Z.bits_0; by destruct (Z.testbit _ _)|].
      rewrite (Z.bits_above_log2 b i); [by destruct (Z.testbit _ _)|lia|].
      apply Z.log2_lt_pow2; [lia|]. eapply Z.lt_le_trans; [apply Hb|]. apply Z.pow_le_mono_r; lia.
  - apply Z.bits_inj'. intros i Hi. rewrite Z.land_spec, Z.bits_0.
    destruct (decide (i < k)) as [Hlt|Hge]; [by rewrite Z.shiftl_spec_low by lia|].
    destruct (decide (b = 0)) as [->|Hb0]; [by rewrite Z.bits_0, andb_false_r|].
    rewrite (Z.bits_above_log2 b i); [by rewrite andb_false_r|lia|].
    apply Z.log2_lt_pow2; [lia|]. eapply Z.lt_le_trans; [apply Hb|]. apply Z.pow_le_mono_r; lia.
Qed.
Lemma sextet_div i n : 0 <= i -> sextet i n = (n / 2 ^ (6 * i)) mod 64.
Proof. intros. unfold sextet. change 63 with (Z.ones 6). by rewrite Z.land_ones, Z.shiftr_div_pow2 by lia. Qed.
Lemma octet_div i n : 0 <= i -> octet i n = (n / 2 ^ (8 * i)) mod 256.
Proof. intros. unfold octet. change 255 with (Z.ones 8). by rewrite Z.land_ones, Z.shiftr_div_pow2 by lia. Qed.
Lemma group_value a b c : 0 <= a < 256 -> 0 <= b < 256 -> 0 <= c < 256 ->
  Z.lor (Z.lor (Z.shiftl a 16) (Z.shiftl b 8)) c = a * 65536 + b * 256 + c.
Proof.
  intros. rewrite <- Z.lor_assoc, (lor_shiftl b c 8), (lor_shiftl a _ 16) by lia. lia.
Qed.
Lemma quantum_value a b c d : 0 <= a < 64 -> 0 <= b < 64 -> 0 <= c < 64 -> 0 <= d < 64 ->
  quantum a b c d = a * 262144 + b * 4096 + c * 64 + d.
Proof.
  intros. unfold quantum.
  rewrite <- Z.lor_assoc, (lor_shiftl c d 6), (lor_shiftl b _ 12), (lor_shiftl a _ 18) by lia. lia.
Qed.

(** Positional notation in base 64 and 256. *)
Lemma sextet_split n : 0 <= n < 16777216 ->
  (n / 262144) mod 64 * 262144 + (n / 4096) mod 64 * 4096 + (n / 64) mod 64 * 64 + (n / 1) mod 64 = n.
Proof.
  intros Hn. rewrite Z.div_1_r.
  pose proof (Z.div_mod n 64 ltac:(lia)) as H0. pose proof (Z.div_mod (n / 64) 64 ltac:(lia)) as H1.
  pose proof (Z.div_mod (n / 64 / 64) 64 ltac:(lia)) as H2.
  rewrite Z.div_div in H1, H2 by lia. rewrite Z.div_div in H2 by lia.
  change (64 * 64) with 4096 in *. change (4096 * 64) with 262144 in *.
  rewrite (Z.mod_small (n / 262144) 64) by (split; [apply Z.div_pos; lia|apply Z.div_lt_upper_bound; lia]).
  lia.
Qed.
Lemma octet_split a b c : 0 <= a < 256 -> 0 <= b < 256 -> 0 <= c < 256 ->
  let n := a * 65536 + b * 256 + c in
  (n / 65536) mod 256 = a /\ (n / 256) mod 256 = b /\ (n / 1) mod 256 = c.
Proof.
  intros Ha Hb Hc n. subst n. rewrite Z.div_1_r. split_and!.
  - rewrite <- (Z.div_unique_pos (a * 65536 + b * 256 + c) 65536 a (b * 256 + c)) by lia. apply Z.mod_small; lia.
  - rewrite <- (Z.div_unique_pos (a * 65536 + b * 256 + c) 256 (a * 256 + b) c) by lia.
    symmetry. apply (Z.mod_unique_pos _ _ a); lia.
  - symmetry. apply (Z.mod_unique_pos _ _ (a * 256 + b)); lia.
Qed.

(** Decoding the four characters of a group gives its three bytes back. *)
Lemma group_roundtrip a b c :
  let n := byte a * 65536 + byte b * 256 + byte c in
  to_byte (octet 2 (quantum (sextet 3 n) (sextet 2 n) (sextet 1 n) (sextet 0 n))) = a /\
  to_byte (octet 1 (quantum (sextet 3 n) (sextet 2 n) (sextet 1 n) (sextet 0 n))) = b /\
  to_byte (octet 0 (quantum (sextet 3 n) (sextet 2 n) (sextet 1 n) (sextet 0 n))) = c.
Proof.
  pose proof (byte_bounds a). pose proof (byte_bounds b). pose proof (byte_bounds c). intros n.
  assert (Hq : quantum (sextet 3 n) (sextet 2 n) (sextet 1 n) (sextet 0 n) = n).
  { rewrite quantum_value by (apply sextet_bounds; lia). rewrite !sextet_div by lia.
    change (2 ^ (6 * 3)) with 262144. change (2 ^ (6 * 2)) with 4096. change (2 ^ (6 * 1)) with 64.
    change (2 ^ (6 * 0)) with 1. apply sextet_split. subst n. lia. }
  rewrite Hq, !octet_div by lia.
  change (2 ^ (8 * 2)) with 65536. change (2 ^ (8 * 1)) with 256. change (2 ^ (8 * 0)) with 1.
  subst n. destruct (octet_split (byte a) (byte b) (byte c)) as (-> & -> & ->); [done..|].
  by rewrite !to_byte_byte.
Qed.

(** Characters of the alphabet survive the decoder's filter and table. *)
Lemma sextets_cons n l :
  0 <= n < 64 ->
  sextets (List.filter (fun c => negb (line_break c)) (sextet_char n :: l))
  = match sextets (List.filter (fun c => negb (line_break c)) l) with
    | Some ns => Some (n :: ns) | None => None end.
Proof.
  intros Hn. cbn [List.filter]. rewrite sextet_char_no_break by done. cbn [negb sextets].
  by rewrite char_sextet_char.
Qed.

Lemma decode_encode l : decode (encode l) = Some l.
Proof.
  unfold decode. enough (Hl : exists ns, sextets (List.filter (fun c => negb (line_break c)) (encode l)) = Some ns
    /\ octets ns = Some l) by (by destruct Hl as (ns & -> & ?)).
  remember (length l) as k eqn:Hk. revert l Hk.
  induction (lt_wf k) as [k _ IH]. intros l ->.
  assert (Hs : forall i n, 0 <= n -> 0 <= sextet i n < 64) by apply sextet_bounds.
  assert (Hn : forall a b c, 0 <= byte a * 65536 + byte b * 256 + byte c).
  { intros a b c. pose proof (byte_bounds a). pose proof (byte_bounds b). pose proof (byte_bounds c). lia. }
  assert (Hz : byte NUL = 0) by reflexivity.
  destruct l as [|a [|b [|c l]]].
  - by exists [].
  - pose proof (group_roundtrip a NUL NUL) as (H1 & _ & _). rewrite Hz in H1.
    cbn [encode]. replace (Z.shiftl (byte a) 16) with (byte a * 65536 + 0 * 256 + 0)
      by (rewrite Z.shiftl_mul_pow2 by lia; lia).
    specialize (Hn a NUL NUL). rewrite Hz in Hn. set (n := byte a * 65536 + 0 * 256 + 0) in *.
    rewrite !sextets_cons by auto. eexists. split; [reflexivity|]. cbn [octets].
    assert (sextet 1 n = 0 /\ sextet 0 n = 0) as [Hs1 Hs0].
    { pose proof (byte_bounds a). rewrite !sextet_div by lia. subst n.
      change (2 ^ (6 * 1)) with 64. change (2 ^ (6 * 0)) with 1. split; Z.div_mod_to_equations; lia. }
    rewrite Hs1, Hs0 in H1. by rewrite H1.
  - pose proof (group_roundtrip a b NUL) as (H1 & H2 & _). rewrite Hz in H1, H2.
    pose proof (byte_bounds a). pose proof (byte_bounds b).
    cbn [encode]. replace (Z.lor (Z.shiftl (byte a) 16) (Z.shiftl (byte b) 8))
      with (byte a * 65536 + byte b * 256 + 0)
      by (rewrite <- group_value by lia; apply Z.lor_0_r).
    specialize (Hn a b NUL). rewrite Hz in Hn. set (n := byte a * 65536 + byte b * 256 + 0) in *.
    rewrite !sextets_cons by auto. eexists. split; [reflexivity|]. cbn [octets]. f_equal.
    assert (Hs0 : sextet 0 n = 0).
    { rewrite sextet_div by lia. change (2 ^ (6 * 0)) with 1. rewrite Z.div_1_r. subst n.
      Z.div_mod_to_equations; lia. }
    rewrite Hs0 in H1, H2. by rewrite H1, H2.
  - pose proof (group_roundtrip a b c) as (H1 & H2 & H3).
    cbn [encode]. rewrite group_value by apply byte_bounds.
    specialize (Hn a b c). set (n := byte a * 65536 + byte b * 256 + byte c) in *.
    rewrite !sextets_cons by auto.
    destruct (IH (length l) ltac:(simpl; lia) l eq_refl) as (ns & -> & Ho).
    eexists. split; [reflexivity|]. cbn [octets]. by rewrite Ho, H1, H2, H3.
Qed.

Lemma cut_nul_app l k : Forall (fun c => c <> NUL) l -> cut_nul (l ++ NUL :: k) = Some (l, k).
Proof.
  induction 1 as [|c l Hc _ IH]; [done|]. cbn [app cut_nul]. destruct (ascii_dec c NUL); [done|].
  by rewrite IH.
Qed.
Lemma cut_nul_clean l a b : cut_nul l = Some (a, b) -> Forall (fun c => c <> NUL) a.
Proof.
  revert a b. induction l as [|c l IH]; intros a b Hc; [done|]. cbn [cut_nul] in Hc.
  destruct (ascii_dec c NUL); simplify_eq; [constructor|].
  destruct (cut_nul l) as [[x y]|]; simplify_eq. constructor; [done|by eapply IH].
Qed.

(** The output alphabet has no NUL, so an ID can be joined with another field. *)
Lemma sextet_char_not_NUL n : 0 <= n < 64 -> sextet_char n <> NUL.
Proof. intros Hn He. pose proof (char_sextet_char n Hn) as Hc. rewrite He in Hc. done. Qed.
Lemma encode_no_NUL l : Forall (fun c => c <> NUL) (encode l).
Proof.
  remember (length l) as k eqn:Hk. revert l Hk. induction (lt_wf k) as [k _ IH]. intros l ->.
  assert (Hs : forall i n, 0 <= n -> sextet_char (sextet i n) <> NUL).
  { intros i n Hn. by apply sextet_char_not_NUL, sextet_bounds. }
  assert (H1 : forall a i, 0 <= Z.shiftl (byte a) i).
  { intros a i. apply Z.shiftl_nonneg. pose proof (byte_bounds a). lia. }
  assert (H2 : forall a, 0 <= byte a) by (intros a; pose proof (byte_bounds a); lia).
  destruct l as [|a [|b [|c l]]]; cbn [encode]; repeat constructor; auto; try (apply Hs);
    rewrite ?Z.lor_nonneg; auto.
  apply (IH (length l)); [simpl; lia|done].
Qed.
Lemma bytes_append a b : bytes (String.append a b) = bytes a ++ bytes b.
Proof.
  induction a as [|c a IH]; [done|].
  change (c :: bytes (String.append a b) = c :: bytes a ++ bytes b). by rewrite IH.
Qed.
Lemma append_NUL_inj a b x y :
  Forall (fun c => c <> NUL) (bytes a) -> Forall (fun c => c <> NUL) (bytes b) ->
  String.append a (String NUL x) = String.append b (String NUL y) -> a = b /\ x = y.
Proof.
  intros Ha Hb He. assert (Hc : cut_nul (bytes (String.append a (String NUL x)))
    = cut_nul (bytes (String.append b (String NUL y)))) by by rewrite He.
  rewrite !bytes_append in Hc. cbn [bytes] in Hc. rewrite !cut_nul_app in Hc by done. injection Hc as Hab Hxy.
  by rewrite <- (of_bytes_bytes a), <- (of_bytes_bytes b), <- (of_bytes_bytes x), <- (of_bytes_bytes y), Hab, Hxy.
Qed.

(** A name without the separator byte. *)
Definition clean (s : string) : Prop := Forall (fun c => c <> NUL) (bytes s).
#[global] Instance clean_dec s : Decision (clean s).
Proof. unfold clean. apply Forall_dec. intros c. destruct (ascii_dec c NUL); [right|left]; congruence. Defined.

Lemma decode_edge from to : clean from -> DecodeEdgeID (EncodeEdgeID from to) = Ok (from, to).
Proof.
  intros Hc. unfold DecodeEdgeID, EncodeEdgeID. rewrite bytes_of_bytes, decode_encode.
  by rewrite cut_nul_app, !of_bytes_bytes.
Qed.

(** C30: an edge ID decodes to the two names it was made from exactly when the
    first name contains no NUL byte; decoding never yields such a name. *)
Theorem EdgeID_roundtrip from to :
  DecodeEdgeID (EncodeEdgeID from to) = Ok (from, to) <-> clean from.
Proof.
  split; [|apply decode_edge].
  unfold DecodeEdgeID, EncodeEdgeID. rewrite bytes_of_bytes, decode_encode.
  destruct (cut_nul _) as [[a b]|] eqn:Hc; [|done]. intros [= <- _].
  unfold clean. rewrite bytes_of_bytes. by eapply cut_nul_clean.
Qed.
Lemma EncodeEdgeID_inj f1 t1 f2 t2 :
  clean f1 -> clean f2 -> EncodeEdgeID f1 t1 = EncodeEdgeID f2 t2 -> f1 = f2 /\ t1 = t2.
Proof.
  intros H1 H2 He. pose proof (decode_edge f1 t1 H1) as Hd. rewrite He, decode_edge in Hd by done.
  by simplify_eq.
Qed.

(** Three bytes, [a] NUL [b], make one group. *)
Lemma EncodeEdgeID_example : EncodeEdgeID "a" "b" = "YQBi"%string.
Proof. reflexivity. Qed.
