(* ===== verification/Lightrag.v ===== *)
(** The LightRAG wire types ([internal/lightrag/types.go]) and the client
    interface ([client.go]) that the memory service and the reaper are written
    against.  Loosely typed JSON ([any]) is a tree; a number is kept as the text
    Go prints it with. *)
From S2P Require Import Prelude GoErr.

(** * JSON values *)

Inductive any :=
| AString (s : string)
| ANumber (shown : string)
| ABool (b : bool)
| ANull
| AArray (l : list any)
| AObject (m : list (string * any)).

(** [map[string]any]: the keys of a decoded object are distinct. *)
Abbreviation anymap := (gmap string any).
Definition as_object (m : list (string * any)) : anymap := list_to_map m.

Definition space : string := " ".
Fixpoint join (sep : string) (l : list string) : string :=
  match l with
  | [] => ""
  | [x] => x
  | x :: l => String.append x (String.append sep (join sep l))
  end.
Definition by_key (a b : string * string) : Prop := String.le a.1 b.1.
#[global] Instance by_key_dec a b : Decision (by_key a b).
Proof. unfold by_key. apply _. Defined.

(** [fmt.Sprint] of a decoded JSON value: maps print sorted by key. *)
Fixpoint Sprint (v : any) : string :=
  match v with
  | AString s => s
  | ANumber s => s
  | ABool b => if b then "true" else "false"
  | ANull => "<nil>"
  | AArray l => String.append "[" (String.append (join space (map Sprint l)) "]")
  | AObject m =>
      let shown := map (fun kv => (kv.1, Sprint kv.2)) m in
      String.append "map[" (String.append
        (join space (map (fun kv => String.append kv.1 (String.append ":" kv.2)) (merge_sort by_key shown))) "]")
  end.

(** [stringProp]: [m[key].(string)]. *)
Definition stringProp (m : anymap) (key : string) : option string :=
  match m !! key with Some (AString s) => Some s | _ => None end.

(** * Requests and responses *)

Record InsertTextRequest := mkInsertText { in_Text : string; in_FileSource : string }.
Record InsertResponse := mkInsertResponse { ir_Status : string; ir_Message : string; ir_TrackID : string }.
Record DocStatusResponse := mkDocStatus {
  ds_ID : string; ds_ContentSummary : string; ds_ContentLength : Z; ds_Status : string; ds_CreatedAt : string;
  ds_UpdatedAt : string; ds_TrackID : string; ds_ChunksCount : Z; ds_ErrorMsg : string; ds_Metadata : anymap;
  ds_FilePath : string }.
Record TrackStatusResponse := mkTrackStatus {
  ts_TrackID : string; ts_Documents : list DocStatusResponse; ts_TotalCount : Z; ts_StatusSummary : gmap string Z }.
Record DeleteDocByIdResponse := mkDeleteDoc { dd_Status : string; dd_Message : string; dd_DocID : string }.
(** The fields of [QueryRequest] the service sets; a [*bool] is an option. *)
Record QueryRequest := mkQueryRequest {
  qr_Query : string; qr_Mode : string; qr_TopK : Z; qr_ChunkTopK : Z;
  qr_OnlyNeedContext : option bool; qr_IncludeReferences : option bool;
  qr_IncludeChunks : option bool; qr_Stream : option bool }.
Record ReferenceItem := mkReference { ref_ReferenceID : string; ref_FilePath : string; ref_Content : list string }.
Record QueryResponse := mkQueryResponse { qs_Response : string; qs_References : list ReferenceItem }.
Record QueryDataResponse := mkQueryData {
  qd_Status : string; qd_Message : string; qd_Data : anymap; qd_Metadata : anymap }.
Record EntityCreateRequest := mkEntityCreate { ec_EntityName : string; ec_EntityData : anymap }.
Record EntityUpdateRequest := mkEntityUpdate {
  eu_EntityName : string; eu_UpdatedData : anymap; eu_AllowRename : bool }.
(** [Data] is nil or a map. *)
Record EntityResponse := mkEntityResponse { er_Status : string; er_Message : string; er_Data : option anymap }.
Record RelationCreateRequest := mkRelationCreate {
  rc_SourceEntity : string; rc_TargetEntity : string; rc_RelationData : anymap }.
Record RelationResponse := mkRelationResponse { rr_Status : string; rr_Message : string; rr_Data : anymap }.
Record GraphNode := mkNode { gn_ID : string; gn_Labels : list string; gn_Properties : option anymap }.
Record GraphEdge := mkEdge {
  ge_ID : string; ge_Source : string; ge_Target : string; ge_Type : string; ge_Properties : option anymap }.
Record KnowledgeGraph := mkGraph { kg_Nodes : list GraphNode; kg_Edges : list GraphEdge }.

(** * The client *)

Class Client (W : Type) := {
  InsertText : InsertTextRequest -> M W (result err InsertResponse);
  TrackStatus : string -> M W (result err TrackStatusResponse);
  DeleteDocs : list string -> M W (result err DeleteDocByIdResponse);
  lr_Query : QueryRequest -> M W (result err QueryResponse);
  lr_QueryData : QueryRequest -> M W (result err QueryDataResponse);
  EntityExists : string -> M W (result err bool);
  CreateEntity : EntityCreateRequest -> M W (result err EntityResponse);
  UpdateEntity : EntityUpdateRequest -> M W (result err EntityResponse);
  DeleteEntity : string -> M W (result err unit);
  LabelSearch : string -> M W (result err (list string));
  Graph : string -> Z -> Z -> M W (result err KnowledgeGraph);
  CreateRelation : RelationCreateRequest -> M W (result err RelationResponse);
  DeleteRelation : string -> string -> M W (result err unit);
  Health : M W (result err unit) }.
