(* ===== verification/Translate.v ===== *)
(** Between the domain types ([internal/memory/types.go]) and the LightRAG wire
    types: the pure mappings of [internal/memory/translate.go].  A [map] field is
    an option where the code distinguishes nil from empty.  The time layouts are
    parsed by a parameter; scores are exact rationals. *)
From S2P Require Import Prelude GoErr Lightrag EdgeId.
From Stdlib Require Import QArith.
#[local] Open Scope Z_scope.

(** * Domain types *)

Record Memory := mkMemory { m_ID : string; m_Text : string; m_Metadata : gmap string string; m_CreatedAt : Z }.
Record Entity := mkEntity {
  e_ID : string; e_Name : string; e_Type : string; e_Description : string;
  e_Properties : gmap string string }.
Record Edge := mkDomainEdge {
  ed_ID : string; ed_From : string; ed_To : string; ed_Relation : string;
  ed_Properties : gmap string string }.
Record Query := mkQuery { q_Mode : string; q_Text : string; q_TopK : Z }.
Record QueryMatch := mkMatch { qm_ID : string; qm_Score : Q; qm_Text : string }.
Abbreviation QueryResult := (list QueryMatch).
Record DescribeResult := mkDescribe { dr_Response : string; dr_Sources : list string }.

Definition Valid (m : string) : bool :=
  bool_decide (m = "hybrid"%string) || bool_decide (m = "local"%string)
  || bool_decide (m = "global"%string) || bool_decide (m = "naive"%string).

(** * Memories and documents *)

(** [time.Parse] with the layouts RFC3339 and RFC3339Nano. *)
Class TimeParse := { ParseRFC3339 : string -> option Z; ParseRFC3339Nano : string -> option Z }.

Definition ToInsertText (m : Memory) : InsertTextRequest := mkInsertText (m_Text m) "".

(** The zero [time.Time]. *)
Definition zero_time : Z := 0.
Definition FromDocStatus `{TimeParse} (trackID : string) (d : DocStatusResponse) : Memory * option err :=
  let mem t := mkMemory trackID (ds_ContentSummary d) (Sprint <$> ds_Metadata d) t in
  if bool_decide (ds_CreatedAt d = ""%string) then (mem zero_time, None)
  else match ParseRFC3339 (ds_CreatedAt d) with
       | Some t => (mem t, None)
       | None => match ParseRFC3339Nano (ds_CreatedAt d) with
                 | Some t => (mem t, None)
                 | None => (mem zero_time, Some (Errorf "memory: unparseable created_at"))
                 end
       end.

(** * Query results *)

Definition newline : string := String (Ascii.ascii_of_nat 10) "".
Definition QueryResultFromQuery (r : QueryResponse) : QueryResult :=
  (fun ref => mkMatch (ref_ReferenceID ref) 0
     (match ref_Content ref with [] => ref_FilePath ref | c => join newline c end)) <$> qs_References r.
Definition DescribeResultFromQuery (r : QueryResponse) : DescribeResult :=
  mkDescribe (qs_Response r) (ref_FilePath <$> qs_References r).

Record queryDataChunk := mkChunk { ch_chunkID : string; ch_referenceID : string; ch_text : string }.
Definition chunk_of (v : any) : option queryDataChunk :=
  match v with
  | AObject m =>
      let obj := as_object m in
      Some (mkChunk (default ""%string (stringProp obj "chunk_id"))
                    (default ""%string (stringProp obj "reference_id"))
                    (default ""%string (stringProp obj "content")))
  | _ => None
  end.
Definition chunksFromQueryData (r : QueryDataResponse) : list queryDataChunk :=
  match qd_Data r !! "chunks"%string with
  | Some (AArray raw) => omap chunk_of raw
  | _ => []
  end.
(** [1.0 / float64(i+1)] for the chunk at index [i]. *)
Definition rank_score (i : nat) : Q := 1 # Pos.of_succ_nat i.
Definition queryResultFromChunks (chunks : list queryDataChunk) : QueryResult :=
  imap (fun i ch =>
    mkMatch (if bool_decide (ch_chunkID ch = ""%string) then ch_referenceID ch else ch_chunkID ch)
            (rank_score i) (ch_text ch)) chunks.
Definition QueryResultFromQueryData (r : QueryDataResponse) : QueryResult :=
  queryResultFromChunks (chunksFromQueryData r).

(** * Entities and edges *)

Definition reserved (k : string) : bool :=
  bool_decide (k = "entity_name"%string) || bool_decide (k = "entity_type"%string)
  || bool_decide (k = "description"%string).
Definition string_values (m : anymap) : gmap string string :=
  omap (fun v => match v with AString s => Some s | _ => None end) m.
Definition plain_keys {V} (m : gmap string V) : gmap string V :=
  filter (fun kv => reserved kv.1 = false) m.

Definition EntityFromGraphNode (n : GraphNode) : Entity :=
  let props := default ∅ (gn_Properties n) in
  mkEntity (gn_ID n) (gn_ID n)
    (default ""%string (stringProp props "entity_type"))
    (default ""%string (stringProp props "description"))
    (plain_keys (string_values props)).

(** [if v != "" { data[k] = v }]. *)
Definition set_nonempty (k v : string) (m : anymap) : anymap :=
  if bool_decide (v <> ""%string) then <[k := AString v]> m else m.
Definition EntityUpdatePayload (patch : Entity) : anymap :=
  set_nonempty "description" (e_Description patch)
    (set_nonempty "entity_type" (e_Type patch)
      (set_nonempty "entity_name" (e_Name patch)
        (plain_keys (AString <$> e_Properties patch)))).

Definition EdgeFromGraphEdge (e : GraphEdge) : Edge :=
  let props := default ∅ (ge_Properties e) in
  let rel := default ""%string (stringProp props "keywords") in
  mkDomainEdge (EncodeEdgeID (ge_Source e) (ge_Target e)) (ge_Source e) (ge_Target e)
    (if bool_decide (rel = ""%string) then ge_Type e else rel) (string_values props).

(** The properties are written after the relation: a property named "keywords"
    replaces it. *)
Definition RelationCreatePayload (e : Edge) : RelationCreateRequest :=
  mkRelationCreate (ed_From e) (ed_To e)
    ((AString <$> ed_Properties e) ∪ {["keywords"%string := AString (ed_Relation e)]}).

Definition entityFromUpdateResponse (resp : EntityResponse) (fallbackName : string) : Entity :=
  match er_Data resp with
  | None => mkEntity fallbackName fallbackName "" "" ∅
  | Some data =>
      let id := match stringProp data "entity_name" with
                | Some n => if bool_decide (n <> ""%string) then n else fallbackName
                | None => fallbackName
                end in
      EntityFromGraphNode (mkNode id [] (Some data))
  end.

(** * Lemmas *)

Lemma lookup_plain_keys {V} (m : gmap string V) k :
  plain_keys m !! k = if reserved k then None else m !! k.
Proof.
  unfold plain_keys. rewrite map_lookup_filter. destruct (m !! k); simpl; [|by destruct (reserved k)].
  by case_guard as Hr; simpl in Hr; destruct (reserved k).
Qed.
Lemma lookup_string_values (m : anymap) k : string_values m !! k = stringProp m k.
Proof. unfold string_values, stringProp. rewrite lookup_omap. by destruct (m !! k) as [[]|]. Qed.
Lemma lookup_set_nonempty k v m i :
  set_nonempty k v m !! i = if bool_decide (i = k /\ v <> ""%string) then Some (AString v) else m !! i.
Proof.
  unfold set_nonempty. destruct (decide (v = ""%string)) as [->|Hv].
  - rewrite (bool_decide_eq_false_2 (_ <> _)) by (intros H; by apply H).
    by rewrite bool_decide_eq_false_2 by (intros [_ H]; by apply H).
  - rewrite (bool_decide_eq_true_2 (v <> _)) by done. destruct (decide (i = k)) as [->|Hi].
    + by rewrite lookup_insert_eq, bool_decide_eq_true_2.
    + rewrite lookup_insert_ne by done. by rewrite bool_decide_eq_false_2 by (by intros []).
Qed.
Lemma stringProp_set_nonempty k v m i :
  stringProp (set_nonempty k v m) i
  = if bool_decide (i = k /\ v <> ""%string) then Some v else stringProp m i.
Proof. unfold stringProp. rewrite lookup_set_nonempty. by case_bool_decide. Qed.
Lemma stringProp_props (m : gmap string string) k :
  stringProp (plain_keys (AString <$> m)) k = if reserved k then None else m !! k.
Proof.
  unfold stringProp. rewrite lookup_plain_keys, lookup_fmap. destruct (reserved k); [done|].
  by destruct (m !! k).
Qed.
#[export] Hint Rewrite @lookup_plain_keys lookup_string_values stringProp_set_nonempty stringProp_props : go_rw.

Lemma stringProp_set_ne k v m i : i <> k -> stringProp (set_nonempty k v m) i = stringProp m i.
Proof. intros Hi. rewrite stringProp_set_nonempty. by rewrite bool_decide_eq_false_2 by (by intros []). Qed.
Lemma field_set_nonempty k v m :
  stringProp m k = None -> default ""%string (stringProp (set_nonempty k v m) k) = v.
Proof.
  intros Hm. rewrite stringProp_set_nonempty, Hm. case_bool_decide as Hv; [done|]. simpl.
  destruct (decide (v = ""%string)); [done|]. exfalso. by apply Hv.
Qed.
(** The field a payload carries under each reserved key. *)
Lemma payload_field patch :
  let d := EntityUpdatePayload patch in
  default ""%string (stringProp d "entity_name") = e_Name patch /\
  default ""%string (stringProp d "entity_type") = e_Type patch /\
  default ""%string (stringProp d "description") = e_Description patch /\
  plain_keys (string_values d) = plain_keys (e_Properties patch).
Proof.
  unfold EntityUpdatePayload. split_and!.
  - rewrite !(stringProp_set_ne _ _ _ "entity_name") by done. by apply field_set_nonempty; rewrite stringProp_props.
  - rewrite !(stringProp_set_ne _ _ _ "entity_type") by done. apply field_set_nonempty.
    by rewrite stringProp_set_ne, stringProp_props by done.
  - apply field_set_nonempty. by rewrite !stringProp_set_ne, stringProp_props by done.
  - apply map_eq. intros k. rewrite !lookup_plain_keys, lookup_string_values.
    destruct (reserved k) eqn:Hr; [done|]. pose proof Hr as Hr'. unfold reserved in Hr'.
    apply orb_false_iff in Hr' as [[H1 H2]%orb_false_iff H3].
    apply bool_decide_eq_false in H1, H2, H3. by rewrite !stringProp_set_ne, stringProp_props, Hr by done.
Qed.

(** * Properties *)

(** The entity read back from an update's own payload carries the patch: its
    type, description and non-reserved properties, under the new name when the
    patch renames and under the old one otherwise. *)
Theorem entity_payload_roundtrip patch name status message :
  entityFromUpdateResponse (mkEntityResponse status message (Some (EntityUpdatePayload patch))) name =
  let id := if bool_decide (e_Name patch = ""%string) then name else e_Name patch in
  mkEntity id id (e_Type patch) (e_Description patch) (plain_keys (e_Properties patch)).
Proof.
  pose proof (payload_field patch) as (Hn & Ht & Hd & Hp).
  unfold entityFromUpdateResponse, EntityFromGraphNode. cbn [er_Data gn_ID gn_Properties default].
  cbn [from_option id]. rewrite Ht, Hd, Hp. rewrite <- Hn.
  destruct (stringProp _ "entity_name") as [n|]; simpl; [|done].
  destruct (decide (n = ""%string)) as [->|Hne]; [done|].
  by rewrite (bool_decide_eq_true_2 (n <> _)), (bool_decide_eq_false_2 (n = _)) by done.
Qed.

(** Retrieval order becomes the ranking: the result has one match per chunk,
    in chunk order, the [i]th scored 1/(i+1), so scores are positive, at most 1
    and strictly descending. *)
Theorem ranking_strictly_descending chunks :
  length (queryResultFromChunks chunks) = length chunks /\
  (forall i m, queryResultFromChunks chunks !! i = Some m ->
     (0 < qm_Score m <= 1)%Q /\ exists ch, chunks !! i = Some ch /\ qm_Text m = ch_text ch) /\
  (forall i j m m', (i < j)%nat -> queryResultFromChunks chunks !! i = Some m ->
     queryResultFromChunks chunks !! j = Some m' -> (qm_Score m' < qm_Score m)%Q).
Proof.
  unfold queryResultFromChunks. split; [apply length_imap|]. split.
  - intros i m Hm. rewrite list_lookup_imap in Hm. destruct (chunks !! i) as [ch|]; simplify_eq/=.
    split; [|by exists ch]. unfold rank_score, Qlt, Qle. simpl. lia.
  - intros i j m m' Hij Hm Hm'. rewrite list_lookup_imap in Hm, Hm'.
    destruct (chunks !! i), (chunks !! j); simplify_eq/=. unfold rank_score, Qlt. simpl. lia.
Qed.

(** The relation of an edge survives creation and reading back, unless a property
    is itself called "keywords". *)
Lemma relation_roundtrip e id ty :
  ed_Properties e !! "keywords"%string = None -> ed_Relation e <> ""%string ->
  let r := RelationCreatePayload e in
  let e' := EdgeFromGraphEdge (mkEdge id (rc_SourceEntity r) (rc_TargetEntity r) ty (Some (rc_RelationData r))) in
  ed_From e' = ed_From e /\ ed_To e' = ed_To e /\ ed_Relation e' = ed_Relation e /\
  ed_ID e' = EncodeEdgeID (ed_From e) (ed_To e).
Proof.
  intros Hk Hr. simpl. split_and!; try done.
  assert (stringProp ((AString <$> ed_Properties e) ∪ {["keywords"%string := AString (ed_Relation e)]}) "keywords"
    = Some (ed_Relation e)) as ->.
  { unfold stringProp. rewrite lookup_union_r; [by rewrite lookup_singleton_eq|by rewrite lookup_fmap, Hk]. }
  simpl. by rewrite bool_decide_eq_false_2.
Qed.
