(* ===== verification/Tombstone.v ===== *)
(** The memory service's two tables ([internal/memory/tombstone.go],
    [sources.go]): the tombstones of deleted memories and the index from a
    repository file to the memories made from it; with the interfaces
    ([tombstoner], [sourceIndex], [reapStore]) under which the service and the
    reaper use them. *)
From S2P Require Import Prelude GoErr Db.

(** * TombstoneStore *)

Record tombstone := mkTombstone {
  tb_deleted_at : Z; tb_force_reap_attempts : Z; tb_next_force_check_at : option Z }.
Abbreviation tomb_table := (gmap string tombstone).

Record ForceCandidate := mkCandidate { fc_TrackID : string; fc_Attempts : Z }.

(** [ORDER BY deleted_at ASC LIMIT n]; [merge_sort] is one way to order ties. *)
Definition deleted_before (a b : string * tombstone) : Prop := tb_deleted_at a.2 <= tb_deleted_at b.2.
#[global] Instance deleted_before_dec a b : Decision (deleted_before a b).
Proof. unfold deleted_before. apply _. Defined.
#[global] Instance deleted_before_total : Total deleted_before.
Proof. intros a b. unfold deleted_before. lia. Qed.
#[global] Instance deleted_before_trans : Transitive deleted_before.
Proof. intros a b c. unfold deleted_before. lia. Qed.
Definition oldest_first (limit : nat) (l : list (string * tombstone)) : list (string * tombstone) :=
  take limit (merge_sort deleted_before l).

Module TombstoneStore.
Abbreviation DB := (Db tomb_table).

(** [fmt.Errorf(text, err)] around a statement without results. *)
Definition wrapping {A B} (text : string) (k : A -> B) (m : M DB (result err A)) : M DB (result err B) :=
  r <- m ;; ret match r with Ok a => Ok (k a) | Err e => Err (Wrap text e) end.

(** INSERT ... ON CONFLICT DO UPDATE SET deleted_at = now(). *)
Definition mark_row (now : Z) (row : option tombstone) : tombstone :=
  match row with
  | None => mkTombstone now 0 None
  | Some r => mkTombstone now (tb_force_reap_attempts r) (tb_next_force_check_at r)
  end.
Definition Mark (now : Z) (trackID : string) : M DB (result err unit) :=
  wrapping "tombstone mark" id (exec (fun t => (tt, <[trackID := mark_row now (t !! trackID)]> t))).
Definition IsDeleted (trackID : string) : M DB (result err bool) :=
  wrapping "tombstone check" id (select (fun _ t => bool_decide (is_Some (t !! trackID)))).
Definition Unmark (trackID : string) : M DB (result err unit) :=
  wrapping "tombstone unmark" id (exec (fun t => (tt, delete trackID t))).
Definition Delete (trackID : string) : M DB (result err unit) :=
  wrapping "tombstone delete" id (exec (fun t => (tt, delete trackID t))).

Definition aged (now age : Z) (r : tombstone) : bool :=
  bool_decide (tb_deleted_at r < now - Z.quot age Second * Second) &&
  match tb_next_force_check_at r with None => true | Some t => bool_decide (t <= now) end.
Definition ListOlderThan (now age : Z) (limit : nat) : M DB (result err (list ForceCandidate)) :=
  wrapping "tombstone list older" id (select (fun _ t =>
    (fun kr => mkCandidate kr.1 (tb_force_reap_attempts kr.2)) <$>
      oldest_first limit (List.filter (fun kr => aged now age kr.2) (map_to_list t)))).
Definition RecordForceCheckStillPresent (trackID : string) (nextCheckAt : Z) : M DB (result err unit) :=
  wrapping "tombstone record force check" id (exec (fun t =>
    (tt, alter (fun r => mkTombstone (tb_deleted_at r) (tb_force_reap_attempts r + 1) (Some nextCheckAt))
           trackID t))).
Definition List (limit : nat) : M DB (result err (list string)) :=
  wrapping "tombstone list" id (select (fun _ t => fst <$> oldest_first limit (map_to_list t))).
End TombstoneStore.

(** * SourceStore *)

Abbreviation source_table := (gset (string * string * string)).
Module SourceStore.
Abbreviation DB := (Db source_table).
Definition of_file (repo filePath : string) (t : source_table) : list string :=
  snd <$> List.filter (fun row => bool_decide (row.1 = (repo, filePath))) (elements t).
Definition Add (repo filePath trackID : string) : M DB (result err unit) :=
  r <- exec (fun t => (tt, {[(repo, filePath, trackID)]} ∪ t)) ;;
  ret match r with Ok a => Ok a | Err e => Err (Wrap "memory_sources add" e) end.
Definition TrackIDs (repo filePath : string) : M DB (result err (list string)) :=
  r <- select (fun _ t => of_file repo filePath t) ;;
  ret match r with Ok a => Ok a | Err e => Err (Wrap "memory_sources select" e) end.
Definition DeleteByFile (repo filePath : string) : M DB (result err Z) :=
  r <- exec (fun t => (Z.of_nat (length (of_file repo filePath t)),
                       filter (fun row => row.1 <> (repo, filePath)) t)) ;;
  ret match r with Ok a => Ok a | Err e => Err (Wrap "memory_sources delete" e) end.
End SourceStore.

(** * The interfaces, with what their clients rely on *)

(** [tombstoner]: a set of IDs.  A failed call may have been applied. *)
Class Tombstoner (T : Type) := {
  Mark : Z -> string -> M T (result err unit);
  Unmark : string -> M T (result err unit);
  IsDeleted : string -> M T (result err bool) }.
Class TombstonerLaws (T : Type) `{Tombstoner T} := {
  dead : T -> gset string;
  mark_law : forall now id t r t', Mark now id t = (r, t') ->
    (r = Ok tt /\ dead t' = {[id]} ∪ dead t) \/
    ((exists e, r = Err e) /\ (dead t' = dead t \/ dead t' = {[id]} ∪ dead t));
  unmark_law : forall id t r t', Unmark id t = (r, t') ->
    (r = Ok tt /\ dead t' = dead t ∖ {[id]}) \/
    ((exists e, r = Err e) /\ (dead t' = dead t \/ dead t' = dead t ∖ {[id]}));
  is_deleted_law : forall id t r t', IsDeleted id t = (r, t') ->
    dead t' = dead t /\ forall b, r = Ok b -> b = bool_decide (id ∈ dead t) }.

(** [sourceIndex]: the IDs indexed for a file, without duplicates. *)
Class SourceIndex (S : Type) := {
  TrackIDs : string -> string -> M S (result err (list string));
  DeleteByFile : string -> string -> M S (result err Z) }.
Class SourceIndexLaws (S : Type) `{SourceIndex S} := {
  indexed : S -> source_table;
  track_ids_law : forall repo f s r s', TrackIDs repo f s = (r, s') ->
    indexed s' = indexed s /\
    forall ids, r = Ok ids -> NoDup ids /\ forall id, id ∈ ids <-> (repo, f, id) ∈ indexed s;
  delete_by_file_law : forall repo f s r s', DeleteByFile repo f s = (r, s') ->
    let cleared := filter (fun row => row.1 <> (repo, f)) (indexed s) in
    match r with
    | Ok _ => indexed s' = cleared
    | Err _ => indexed s' = indexed s \/ indexed s' = cleared
    end }.

(** * The stores keep them *)

#[global] Instance TombstoneStore_Tombstoner : Tombstoner (Db tomb_table) := {
  Mark := TombstoneStore.Mark; Unmark := TombstoneStore.Unmark; IsDeleted := TombstoneStore.IsDeleted }.
#[global] Instance SourceStore_SourceIndex : SourceIndex (Db source_table) := {
  TrackIDs := SourceStore.TrackIDs; DeleteByFile := SourceStore.DeleteByFile }.

Section StoreLaws.
(** Each store call is one statement: its effect, or an error with or without it. *)
Lemma wrapping_exec {A B} text (k : A -> B) (f : tomb_table -> A * tomb_table) d r d' :
  TombstoneStore.wrapping text k (exec f) d = (r, d') ->
  (r = Ok (k (f (db_tab d)).1) /\ db_tab d' = (f (db_tab d)).2) \/
  ((exists e, r = Err e) /\ (db_tab d' = db_tab d \/ db_tab d' = (f (db_tab d)).2)).
Proof.
  intros Hr%runs_intro. unfold TombstoneStore.wrapping in Hr.
  apply runs_exec_map in Hr as [[-> ?]|(e & -> & ?)]; [by left|right; eauto].
Qed.
Lemma dom_mark_row (t : tomb_table) i r : dom (<[i := r]> t) = {[i]} ∪ (dom t : gset string).
Proof. by rewrite dom_insert_L. Qed.

#[global] Program Instance TombstoneStore_Laws : TombstonerLaws (Db tomb_table) :=
  {| dead := fun d => dom (db_tab d) |}.
Next Obligation.
  intros now id t r t' [[-> ->]|[He Ht]]%wrapping_exec; [left|right]; simpl in *.
  - split; [done|]. apply dom_mark_row.
  - split; [done|]. destruct Ht as [-> | ->]; [by left|right]. apply dom_mark_row.
Qed.
Next Obligation.
  intros id t r t' [[-> ->]|[He Ht]]%wrapping_exec; [left|right]; simpl in *.
  - split; [done|]. apply dom_delete_L.
  - split; [done|]. destruct Ht as [-> | ->]; [by left|right]. apply dom_delete_L.
Qed.
Next Obligation.
  intros id t r t' Hr%runs_intro. simpl in Hr. unfold TombstoneStore.IsDeleted, TombstoneStore.wrapping in Hr.
  apply runs_map in Hr as (x & [-> Hx]%runs_select & ->). split; [done|]. intros b Hb.
  destruct x as [a|e]; simplify_eq. destruct Hx as [_ ->]. simpl.
  apply bool_decide_ext. by rewrite elem_of_dom.
Qed.

Lemma of_file_spec (repo f : string) (t : source_table) :
  NoDup (SourceStore.of_file repo f t) /\
  forall id, id ∈ SourceStore.of_file repo f t <-> (repo, f, id) ∈ t.
Proof.
  unfold SourceStore.of_file. split.
  - assert (Hl : forall l : list (string * string * string), NoDup l ->
      NoDup (snd <$> List.filter (fun row => bool_decide (row.1 = (repo, f))) l)).
    { induction 1 as [|[x i] l Hx Hl IH]; [constructor|]. cbn [List.filter fst].
      case_bool_decide as He; [|done]. subst x. csimpl. constructor; [|done].
      intros ([y j] & Hj & [Hin Hy]%elem_of_filter_bool)%list_elem_of_fmap. simpl in *.
      apply bool_decide_eq_true in Hy. by subst. }
    apply Hl, NoDup_elements.
  - intros id. rewrite list_elem_of_fmap. split.
    + intros ([y j] & -> & [Hin Hy]%elem_of_filter_bool). simpl in *. apply bool_decide_eq_true in Hy. subst.
      by apply elem_of_elements.
    + intros Hin. exists (repo, f, id). split; [done|]. apply elem_of_filter_bool.
      split; [by apply elem_of_elements|by apply bool_decide_eq_true].
Qed.
#[global] Program Instance SourceStore_Laws : SourceIndexLaws (Db source_table) :=
  {| indexed := fun d => db_tab d |}.
Next Obligation.
  intros repo f s r s' Hr%runs_intro. simpl in Hr. unfold SourceStore.TrackIDs in Hr.
  apply runs_map in Hr as (x & [-> Hx]%runs_select & ->). split; [done|]. intros ids Hids.
  destruct x as [a|e]; simplify_eq. destruct Hx as [_ ->]. apply of_file_spec.
Qed.
Next Obligation.
  intros repo f s r s' Hr%runs_intro cleared. simpl in Hr. unfold SourceStore.DeleteByFile in Hr.
  apply runs_exec_map in Hr as [[-> ?]|(e & -> & [?|?])]; [done|by left|by right].
Qed.
End StoreLaws.
