(* ===== verification/Service.v ===== *)
(** The memory service ([internal/memory/service.go]): CRUD and retrieval over
    LightRAG, with tombstones hiding what is deleted and the source index driving
    purges.  The three collaborators are interfaces over their own state; every
    call's outcome is whatever their implementation answers. *)
From S2P Require Import Prelude GoErr Lightrag EdgeId Translate Tombstone.

(** * Definitions *)

Record svc (L T S : Type) := mkSvc {
  sv_lr : L; sv_tomb : T; sv_src : S;
  sv_ops : gmap string Z;              (* tatara_memory_op_total *)
  sv_log : list (string * string) }.   (* level and message of the purge-path logs *)
Arguments mkSvc {L T S} _ _ _ _ _.
Arguments sv_lr {L T S} _.
Arguments sv_tomb {L T S} _.
Arguments sv_src {L T S} _.
Arguments sv_ops {L T S} _.
Arguments sv_log {L T S} _.

Definition opClass (op : string) : string :=
  if bool_decide (op = "delete_by_source"%string) || bool_decide (op = "delete_by_sources"%string)
  then "maintenance" else "user".
Definition op_label (op result : string) : string :=
  String.append op (String.append "/" (String.append (opClass op) (String.append "/" result))).

Definition StatusNotFound : Z := 404.
Definition StatusTooManyRequests : Z := 429.

(** wrapUpstream: which sentinel an upstream failure is reported under. *)
Definition wrapUpstream (e : err) : err :=
  if As_BusyError e then WrapAs ErrBusy e
  else match As_HTTPError e with
       | Some st =>
           if bool_decide (st = StatusNotFound) then WrapAs ErrNotFound e
           else if bool_decide (st = StatusTooManyRequests) then WrapAs ErrBusy e
           else if bool_decide (st >= 500) then WrapAs ErrTransient e
           else WrapAs ErrUpstream e
       | None =>
           if errors_Is e DeadlineExceeded then WrapAs ErrBusy e
           else if errors_Is e Canceled then WrapAs ErrTransient e
           else WrapAs ErrUpstream e
       end.

Definition accepted (status : string) : bool :=
  bool_decide (status = "success"%string) || bool_decide (status = "duplicated"%string)
  || bool_decide (status = "partial_success"%string).
Definition delete_accepted (status : string) : bool :=
  bool_decide (status = "deletion_started"%string) || bool_decide (status = "success"%string).

Definition doc_le (a b : DocStatusResponse) : Prop := String.le (ds_ID a) (ds_ID b).
#[global] Instance doc_le_dec a b : Decision (doc_le a b).
Proof. unfold doc_le. apply _. Defined.
Definition sortDocsByID (docs : list DocStatusResponse) : list DocStatusResponse := merge_sort doc_le docs.

Section Service.
Context {L T S : Type} `{Client L} `{Tombstoner T} `{SourceIndex S} `{TimeParse}.
Context (has_tomb has_sources : bool) (now : Z).
Abbreviation W := (svc L T S).

Definition on_lr {A} (m : M L A) : M W A := fun w =>
  let q := m (sv_lr w) in (q.1, mkSvc q.2 (sv_tomb w) (sv_src w) (sv_ops w) (sv_log w)).
Definition on_tomb {A} (m : M T A) : M W A := fun w =>
  let q := m (sv_tomb w) in (q.1, mkSvc (sv_lr w) q.2 (sv_src w) (sv_ops w) (sv_log w)).
Definition on_src {A} (m : M S A) : M W A := fun w =>
  let q := m (sv_src w) in (q.1, mkSvc (sv_lr w) (sv_tomb w) q.2 (sv_ops w) (sv_log w)).
Definition incOp (op : string) (e : option err) : M W unit :=
  modify (fun w => mkSvc (sv_lr w) (sv_tomb w) (sv_src w)
    (inc (op_label op (match e with None => "success" | Some _ => "error" end)) (sv_ops w)) (sv_log w)).
Definition logPurgeErr (msg : string) (e : err) : M W unit :=
  modify (fun w => mkSvc (sv_lr w) (sv_tomb w) (sv_src w) (sv_ops w)
    (sv_log w ++ [(if errors_Is e ErrBusy || errors_Is e DeadlineExceeded then "WARN"%string else "ERROR"%string, msg)])).
(** [s.incOp(op, err); return err]. *)
Definition fail_op {A} (op : string) (e : err) : M W (result err A) :=
  incOp op (Some e) ;; ret (Err e).
(** An upstream call whose failure is counted and reported wrapped. *)
Definition upstream {A B} (op : string) (m : M L (result err A)) (k : A -> M W (result err B)) :
    M W (result err B) :=
  r <- on_lr m ;;
  match r with Ok a => k a | Err e => fail_op op (wrapUpstream e) end.

Definition CreateMemory (m : Memory) : M W (result err Memory) :=
  upstream "create" (InsertText (ToInsertText m)) (fun resp =>
  if negb (accepted (ir_Status resp)) || bool_decide (ir_TrackID resp = ""%string)
  then fail_op "create" (WrapMsg ErrUpstream "insert returned status")
  else incOp "create" None ;;
       ret (Ok (mkMemory (ir_TrackID resp) (m_Text m) (m_Metadata m) now))).

Definition GetMemory (trackID : string) : M W (result err Memory) :=
  deleted <- (if has_tomb then on_tomb (IsDeleted trackID) else ret (Ok false)) ;;
  match deleted with
  | Err e => ret (Err (Wrap "tombstone check" e))
  | Ok true => fail_op "get" (Sentinel ErrNotFound)
  | Ok false =>
      upstream "get" (TrackStatus trackID) (fun ts =>
      match sortDocsByID (ts_Documents ts) with
      | [] => fail_op "get" (WrapMsg ErrNotFound "track has no documents")
      | d :: _ => incOp "get" None ;; ret (Ok (FromDocStatus trackID d).1)
      end)
  end.

(** deleteMemoryRaw: tombstone first, rolled back when the delete is refused. *)
Definition rollback (trackID : string) (e : err) : M W (result err unit) :=
  (if has_tomb then (on_tomb (Unmark trackID) ;; ret tt) else ret tt) ;; ret (Err e).
Definition deleteMemoryRaw (trackID : string) : M W (result err unit) :=
  r <- on_lr (TrackStatus trackID) ;;
  match r with
  | Err e => ret (Err (wrapUpstream e))
  | Ok ts =>
      match ds_ID <$> ts_Documents ts with
      | [] => ret (Err (WrapMsg ErrNotFound "track has no documents"))
      | docIDs =>
          marked <- (if has_tomb then on_tomb (Mark now trackID) else ret (Ok tt)) ;;
          match marked with
          | Err e => ret (Err (Wrap "tombstone" e))
          | Ok _ =>
              r <- on_lr (DeleteDocs docIDs) ;;
              match r with
              | Err e => rollback trackID (wrapUpstream e)
              | Ok resp =>
                  if delete_accepted (dd_Status resp) then ret (Ok tt)
                  else rollback trackID
                    (if bool_decide (dd_Status resp = "busy"%string)
                     then WrapMsg ErrBusy "delete returned status=busy"
                     else WrapMsg ErrUpstream "delete returned status")
              end
          end
      end
  end.
Definition DeleteMemory (trackID : string) : M W (result err unit) :=
  r <- deleteMemoryRaw trackID ;;
  incOp "delete" (match r with Ok _ => None | Err e => Some e end) ;;
  ret r.

(** The purge of one file; the count is meaningful on error too. *)
Definition purge_failed (op_stage : string) (purged : Z) (e : err) : M W (Z * option err) :=
  logPurgeErr "memory.delete_by_source" (Wrap op_stage e) ;; ret (purged, Some (Wrap op_stage e)).
Fixpoint purge_ids (ids : list string) (purged : Z) : M W (Z * option err) :=
  match ids with
  | [] => ret (purged, None)
  | id :: ids =>
      r <- deleteMemoryRaw id ;;
      match r with
      | Ok _ => purge_ids ids (purged + 1)
      | Err e =>
          if errors_Is e ErrNotFound then purge_ids ids purged
          else incOp "delete_by_source" (Some e) ;; purge_failed "delete memory" purged e
      end
  end.
Definition DeleteMemoriesBySource (repo filePath : string) : M W (Z * option err) :=
  if negb has_sources then ret (0, None)
  else
    r <- on_src (TrackIDs repo filePath) ;;
    match r with
    | Err e => incOp "delete_by_source" (Some e) ;; purge_failed "source track_ids" 0 e
    | Ok ids =>
        p <- purge_ids ids 0 ;;
        match p with
        | (purged, Some e) => ret (purged, Some e)
        | (purged, None) =>
            r <- on_src (DeleteByFile repo filePath) ;;
            match r with
            | Err e => incOp "delete_by_source" (Some e) ;; purge_failed "purge source index" purged e
            | Ok _ => incOp "delete_by_source" None ;; ret (purged, None)
            end
        end
    end.
Fixpoint purge_files (repo : string) (files : list string) (total : Z) : M W (Z * option err) :=
  match files with
  | [] => incOp "delete_by_sources" None ;; ret (total, None)
  | f :: files =>
      p <- DeleteMemoriesBySource repo f ;;
      match p with
      | (n, Some e) =>
          incOp "delete_by_sources" (Some e) ;;
          logPurgeErr "memory.delete_by_sources.incomplete" (Wrap "delete memories" e) ;;
          ret (total + n, Some (Wrap "delete memories" e))
      | (n, None) => purge_files repo files (total + n)
      end
  end.
Definition DeleteMemoriesBySources (repo : string) (files : list string) : M W (Z * option err) :=
  purge_files repo files 0.

(** Retrieval. *)
Fixpoint filter_deleted {A} (key : A -> string) (l : list A) : M W (list A) :=
  match l with
  | [] => ret []
  | x :: l =>
      r <- on_tomb (IsDeleted (key x)) ;;
      rest <- filter_deleted key l ;;
      ret (match r with Ok true => rest | _ => x :: rest end)
  end.
Definition filterTombstonedRefs : list ReferenceItem -> M W (list ReferenceItem) :=
  filter_deleted ref_ReferenceID.
Definition filterTombstonedChunks : list queryDataChunk -> M W (list queryDataChunk) :=
  filter_deleted ch_referenceID.
(** [if s.tomb != nil { ... }]. *)
Definition if_tomb {A} (f : list A -> M W (list A)) (l : list A) : M W (list A) :=
  if has_tomb then f l else ret l.

Definition query_request (q : Query) (only_context : option bool) : QueryRequest :=
  mkQueryRequest (q_Text q) (q_Mode q) (q_TopK q) 0 only_context (Some true) None (Some false).
Definition invalid_mode : err := Errorf "invalid query mode".
Definition Query_ (q : Query) : M W (result err QueryResult) :=
  if negb (Valid (q_Mode q)) then fail_op "query" invalid_mode
  else upstream "query" (lr_Query (query_request q (Some true))) (fun resp =>
       refs <- if_tomb filterTombstonedRefs (qs_References resp) ;;
       incOp "query" None ;;
       ret (Ok (QueryResultFromQuery (mkQueryResponse (qs_Response resp) refs)))).
Definition Describe (q : Query) : M W (result err DescribeResult) :=
  if negb (Valid (q_Mode q)) then fail_op "describe" invalid_mode
  else upstream "describe" (lr_Query (query_request q None)) (fun resp =>
       refs <- if_tomb filterTombstonedRefs (qs_References resp) ;;
       incOp "describe" None ;;
       ret (Ok (DescribeResultFromQuery (mkQueryResponse (qs_Response resp) refs)))).
Definition QueryData (q : Query) : M W (result err QueryResult) :=
  if negb (Valid (q_Mode q)) then fail_op "query_data" invalid_mode
  else upstream "query_data"
         (lr_QueryData (mkQueryRequest (q_Text q) (q_Mode q) (q_TopK q) (q_TopK q) None None (Some true) None))
         (fun resp =>
       chunks <- if_tomb filterTombstonedChunks (chunksFromQueryData resp) ;;
       incOp "query_data" None ;;
       ret (Ok (queryResultFromChunks chunks))).

(** The graph. *)
Definition GetEntity (name : string) : M W (result err Entity) :=
  upstream "get_entity" (Graph name 1 1) (fun g =>
  match List.find (fun n => bool_decide (gn_ID n = name)) (kg_Nodes g) with
  | Some n => incOp "get_entity" None ;; ret (Ok (EntityFromGraphNode n))
  | None => fail_op "get_entity" (WrapMsg ErrNotFound "entity")
  end).
Definition SearchEntities (q : string) : M W (result err (list Entity)) :=
  upstream "search_entities" (LabelSearch q) (fun labels =>
  incOp "search_entities" None ;;
  ret (Ok ((fun l => mkEntity l l "" "" ∅) <$> labels))).
Definition PatchEntity (name : string) (patch : Entity) : M W (result err Entity) :=
  let allowRename := bool_decide (e_Name patch <> ""%string) && bool_decide (e_Name patch <> name) in
  upstream "patch_entity" (UpdateEntity (mkEntityUpdate name (EntityUpdatePayload patch) allowRename)) (fun resp =>
  incOp "patch_entity" None ;;
  ret (Ok (entityFromUpdateResponse resp (if allowRename then e_Name patch else name)))).

(** ListEdges: one graph read per label; the first edge per (ID, relation) is kept. *)
Definition edge_key (e : Edge) : string :=
  String.append (ed_ID e) (String NUL (ed_Relation e)).
Fixpoint add_edges (es : list GraphEdge) (seen : gset string) (out : list Edge) : gset string * list Edge :=
  match es with
  | [] => (seen, out)
  | e :: es =>
      let edge := EdgeFromGraphEdge e in
      if bool_decide (edge_key edge ∈ seen) then add_edges es seen out
      else add_edges es ({[edge_key edge]} ∪ seen) (out ++ [edge])
  end.
Fixpoint scan_labels (labels : list string) (seen : gset string) (out : list Edge) : M W (result err (list Edge)) :=
  match labels with
  | [] => incOp "list_edges" None ;; ret (Ok out)
  | l :: labels =>
      r <- on_lr (Graph l 1 0) ;;
      match r with
      | Err e =>
          if bool_decide (As_HTTPError e = Some StatusNotFound) then scan_labels labels seen out
          else fail_op "list_edges" (wrapUpstream e)
      | Ok g => let q := add_edges (kg_Edges g) seen out in scan_labels labels q.1 q.2
      end
  end.
Definition ListEdges : M W (result err (list Edge)) :=
  upstream "list_edges" (LabelSearch "") (fun labels => scan_labels labels ∅ []).
Definition CreateEdge (e : Edge) : M W (result err Edge) :=
  upstream "create_edge" (CreateRelation (RelationCreatePayload e)) (fun _ =>
  incOp "create_edge" None ;;
  ret (Ok (mkDomainEdge (EncodeEdgeID (ed_From e) (ed_To e)) (ed_From e) (ed_To e)
             (ed_Relation e) (ed_Properties e)))).
Definition DeleteEdge (id : string) : M W (result err unit) :=
  match DecodeEdgeID id with
  | Err e => incOp "delete_edge" (Some e) ;; ret (Err (WrapMsg ErrInvalid "invalid edge id"))
  | Ok (from, to) =>
      upstream "delete_edge" (DeleteRelation from to) (fun _ =>
      incOp "delete_edge" None ;; ret (Ok tt))
  end.
End Service.
