(* ===== verification/ServiceTheorems.v ===== *)
(** What the memory service guarantees: GET after DELETE, what a failed delete
    does to tombstones, resumable purges, retrieval without deleted content, and
    the edge listing. *)
From S2P Require Import Prelude GoErr Db Lightrag EdgeId Translate Tombstone Service.

Lemma union_difference_again (i : string) (X : gset string) : ({[i]} ∪ X) ∖ {[i]} = X ∖ {[i]}.
Proof.
  apply set_eq. intros x. rewrite !elem_of_difference, elem_of_union, elem_of_singleton. tauto.
Qed.

Section ServiceTheorems.
Context {L T S : Type} `{Client L} `{TombstonerLaws T} `{SourceIndexLaws S} `{TimeParse}.
Context (now : Z).
Abbreviation W := (svc L T S).
Abbreviation deadw w := (dead (sv_tomb w)).
Abbreviation indexedw w := (indexed (sv_src w)).

Ltac svc_simpl := unfold fail_op, upstream, incOp, logPurgeErr, on_lr, on_tomb, on_src in *; go_simpl.

(** ** Deletion *)

(** Which calls a delete makes on the tombstone store. *)
Lemma delete_raw_calls id (w w' : W) r :
  deleteMemoryRaw true now id w = (r, w') ->
  sv_src w' = sv_src w /\ sv_ops w' = sv_ops w /\ sv_log w' = sv_log w /\
  match r with
  | Ok _ => Mark now id (sv_tomb w) = (Ok tt, sv_tomb w')
  | Err _ => sv_tomb w' = sv_tomb w \/
      (exists e, Mark now id (sv_tomb w) = (Err e, sv_tomb w')) \/
      (exists t x, Mark now id (sv_tomb w) = (Ok tt, t) /\ Unmark id t = (x, sv_tomb w'))
  end.
Proof.
  unfold deleteMemoryRaw. intros Hr. svc_simpl.
  destruct (TrackStatus id (sv_lr w)) as [[ts|e] l1]; simpl in Hr; [|simplify_eq/=; auto].
  destruct (ds_ID <$> ts_Documents ts) as [|d ds]; [simplify_eq/=; auto|]. simpl in Hr.
  destruct (Mark now id (sv_tomb w)) as [[[]|e] t1] eqn:Hm; simpl in Hr; [|simplify_eq/=; eauto 8].
  destruct (DeleteDocs (d :: ds) l1) as [[resp|e] l2]; simpl in Hr;
    [destruct (delete_accepted (dd_Status resp)); [by simplify_eq/=|]|];
    unfold rollback in Hr; svc_simpl; destruct (Unmark id t1) as [x t2] eqn:Hx; simplify_eq/=;
    split_and!; try done; right; right; eauto.
Qed.
(** How a delete moves the tombstones: success marks the ID; failure leaves the
    others alone and, once the mark was set, takes this one away again. *)
Lemma delete_raw_effect id (w w' : W) r :
  deleteMemoryRaw true now id w = (r, w') ->
  match r with
  | Ok _ => deadw w' = {[id]} ∪ deadw w
  | Err _ => deadw w' = deadw w \/ deadw w' = {[id]} ∪ deadw w \/ deadw w' = deadw w ∖ {[id]}
  end.
Proof.
  intros (_ & _ & _ & Hd)%delete_raw_calls. destruct r as [u|e].
  { by apply mark_law in Hd as [[_ ?]|[[? ?] _]]. }
  destruct Hd as [-> |[(x & Hm)|(t & x & Hm & Hu)]]; [by left| |].
  - apply mark_law in Hm as [[? _]|[_ [?|?]]]; [done|by left|by auto].
  - apply mark_law in Hm as [[_ Hm]|[[? ?] _]]; [|done]. apply unmark_law in Hu. rewrite Hm in Hu.
    rewrite (union_difference_again id) in Hu. destruct Hu as [[_ ?]|[_ [?|?]]]; auto.
Qed.

(** C8: once a delete has been accepted, a GET of that memory never returns it for
    as long as the tombstone stands, whatever LightRAG still reports: it is "not
    found", or the tombstone check itself failed, and LightRAG is not asked. *)
Theorem get_after_delete id (w w1 w2 w3 : W) r :
  DeleteMemory true now id w = (Ok tt, w1) ->
  deadw w1 ⊆ deadw w2 -> GetMemory true id w2 = (r, w3) ->
  sv_lr w3 = sv_lr w2 /\
  (r = Err (Sentinel ErrNotFound) \/ exists e, r = Err (Wrap "tombstone check" e)).
Proof.
  intros Hd Hsub Hg. unfold DeleteMemory in Hd. svc_simpl.
  destruct (deleteMemoryRaw true now id w) as [x w1'] eqn:Hraw. simplify_eq/=.
  apply delete_raw_effect in Hraw as Hdead.
  unfold GetMemory in Hg. svc_simpl. destruct (IsDeleted id (sv_tomb w2)) as [b t2] eqn:Hi.
  apply is_deleted_law in Hi as [_ Hb]. simpl in Hg.
  destruct b as [b|e]; simplify_eq/=; [|eauto]. rewrite (Hb b eq_refl) in Hg.
  rewrite bool_decide_eq_true_2 in Hg
    by (apply Hsub; rewrite Hdead; apply elem_of_union_l; by apply elem_of_singleton). simplify_eq/=. auto.
Qed.

(** A refused or failed delete touches no other memory's tombstone; if the
    tombstone store answers, the memory itself is left without one when it had
    none, so a retry starts over. *)
Theorem failed_delete_tombstones id (w w' : W) e :
  deleteMemoryRaw true now id w = (Err e, w') ->
  deadw w' ∖ {[id]} = deadw w ∖ {[id]} /\
  ((forall t, is_ok (Mark now id t).1 = true /\ is_ok (Unmark id t).1 = true) ->
   (id ∉ deadw w) -> deadw w' = deadw w).
Proof.
  intros Hr. split.
  { apply delete_raw_effect in Hr as [->|[->| ->]]; [done|apply union_difference_again|].
    by rewrite difference_difference_l_L, union_idemp_L. }
  intros Hrel Hid. apply delete_raw_calls in Hr as (_ & _ & _ & Hd).
  destruct Hd as [-> |[(x & Hm)|(t & x & Hm & Hu)]]; [done| |].
  - destruct (Hrel (sv_tomb w)) as [Hok _]. by rewrite Hm in Hok.
  - destruct (Hrel t) as [_ Hok]. rewrite Hu in Hok.
    apply mark_law in Hm as [[_ Hm]|[[? ?] _]]; [|done].
    apply unmark_law in Hu as [[_ Hu]|[[? ->] _]]; [|done].
    rewrite Hu, Hm, union_difference_again. apply difference_disjoint_L. by apply disjoint_singleton_r.
Qed.

(** ** Purging *)

Lemma delete_raw_others id (w w' : W) r i :
  deleteMemoryRaw true now id w = (r, w') -> i <> id -> i ∈ deadw w' <-> i ∈ deadw w.
Proof.
  intros Hr%delete_raw_effect Hi.
  destruct r; [rewrite Hr|destruct Hr as [->|[->| ->]]];
    rewrite ?elem_of_union, ?elem_of_difference, ?elem_of_singleton; tauto.
Qed.

Lemma purge_ids_spec ids p (w w' : W) n r :
  NoDup ids -> purge_ids true now ids p w = ((n, r), w') ->
  sv_src w' = sv_src w /\ p <= n <= p + Z.of_nat (length ids) /\
  (forall id, id ∉ ids -> id ∈ deadw w' <-> id ∈ deadw w) /\
  (r = None -> exists ok gone, ids ≡ₚ ok ++ gone /\ n = p + Z.of_nat (length ok) /\
     forall id, id ∈ ok -> id ∈ deadw w').
Proof.
  revert p w. induction ids as [|id ids IH]; intros p w Hnd Hp; cbn [purge_ids] in Hp.
  { unfold ret in Hp. simplify_eq. split_and!; try done; [lia|]. intros _. exists [], []. simpl.
    split_and!; [done|lia|]. intros x Hx. by apply elem_of_nil in Hx. }
  apply NoDup_cons in Hnd as [Hid Hnd]. unfold bind in Hp.
  destruct (deleteMemoryRaw true now id w) as [x w1] eqn:Hraw. simpl in Hp.
  pose proof (delete_raw_calls _ _ _ _ Hraw) as (Hsrc & _ & _ & _).
  pose proof (delete_raw_effect _ _ _ _ Hraw) as Heff.
  assert (Hoth : forall i, i <> id -> i ∈ deadw w1 <-> i ∈ deadw w)
    by (intros i Hi; by eapply delete_raw_others).
  destruct x as [u|e]; [|destruct (errors_Is e ErrNotFound)].
  - destruct (IH _ _ Hnd Hp) as (Hs & Hn & Ho & Hok). split_and!; [congruence|simpl; lia|simpl; lia| |].
    + intros i [Hi Hin]%not_elem_of_cons. rewrite Ho by done. by apply Hoth.
    + intros Hr. destruct (Hok Hr) as (ok & gone & Hperm & -> & Hdead). exists (id :: ok), gone.
      split; [by rewrite Hperm|]. split; [simpl; lia|]. intros i [->|Hi]%elem_of_cons; [|by apply Hdead].
      apply Ho; [done|]. rewrite Heff. apply elem_of_union_l. by apply elem_of_singleton.
  - destruct (IH _ _ Hnd Hp) as (Hs & Hn & Ho & Hok). split_and!; [congruence|simpl; lia|simpl; lia| |].
    + intros i [Hi Hin]%not_elem_of_cons. rewrite Ho by done. by apply Hoth.
    + intros Hr. destruct (Hok Hr) as (ok & gone & Hperm & -> & Hdead). exists ok, (id :: gone).
      split; [by rewrite Hperm, Permutation_middle|]. done.
  - unfold purge_failed in Hp. svc_simpl. split_and!; [done|lia|lia| |done].
    intros i [Hi Hin]%not_elem_of_cons. by apply Hoth.
Qed.

Abbreviation cleared repo f w := (filter (fun row : string * string * string => row.1 <> (repo, f)) (indexedw w)).

(** Purging a file either clears exactly its rows of the source index, having
    tombstoned each indexed memory or found it already gone, and counts the
    tombstoned ones; or it reports an error with the rows still there for a
    retry (or cleared without acknowledgement). *)
Theorem purge_file repo f (w w' : W) n r :
  DeleteMemoriesBySource true true now repo f w = ((n, r), w') ->
  0 <= n /\
  match r with
  | None => indexedw w' = cleared repo f w /\
      exists ok gone, n = Z.of_nat (length ok) /\ NoDup (ok ++ gone) /\
        (forall id, id ∈ ok ++ gone <-> (repo, f, id) ∈ indexedw w) /\
        (forall id, id ∈ ok -> id ∈ deadw w')
  | Some _ => indexedw w' = indexedw w \/ indexedw w' = cleared repo f w
  end.
Proof.
  unfold DeleteMemoriesBySource. cbn [negb]. intros Hp. unfold bind, on_src in Hp. simpl in Hp.
  destruct (TrackIDs repo f (sv_src w)) as [x s1] eqn:Ht. apply track_ids_law in Ht as [Hs1 Hids].
  simpl in Hp. destruct x as [ids|e].
  2:{ unfold purge_failed in Hp. svc_simpl. split; [done|]. by left. }
  destruct (Hids ids eq_refl) as [Hnd Hin].
  destruct (purge_ids true now ids 0 _) as [[k x] w1] eqn:Hpi. simpl in Hp.
  destruct (purge_ids_spec _ _ _ _ _ _ Hnd Hpi) as (Hsrc & Hk & _ & Hok). simpl in Hsrc.
  destruct x as [e|].
  { unfold ret in Hp. simplify_eq. split; [lia|]. by left. }
  destruct (DeleteByFile repo f (sv_src w1)) as [y s2] eqn:Hd.
  apply delete_by_file_law in Hd. rewrite Hsrc, Hs1 in Hd. simpl in Hp.
  destruct y as [c|e]; [|unfold purge_failed in Hp; svc_simpl; split; [lia|done]].
  svc_simpl. split; [lia|]. split; [done|].
  destruct (Hok eq_refl) as (ok & gone & Hperm & -> & Hdead). exists ok, gone.
  split_and!; [lia|by rewrite <- Hperm| |done]. intros id. by rewrite <- Hperm.
Qed.

Lemma indexed_cleared (repo f : string) (t : source_table) row :
  row ∈ filter (fun row : string * string * string => row.1 <> (repo, f)) t <-> row ∈ t /\ row.1 <> (repo, f).
Proof. rewrite elem_of_filter. tauto. Qed.

Lemma purge_files_spec repo files t0 (w w' : W) n r :
  purge_files true true now repo files t0 w = ((n, r), w') ->
  t0 <= n /\ indexedw w' ⊆ indexedw w /\
  exists k, (k <= length files)%nat /\ (r = None <-> k = length files) /\
    (forall f id, f ∈ take k files -> (repo, f, id) ∉ indexedw w') /\
    (forall row, row ∈ indexedw w -> (forall f, f ∈ take (Datatypes.S k) files -> row.1 <> (repo, f)) ->
       row ∈ indexedw w').
Proof.
  revert t0 w. induction files as [|f files IH]; intros t0 w Hp; cbn [purge_files] in Hp.
  { svc_simpl. split; [lia|]. split; [done|]. exists 0%nat. split_and!; try done. intros f id Hf.
    by apply elem_of_nil in Hf. }
  unfold bind in Hp. destruct (DeleteMemoriesBySource _ _ _ _ _ _) as [[m x] w1] eqn:Hf.
  apply purge_file in Hf as [Hm Hf]. simpl in Hp.
  destruct x as [e|].
  - svc_simpl. split; [lia|]. split.
    { destruct Hf as [->| ->]; [done|]. intros row. rewrite indexed_cleared. tauto. }
    exists 0%nat. split_and!; [lia|by split|intros g id Hg; by apply elem_of_nil in Hg|].
    intros row Hrow Hne. destruct Hf as [->| ->]; [done|]. rewrite indexed_cleared. split; [done|].
    apply Hne. left.
  - destruct Hf as [Hix _]. destruct (IH _ _ Hp) as (Hn & Hsub & k & Hk & Hr & Hgone & Hkeep).
    split; [lia|]. split.
    { etrans; [exact Hsub|]. rewrite Hix. intros row. rewrite indexed_cleared. tauto. }
    exists (Datatypes.S k). simpl length. split_and!; [lia|rewrite Hr; lia| |].
    + intros g id Hg. rewrite firstn_cons in Hg. apply elem_of_cons in Hg as [->|Hg]; [|by apply Hgone].
      intros Hin%Hsub. rewrite Hix, indexed_cleared in Hin. by destruct Hin.
    + intros row Hrow Hne. apply Hkeep.
      * rewrite Hix, indexed_cleared. split; [done|]. apply Hne. left.
      * intros g Hg. apply Hne. rewrite firstn_cons. by right.
Qed.


(** ** Retrieval *)

Lemma filter_deleted_spec {A} (key : A -> string) l (w w' : W) out :
  filter_deleted key l w = (out, w') ->
  deadw w' = deadw w /\ out `sublist_of` l /\
  (forall x, x ∈ l -> (key x ∉ deadw w) -> x ∈ out) /\
  ((forall id t, is_ok (IsDeleted id t).1 = true) ->
   out = List.filter (fun x => bool_decide (key x ∉ deadw w)) l).
Proof.
  revert w w' out. induction l as [|x l IH]; intros w w' out Hf; cbn [filter_deleted] in Hf.
  { unfold ret in Hf. simplify_eq. split_and!; [done|constructor|done|done]. }
  unfold bind, on_tomb in Hf. simpl in Hf.
  destruct (IsDeleted (key x) (sv_tomb w)) as [b t1] eqn:Hb.
  pose proof (is_deleted_law _ _ _ _ Hb) as [Ht1 Hlaw].
  simpl in Hf. destruct (filter_deleted key l _) as [rest w2] eqn:Hrest. unfold ret in Hf. simpl in Hf.
  destruct (IH _ _ _ Hrest) as (Hd & Hsub & Hlive & Hrel). simpl in Hd, Hlive, Hrel.
  rewrite Ht1 in Hd, Hlive, Hrel. simplify_eq. split; [done|].
  destruct b as [[]|e].
  - split; [by apply sublist_cons|]. split.
    + intros y [->|Hy]%elem_of_cons Hk; [|by apply Hlive].
      specialize (Hlaw true eq_refl). symmetry in Hlaw. by apply bool_decide_eq_true in Hlaw.
    + intros Hr. rewrite (Hrel Hr). cbn [List.filter]. specialize (Hlaw true eq_refl).
      symmetry in Hlaw. apply bool_decide_eq_true in Hlaw. rewrite bool_decide_eq_false_2; [done|]. by intros ?.
  - split; [by apply sublist_skip|]. split.
    + intros y [->|Hy]%elem_of_cons Hk; [by left|right; by apply Hlive].
    + intros Hr. rewrite (Hrel Hr). cbn [List.filter]. specialize (Hlaw false eq_refl).
      symmetry in Hlaw. apply bool_decide_eq_false in Hlaw. by rewrite bool_decide_eq_true_2.
  - split; [by apply sublist_skip|]. split.
    + intros y [->|Hy]%elem_of_cons Hk; [by left|right; by apply Hlive].
    + intros Hr. exfalso. specialize (Hr (key x) (sv_tomb w)). by rewrite Hb in Hr.
Qed.


(** ** The graph *)

Lemma add_edges_spec es seen out :
  let q := add_edges es seen out in
  q.2 = out ++ dedup_by edge_key seen (EdgeFromGraphEdge <$> es) /\
  q.1 = seen ∪ list_to_set (edge_key <$> (EdgeFromGraphEdge <$> es)).
Proof.
  revert seen out. induction es as [|e es IH]; intros seen out; simpl.
  { rewrite app_nil_r. split; [done|]. by rewrite union_empty_r_L. }
  case_bool_decide as Hin.
  - destruct (IH seen out) as [-> ->]. split; [done|]. simpl.
    rewrite (union_assoc_L seen), (union_comm_L seen {[_]}). f_equal. symmetry. apply subseteq_union_1_L.
    by apply singleton_subseteq_l.
  - destruct (IH ({[edge_key (EdgeFromGraphEdge e)]} ∪ seen) (out ++ [EdgeFromGraphEdge e])) as [-> ->].
    rewrite <- app_assoc. split; [done|]. simpl. by rewrite (union_comm_L _ seen), union_assoc_L.
Qed.

Lemma scan_labels_spec labels seen out (w w' : W) es :
  scan_labels labels seen out w = (Ok es, w') ->
  exists graphs : list KnowledgeGraph, (length graphs <= length labels)%nat /\
    es = out ++ dedup_by edge_key seen (EdgeFromGraphEdge <$> mjoin (kg_Edges <$> graphs)).
Proof.
  revert seen out w. induction labels as [|l labels IH]; intros seen out w Hs; cbn [scan_labels] in Hs.
  { svc_simpl. exists []. split; [done|]. by rewrite app_nil_r. }
  unfold bind, on_lr in Hs. destruct (Graph l 1 0 (sv_lr w)) as [[g|e] l1]; simpl in Hs.
  - apply IH in Hs as (graphs & Hlen & ->). exists (g :: graphs). simpl. split; [lia|].
    pose proof (add_edges_spec (kg_Edges g) seen out) as [-> ->].
    by rewrite fmap_app, dedup_by_app, <- app_assoc.
  - case_bool_decide; [|by svc_simpl]. apply IH in Hs as (graphs & Hlen & ->).
    exists graphs. simpl. split; [lia|done].
Qed.

Lemma edge_key_inj g1 g2 :
  clean (ge_Source g1) -> clean (ge_Source g2) ->
  edge_key (EdgeFromGraphEdge g1) = edge_key (EdgeFromGraphEdge g2) ->
  ge_Source g1 = ge_Source g2 /\ ge_Target g1 = ge_Target g2 /\
  ed_Relation (EdgeFromGraphEdge g1) = ed_Relation (EdgeFromGraphEdge g2).
Proof.
  intros H1' H2' Hk. unfold edge_key in Hk. apply append_NUL_inj in Hk as [Hid Hr];
    [|unfold EdgeFromGraphEdge, EncodeEdgeID; simpl; rewrite bytes_of_bytes; apply encode_no_NUL..].
  apply EncodeEdgeID_inj in Hid as [? ?]; done.
Qed.

(** The edge listing names every (source, target, relation) of the graphs it
    read exactly once: no two listed edges agree on all three, and every edge of
    every graph read, its source being free of NUL bytes, is represented. *)
Theorem ListEdges_dedup (w w' : W) es :
  ListEdges w = (Ok es, w') ->
  NoDup ((fun e => (ed_From e, ed_To e, ed_Relation e)) <$> es) /\
  exists graphs : list KnowledgeGraph,
    (forall e, e ∈ es -> exists ge, ge ∈ mjoin (kg_Edges <$> graphs) /\ e = EdgeFromGraphEdge ge) /\
    (Forall (fun ge => clean (ge_Source ge)) (mjoin (kg_Edges <$> graphs)) ->
     forall ge, ge ∈ mjoin (kg_Edges <$> graphs) ->
       exists e, e ∈ es /\ ed_From e = ge_Source ge /\ ed_To e = ge_Target ge /\
                 ed_Relation e = ed_Relation (EdgeFromGraphEdge ge)).
Proof.
  unfold ListEdges, upstream, bind, on_lr. intros Hl. simpl in Hl.
  destruct (LabelSearch "" (sv_lr w)) as [[labels|e] l1]; simpl in Hl; [|by svc_simpl].
  apply scan_labels_spec in Hl as (graphs & _ & ->). simpl.
  set (all := mjoin (kg_Edges <$> graphs)).
  assert (Hfrom : forall e, e ∈ dedup_by edge_key ∅ (EdgeFromGraphEdge <$> all) ->
    exists ge, ge ∈ all /\ e = EdgeFromGraphEdge ge).
  { intros e [_ He]%dedup_by_keys_fresh. apply list_elem_of_fmap in He as (ge & -> & Hge). eauto. }
  split; [|exists graphs; split; [done|]].
  - eapply (NoDup_fmap_finer edge_key); [|apply (dedup_by_NoDup edge_key ∅)].
    intros e1 e2 (g1 & _ & ->)%Hfrom (g2 & _ & ->)%Hfrom Heq. simpl in Heq.
    injection Heq as Hf Ht Hr. unfold edge_key. simpl. by rewrite Hf, Ht, Hr.
  - intros Hclean ge Hge.
    destruct (dedup_by_complete edge_key ∅ (EdgeFromGraphEdge <$> all) (EdgeFromGraphEdge ge))
      as [Hin|Hin]; [by apply list_elem_of_fmap_2|by apply elem_of_empty in Hin|].
    apply list_elem_of_fmap in Hin as (e & Hk & He). destruct (Hfrom e He) as (ge' & Hge' & ->).
    exists (EdgeFromGraphEdge ge'). split; [done|].
    rewrite Forall_forall in Hclean. apply edge_key_inj in Hk as (Hf & Ht & Hr); [done|by apply Hclean..].
Qed.

(** An edge the service created under a source name without NUL bytes is
    deleted by its returned ID: the upstream is asked for exactly that pair. *)
Theorem created_edge_deletable e (w w1 w2 : W) e' :
  CreateEdge e w = (Ok e', w1) -> clean (ed_From e) ->
  (DeleteEdge (ed_ID e') w2).1 = 
    match (DeleteRelation (ed_From e) (ed_To e) (sv_lr w2)).1 with
    | Ok _ => Ok tt
    | Err x => Err (wrapUpstream x)
    end /\
  sv_lr (DeleteEdge (ed_ID e') w2).2 = (DeleteRelation (ed_From e) (ed_To e) (sv_lr w2)).2.
Proof.
  intros Hc Hcl. unfold CreateEdge, upstream, bind, on_lr in Hc.
  destruct (CreateRelation _ _) as [[x|x] l]; svc_simpl.
  unfold DeleteEdge. rewrite decode_edge by done. unfold upstream, bind, on_lr, fail_op, incOp, modify, ret. simpl.
  by destruct (DeleteRelation _ _ _) as [[x2|x2] l2].
Qed.
End ServiceTheorems.

(** * Closed executions *)

(** A small upstream: documents by track, a fixed answer to deletes, one graph
    per label, and fixed structured-query data. *)
Record toy := mkToy {
  toy_docs : gmap string (list DocStatusResponse); toy_delete : string;
  toy_graphs : list (string * KnowledgeGraph); toy_data : anymap }.
#[local] Instance toy_client : Client toy := {
  InsertText := fun _ => ret (Ok (mkInsertResponse "success" "" "track"));
  TrackStatus := fun id t => (match toy_docs t !! id with
                              | Some ds => Ok (mkTrackStatus id ds (Z.of_nat (length ds)) ∅)
                              | None => Err (HTTPError 404 "" "") end, t);
  DeleteDocs := fun _ t => (Ok (mkDeleteDoc (toy_delete t) "" ""), t);
  lr_Query := fun _ => ret (Ok (mkQueryResponse "" []));
  lr_QueryData := fun _ t => (Ok (mkQueryData "success" "" (toy_data t) ∅), t);
  EntityExists := fun _ => ret (Ok false);
  CreateEntity := fun _ => ret (Ok (mkEntityResponse "success" "" None));
  UpdateEntity := fun _ => ret (Ok (mkEntityResponse "success" "" None));
  DeleteEntity := fun _ => ret (Ok tt); Health := ret (Ok tt);
  LabelSearch := fun _ t => (Ok (fst <$> toy_graphs t), t);
  Graph := fun l _ _ t => (match List.find (fun kg => bool_decide (kg.1 = l)) (toy_graphs t) with
                           | Some kg => Ok kg.2 | None => Err (HTTPError 404 "" "") end, t);
  CreateRelation := fun _ => ret (Ok (mkRelationResponse "success" "" ∅));
  DeleteRelation := fun _ _ => ret (Ok tt) }.
#[local] Instance toy_time : TimeParse := {| ParseRFC3339 _ := Some 1; ParseRFC3339Nano _ := Some 1 |}.

Abbreviation toyW := (svc toy (Db tomb_table) (Db source_table)).
Definition toy_chunk (id : string) : any :=
  AObject [("chunk_id"%string, AString id); ("reference_id"%string, AString id); ("content"%string, AString id)].
Definition toy_edge : GraphEdge := mkEdge "" "a" "b" "owns" None.
Definition toy_world (delete_status : string) (marked : list string) : toyW :=
  mkSvc (mkToy {["t"%string := [mkDocStatus "d" "summary" 7 "processed" "" "" "t" 0 "" ∅ ""]]} delete_status
           [("a"%string, mkGraph [] [toy_edge]); ("b"%string, mkGraph [] [toy_edge])]
           {["chunks"%string := AArray [toy_chunk "t"; toy_chunk "u"]]})
        (mkDb (list_to_map ((fun i => (i, mkTombstone 0 0 None)) <$> marked)) [])
        (mkDb {[("repo"%string, "f"%string, "t"%string); ("repo"%string, "g"%string, "t"%string)]} [])
        ∅ [].

Definition after_delete : toyW := (DeleteMemory true 5 "t" (toy_world "success" [])).2.
Lemma get_after_delete_witness :
  DeleteMemory true 5 "t" (toy_world "success" []) = (Ok tt, after_delete) /\
  ((GetMemory true "t" after_delete).1 = Err (Sentinel ErrNotFound) \/
   exists e, (GetMemory true "t" after_delete).1 = Err (Wrap "tombstone check" e)).
Proof.
  assert (Hd : DeleteMemory true 5 "t" (toy_world "success" []) = (Ok tt, after_delete))
    by (by_evaluation).
  split; [exact Hd|].
  eapply (get_after_delete 5 "t" _ after_delete after_delete); [exact Hd|done|apply surjective_pairing].
Defined.

(** The tombstone store as its implementation answers when no round trip fails. *)
Definition busy_world : toyW := toy_world "busy" ["u"%string].
Definition after_busy : toyW := (deleteMemoryRaw true 5 "t" busy_world).2.
Definition busy_err : err := WrapMsg ErrBusy "delete returned status=busy".
Lemma failed_delete_tombstones_witness :
  deleteMemoryRaw true 5 "t" busy_world = (Err busy_err, after_busy) /\
  dead (sv_tomb after_busy) ∖ {["t"%string]} = dead (sv_tomb busy_world) ∖ {["t"%string]}.
Proof.
  assert (Hd : deleteMemoryRaw true 5 "t" busy_world = (Err busy_err, after_busy)) by (by_evaluation).
  split; [exact Hd|]. by eapply (failed_delete_tombstones 5 "t").
Defined.

Definition full_world : toyW := toy_world "success" [].
Definition after_purge : toyW := (DeleteMemoriesBySource true true 5 "repo" "f" full_world).2.
Lemma purge_file_witness :
  DeleteMemoriesBySource true true 5 "repo" "f" full_world = ((1, None), after_purge) /\
  indexed (sv_src after_purge)
    = filter (fun row => row.1 <> ("repo"%string, "f"%string)) (indexed (sv_src full_world)).
Proof.
  assert (Hd : DeleteMemoriesBySource true true 5 "repo" "f" full_world = ((1, None), after_purge))
    by (by_evaluation).
  split; [exact Hd|]. by apply (purge_file 5 "repo" "f") in Hd as (_ & Hd & _).
Defined.

Definition two_files : list string := ["f"%string; "g"%string].
Definition after_stop : toyW := (DeleteMemoriesBySources true true 5 "repo" two_files busy_world).2.
Definition stop_err : err := Wrap "delete memories" (Wrap "delete memory" busy_err).

Definition toy_query : Query := mkQuery "hybrid" "q" 5.
Definition hiding_world : toyW := toy_world "success" ["t"%string].
Definition after_query : toyW := (QueryData true toy_query hiding_world).2.
Definition shown : QueryResult := queryResultFromChunks [mkChunk "u" "u" "u"].

Definition after_list : toyW := (ListEdges full_world).2.
Definition listed : list Edge := [EdgeFromGraphEdge toy_edge].
Lemma ListEdges_dedup_witness :
  ListEdges full_world = (Ok listed, after_list) /\
  NoDup ((fun e => (ed_From e, ed_To e, ed_Relation e)) <$> listed).
Proof.
  assert (Hd : ListEdges full_world = (Ok listed, after_list)) by (by_evaluation).
  split; [exact Hd|]. by apply ListEdges_dedup in Hd as [Hd _].
Defined.

Definition new_edge : Edge := mkDomainEdge "" "a" "b" "owns" ∅.
Definition made_edge : Edge := mkDomainEdge (EncodeEdgeID "a" "b") "a" "b" "owns" ∅.
Definition after_create : toyW := (CreateEdge new_edge full_world).2.
Lemma created_edge_deletable_witness :
  CreateEdge new_edge full_world = (Ok made_edge, after_create) /\
  (DeleteEdge (ed_ID made_edge) full_world).1 = Ok tt.
Proof.
  assert (Hd : CreateEdge new_edge full_world = (Ok made_edge, after_create)) by (by_evaluation).
  split; [exact Hd|].
  apply (created_edge_deletable new_edge full_world after_create full_world) in Hd as [Hd _]; [exact Hd|].
  apply (bool_decide_unpack _). vm_compute. exact I.
Defined.

(** A memory already deleted, whose second delete LightRAG refuses as busy,
    loses its tombstone: the next GET returns it again. *)
Theorem busy_redelete_resurrects :
  let w1 := toy_world "busy" ["t"%string] in
  (GetMemory true "t" w1).1 = Err (Sentinel ErrNotFound) /\
  let w2 := (DeleteMemory true 5 "t" w1).2 in
  (DeleteMemory true 5 "t" w1).1 = Err busy_err /\
  is_ok (GetMemory true "t" w2).1 = true.
Proof. vm_compute. repeat split. Qed.
