(* ===== verification/Fake.v ===== *)
(** The in-memory LightRAG ([internal/lightrag/fake/fake.go]) the service is tested
    against: documents by track, entities, relations under the key "src||tgt", labels
    and canned query answers, as an instance of [Client].

    A method holds the mutex from its first line to its last: it is one transition.
    Maps are values: what is stored shares no map with its caller, as with the payloads
    of [Translate], built afresh for each call.  The order of a map is [MapRange]. *)
From S2P Require Import Prelude GoErr GoStr Lightrag.

Module Fake.

(** * State *)

Record docState := mkDocState { st_doc : DocStatusResponse; st_trackID : string }.
Record t := mkFake {
  docs : gmap string docState;
  tracks : gmap string (list string);
  entities : gmap string anymap;
  edges : gmap string (option anymap);          (* nil or a map, by "src||tgt" *)
  extraEdges : list GraphEdge;
  labels : list string;
  queryRes : QueryResponse; dataRes : QueryDataResponse;
  lastReq : QueryRequest;
  nextID : Z;
  insertStatus : string;
  insertResp : option (string * string);        (* status and track ID, when overridden *)
  leaveEdgesOnDelete : bool }.

Definition DocStatusPending : string := "pending".
Definition DocStatusProcessed : string := "processed".
Definition no_request : QueryRequest := mkQueryRequest "" "" 0 0 None None None None.
Definition New : t :=
  mkFake ∅ ∅ ∅ ∅ [] [] (mkQueryResponse "" []) (mkQueryData "" "" ∅ ∅) no_request 0 DocStatusProcessed None false.

(** Field writes. *)
Definition set_docs (d : gmap string docState) (ts : gmap string (list string)) (n : Z) (c : t) : t :=
  mkFake d ts (entities c) (edges c) (extraEdges c) (labels c) (queryRes c) (dataRes c) (lastReq c) n
    (insertStatus c) (insertResp c) (leaveEdgesOnDelete c).
Definition set_graph (en : gmap string anymap) (ed : gmap string (option anymap)) (ex : list GraphEdge)
    (ls : list string) (c : t) : t :=
  mkFake (docs c) (tracks c) en ed ex ls (queryRes c) (dataRes c) (lastReq c) (nextID c)
    (insertStatus c) (insertResp c) (leaveEdgesOnDelete c).
Definition set_canned (q : QueryResponse) (d : QueryDataResponse) (last : QueryRequest) (c : t) : t :=
  mkFake (docs c) (tracks c) (entities c) (edges c) (extraEdges c) (labels c) q d last (nextID c)
    (insertStatus c) (insertResp c) (leaveEdgesOnDelete c).
Definition set_modes (st : string) (resp : option (string * string)) (leave : bool) (c : t) : t :=
  mkFake (docs c) (tracks c) (entities c) (edges c) (extraEdges c) (labels c) (queryRes c) (dataRes c) (lastReq c)
    (nextID c) st resp leave.

(** * Helpers *)

Definition edgeKey (src tgt : string) : string := String.append src (String.append "||" tgt).
Definition parseEdgeKey (k : string) : string * string :=
  match Index k "||" with
  | None => (k, ""%string)
  | Some i => (slice_to i k, slice_from (i + 2) k)
  end.
Definition appendUnique (s : list string) (v : string) : list string := if bool_decide (v ∈ s) then s else s ++ [v].
Definition removeLabel (s : list string) (v : string) : list string := List.filter (fun x => negb (bool_decide (x = v))) s.
Definition renameLabel (s : list string) (from to : string) : list string :=
  (fun x => if bool_decide (x = from) then to else x) <$> s.
Definition containsFold (s sub : string) : bool := Contains (ToLower s) (ToLower sub).
Definition numbered (prefix : string) (n : Z) : string := String.append prefix (String.append "-" (itoa n)).

(** * Seeding and switches *)

Definition SetInsertStatus (s : string) (c : t) : t := set_modes s (insertResp c) (leaveEdgesOnDelete c) c.
Definition SetLeaveEdgesOnDelete (v : bool) (c : t) : t := set_modes (insertStatus c) (insertResp c) v c.
Definition SetInsertResponse (status trackID : string) (c : t) : t :=
  set_modes (insertStatus c) (Some (status, trackID)) (leaveEdgesOnDelete c) c.
Definition SeedEntity (name : string) (data : option anymap) (c : t) : t :=
  set_graph (<[name := default ∅ data]> (entities c)) (edges c) (extraEdges c) (appendUnique (labels c) name) c.
Definition SeedEdge (src tgt : string) (data : option anymap) (c : t) : t :=
  set_graph (entities c) (<[edgeKey src tgt := data]> (edges c)) (extraEdges c) (labels c) c.
Definition SeedQueryResponse (r : QueryResponse) (c : t) : t := set_canned r (dataRes c) (lastReq c) c.
Definition SeedQueryDataResponse (r : QueryDataResponse) (c : t) : t := set_canned (queryRes c) r (lastReq c) c.
Definition SeedLabels (ls : list string) (c : t) : t := set_graph (entities c) (edges c) (extraEdges c) ls c.
Definition with_track (trackID : string) (d : DocStatusResponse) : DocStatusResponse :=
  mkDocStatus (ds_ID d) (ds_ContentSummary d) (ds_ContentLength d) (ds_Status d) (ds_CreatedAt d) (ds_UpdatedAt d)
    trackID (ds_ChunksCount d) (ds_ErrorMsg d) (ds_Metadata d) (ds_FilePath d).
Definition ids_of (trackID : string) (c : t) : list string := default [] (tracks c !! trackID).
Definition seed_doc (trackID : string) (c : t) (d : DocStatusResponse) : t :=
  set_docs (<[ds_ID d := mkDocState (with_track trackID d) trackID]> (docs c))
    (<[trackID := ids_of trackID c ++ [ds_ID d]]> (tracks c)) (nextID c) c.
Definition SeedMultiDocTrack (trackID : string) (ds : list DocStatusResponse) (c : t) : t := foldl (seed_doc trackID) c ds.
Definition relation_of (src tgt rel : string) : anymap :=
  {["keywords" := AString rel; "src_id" := AString src; "tgt_id" := AString tgt]}%string.
Definition SeedMultiRelationEdges (src tgt rel1 rel2 : string) (c : t) : t :=
  set_graph (entities c) (<[edgeKey src tgt := Some (relation_of src tgt rel1)]> (edges c))
    (extraEdges c ++ [mkEdge "" src tgt "" (Some (relation_of src tgt rel2))]) (labels c) c.

(** * Documents *)

Section Client.
(** [time.Now().UTC().Format(time.RFC3339)]. *)
Context `{MapRange} (now : string).

Definition InsertText (req : InsertTextRequest) : M t (result err InsertResponse) := fun c =>
  match insertResp c with
  | Some (status, trackID) => (Ok (mkInsertResponse status "override" trackID), c)
  | None =>
      let trackID := numbered "track" (nextID c + 1) in
      let docID := numbered "doc" (nextID c + 2) in
      let status := if bool_decide (insertStatus c = ""%string) then DocStatusProcessed else insertStatus c in
      let doc := mkDocStatus docID (in_Text req) (Z.of_nat (String.length (in_Text req))) status now now trackID
                   0 "" ∅ (in_FileSource req) in
      (Ok (mkInsertResponse "success" "submitted" trackID),
       set_docs (<[docID := mkDocState doc trackID]> (docs c)) (<[trackID := ids_of trackID c ++ [docID]]> (tracks c))
         (nextID c + 2) c)
  end.
Definition no_doc : DocStatusResponse := mkDocStatus "" "" 0 "" "" "" "" 0 "" ∅ "".
Definition doc_of (c : t) (id : string) : DocStatusResponse := from_option st_doc no_doc (docs c !! id).
Definition not_found (path body : string) : err := HTTPError 404 body path.
Definition TrackStatus (trackID : string) : M t (result err TrackStatusResponse) := fun c =>
  (match tracks c !! trackID with
   | None => Err (not_found (String.append "/documents/track_status/" trackID) "not found")
   | Some ids =>
       let ds := doc_of c <$> ids in
       Ok (mkTrackStatus trackID ds (Z.of_nat (length ids)) (foldl (fun m d => inc (ds_Status d) m) ∅ ds))
   end, c).
Definition delete_doc (c : t) (id : string) : t :=
  let trackID := from_option st_trackID ""%string (docs c !! id) in
  let filtered := List.filter (fun did => negb (bool_decide (did = id))) (ids_of trackID c) in
  set_docs (delete id (docs c))
    (if bool_decide (trackID = ""%string) then tracks c
     else if bool_decide (filtered = []) then delete trackID (tracks c) else <[trackID := filtered]> (tracks c))
    (nextID c) c.
Definition DeleteDocs (ids : list string) : M t (result err DeleteDocByIdResponse) := fun c =>
  match List.find (fun id => bool_decide (docs c !! id = None)) ids with
  | Some id => (Err (not_found "/documents/delete_document" (String.append "doc not found: " id)), c)
  | None => (Ok (mkDeleteDoc "deletion_started" "deleted" (default ""%string (head ids))), foldl delete_doc c ids)
  end.
Definition LookupTracksForDoc (docID : string) (c : t) : list string :=
  range (tracks c) ≫= fun tr => (fun _ => tr.1) <$> List.filter (fun d => bool_decide (d = docID)) tr.2.

(** * Queries *)

Definition LastQuery (c : t) : QueryRequest := lastReq c.
Definition Query (req : QueryRequest) : M t (result err QueryResponse) := fun c =>
  (Ok (queryRes c), set_canned (queryRes c) (dataRes c) req c).
Definition QueryData (req : QueryRequest) : M t (result err QueryDataResponse) := fun c =>
  (let res := dataRes c in
   if bool_decide (qd_Status res = "success"%string) then Ok res
   else Err (LogicalError "query_data" (qd_Status res) (qd_Message res)),
   set_canned (queryRes c) (dataRes c) req c).

(** * The graph *)

Definition EntityExists (name : string) : M t (result err bool) := fun c =>
  (Ok (bool_decide (is_Some (entities c !! name))), c).
Definition refused (path body : string) : err := HTTPError 400 body path.
Definition CreateEntity (req : EntityCreateRequest) : M t (result err EntityResponse) := fun c =>
  let name := ec_EntityName req in
  match entities c !! name with
  | Some _ => (Err (refused "/graph/entity/create" "duplicate entity"), c)
  | None =>
      let data := <["entity_name"%string := AString name]> (ec_EntityData req) in
      (Ok (mkEntityResponse "success" "created" (Some data)),
       set_graph (<[name := data]> (entities c)) (edges c) (extraEdges c) (appendUnique (labels c) name) c)
  end.
(** The name the update asks for, if it is another one. *)
Definition rename_to (req : EntityUpdateRequest) : option string :=
  match stringProp (eu_UpdatedData req) "entity_name" with
  | Some s => if bool_decide (s = ""%string) || bool_decide (s = eu_EntityName req) then None else Some s
  | None => None
  end.
Definition UpdateEntity (req : EntityUpdateRequest) : M t (result err EntityResponse) := fun c =>
  let name := eu_EntityName req in
  match entities c !! name with
  | None => (Err (not_found "/graph/entity/edit" "not found"), c)
  | Some cur =>
      if bool_decide (is_Some (rename_to req)) && negb (eu_AllowRename req)
      then (Err (refused "/graph/entity/edit" "rename not allowed"), c)
      else
        let finalName := default name (rename_to req) in
        let cur := <["entity_name"%string := AString finalName]> (delete "entity_name"%string (eu_UpdatedData req) ∪ cur) in
        (Ok (mkEntityResponse "success" "updated" (Some cur)),
         if bool_decide (finalName = name)
         then set_graph (<[name := cur]> (entities c)) (edges c) (extraEdges c) (labels c) c
         else set_graph (<[finalName := cur]> (delete name (entities c))) (edges c) (extraEdges c)
                (renameLabel (labels c) name finalName) c)
  end.
Definition incident (name k : string) : bool :=
  bool_decide ((parseEdgeKey k).1 = name) || bool_decide ((parseEdgeKey k).2 = name).
Definition DeleteEntity (name : string) : M t (result err unit) := fun c =>
  match entities c !! name with
  | None => (Err (not_found "/documents/delete_entity" "not found"), c)
  | Some _ =>
      (Ok tt, set_graph (delete name (entities c))
         (if leaveEdgesOnDelete c then edges c else filter (fun kv => incident name kv.1 = false) (edges c))
         (extraEdges c) (removeLabel (labels c) name) c)
  end.
Definition LabelSearch (q : string) : M t (result err (list string)) := fun c =>
  (Ok (List.filter (fun l => bool_decide (q = ""%string) || containsFold l q) (labels c)), c).
Definition node (label : string) (data : anymap) : GraphNode := mkNode label [label] (Some data).
Definition stored_edge (kv : string * option anymap) : GraphEdge :=
  let p := parseEdgeKey kv.1 in mkEdge "" p.1 p.2 "" kv.2.
Definition copied_edge (e : GraphEdge) : GraphEdge := mkEdge "" (ge_Source e) (ge_Target e) "" (ge_Properties e).
Definition touches (label : string) (e : GraphEdge) : bool :=
  bool_decide (ge_Source e = label) || bool_decide (ge_Target e = label).
Definition other_end (label : string) (e : GraphEdge) : string :=
  if bool_decide (ge_Target e = label) then ge_Source e else ge_Target e.
Definition Graph (label : string) (_ _ : Z) : M t (result err KnowledgeGraph) := fun c =>
  (match entities c !! label with
   | None => Err (not_found "/graphs" "label not found")
   | Some data =>
       let found := List.filter (touches label) (stored_edge <$> range (edges c)) in
       Ok (mkGraph
         (node label data :: omap (fun e => node (other_end label e) <$> entities c !! other_end label e) found)
         (found ++ (copied_edge <$> List.filter (touches label) (extraEdges c))))
   end, c).
Definition CreateRelation (req : RelationCreateRequest) : M t (result err RelationResponse) := fun c =>
  let src := rc_SourceEntity req in let tgt := rc_TargetEntity req in
  match entities c !! src, entities c !! tgt with
  | None, _ => (Err (refused "/graph/relation/create" "source not found"), c)
  | _, None => (Err (refused "/graph/relation/create" "target not found"), c)
  | Some _, Some _ =>
      let data := <["tgt_id"%string := AString tgt]> (<["src_id"%string := AString src]> (rc_RelationData req)) in
      (Ok (mkRelationResponse "success" "created" data),
       set_graph (entities c) (<[edgeKey src tgt := Some data]> (edges c)) (extraEdges c) (labels c) c)
  end.
Definition DeleteRelation (src tgt : string) : M t (result err unit) := fun c =>
  match edges c !! edgeKey src tgt with
  | None => (Err (not_found "/documents/delete_relation" "not found"), c)
  | Some _ => (Ok tt, set_graph (entities c) (delete (edgeKey src tgt) (edges c)) (extraEdges c) (labels c) c)
  end.
Definition Health : M t (result err unit) := ret (Ok tt).

#[export] Instance fake_client : Client t := {
  Lightrag.InsertText := InsertText; Lightrag.TrackStatus := TrackStatus; Lightrag.DeleteDocs := DeleteDocs;
  lr_Query := Query; lr_QueryData := QueryData; Lightrag.EntityExists := EntityExists;
  Lightrag.CreateEntity := CreateEntity; Lightrag.UpdateEntity := UpdateEntity; Lightrag.DeleteEntity := DeleteEntity;
  Lightrag.LabelSearch := LabelSearch; Lightrag.Graph := Graph; Lightrag.CreateRelation := CreateRelation;
  Lightrag.DeleteRelation := DeleteRelation; Lightrag.Health := Health }.
End Client.
End Fake.
