(* ===== verification/FakeLaws.v ===== *)
(** The in-memory LightRAG keeps documents and tracks in step whatever is called, and
    the memory service on top of it stores, lists and deletes what it is told to. *)
From S2P Require Import Prelude GoErr GoStr Lightrag EdgeId Translate Tombstone Service ServiceTheorems Fake.
Import Fake.

(** * Consistency *)

(** Documents and tracks point at each other, one track per document; the numbers
    still to come are unused; the labels are the entities. *)
Record docs_ok (c : t) : Prop := {
  ok_listed tr ids id : tracks c !! tr = Some ids -> id ∈ ids -> exists d, docs c !! id = Some d /\ st_trackID d = tr;
  ok_tracked id d : docs c !! id = Some d -> exists ids, tracks c !! st_trackID d = Some ids /\ id ∈ ids;
  ok_tracks tr ids : tracks c !! tr = Some ids -> tr <> ""%string /\ ids <> [] /\ NoDup ids;
  ok_ids id d : docs c !! id = Some d -> ds_ID (st_doc d) = id /\ ds_TrackID (st_doc d) = st_trackID d;
  ok_fresh n : nextID c < n -> docs c !! numbered "doc" n = None /\ tracks c !! numbered "track" n = None }.
Definition labels_ok (c : t) : Prop := forall l, l ∈ labels c <-> is_Some (entities c !! l).
Definition fake_ok (c : t) : Prop := docs_ok c /\ labels_ok c.

(** What reaches the fake through its interface. *)
Inductive call :=
| CallInsert (r : InsertTextRequest) | CallTrack (id : string) | CallDelete (ids : list string)
| CallQuery (r : QueryRequest) | CallQueryData (r : QueryRequest) | CallExists (name : string)
| CallCreate (r : EntityCreateRequest) | CallUpdate (r : EntityUpdateRequest) | CallDeleteEntity (name : string)
| CallSearch (q : string) | CallGraph (label : string) (maxDepth maxNodes : Z)
| CallRelate (r : RelationCreateRequest) | CallUnrelate (src tgt : string) | CallHealth.

Section FakeLaws.
Context `{MapRange} (now : string).
#[local] Instance the_fake : Client t := fake_client now.

Definition after (k : call) (c : t) : t :=
  match k with
  | CallInsert r => (InsertText now r c).2 | CallTrack id => (TrackStatus id c).2 | CallDelete ids => (DeleteDocs ids c).2
  | CallQuery r => (Query r c).2 | CallQueryData r => (QueryData r c).2 | CallExists n => (EntityExists n c).2
  | CallCreate r => (CreateEntity r c).2 | CallUpdate r => (UpdateEntity r c).2
  | CallDeleteEntity n => (DeleteEntity n c).2 | CallSearch q => (LabelSearch q c).2
  | CallGraph l d n => (Graph l d n c).2 | CallRelate r => (CreateRelation r c).2
  | CallUnrelate a b => (DeleteRelation a b c).2 | CallHealth => (Health c).2
  end.
Definition calls (ks : list call) (c : t) : t := foldl (fun c k => after k c) c ks.

#[local] Instance numbered_inj prefix : Inj (=) (=) (numbered prefix).
Proof. intros n m Hn. unfold numbered in Hn. by simplify_eq. Qed.
Lemma numbered_nonempty prefix n : numbered prefix n <> ""%string.
Proof. unfold numbered. destruct prefix; discriminate. Qed.

(** ** Inserting *)

Lemma insert_effect r c :
  docs_ok c -> insertResp c = None ->
  let tr := numbered "track" (nextID c + 1) in let id := numbered "doc" (nextID c + 2) in
  exists d, (InsertText now r c).1 = Ok (mkInsertResponse "success" "submitted" tr) /\
    st_trackID d = tr /\ ds_ID (st_doc d) = id /\ ds_TrackID (st_doc d) = tr /\ ds_ContentSummary (st_doc d) = in_Text r /\
    ds_CreatedAt (st_doc d) = now /\ ds_Metadata (st_doc d) = ∅ /\
    (InsertText now r c).2 = set_docs (<[id := d]> (docs c)) (<[tr := [id]]> (tracks c)) (nextID c + 2) c.
Proof.
  intros Hok Hr. cbv zeta. unfold InsertText. rewrite Hr. cbn [fst snd]. unfold ids_of.
  rewrite (proj2 (ok_fresh c Hok (nextID c + 1) ltac:(lia))). set (doc := mkDocStatus _ _ _ _ _ _ _ _ _ _ _).
  by exists (mkDocState doc (numbered "track" (nextID c + 1))).
Qed.
Lemma insert_ok r c : docs_ok c -> docs_ok (InsertText now r c).2.
Proof.
  intros Hok. destruct (insertResp c) as [[st tr]|] eqn:Hr; [by unfold InsertText; rewrite Hr|].
  destruct (insert_effect r c Hok Hr) as (d & _ & Ht & Hi & Ht' & _ & _ & _ & ->).
  pose proof (ok_fresh c Hok) as Hf.
  pose proof (proj1 (Hf (nextID c + 2) ltac:(lia))) as Hd. pose proof (proj2 (Hf (nextID c + 1) ltac:(lia))) as Htr.
  split; cbn [docs tracks nextID set_docs].
  - intros tr ids id [[<- <-]|[Hne Htr']]%lookup_insert_Some Hin.
    + apply list_elem_of_singleton in Hin as ->. exists d. by rewrite lookup_insert_eq.
    + destruct (ok_listed c Hok tr ids id Htr' Hin) as (d' & Hd' & <-). exists d'. rewrite lookup_insert_ne; [done|]. congruence.
  - intros id d' [[<- <-]|[Hne Hd']]%lookup_insert_Some.
    + rewrite Ht, lookup_insert_eq. eexists. split; [done|left].
    + destruct (ok_tracked c Hok id d' Hd') as (ids & Hids & Hin). exists ids. rewrite lookup_insert_ne; [done|]. congruence.
  - intros tr ids [[<- <-]|[Hne Htr']]%lookup_insert_Some; [|by apply (ok_tracks c Hok)].
    split; [apply numbered_nonempty|]. split; [done|apply NoDup_singleton].
  - intros id d' [[<- <-]|[Hne Hd']]%lookup_insert_Some; [by rewrite Hi, Ht', Ht|by apply (ok_ids c Hok)].
  - intros n Hn. rewrite !lookup_insert_ne by (intros He%numbered_inj; lia). apply Hf. lia.
Qed.

(** ** Deleting *)

Definition without (id : string) (ids : list string) : list string := List.filter (fun did => negb (bool_decide (did = id))) ids.
Lemma elem_of_without id ids x : x ∈ without id ids <-> x ∈ ids /\ x <> id.
Proof. unfold without. rewrite !list_elem_of_In, filter_In, negb_true_iff, bool_decide_eq_false. done. Qed.
Lemma without_id id ids : id ∉ ids -> without id ids = ids.
Proof.
  intros Hn. unfold without. apply filter_all. rewrite List.Forall_forall. intros x Hx.
  rewrite negb_true_iff, bool_decide_eq_false. intros ->. by apply Hn, list_elem_of_In.
Qed.
Lemma without_NoDup id ids : NoDup ids -> NoDup (without id ids).
Proof. intros Hn. apply NoDup_ListNoDup, List.NoDup_filter. by apply NoDup_ListNoDup. Qed.
(** A track loses the document, and goes with its last one. *)
Definition shrink (id : string) (ids : list string) : option (list string) :=
  if bool_decide (without id ids = []) then None else Some (without id ids).
Lemma delete_effect c id tr :
  docs_ok c -> docs (delete_doc c id) = delete id (docs c) /\
  tracks (delete_doc c id) !! tr = (ids ← tracks c !! tr; shrink id ids) /\ nextID (delete_doc c id) = nextID c.
Proof.
  intros Hok. split; [done|]. split; [|done]. cbn [delete_doc tracks set_docs]. fold (without id (ids_of (from_option st_trackID "" (docs c !! id)) c)).
  assert (Hother : forall ids, tracks c !! tr = Some ids -> id ∉ ids -> shrink id ids = Some ids).
  { intros ids Hids Hn. unfold shrink. rewrite without_id by done. rewrite bool_decide_eq_false_2; [done|].
    by apply (ok_tracks c Hok tr ids). }
  destruct (docs c !! id) as [d|] eqn:Hd; cbn [from_option].
  - destruct (ok_tracked c Hok id d Hd) as (ids & Hids & Hin). pose proof (ok_tracks c Hok _ _ Hids) as (Hne & _).
    rewrite bool_decide_eq_false_2 by done. unfold ids_of. rewrite Hids. cbn [default from_option Datatypes.id].
    destruct (decide (tr = st_trackID d)) as [->|Htr].
    + rewrite Hids. cbn [mbind option_bind]. unfold shrink. case_bool_decide; [apply lookup_delete_eq|apply lookup_insert_eq].
    + transitivity (tracks c !! tr); [case_bool_decide; [by apply lookup_delete_ne|by apply lookup_insert_ne]|].
      destruct (tracks c !! tr) as [ids'|] eqn:Hids'; [|done]. cbn [mbind option_bind]. symmetry. apply Hother; [done|].
      intros Hin'. destruct (ok_listed c Hok _ _ _ Hids' Hin') as (d' & Hd' & Ht). congruence.
  - rewrite bool_decide_eq_true_2 by done. destruct (tracks c !! tr) as [ids'|] eqn:Hids'; [|done].
    cbn [mbind option_bind]. symmetry. apply Hother; [done|]. intros Hin'.
    destruct (ok_listed c Hok _ _ _ Hids' Hin') as (d' & Hd' & _). congruence.
Qed.
Lemma shrink_Some id ids ids' : shrink id ids = Some ids' -> ids' = without id ids /\ ids' <> [].
Proof. unfold shrink. case_bool_decide; [done|]. by intros [= <-]. Qed.
Lemma shrink_last id : shrink id [id] = None.
Proof.
  unfold shrink, without. cbn. rewrite (bool_decide_eq_true_2 (id = id)) by done. done.
Qed.
Lemma delete_ok c id : docs_ok c -> docs_ok (delete_doc c id).
Proof.
  intros Hok. pose proof (fun tr => delete_effect c id tr Hok) as He. destruct (He ""%string) as (Hd & _ & Hn).
  assert (Ht : forall tr ids, tracks (delete_doc c id) !! tr = Some ids ->
    exists ids0, tracks c !! tr = Some ids0 /\ ids = without id ids0 /\ ids <> []).
  { intros tr ids. destruct (He tr) as (_ & -> & _). intros (ids0 & Hids0 & Hs)%bind_Some. exists ids0.
    apply shrink_Some in Hs as [? ?]. done. }
  split; rewrite ?Hd, ?Hn.
  - intros tr ids x (ids0 & Hids0 & -> & _)%Ht Hx. apply elem_of_without in Hx as [Hx Hne].
    destruct (ok_listed c Hok tr ids0 x Hids0 Hx) as (d & Hx' & <-). exists d. by rewrite lookup_delete_ne.
  - intros x d [Hne Hx]%lookup_delete_Some. destruct (ok_tracked c Hok x d Hx) as (ids & Hids & Hin).
    destruct (He (st_trackID d)) as (_ & -> & _). rewrite Hids. cbn [mbind option_bind].
    assert (Hin' : x ∈ without id ids) by (by apply elem_of_without). unfold shrink. rewrite bool_decide_eq_false_2; [by eexists|].
    intros Hw. rewrite Hw in Hin'. by apply elem_of_nil in Hin'.
  - intros tr ids (ids0 & Hids0 & -> & Hne)%Ht. destruct (ok_tracks c Hok tr ids0 Hids0) as (? & _ & ?).
    split; [done|]. split; [done|by apply without_NoDup].
  - intros x d [_ Hx]%lookup_delete_Some. by apply (ok_ids c Hok).
  - intros n Hlt. destruct (ok_fresh c Hok n Hlt) as [Hf1 Hf2]. rewrite lookup_delete_None. split; [by right|].
    destruct (He (numbered "track" n)) as (_ & -> & _). by rewrite Hf2.
Qed.
Lemma deletes_ok ids c : docs_ok c -> docs_ok (foldl delete_doc c ids).
Proof. revert c. induction ids as [|id ids IH]; intros c Hc; [done|]. by apply IH, delete_ok. Qed.
Lemma DeleteDocs_cases ids c :
  DeleteDocs ids c = (Ok (mkDeleteDoc "deletion_started" "deleted" (default ""%string (head ids))), foldl delete_doc c ids) /\
    (forall id, id ∈ ids -> is_Some (docs c !! id)) \/
  (exists id, id ∈ ids /\ docs c !! id = None /\
    DeleteDocs ids c = (Err (not_found "/documents/delete_document" (String.append "doc not found: " id)), c)).
Proof.
  unfold DeleteDocs. destruct (List.find _ ids) as [id|] eqn:Hf.
  - right. apply List.find_some in Hf as [Hin Hn%bool_decide_eq_true]. exists id. split; [by apply list_elem_of_In|done].
  - left. split; [done|]. intros id Hin%list_elem_of_In. pose proof (List.find_none _ _ Hf id Hin) as Hs.
    apply bool_decide_eq_false in Hs. by apply not_eq_None_Some.
Qed.

(** ** The labels are the entities *)

Lemma elem_of_appendUnique s v x : x ∈ appendUnique s v <-> x ∈ s \/ x = v.
Proof.
  unfold appendUnique. case_bool_decide as Hv; [naive_solver|]. by rewrite elem_of_app, list_elem_of_singleton.
Qed.
Lemma elem_of_removeLabel s v x : x ∈ removeLabel s v <-> x ∈ s /\ x <> v.
Proof. apply elem_of_without. Qed.
Lemma elem_of_renameLabel s from to x :
  from ∈ s -> to <> from -> x ∈ renameLabel s from to <-> x = to \/ (x ∈ s /\ x <> from).
Proof.
  intros Hf Hne. unfold renameLabel. rewrite list_elem_of_fmap. split.
  - intros (y & -> & Hy). case_bool_decide; [by left|by right].
  - intros [->|[Hx Hnx]]; [exists from; by rewrite bool_decide_eq_true_2|exists x; by rewrite bool_decide_eq_false_2].
Qed.
Lemma insert_labels (en : gmap string anymap) l (d : anymap) (ls ls' : list string) :
  (forall x, x ∈ ls <-> is_Some (en !! x)) -> (forall x, x ∈ ls' <-> x ∈ ls \/ x = l) ->
  forall x, x ∈ ls' <-> is_Some (<[l := d]> en !! x).
Proof. intros Hl Hl' x. rewrite Hl', Hl, lookup_insert_is_Some'. naive_solver. Qed.
Lemma create_labels r c : labels_ok c -> labels_ok (CreateEntity r c).2.
Proof.
  intros Hl. unfold CreateEntity. destruct (entities c !! _) eqn:He; [done|]. unfold labels_ok. cbn [snd set_graph labels entities].
  eapply insert_labels; [exact Hl|]. intros x. apply elem_of_appendUnique.
Qed.
Lemma update_labels r c : labels_ok c -> labels_ok (UpdateEntity r c).2.
Proof.
  intros Hl. unfold UpdateEntity. destruct (entities c !! _) as [cur|] eqn:He; [|done].
  assert (Hin : eu_EntityName r ∈ labels c) by (apply Hl; by eexists).
  destruct (bool_decide _ && _); [done|]. cbv zeta. case_bool_decide as Hn; unfold labels_ok; cbn [snd set_graph labels entities]; intros x.
  - rewrite lookup_insert_is_Some', (Hl x). split; [by right|]. intros [<-|?]; [by eexists|done].
  - rewrite elem_of_renameLabel, lookup_insert_is_Some', lookup_delete_is_Some, (Hl x) by done. naive_solver.
Qed.
Lemma delete_labels n c : labels_ok c -> labels_ok (DeleteEntity n c).2.
Proof.
  intros Hl. unfold DeleteEntity. destruct (entities c !! n) eqn:He; [|done]. unfold labels_ok. cbn [snd set_graph labels entities].
  intros x. rewrite elem_of_removeLabel, lookup_delete_is_Some, (Hl x). naive_solver.
Qed.

(** ** Every call keeps the fake consistent *)

(** What the graph and query calls leave alone. *)
Definition same_docs (c c' : t) : Prop := docs c' = docs c /\ tracks c' = tracks c /\ nextID c' = nextID c.
Lemma docs_ok_same c c' : same_docs c c' -> docs_ok c -> docs_ok c'.
Proof. intros (Hd & Ht & Hn) [? ? ? ? ?]. split; rewrite ?Hd, ?Ht, ?Hn; done. Qed.
Definition touches_docs (k : call) : bool := match k with CallInsert _ | CallDelete _ => true | _ => false end.
Lemma other_calls k c : touches_docs k = false -> same_docs c (after k c).
Proof.
  destruct k as [| | | | | |r|r|n| | |r|a b|]; try done; intros _; cbn [after];
    unfold CreateEntity, UpdateEntity, DeleteEntity, CreateRelation, DeleteRelation; cbv zeta; repeat (case_match; try done).
Qed.
Lemma delete_calls_labels ids c : labels (foldl delete_doc c ids) = labels c /\ entities (foldl delete_doc c ids) = entities c.
Proof. revert c. induction ids as [|id ids IH]; intros c; [done|]. cbn [foldl]. destruct (IH (delete_doc c id)) as [-> ->]. done. Qed.
Lemma after_docs k c : docs_ok c -> docs_ok (after k c).
Proof.
  intros Hok. destruct (touches_docs k) eqn:Ht; [|by eapply docs_ok_same; [apply other_calls|]].
  destruct k as [r| |ids| | | | | | | | | | |]; try done; [by apply insert_ok|]. cbn [after].
  destruct (DeleteDocs_cases ids c) as [[-> _]|(id & _ & _ & ->)]; [by apply deletes_ok|done].
Qed.
Lemma after_labels k c : labels_ok c -> labels_ok (after k c).
Proof.
  intros Hl. destruct k as [r| |ids| | | |r|r|n| | |r|a b|]; try done; cbn [after].
  - unfold InsertText. by destruct (insertResp c) as [[??]|].
  - destruct (DeleteDocs_cases ids c) as [[-> _]|(id & _ & _ & ->)]; [|done]. cbn [snd].
    unfold labels_ok. by destruct (delete_calls_labels ids c) as [-> ->].
  - by apply create_labels.
  - by apply update_labels.
  - by apply delete_labels.
  - unfold CreateRelation. repeat (case_match; try done).
  - unfold DeleteRelation. by case_match.
Qed.
Lemma New_ok : fake_ok New.
Proof. split; [split; intros; set_solver|]. intros l. cbn. split; [by intros ?%elem_of_nil|by intros [? ?]]. Qed.

(** ** What stays of a document *)

(** The memory stored under a track: one document, which reads back as [text]. *)
Record stored (c : t) (tr id : string) (d : docState) : Prop := {
  sd_track : tracks c !! tr = Some [id]; sd_doc : docs c !! id = Some d }.
Definition spares (id : string) (k : call) : Prop := match k with CallDelete ids => id ∉ ids | _ => True end.
Lemma without_other x id : x <> id -> without x [id] = [id].
Proof. intros Hne. apply without_id. by rewrite list_elem_of_singleton. Qed.
Lemma stored_delete_doc c tr id d x : docs_ok c -> x <> id -> stored c tr id d -> stored (delete_doc c x) tr id d.
Proof.
  intros Hok Hne [Ht Hd]. destruct (delete_effect c x tr Hok) as (Hdocs & Htr & _). split.
  - rewrite Htr, Ht. cbn [mbind option_bind]. unfold shrink. by rewrite without_other.
  - rewrite Hdocs. by rewrite lookup_delete_ne.
Qed.
Lemma stored_deletes ids c tr id d : docs_ok c -> id ∉ ids -> stored c tr id d -> stored (foldl delete_doc c ids) tr id d.
Proof.
  revert c. induction ids as [|x ids IH]; intros c Hok Hn Hs; [done|]. apply not_elem_of_cons in Hn as [Hne Hn]. cbn [foldl].
  apply IH; [by apply delete_ok|done|]. by apply stored_delete_doc.
Qed.
Lemma stored_insert r c tr id d : docs_ok c -> stored c tr id d -> stored (InsertText now r c).2 tr id d.
Proof.
  intros Hok [Ht Hd]. destruct (insertResp c) as [[??]|] eqn:Hr; [by unfold InsertText; rewrite Hr|].
  destruct (insert_effect r c Hok Hr) as (d' & _ & _ & _ & _ & _ & _ & _ & ->).
  pose proof (proj1 (ok_fresh c Hok (nextID c + 2) ltac:(lia))). pose proof (proj2 (ok_fresh c Hok (nextID c + 1) ltac:(lia))).
  split; cbn [tracks docs set_docs]; rewrite lookup_insert_ne; congruence.
Qed.
Lemma stored_after k c tr id d : docs_ok c -> spares id k -> stored c tr id d -> stored (after k c) tr id d.
Proof.
  intros Hok Hsp Hs. destruct (touches_docs k) eqn:Hk.
  - destruct k as [r| |ids| | | | | | | | | | |]; try done; [by apply stored_insert|]. cbn [after].
    destruct (DeleteDocs_cases ids c) as [[-> _]|(x & _ & _ & ->)]; [by apply stored_deletes|done].
  - destruct (other_calls k c Hk) as (Hd & Ht & _), Hs. split; congruence.
Qed.
(** A track number that was given out and has no documents left. *)
Definition retired (c : t) (n : Z) : Prop := n <= nextID c /\ tracks c !! numbered "track" n = None.
Lemma retired_deletes ids c n : docs_ok c -> retired c n -> retired (foldl delete_doc c ids) n.
Proof.
  revert c. induction ids as [|x ids IH]; intros c Hok [Hn Ht]; [done|]. cbn [foldl]. apply IH; [by apply delete_ok|].
  destruct (delete_effect c x (numbered "track" n) Hok) as (_ & Htr & Hnext). split; [lia|]. by rewrite Htr, Ht.
Qed.
Lemma retired_after k c n : docs_ok c -> retired c n -> retired (after k c) n.
Proof.
  intros Hok Hret. destruct (touches_docs k) eqn:Hk.
  - destruct k as [r| |ids| | | | | | | | | | |]; try done; cbn [after].
    + destruct (insertResp c) as [[??]|] eqn:Hr; [by unfold InsertText; rewrite Hr|].
      destruct (insert_effect r c Hok Hr) as (d' & _ & _ & _ & _ & _ & _ & _ & ->). destruct Hret as [Hn Ht].
      split; cbn [tracks nextID set_docs]; [lia|]. rewrite lookup_insert_ne; [done|]. intros He%numbered_inj. lia.
    + destruct (DeleteDocs_cases ids c) as [[-> _]|(x & _ & _ & ->)]; [by apply retired_deletes|done].
  - destruct (other_calls k c Hk) as (Hd & Ht & Hn), Hret. split; [lia|by rewrite Ht].
Qed.
Lemma next_grows k c : docs_ok c -> nextID c <= nextID (after k c).
Proof.
  intros Hok. destruct (touches_docs k) eqn:Hk; [|destruct (other_calls k c Hk) as (_ & _ & ->); done].
  destruct k as [r| |ids| | | | | | | | | | |]; try done; cbn [after].
  - unfold InsertText. destruct (insertResp c) as [[??]|]; cbn; lia.
  - destruct (DeleteDocs_cases ids c) as [[-> _]|(x & _ & _ & ->)]; [|done]. cbn [snd].
    assert (Hn : nextID (foldl delete_doc c ids) = nextID c); [|lia].
    clear. revert c. induction ids as [|x ids IH]; intros c; [done|]. cbn [foldl]. by rewrite IH.
Qed.
(** An invariant of one call is one of a sequence. *)
Lemma calls_inv (P : t -> Prop) (allowed : call -> Prop) :
  (forall k c, docs_ok c -> allowed k -> P c -> P (after k c)) ->
  forall ks c, docs_ok c -> Forall allowed ks -> P c -> P (calls ks c) /\ docs_ok (calls ks c).
Proof.
  intros Hstep ks. induction ks as [|k ks IH]; intros c Hok Ha HP; [done|]. apply Forall_cons in Ha as [Hk Ha]. cbn [calls foldl].
  apply IH; [by apply after_docs|done|by apply Hstep].
Qed.

(** The documents and tracks of the fake stay in step and its labels are its
    entities, whatever sequence of client calls reaches it and whatever they answer:
    every listed document exists and points back, a track is never empty, numbers to
    come are unused; and the answer to a track that is known counts its documents. *)
Theorem fake_consistent ks c :
  fake_ok c -> fake_ok (calls ks c) /\
  forall tr ts, (TrackStatus tr (calls ks c)).1 = Ok ts ->
    ts_TotalCount ts = Z.of_nat (length (ts_Documents ts)) /\ 0 < ts_TotalCount ts /\
    NoDup (ds_ID <$> ts_Documents ts) /\ Forall (fun d => ds_TrackID d = tr) (ts_Documents ts).
Proof.
  intros Hok. assert (Hc : fake_ok (calls ks c)).
  { revert c Hok. induction ks as [|k ks IH]; intros c [Hd Hl]; [done|]. apply IH. split; [by apply after_docs|by apply after_labels]. }
  split; [done|]. destruct Hc as [Hd _]. revert Hd. generalize (calls ks c) as f. intros f Hd tr ts. unfold TrackStatus.
  destruct (tracks f !! tr) as [ids|] eqn:Ht; [|done]. intros [= <-]. cbn [ts_TotalCount ts_Documents].
  destruct (ok_tracks f Hd tr ids Ht) as (_ & Hne & Hn). rewrite length_fmap. split; [done|].
  split; [destruct ids; [done|cbn; lia]|].
  assert (Hdoc : forall id, id ∈ ids -> ds_ID (doc_of f id) = id /\ ds_TrackID (doc_of f id) = tr).
  { intros id Hid. destruct (ok_listed f Hd tr ids id Ht Hid) as (d & Hi & <-). unfold doc_of. rewrite Hi. by apply (ok_ids f Hd). }
  split.
  - rewrite <-list_fmap_compose. erewrite (list_fmap_ext _ id); [by rewrite list_fmap_id|].
    intros i x Hx. by apply Hdoc, list_elem_of_lookup_2 with i.
  - apply Forall_fmap, Forall_forall. intros id Hid. by apply Hdoc.
Qed.
End FakeLaws.

(** * The memory service over it *)

Section Memories.
Context `{MapRange} (clock : string) {T S : Type} `{Tombstoner T} `{SourceIndex S} `{TimeParse}.
Context (has_tomb : bool) (now : Z).
#[local] Instance service_fake : Client t := fake_client clock.
Abbreviation W := (svc t T S).

(** The tombstone store answers this check, or there is none. *)
Definition tomb_says (b : bool) (id : string) (w : W) : Prop := has_tomb = true -> (IsDeleted id (sv_tomb w)).1 = Ok b.
Definition tomb_takes (id : string) (w : W) : Prop := has_tomb = true -> (Mark now id (sv_tomb w)).1 = Ok tt.

Lemma create_stores m (w : W) :
  docs_ok (sv_lr w) -> insertResp (sv_lr w) = None ->
  let n := nextID (sv_lr w) in let tr := numbered "track" (n + 1) in let id := numbered "doc" (n + 2) in
  let q := CreateMemory now m w in
  q.1 = Ok (mkMemory tr (m_Text m) (m_Metadata m) now) /\
  tracks (sv_lr w) !! tr = None /\ sv_lr q.2 = (Fake.InsertText clock (ToInsertText m) (sv_lr w)).2 /\
  exists d, stored (sv_lr q.2) tr id d /\ ds_ID (st_doc d) = id /\ ds_ContentSummary (st_doc d) = m_Text m /\
    ds_CreatedAt (st_doc d) = clock /\ ds_Metadata (st_doc d) = ∅.
Proof.
  intros Hok Hr. cbv zeta. destruct (insert_effect clock (ToInsertText m) (sv_lr w) Hok Hr) as (d & He & Ht & Hi & _ & Hx & Hc & Hm & Hs).
  unfold CreateMemory, upstream, on_lr, bind. cbn [Lightrag.InsertText service_fake fake_client fst snd]. rewrite He. cbn [ir_Status ir_TrackID].
  rewrite (bool_decide_eq_false_2 (numbered _ _ = _)) by apply numbered_nonempty. cbn.
  split; [done|]. split; [by apply (ok_fresh _ Hok); lia|]. split; [done|]. exists d. rewrite Hs.
  split; [split; apply lookup_insert_eq|]. done.
Qed.

(** A stored memory is served while its tombstone check says no. *)
Definition served_as (tr text : string) : Memory * option err :=
  FromDocStatus tr (mkDocStatus "" text 0 "" clock "" "" 0 "" ∅ "").
Lemma served_from tr d :
  ds_CreatedAt d = clock -> ds_Metadata d = ∅ -> FromDocStatus tr d = served_as tr (ds_ContentSummary d).
Proof. intros Hc Hm. unfold served_as, FromDocStatus. cbn [ds_CreatedAt ds_Metadata ds_ContentSummary]. by rewrite Hc, Hm. Qed.
Lemma get_past_tomb (k : M W (result err Memory)) id (w : W) :
  tomb_says false id w ->
  exists w', sv_lr w' = sv_lr w /\
  (deleted <- (if has_tomb then on_tomb (IsDeleted id) else ret (Ok false)) ;;
   match deleted with
   | Err e => ret (Err (Wrap "tombstone check" e))
   | Ok true => fail_op "get" (Sentinel ErrNotFound)
   | Ok false => k
   end) w = k w'.
Proof.
  intros Ht. unfold tomb_says in Ht. destruct has_tomb; [|by exists w]. specialize (Ht eq_refl).
  unfold bind, on_tomb. cbn [fst snd]. rewrite Ht. by eexists (mkSvc _ _ _ _ _).
Qed.
Lemma get_stored tr id d (w : W) :
  stored (sv_lr w) tr id d -> ds_CreatedAt (st_doc d) = clock -> ds_Metadata (st_doc d) = ∅ -> tomb_says false tr w ->
  (GetMemory has_tomb tr w).1 = Ok (served_as tr (ds_ContentSummary (st_doc d))).1.
Proof.
  intros [Ht Hd] Hc Hm Hs. unfold GetMemory.
  destruct (get_past_tomb (upstream "get" (Lightrag.TrackStatus tr) (fun ts =>
      match sortDocsByID (ts_Documents ts) with
      | [] => fail_op "get" (WrapMsg ErrNotFound "track has no documents")
      | d :: _ => incOp "get" None ;; ret (Ok (FromDocStatus tr d).1)
      end)) tr w Hs) as (w' & Hw & ->).
  unfold upstream, on_lr, bind. cbn [Lightrag.TrackStatus service_fake fake_client fst snd].
  unfold Fake.TrackStatus. rewrite Hw, Ht. cbn. unfold doc_of. rewrite Hd. cbn. by rewrite served_from.
Qed.
(** A track without documents is not found, whichever layer says so. *)
Lemma get_gone tr (w : W) :
  tracks (sv_lr w) !! tr = None -> (exists b, tomb_says b tr w) ->
  exists e, (GetMemory has_tomb tr w).1 = Err e /\ errors_Is e ErrNotFound = true.
Proof.
  intros Ht [b Hb]. unfold GetMemory, tomb_says in *. unfold bind at 1.
  assert (Hd : exists b' w', (if has_tomb then on_tomb (IsDeleted tr) else ret (Ok false)) w = (Ok b', w') /\ sv_lr w' = sv_lr w).
  { destruct has_tomb; [|by exists false, w]. specialize (Hb eq_refl). unfold on_tomb. rewrite Hb. by eexists _, _. }
  destruct Hd as (b' & w' & -> & Hw). cbn [fst snd]. destruct b'; [by eexists|].
  unfold upstream, on_lr, bind. cbn [Lightrag.TrackStatus service_fake fake_client fst snd].
  unfold Fake.TrackStatus. rewrite Hw, Ht. cbn. by eexists.
Qed.
Lemma delete_stored tr id d (w : W) :
  docs_ok (sv_lr w) -> stored (sv_lr w) tr id d -> tomb_takes tr w ->
  let q := DeleteMemory has_tomb now tr w in
  q.1 = Ok tt /\ sv_lr q.2 = delete_doc (sv_lr w) id.
Proof.
  intros Hok [Ht Hd] Hm. destruct (ok_ids _ Hok id d Hd) as [Hid _]. unfold DeleteMemory, deleteMemoryRaw, on_lr, bind.
  cbn [Lightrag.TrackStatus service_fake fake_client fst snd].
  assert (Hts : Fake.TrackStatus tr (sv_lr w) = (Ok (mkTrackStatus tr [st_doc d] 1 (inc (ds_Status (st_doc d)) ∅)), sv_lr w)).
  { unfold Fake.TrackStatus. rewrite Ht. cbn. unfold doc_of. by rewrite Hd. }
  rewrite Hts. cbn [fst snd ts_Documents]. rewrite list_fmap_singleton, Hid. unfold tomb_takes in Hm.
  assert (Hdel : Lightrag.DeleteDocs [id] (sv_lr w) = (Ok (mkDeleteDoc "deletion_started" "deleted" id), delete_doc (sv_lr w) id)).
  { change (Fake.DeleteDocs [id] (sv_lr w) = (Ok (mkDeleteDoc "deletion_started" "deleted" id), delete_doc (sv_lr w) id)).
    unfold Fake.DeleteDocs. cbn. by rewrite Hd. }
  destruct has_tomb; [unfold on_tomb; cbn [fst snd sv_tomb]; rewrite (Hm eq_refl)|]; cbn [fst snd sv_lr ret];
    rewrite Hdel; by split.
Qed.

(** C32: the life of a memory, through the service and the fake together.  A create
    answers a new ID; whatever calls reach LightRAG in between, as long as none
    deletes its document, a GET answers the text that was stored (the metadata is not
    sent upstream and does not come back); a delete is accepted and removes exactly
    that document and that track; from then on, whatever is called, the ID is not
    found and is never given out again. *)
Theorem memory_lifecycle m (w : W) :
  docs_ok (sv_lr w) -> insertResp (sv_lr w) = None ->
  exists tr id,
    (CreateMemory now m w).1 = Ok (mkMemory tr (m_Text m) (m_Metadata m) now) /\ tracks (sv_lr w) !! tr = None /\
    tracks (sv_lr (CreateMemory now m w).2) !! tr = Some [id] /\
    forall ks (w1 : W), sv_lr w1 = calls clock ks (sv_lr (CreateMemory now m w).2) -> Forall (spares id) ks ->
      (tomb_says false tr w1 -> (GetMemory has_tomb tr w1).1 = Ok (served_as tr (m_Text m)).1) /\
      (tomb_takes tr w1 ->
        let q := DeleteMemory has_tomb now tr w1 in
        q.1 = Ok tt /\
        (forall tr' id' d', tr' <> tr -> stored (sv_lr w1) tr' id' d' -> stored (sv_lr q.2) tr' id' d') /\
        forall ks' (w2 : W), sv_lr w2 = calls clock ks' (sv_lr q.2) -> (exists b, tomb_says b tr w2) ->
          exists e, (GetMemory has_tomb tr w2).1 = Err e /\ errors_Is e ErrNotFound = true).
Proof.
  intros Hok Hr. destruct (create_stores m w Hok Hr) as (Hc & Hnew & Hlr & d & Hst & Hi & Hx & Hcl & Hm).
  set (n := nextID (sv_lr w)) in *. exists (numbered "track" (n + 1)), (numbered "doc" (n + 2)).
  split; [done|]. split; [done|]. split; [apply Hst|]. intros ks w1 Hw1 Hks.
  assert (Hok1 : docs_ok (sv_lr (CreateMemory now m w).2)) by (rewrite Hlr; by apply insert_ok).
  assert (Hnext : n + 1 <= nextID (sv_lr (CreateMemory now m w).2)).
  { rewrite Hlr. destruct (insert_effect clock (ToInsertText m) (sv_lr w) Hok Hr) as (? & _ & _ & _ & _ & _ & _ & _ & ->).
    cbn [nextID set_docs]. subst n. lia. }
  destruct (calls_inv clock (fun c => stored c (numbered "track" (n + 1)) (numbered "doc" (n + 2)) d /\ n + 1 <= nextID c)
    (spares (numbered "doc" (n + 2)))) with (ks := ks) (c := sv_lr (CreateMemory now m w).2) as [[Hst1 Hn1] Hok2]; try done.
  { intros k c Hk Hsp [Hs Hn]. split; [by apply stored_after|]. transitivity (nextID c); [done|by apply next_grows]. }
  rewrite <-Hw1 in Hst1, Hn1, Hok2. split.
  - intros Hs. rewrite <-Hx. by eapply get_stored.
  - intros Hm1. destruct (delete_stored _ _ _ w1 Hok2 Hst1 Hm1) as [Hq Hq']. cbv zeta. split; [done|]. rewrite Hq'.
    destruct (delete_effect (sv_lr w1) (numbered "doc" (n + 2)) (numbered "track" (n + 1)) Hok2) as (_ & Htr & Hnx). split.
    + intros tr' id' d' Hne Hs'. apply stored_delete_doc; [done| |done]. intros <-. apply Hne.
      destruct Hs' as [Ht' Hd']. destruct (ok_listed _ Hok2 _ _ _ Ht' ltac:(left)) as (x & Hx1 & <-).
      destruct (ok_listed _ Hok2 _ _ _ (sd_track _ _ _ _ Hst1) ltac:(left)) as (y & Hy1 & <-). congruence.
    + intros ks' w2 Hw2 Hb. apply get_gone; [|done]. rewrite Hw2.
      destruct (calls_inv clock (fun c => retired c (n + 1)) (fun _ => True)) with (ks := ks') (c := delete_doc (sv_lr w1) (numbered "doc" (n + 2)))
        as [[_ Hgone] _]; [by intros; apply retired_after|by apply delete_ok|by apply Forall_true| |done].
      split; [lia|]. rewrite Htr, (sd_track _ _ _ _ Hst1). apply shrink_last.
Qed.
End Memories.

(** * Relations *)

(** A key splits where it was joined exactly when the source holds no "||" and does
    not end with "|". *)
Definition splits (src : string) : bool := negb (Contains (String.append src "|") "||").
Lemma prefix_bars c d x y : String.prefix "||" (String c (String d x)) = String.prefix "||" (String c (String d y)).
Proof. by destruct x, y. Qed.
Lemma Index_none s sub : Contains s sub = false -> Index s sub = None.
Proof.
  induction s as [|c s IH]; cbn [Contains Index]; intros [-> Hc]%orb_false_iff; [done|]. by rewrite IH.
Qed.
Lemma Index_key src tgt : splits src = true -> Index (edgeKey src tgt) "||" = Some (String.length src).
Proof.
  unfold splits, edgeKey. rewrite negb_true_iff. induction src as [|c src IH]; [intros _; destruct tgt; reflexivity|].
  rewrite !(append_cons c). cbn [Contains Index String.length]. intros [Hp Hc]%orb_false_iff.
  replace (String.prefix "||" (String c (String.append src (String.append "||" tgt))))
    with (String.prefix "||" (String c (String.append src "|"))); [rewrite Hp; by rewrite IH|].
  destruct src as [|d src]; [|rewrite !(append_cons d); apply prefix_bars]. apply (prefix_bars c).
Qed.
Lemma edge_key_splits src tgt : parseEdgeKey (edgeKey src tgt) = (src, tgt) <-> splits src = true.
Proof.
  split.
  - unfold parseEdgeKey. destruct (Index (edgeKey src tgt) "||") as [i|] eqn:Hi; [|intros [= He _]; exfalso; apply (f_equal String.length) in He; unfold edgeKey in He;
      rewrite !length_append in He; cbn in He; lia].
    intros [= Hs Ht]. unfold splits. rewrite negb_true_iff. destruct (Contains (String.append src "|") "||") eqn:Hc; [|done]. exfalso.
    enough (Hlt : (i < String.length src)%nat).
    { pose proof (f_equal String.length Hs) as Hl. rewrite length_slice_to in Hl. lia. }
    clear Hs Ht. revert i Hi Hc. unfold edgeKey. induction src as [|c src IH]; intros i; [done|].
    rewrite !(append_cons c). cbn [Index Contains String.length]. destruct (String.prefix "||" (String c (String.append src (String.append "||" tgt)))) eqn:Hp.
    { intros [= <-] _. lia. }
    intros (j & Hj & ->)%fmap_Some Hc. enough (j < String.length src)%nat by lia. apply IH; [done|].
    apply orb_true_iff in Hc as [Hc|Hc]; [|done].
    exfalso. destruct src as [|d src].
    + discriminate (eq_trans (eq_sym Hc) (eq_trans (prefix_bars c _ "" (String.append "|" tgt)) Hp)).
    + rewrite !(append_cons d) in Hc, Hp. rewrite (prefix_bars c d _ "") in Hc. rewrite (prefix_bars c d _ "") in Hp. congruence.
  - intros Hs. unfold parseEdgeKey. rewrite Index_key by done. f_equal; unfold edgeKey; [apply slice_to_app|].
    rewrite slice_from_app. done.
Qed.

Section Edges.
Context `{MapRange} (clock : string) {T S : Type} `{Tombstoner T} `{SourceIndex S}.
#[local] Instance edges_fake : Client t := fake_client clock.
Abbreviation W := (svc t T S).

(** The edges a graph read can show, and those it shows for a label. *)
Definition graph_edge (c : t) (ge : GraphEdge) : Prop :=
  (exists k data, edges c !! k = Some data /\ ge = stored_edge (k, data)) \/
  (exists e, e ∈ extraEdges c /\ ge = copied_edge e).
Definition edges_at (c : t) (l : string) : list GraphEdge :=
  List.filter (touches l) (stored_edge <$> range (edges c)) ++ (copied_edge <$> List.filter (touches l) (extraEdges c)).
Lemma elem_of_edges_at c l ge : ge ∈ edges_at c l <-> graph_edge c ge /\ touches l ge = true.
Proof.
  unfold edges_at, graph_edge. rewrite elem_of_app, !list_elem_of_In, filter_In, <-!list_elem_of_In, !list_elem_of_fmap.
  setoid_rewrite range_perm. split.
  - intros [[([k data] & -> & Hk%elem_of_map_to_list) Ht]|(e & -> & He)]; [by eauto 6|].
    apply list_elem_of_In, filter_In in He as [He Ht]. rewrite <-list_elem_of_In in He. by eauto 6.
  - intros [[(k & data & Hk & ->)|(e & He & ->)] Ht].
    + left. split; [|done]. exists (k, data). by rewrite elem_of_map_to_list.
    + right. exists e. split; [done|]. by apply list_elem_of_In, filter_In; rewrite <-list_elem_of_In.
Qed.
Lemma graph_read c l data : entities c !! l = Some data ->
  exists g, Graph l 1 0 c = (Ok g, c) /\ kg_Edges g = edges_at c l.
Proof. intros He. unfold Graph. rewrite He. by eexists. Qed.
Lemma scan_fake ls seen out (w : W) :
  Forall (fun l => is_Some (entities (sv_lr w) !! l)) ls ->
  (scan_labels ls seen out w).1 =
    Ok (out ++ dedup_by edge_key seen (EdgeFromGraphEdge <$> (ls ≫= edges_at (sv_lr w)))).
Proof.
  revert seen out w. induction ls as [|l ls IH]; intros seen out w Hls; cbn [scan_labels].
  { by rewrite app_nil_r. }
  apply Forall_cons in Hls as [[data Hl] Hls]. destruct (graph_read (sv_lr w) l data Hl) as (g & Hg & Hge).
  unfold bind at 1, on_lr. cbn [Lightrag.Graph edges_fake fake_client fst snd]. rewrite Hg. cbn [fst snd].
  pose proof (add_edges_spec (kg_Edges g) seen out) as Ha. cbv zeta in Ha. destruct (add_edges _ _ _) as [seen' out'].
  destruct Ha as [-> ->]. cbn [fst snd]. rewrite IH by done. cbn [sv_lr]. rewrite Hge, <-app_assoc, bind_cons, fmap_app.
  by rewrite dedup_by_app.
Qed.

Definition attached (c : t) (ge : GraphEdge) : Prop :=
  is_Some (entities c !! ge_Source ge) \/ is_Some (entities c !! ge_Target ge).
Lemma listed_edges (w : W) : labels_ok (sv_lr w) ->
  exists es, (ListEdges w).1 = Ok es /\ NoDup (edge_key <$> es) /\
    (forall e, e ∈ es -> exists ge, graph_edge (sv_lr w) ge /\ attached (sv_lr w) ge /\ e = EdgeFromGraphEdge ge) /\
    (forall ge, graph_edge (sv_lr w) ge -> attached (sv_lr w) ge ->
       exists e, e ∈ es /\ edge_key e = edge_key (EdgeFromGraphEdge ge)).
Proof.
  intros Hl. set (c := sv_lr w) in *.
  assert (Hin : forall ge, ge ∈ labels c ≫= edges_at c <-> graph_edge c ge /\ attached c ge).
  { intros ge. rewrite list_elem_of_bind. setoid_rewrite elem_of_edges_at. unfold attached, touches.
    setoid_rewrite orb_true_iff. setoid_rewrite bool_decide_eq_true. setoid_rewrite (Hl _). naive_solver. }
  exists (dedup_by edge_key ∅ (EdgeFromGraphEdge <$> (labels c ≫= edges_at c))). split; [|split; [apply dedup_by_NoDup|split]].
  - unfold ListEdges, upstream, bind, on_lr. cbn [Lightrag.LabelSearch edges_fake fake_client fst snd].
    assert (Hs : Fake.LabelSearch "" c = (Ok (labels c), c)).
    { unfold Fake.LabelSearch. f_equal. f_equal. apply filter_all. by apply List.Forall_forall. }
    fold c. rewrite Hs. cbn [fst snd].
    pose proof (scan_fake (labels c) ∅ [] (mkSvc c (sv_tomb w) (sv_src w) (sv_ops w) (sv_log w))) as Hscan.
    apply Hscan. apply Forall_forall. intros l Hin'. by apply Hl.
  - intros e [_ He]%dedup_by_keys_fresh. apply list_elem_of_fmap in He as (ge & -> & Hge%Hin). naive_solver.
  - intros ge Hg Ha. destruct (dedup_by_complete edge_key ∅ (EdgeFromGraphEdge <$> (labels c ≫= edges_at c)) (EdgeFromGraphEdge ge))
      as [?%elem_of_empty|Hk]; [by apply list_elem_of_fmap_2, Hin|done|].
    apply list_elem_of_fmap in Hk as (e & Hk & He). by exists e.
Qed.

(** The edge of a relation as a graph read shows it. *)
Lemma created_edge src tgt rel props :
  splits src = true -> props !! "keywords"%string = None -> rel <> ""%string ->
  let data : anymap := (AString <$> props) ∪ {["keywords"%string := AString rel]} in
  let e := EdgeFromGraphEdge (stored_edge (edgeKey src tgt,
             Some (<["tgt_id"%string := AString tgt]> (<["src_id"%string := AString src]> data)))) in
  ed_From e = src /\ ed_To e = tgt /\ ed_ID e = EncodeEdgeID src tgt /\ ed_Relation e = rel.
Proof.
  intros Hs Hp Hr. cbv zeta. unfold stored_edge. cbn [fst snd]. rewrite (proj2 (edge_key_splits src tgt) Hs).
  unfold EdgeFromGraphEdge. cbn [fst snd ge_Source ge_Target ge_Properties ge_Type ed_From ed_To ed_ID ed_Relation default from_option id].
  do 3 (split; [done|]). unfold stringProp. rewrite !lookup_insert_ne by done.
  rewrite lookup_union_r, lookup_singleton_eq by (by rewrite lookup_fmap, Hp). cbn [default from_option id].
  by rewrite bool_decide_eq_false_2.
Qed.
Lemma edge_key_parts e e' :
  (exists g, e = EdgeFromGraphEdge g) -> (exists g, e' = EdgeFromGraphEdge g) ->
  edge_key e = edge_key e' -> ed_ID e = ed_ID e' /\ ed_Relation e = ed_Relation e'.
Proof.
  intros [g ->] [g' ->] Hk. apply append_NUL_inj in Hk; [done|..];
    unfold EdgeFromGraphEdge, EncodeEdgeID; cbn [ed_ID]; rewrite bytes_of_bytes; apply encode_no_NUL.
Qed.
(** Both ends exist. *)
Definition connected (e : Edge) (c : t) : Prop := is_Some (entities c !! ed_From e) /\ is_Some (entities c !! ed_To e).
Definition relation_data (e : Edge) : anymap :=
  <["tgt_id"%string := AString (ed_To e)]> (<["src_id"%string := AString (ed_From e)]> (rc_RelationData (RelationCreatePayload e))).
Definition with_relation (e : Edge) (c : t) : t :=
  set_graph (entities c) (<[edgeKey (ed_From e) (ed_To e) := Some (relation_data e)]> (edges c)) (extraEdges c) (labels c) c.
Lemma create_edge e (w : W) : connected e (sv_lr w) ->
  let q := CreateEdge e w in
  q.1 = Ok (mkDomainEdge (EncodeEdgeID (ed_From e) (ed_To e)) (ed_From e) (ed_To e) (ed_Relation e) (ed_Properties e)) /\
  sv_lr q.2 = with_relation e (sv_lr w).
Proof.
  intros [[f Hf] [t' Ht]]. unfold CreateEdge, upstream, on_lr, bind. cbn [Lightrag.CreateRelation edges_fake fake_client fst snd].
  assert (Hc : Fake.CreateRelation (RelationCreatePayload e) (sv_lr w) =
    (Ok (mkRelationResponse "success" "created" (relation_data e)), with_relation e (sv_lr w))).
  { unfold Fake.CreateRelation. cbn [rc_SourceEntity rc_TargetEntity RelationCreatePayload]. by rewrite Hf, Ht. }
  rewrite Hc. by split.
Qed.
Lemma create_edge_refused e (w : W) : ~ connected e (sv_lr w) ->
  let q := CreateEdge e w in
  sv_lr q.2 = sv_lr w /\ exists x, q.1 = Err x /\ errors_Is x ErrUpstream = true.
Proof.
  intros Hn. unfold CreateEdge, upstream, on_lr, bind. cbn [Lightrag.CreateRelation edges_fake fake_client fst snd].
  unfold Fake.CreateRelation. cbn [rc_SourceEntity rc_TargetEntity RelationCreatePayload]. unfold connected in Hn.
  destruct (entities (sv_lr w) !! ed_From e); [destruct (entities (sv_lr w) !! ed_To e); [exfalso; apply Hn; by split; eexists|]|];
    cbn; (split; [done|]); by eexists.
Qed.
Lemma delete_edge from to (w : W) : clean from ->
  let q := DeleteEdge (EncodeEdgeID from to) w in
  match edges (sv_lr w) !! edgeKey from to with
  | Some _ => q.1 = Ok tt /\ sv_lr q.2 = set_graph (entities (sv_lr w)) (delete (edgeKey from to) (edges (sv_lr w)))
                                          (extraEdges (sv_lr w)) (labels (sv_lr w)) (sv_lr w)
  | None => sv_lr q.2 = sv_lr w /\ exists x, q.1 = Err x /\ errors_Is x ErrNotFound = true
  end.
Proof.
  intros Hc. unfold DeleteEdge. rewrite decode_edge by done. unfold upstream, on_lr, bind.
  cbn [Lightrag.DeleteRelation edges_fake fake_client fst snd]. unfold Fake.DeleteRelation.
  destruct (edges (sv_lr w) !! edgeKey from to); cbn; [done|]. split; [done|]. by eexists.
Qed.

(** C34: the life of a relation, through the service and the fake together.  A
    relation between two existing entities is created, is then listed exactly once
    under its ID with its relation, and is deleted by that ID; a second delete finds
    nothing, and a relation with a missing end is refused and changes nothing.  (Names
    are ones the key of the fake and the ID can tell apart; a property named keywords
    would replace the relation.) *)
Theorem edge_lifecycle e (w : W) :
  labels_ok (sv_lr w) -> splits (ed_From e) = true -> clean (ed_From e) -> ed_Relation e <> ""%string ->
  ed_Properties e !! "keywords"%string = None ->
  let id := EncodeEdgeID (ed_From e) (ed_To e) in
  let q := CreateEdge e w in
  (connected e (sv_lr w) ->
    q.1 = Ok (mkDomainEdge id (ed_From e) (ed_To e) (ed_Relation e) (ed_Properties e)) /\
    forall w1 : W, sv_lr w1 = sv_lr q.2 ->
      (exists es e', (ListEdges w1).1 = Ok es /\ NoDup (edge_key <$> es) /\ e' ∈ es /\
         ed_ID e' = id /\ ed_Relation e' = ed_Relation e) /\
      (DeleteEdge id w1).1 = Ok tt /\
      forall w2 : W, sv_lr w2 = sv_lr (DeleteEdge id w1).2 -> exists x, (DeleteEdge id w2).1 = Err x /\ errors_Is x ErrNotFound = true) /\
  (~ connected e (sv_lr w) -> sv_lr q.2 = sv_lr w /\ exists x, q.1 = Err x /\ errors_Is x ErrUpstream = true).
Proof.
  intros Hl Hs Hc Hr Hk id q. split; [|apply create_edge_refused]. intros Hcon.
  destruct (create_edge e w Hcon) as [Hq Hlr]. split; [done|]. intros w1 Hw1. fold q in Hlr. rewrite Hlr in Hw1.
  pose proof (delete_edge (ed_From e) (ed_To e) w1 Hc) as Hd. cbv zeta in Hd. fold id in Hd.
  rewrite Hw1 in Hd. cbn [with_relation edges set_graph] in Hd. rewrite lookup_insert_eq in Hd. destruct Hd as [Hd1 Hd2].
  split; [|split; [done|]].
  - assert (Hl1 : labels_ok (sv_lr w1)) by (rewrite Hw1; exact Hl).
    destruct (listed_edges w1 Hl1) as (es & He & Hn & Hfrom & Hall).
    destruct (Hall (stored_edge (edgeKey (ed_From e) (ed_To e), Some (relation_data e)))) as (e' & Hin & Hkey).
    { left. exists (edgeKey (ed_From e) (ed_To e)), (Some (relation_data e)). rewrite Hw1. by split; [apply lookup_insert_eq|]. }
    { left. unfold stored_edge. cbn [fst snd ge_Source]. rewrite (proj2 (edge_key_splits _ _) Hs), Hw1. apply Hcon. }
    destruct (created_edge (ed_From e) (ed_To e) (ed_Relation e) (ed_Properties e) Hs Hk Hr) as (_ & _ & Hi & Hrel).
    destruct (Hfrom e' Hin) as (g & _ & _ & Hg). apply edge_key_parts in Hkey as [Hid' Hrel']; [|by eexists..].
    exists es, e'. split_and!; try done; [by rewrite Hid'|by rewrite Hrel'].
  - intros w2 Hw2. pose proof (delete_edge (ed_From e) (ed_To e) w2 Hc) as Hd'. cbv zeta in Hd'. fold id in Hd'.
    rewrite Hw2, Hd2 in Hd'. cbn [edges set_graph] in Hd'. rewrite lookup_delete_eq in Hd'. apply Hd'.
Qed.
End Edges.

(** * Closed executions *)

#[local] Instance fake_range : MapRange := map_to_list_range.
#[local] Instance fake_time : TimeParse := {| ParseRFC3339 _ := Some 3; ParseRFC3339Nano _ := None |}.
Definition fake_clock : string := "2024-01-01T00:00:00Z".
#[local] Instance witness_fake : Client t := fake_client fake_clock.
Definition two_people : t := SeedEntity "bob" None (SeedEntity "ann" None New).
Abbreviation fakeW := (svc t (Db.Db tomb_table) (Db.Db source_table)).
Definition fake_world : fakeW := mkSvc two_people (Db.mkDb ∅ []) (Db.mkDb ∅ []) ∅ [].
Lemma two_people_ok : fake_ok two_people.
Proof.
  split; [eapply docs_ok_same; [|apply New_ok]; done|]. intros l. change (l ∈ ["ann"; "bob"]%string <-> is_Some (entities two_people !! l)).
  rewrite !elem_of_cons, elem_of_nil. unfold two_people. cbn [SeedEntity entities set_graph New].
  rewrite !lookup_insert_is_Some', lookup_empty. split; [intros [->|[->|[]]]; auto|intros [<-|[<-|[? ?]]]; auto; done].
Qed.
Definition a_memory : Memory := mkMemory "" "hello" {["lang" := "en"]}%string 0.
Definition busy_day : list call :=
  [CallInsert (mkInsertText "other" ""); CallDelete ["doc-4"%string]; CallDelete ["missing"%string]; CallSearch ""].
Definition stored_world : fakeW :=
  let w := (CreateMemory 5 a_memory fake_world).2 in
  mkSvc (calls fake_clock busy_day (sv_lr w)) (sv_tomb w) (sv_src w) (sv_ops w) (sv_log w).
Lemma memory_lifecycle_witness :
  (GetMemory true "track-1" stored_world).1 = Ok (mkMemory "track-1" "hello" ∅ 3) /\
  (DeleteMemory true 5 "track-1" stored_world).1 = Ok tt /\
  exists e, (GetMemory true "track-1" (DeleteMemory true 5 "track-1" stored_world).2).1 = Err e /\ errors_Is e ErrNotFound = true.
Proof.
  destruct (memory_lifecycle fake_clock true 5 a_memory fake_world (proj1 two_people_ok) eq_refl) as (tr & id & Hc & _ & Hone & Hlife).
  assert (Hv : (CreateMemory 5 a_memory fake_world).1 = Ok (mkMemory "track-1" "hello" {["lang" := "en"]}%string 5))
    by (vm_compute; reflexivity).
  assert (Htr : "track-1"%string = tr) by (pose proof (eq_trans (eq_sym Hv) Hc) as Hq; injection Hq; intros; assumption).
  clear Hc. subst tr.
  assert (Hv' : tracks (sv_lr (CreateMemory 5 a_memory fake_world).2) !! "track-1"%string = Some ["doc-2"%string])
    by (vm_compute; reflexivity).
  assert (Hid : "doc-2"%string = id) by (pose proof (eq_trans (eq_sym Hv') Hone) as Hq; injection Hq; intros; assumption).
  clear Hone. subst id.
  destruct (Hlife busy_day stored_world eq_refl ltac:(repeat constructor; cbn; set_solver)) as [Hg Hd].
  split; [exact (Hg ltac:(intros _; vm_compute; reflexivity))|].
  destruct (Hd ltac:(intros _; vm_compute; reflexivity)) as (Hd1 & _ & Hgone). split; [exact Hd1|].
  apply (Hgone [] _ eq_refl). exists true. intros _. vm_compute. reflexivity.
Defined.
Lemma fake_consistent_witness : fake_ok (calls fake_clock busy_day two_people).
Proof. exact (proj1 (fake_consistent fake_clock busy_day two_people two_people_ok)). Defined.
Definition likes : Edge := mkDomainEdge "" "ann" "bob" "likes" {["since" := "2020"]}%string.
Lemma edge_lifecycle_witness :
  (exists es e', (ListEdges (CreateEdge likes fake_world).2).1 = Ok es /\ NoDup (edge_key <$> es) /\ e' ∈ es /\
     ed_ID e' = EncodeEdgeID "ann" "bob" /\ ed_Relation e' = "likes"%string) /\
  (DeleteEdge (EncodeEdgeID "ann" "bob") (CreateEdge likes fake_world).2).1 = Ok tt.
Proof.
  destruct (edge_lifecycle fake_clock likes fake_world (proj2 two_people_ok) eq_refl ltac:(repeat constructor; discriminate)
    ltac:(discriminate) eq_refl) as [Hlife _].
  destruct (Hlife ltac:(split; eexists; vm_compute; reflexivity)) as (_ & Hw).
  destruct (Hw _ eq_refl) as (Hlist & Hdel & _). split; [exact Hlist|exact Hdel].
Defined.
