(* ===== verification/Ingestion.v ===== *)
(** The ingest path from end to end: [Enqueue], a worker of the pool and the memory
    service it hands the items to ([app.go], [pool.go], [service.go]), over the
    in-memory LightRAG. *)
From S2P Require Import Prelude GoErr Db Lightrag EdgeId Translate Tombstone Service Fake FakeLaws JobStore Pool Enqueue.
#[local] Open Scope Z_scope.

Section Ingestion.
Context `{MapRange} `{GoError} `{TimeParse} (clock : string) (cfg : PoolConfig) (now : Z).
#[local] Instance upstream_fake : Client Fake.t := Fake.fake_client clock.
Abbreviation W := (svc Fake.t (Db tomb_table) (Db source_table)).

(** [memSvc] as the [itemRunner] of the pool and [srcStore] as its [SourceSink]. *)
Definition run_item (timeout : option Z) (key text : string) (metadata : gmap string string) : M W (result err string) :=
  r <- Service.CreateMemory now (mkMemory key text metadata 0) ;;
  ret match r with Ok created => Ok (m_ID created) | Err e => Err e end.
Definition service_upstream : Upstream W :=
  mkUpstream W run_item (Some (fun repo filePath trackID => on_src (SourceStore.Add repo filePath trackID))).

(** * One item *)

(** Where an item says it comes from. *)
Definition source_of (metadata : gmap string string) : option (string * string) :=
  let repo := default ""%string (metadata !! "repo"%string) in
  let file := default ""%string (metadata !! "file_path"%string) in
  if bool_decide (repo <> ""%string) && bool_decide (file <> ""%string) then Some (repo, file) else None.

Abbreviation tombs w := (db_tab (sv_tomb w)).
Abbreviation sources w := (db_tab (sv_src w)).
(** LightRAG takes inserts, the database answers, and tombstones are of IDs that were
    handed out. *)
Record answering (w : W) : Prop := {
  an_docs : docs_ok (sv_lr w); an_plain : Fake.insertResp (sv_lr w) = None;
  an_sources : db_script (sv_src w) = []; an_tombs : db_script (sv_tomb w) = [];
  an_future n : Fake.nextID (sv_lr w) < n -> tombs w !! Fake.numbered "track" n = None }.
(** An item is stored under a track, as its text, and not deleted. *)
Definition kept (w : W) (it : IngestItem) (tr : string) : Prop :=
  tombs w !! tr = None /\
  exists id d, stored (sv_lr w) tr id d /\ ds_ContentSummary (Fake.st_doc d) = it_Text it /\
     ds_CreatedAt (Fake.st_doc d) = clock /\ ds_Metadata (Fake.st_doc d) = ∅.
(** What a worker does to the service keeps what is there. *)
Record grows (w w' : W) : Prop := {
  gr_stored tr id d : stored (sv_lr w) tr id d -> stored (sv_lr w') tr id d;
  gr_tracks tr : is_Some (Fake.tracks (sv_lr w) !! tr) -> is_Some (Fake.tracks (sv_lr w') !! tr);
  gr_tombs : sv_tomb w' = sv_tomb w }.
#[local] Instance grows_preorder : PreOrder grows.
Proof.
  split; [by intros w|]. intros a b c [Hs Hk Ht] [Hs' Hk' Ht']. split; [auto..|by etrans].
Qed.
Lemma kept_grows (w w' : W) (it : IngestItem) (tr : string) : grows w w' -> kept w it tr -> kept w' it tr.
Proof.
  intros [Hs _ Ht] [Hn (id & d & Hst & ?)]. split; [by rewrite Ht|]. exists id, d. split; [by apply Hs|done].
Qed.
Lemma create_item (timeout : option Z) (key text : string) (metadata : gmap string string) (it : IngestItem) (w : W) :
  answering w -> it_Text it = text ->
  exists tr w', run_item timeout key text metadata w = (Ok tr, w') /\ tr <> ""%string /\
    Fake.tracks (sv_lr w) !! tr = None /\ answering w' /\ grows w w' /\ sv_src w' = sv_src w /\ kept w' it tr.
Proof.
  intros [Hok Hr Hsc Htc Hfut] Hit. set (m := mkMemory key text metadata 0).
  pose proof (create_stores clock now m w Hok Hr) as Hstores. change (service_fake clock) with upstream_fake in Hstores.
  destruct Hstores as (Hc & Hnew & Hlr & d & Hst & _ & Hx & Hcl & Hm).
  destruct (insert_effect clock (ToInsertText m) (sv_lr w) Hok Hr) as (d' & _ & _ & _ & _ & _ & _ & _ & Heff).
  assert (Hrest : sv_src (Service.CreateMemory now m w).2 = sv_src w /\ sv_tomb (Service.CreateMemory now m w).2 = sv_tomb w).
  { unfold Service.CreateMemory, upstream, on_lr, bind. cbn [fst snd]. by repeat (case_match; cbn [fst snd sv_src sv_tomb fail_op]). }
  destruct Hrest as [Hsrc Htomb]. unfold run_item, bind. fold m. rewrite Hc. cbn [fst snd]. eexists _, _. split; [reflexivity|]. cbn [m_ID].
  split; [apply numbered_nonempty|]. split; [done|].
  assert (Hg : grows w (Service.CreateMemory now m w).2).
  { split; [intros tr id d2 Hs; rewrite Hlr; by apply stored_insert| |done].
    intros tr Htr. rewrite Hlr, Heff. cbn. apply lookup_insert_is_Some'. by right. }
  split; [|split; [done|split; [done|]]].
  - split; [rewrite Hlr; by apply insert_ok|by rewrite Hlr, Heff|by rewrite Hsrc|by rewrite Htomb|].
    intros n. rewrite Hlr, Heff, Htomb. cbn [Fake.nextID Fake.set_docs]. intros Hn. apply Hfut. lia.
  - split; [rewrite Htomb; apply Hfut; lia|]. eexists _, d. rewrite Hit. by split; [exact Hst|].
Qed.
Lemma add_source (repo file tr : string) (w : W) : db_script (sv_src w) = [] ->
  on_src (SourceStore.Add repo file tr) w =
    (Ok tt, mkSvc (sv_lr w) (sv_tomb w) (mkDb ({[(repo, file, tr)]} ∪ db_tab (sv_src w)) []) (sv_ops w) (sv_log w)).
Proof. destruct w as [l t [tab sc] o lg]. cbn. by intros ->. Qed.

(** * A worker on it *)

Abbreviation mpool := (pool MemStore.t W).
Abbreviation wstep := (worker_step (S:=MemStore.t) service_upstream cfg now).
Abbreviation drive := (drive (S:=MemStore.t) service_upstream cfg now).

(** The row of the index an item adds. *)
Definition row_of (it : IngestItem) (tr : string) : source_table :=
  match source_of (it_Metadata it) with Some (repo, file) => {[(repo, file, tr)]} | None => ∅ end.
Lemma index_item (id : string) (it : IngestItem) (p : mpool) : answering (p_up p) -> it_TrackID it <> ""%string ->
  exists p', wstep (Indexing id it) p = (Finished id (it_IdempotencyKey it) None, p') /\ p_store p' = p_store p /\
    answering (p_up p') /\ grows (p_up p) (p_up p') /\ sv_lr (p_up p') = sv_lr (p_up p) /\
    sources (p_up p') = row_of it (it_TrackID it) ∪ sources (p_up p).
Proof.
  intros Hw Htr. cbn [worker_step]. unfold processItem_index, row_of, source_of. cbn [AddSource service_upstream].
  set (repo := default _ (_ !! "repo"%string)). set (file := default _ (_ !! "file_path"%string)).
  rewrite (bool_decide_true (it_TrackID it <> _)) by done. rewrite andb_true_r.
  destruct (bool_decide (repo <> _) && bool_decide (file <> _)).
  2:{ exists p. rewrite union_empty_l_L. by split_and!. }
  unfold on_up, bind. cbn [fst snd]. rewrite add_source by apply Hw. cbn [fst snd metric_if ret].
  eexists. split; [reflexivity|]. cbn [p_store p_up]. split; [done|]. destruct Hw as [Hd Hp _ Ht Hf].
  split; [by split|]. by split.
Qed.

Lemma process_served (id : string) (p : mpool) (b : memJobBundle) (i : nat) (m : memItem) :
  p_store p !! id = Some b -> b_items b !! i = Some m -> NoDup (mi_key <$> b_items b) ->
  mi_trackID m = ""%string -> answering (p_up p) ->
  exists n tr p', (n <= 3)%nat /\
    (forall fuel, drive (n + fuel) (Claimed id (with_track m)) p = drive fuel (Finished id (mi_key m) None) p') /\
    p_store p' = <[id := mkBundle (b_job b) (<[i := set_item_track tr m]> (b_items b))]> (p_store p) /\
    answering (p_up p') /\ grows (p_up p) (p_up p') /\ Fake.tracks (sv_lr (p_up p)) !! tr = None /\
    kept (p_up p') (mi_item m) tr /\ sources (p_up p') = row_of (mi_item m) tr ∪ sources (p_up p).
Proof.
  intros Hb Hi Hnd Ht Hw.
  destruct (create_item (runItem_timeout cfg) (mi_key m) (it_Text (mi_item m)) (it_Metadata (mi_item m)) (mi_item m) (p_up p) Hw eq_refl)
    as (tr & w' & Hc & Hne & Hnew & Hw' & Hg & Hsrc & Hk).
  set (it' := mkItem (mi_key m) (it_Text (mi_item m)) (it_Metadata (mi_item m)) tr).
  set (p1 := mkPool (p_store p) w' (p_notify p) (p_metrics p)).
  set (p2 := mkPool (<[id := mkBundle (b_job b) (<[i := set_item_track tr m]> (b_items b))]> (p_store p))
               w' (p_notify p) (p_metrics p)).
  destruct (index_item id it' p2 Hw' Hne) as (p3 & H3 & Hs3 & Hw3 & Hg3 & Hl3 & Hsrc3).
  exists 3%nat, tr, p3. split; [lia|]. split; [|split; [by rewrite Hs3|]].
  - intros fuel. simpl Nat.add. rewrite (drive_S _ _ _ _ _ p p1 (Created id it')); [|done|].
    2:{ cbn [worker_step]. unfold processItem_create. rewrite bool_decide_true by done.
        unfold on_up, bind. cbn [CreateMemory service_upstream with_track it_IdempotencyKey it_Text it_Metadata fst snd].
        unfold mi_key in Hc. by rewrite Hc. }
    rewrite (drive_S _ _ _ _ _ p1 p2 (Indexing id it')); [|done|].
    2:{ simpl. unfold processItem_track, bind, ret, on_store. simpl.
        unfold MemStore.SetItemTrackID. rewrite Hb. simpl.
        by destruct (update_first_key (set_item_track tr) _ _ _ Hnd Hi) as [_ ->]. }
    by apply drive_S.
  - split; [done|]. split; [by etrans|]. split; [done|]. split; [by apply (kept_grows w')|].
    rewrite Hsrc3. cbn [p_up p2]. by rewrite Hsrc.
Qed.

(** ** Draining a job *)

(** A job in progress that began when the service was in [w0]: nothing failed, what is
    done is kept, each under a track of its own that [w0] did not have. *)
Record ingesting (w0 w : W) (l : list memItem) : Prop := {
  ig_answering : answering w;
  ig_since : grows w0 w;
  ig_new i m : l !! i = Some m -> mi_status m = pending -> mi_trackID m = ""%string;
  ig_ok i m : l !! i = Some m -> mi_status m <> failed;
  ig_kept i m : l !! i = Some m -> mi_status m = done ->
    kept w (mi_item m) (mi_trackID m) /\ Fake.tracks (sv_lr w0) !! mi_trackID m = None;
  ig_distinct i j m m' : l !! i = Some m -> l !! j = Some m' -> mi_status m = done -> mi_status m' = done ->
    mi_trackID m = mi_trackID m' -> i = j;
  ig_index row : row ∈ sources w <-> row ∈ sources w0 \/
    exists i m, l !! i = Some m /\ mi_status m = done /\ row ∈ row_of (mi_item m) (mi_trackID m) }.
Lemma kept_listed (w : W) (it : IngestItem) (tr : string) : kept w it tr -> is_Some (Fake.tracks (sv_lr w) !! tr).
Proof. intros [_ (id & d & [Ht _] & _)]. by eexists. Qed.
Lemma not_listed (w w' : W) (tr : string) : grows w w' -> Fake.tracks (sv_lr w') !! tr = None -> Fake.tracks (sv_lr w) !! tr = None.
Proof. intros [_ Hk _] Hn. apply eq_None_not_Some. intros Hs%Hk. rewrite Hn in Hs. by destruct Hs. Qed.
Lemma ingesting_done (w0 w w' : W) (l : list memItem) (i : nat) (m m' : memItem) :
  ingesting w0 w l -> l !! i = Some m -> mi_status m = pending -> answering w' -> grows w w' -> mi_status m' = done ->
  Fake.tracks (sv_lr w) !! mi_trackID m' = None -> kept w' (mi_item m') (mi_trackID m') ->
  sources w' = row_of (mi_item m') (mi_trackID m') ∪ sources w ->
  ingesting w0 w' (<[i := m']> l).
Proof.
  intros [_ Hs Hp Hf Hk Hd Hx] Hi Hpend Hw' Hg Hst Hnew Hkept Hrows.
  assert (Hother : forall j x, l !! j = Some x -> mi_status x = done -> mi_trackID x <> mi_trackID m').
  { intros j x Hj Hdone Heq. destruct (Hk j x Hj Hdone) as [Hl%kept_listed _]. rewrite Heq, Hnew in Hl. by destruct Hl. }
  split; [done|by etrans|..].
  - intros j x [(<- & <- & _)|[_ Hj]]%list_lookup_insert_Some; [congruence|by apply (Hp j)].
  - intros j x [(<- & <- & _)|[_ Hj]]%list_lookup_insert_Some; [congruence|by apply (Hf j)].
  - intros j x [(<- & <- & _)|[_ Hj]]%list_lookup_insert_Some Hdone.
    + split; [done|]. by apply (not_listed _ w).
    + destruct (Hk j x Hj Hdone) as [? ?]. split; [by apply (kept_grows w)|done].
  - intros j k x y [(<- & <- & _)|[_ Hj]]%list_lookup_insert_Some [(<- & <- & _)|[_ Hy]]%list_lookup_insert_Some Hdx Hdy Heq.
    + done.
    + by destruct (Hother k y Hy Hdy).
    + by destruct (Hother j x Hj Hdx).
    + by apply (Hd j k x y).
  - intros row. rewrite Hrows, elem_of_union, Hx. split.
    + intros [Hrow|[?|(j & x & Hj & Hdone & Hrow)]]; [right|by left|right].
      * exists i, m'. split; [|done]. apply list_lookup_insert_eq. by eapply lookup_lt_Some.
      * exists j, x. split; [|done]. rewrite list_lookup_insert_ne; [done|]. intros <-. congruence.
    + intros [?|(j & x & [(<- & <- & _)|[_ Hj]]%list_lookup_insert_Some & Hdone & Hrow)]; [by right; left|by left|].
      right. right. by exists j, x.
Qed.

(** The items a job was made of stay what they are. *)
Definition same_items (l : list IngestItem) (b : memJobBundle) : Prop := mi_item <$> b_items b = l.
Definition in_progress (w0 : W) (l : list IngestItem) (p : mpool) (b : memJobBundle) : Prop :=
  ingesting w0 (p_up p) (b_items b) /\ same_items l b.
Lemma served_turn (w0 : W) (l : list IngestItem) (id : string) :
  turns service_upstream cfg now (in_progress w0 l) id.
Proof.
  intros p b Hb Hd Hp [Hig Hitems].
  destruct (update_first_lookup is_pending (set_item_status running) (b_items b))
    as [(i & m & Hi & Hm & Hf & Hu)|(_ & Hall & _)].
  2:{ exfalso. apply Hp, count_none. intros x Hx. by apply (proj1 (Forall_forall _ _) Hall). }
  apply bool_decide_eq_true in Hm.
  destruct (claim_one service_upstream cfg now id p b m i Hb Hf Hu) as (p1 & Hcl & Hs1 & Hup1).
  set (m1 := set_item_status running m). set (b1 := mkBundle (b_job b) (<[i := m1]> (b_items b))).
  assert (Hkeys : forall x y, b_items b !! i = Some x -> mi_key y = mi_key x -> mi_key <$> <[i := y]> (b_items b) = mi_key <$> b_items b).
  { intros x y Hx Hy. rewrite list_fmap_insert, Hy, list_insert_id; [done|]. by rewrite list_lookup_fmap, Hx. }
  destruct (process_served id p1 b1 i m1) as (n & tr & p2 & Hn & Hdr & Hs2 & Hw2 & Hg2 & Hnew & Hkept & Hrows).
  { by rewrite Hs1, lookup_insert_eq. }
  { apply list_lookup_insert_eq. by eapply lookup_lt_Some. }
  { unfold b1. cbn [b_items]. rewrite (Hkeys m) by done. apply Hd. }
  { exact (ig_new _ _ _ Hig i m Hi Hm). }
  { rewrite Hup1. apply Hig. }
  set (m2 := set_item_track tr m1) in *. rewrite Hup1 in Hg2, Hnew, Hrows.
  destruct (mark_one service_upstream cfg now id p2 (mkBundle (b_job b) (<[i := m2]> (b_items b1))) i m2 None) as (p3 & Hmk & Hs3 & Hup3).
  { by rewrite Hs2, lookup_insert_eq. }
  { apply list_lookup_insert_eq. unfold b1. cbn [b_items]. rewrite length_insert. by eapply lookup_lt_Some. }
  { unfold b1. cbn [b_items]. rewrite list_insert_insert_eq, (Hkeys m) by done. apply Hd. }
  { done. }
  cbn [b_job b_items b1] in Hs3. unfold b1 in Hs3. cbn [b_items] in Hs3. rewrite Hs2, Hs1, !insert_insert_eq, !list_insert_insert_eq in Hs3.
  destruct (drainable_cycle now id b _ i m m2 None Hd Hi Hm eq_refl eq_refl) as [Hd' Hc'].
  eexists (2 + n)%nat, p3, _. split; [lia|]. split; [|split; [exact Hd'|split; [exact Hc'|split; [exact Hs3|]]]].
  - intros fuel. replace (2 + n + fuel)%nat with (Datatypes.S (n + Datatypes.S fuel)) by lia.
    rewrite (drive_S _ _ _ _ (Draining id) _ _ _ ltac:(done) Hcl), Hdr. by apply drive_S.
  - split; cbn [b_items].
    + rewrite Hup3. by apply (ingesting_done w0 (p_up p) _ _ _ m).
    + unfold same_items. cbn [b_items]. rewrite list_fmap_insert. cbn. rewrite list_insert_id; [done|]. by rewrite list_lookup_fmap, Hi.
Qed.

(** * From the request to the answer *)

Definition fresh_bundle (job : IngestJob) (its : list IngestItem) : memJobBundle :=
  mkBundle job ((fun it => mkMemItem it pending "" "") <$> its).
Lemma Enqueue_stores (rand : nat -> string) (items : list IngestItem) (p p' : mpool) (job : IngestJob) :
  Enqueue rand cfg now items p = (Ok job, p') ->
  let b := fresh_bundle job (fill_keys rand 0 items).1 in
  p_store p' !! j_ID job = Some b /\ p_up p' = p_up p /\ drainable (j_ID job) b.
Proof.
  intros He. assert (He' : submit_batch rand cfg now items p = (Ok job, p')) by (by destruct items).
  unfold submit_batch in He'. destruct (has_duplicate ∅ _) eqn:Hdup; [done|].
  apply has_duplicate_false in Hdup as [Hnd _]. cbv zeta. set (its := (fill_keys rand 0 items).1) in *.
  set (j := new_job rand now _ its) in *. unfold bind, on_store in He'. cbn [JobStore.CreateJob MemStore_JobStore] in He'.
  unfold MemStore.CreateJob in He'. destruct (p_store p !! j_ID j) eqn:Hj; [done|]. cbn [fst snd] in He'.
  pose proof (Notify_spec cfg (j_ID j) (mkPool (<[j_ID j := fresh_bundle j its]> (p_store p)) (p_up p) (p_notify p) (p_metrics p))) as (Hs & Hu & _).
  unfold fresh_bundle in Hs, Hu. unfold ret in He'. injection He' as <- <-. change (newJobID rand _) with (j_ID j). rewrite Hs, Hu. cbn [p_store p_up].
  split; [apply lookup_insert_eq|]. split; [done|].
  assert (Hnone : forall q, (forall it, q (mkMemItem it pending "" "") = false) -> count q ((fun it => mkMemItem it pending "" "") <$> its) = 0).
  { intros q Hq. apply count_none. intros x (it & -> & _)%list_elem_of_fmap. apply Hq. }
  split; unfold fresh_bundle; cbn [b_job b_items j]; rewrite ?Hnone by done; try done.
  - rewrite <- list_fmap_compose. exact Hnd.
  - by rewrite length_fmap.
Qed.
Lemma fresh_ingesting (w : W) (job : IngestJob) (its : list IngestItem) :
  answering w -> ingesting w w (b_items (fresh_bundle job its)).
Proof.
  intros Hw. assert (Hall : forall i m, b_items (fresh_bundle job its) !! i = Some m -> mi_status m = pending /\ mi_trackID m = ""%string).
  { intros i m Hi. cbn in Hi. apply list_lookup_fmap_Some in Hi as (it & -> & _). done. }
  split; try done; [by intros i m [_ ?]%Hall|by intros i m [-> _]%Hall|by intros i m [-> _]%Hall|by intros i j m m' [-> _]%Hall|].
  intros row. split; [by left|]. by intros [?|(i & m & [-> _]%Hall & ? & _)].
Qed.

Lemma tomb_answers (tr : string) (w : W) : db_script (sv_tomb w) = [] ->
  IsDeleted tr (sv_tomb w) = (Ok (bool_decide (is_Some (tombs w !! tr))), sv_tomb w).
Proof. destruct w as [lr [tab sc] src o lg]. cbn. by intros ->. Qed.
Lemma kept_served (w : W) (it : IngestItem) (tr : string) : answering w -> kept w it tr ->
  (GetMemory true tr w).1 = Ok (served_as clock tr (it_Text it)).1.
Proof.
  intros Hw [Hn (id & d & Hst & <- & Hc & Hm)]. apply (get_stored clock true tr id d w Hst Hc Hm).
  intros _. rewrite tomb_answers by apply Hw. cbn [fst]. by rewrite Hn.
Qed.
Lemma ingesting_complete (w0 : W) (l : list IngestItem) (id : string) (p : mpool) (b : memJobBundle) :
  in_progress w0 l p b -> drainable id b -> count is_pending (b_items b) = 0 ->
  count is_done (b_items b) = Z.of_nat (length l) /\ count is_failed (b_items b) = 0 /\
  NoDup (mi_trackID <$> b_items b) /\
  forall i m, b_items b !! i = Some m -> mi_status m = done /\ l !! i = Some (mi_item m).
Proof.
  intros [Hig Hitems] Hd Hp. unfold same_items in Hitems.
  assert (Hfail : count is_failed (b_items b) = 0).
  { apply count_none. intros m [i Hi]%list_elem_of_lookup. unfold is_failed. rewrite bool_decide_false; [done|]. by apply (ig_ok _ _ _ Hig i). }
  assert (Hdone : forall i m, b_items b !! i = Some m -> mi_status m = done).
  { intros i m Hi. pose proof (count_zero _ _ Hp) as Hz. pose proof (count_zero _ _ (dr_idle _ _ Hd)) as Hr.
    rewrite Forall_lookup in Hz. rewrite Forall_lookup in Hr. specialize (Hz i m Hi). specialize (Hr i m Hi).
    apply bool_decide_eq_false in Hz. apply bool_decide_eq_false in Hr. pose proof (ig_ok _ _ _ Hig i m Hi). by destruct (mi_status m). }
  split; [|split; [done|split]].
  - pose proof (count_partition (b_items b)) as Hc. rewrite Hp, Hfail, (dr_idle _ _ Hd) in Hc.
    rewrite <- Hitems, length_fmap. lia.
  - apply NoDup_alt. intros i j tr (m & Htr & Hm)%list_lookup_fmap_Some (m' & -> & Hm')%list_lookup_fmap_Some.
    by apply (ig_distinct _ _ _ Hig i j m m'); eauto.
  - intros i m Hi. split; [by apply (Hdone i)|]. by rewrite <- Hitems, list_lookup_fmap, Hi.
Qed.

(** A batch that is accepted is served.  With LightRAG and the database at work, a worker
    that takes the job of an accepted batch returns, the job has succeeded with every item
    done, and each item's memory has an ID of its own that was not in use before and
    answers the text of the item; the index of the sources gains exactly the rows of the
    items. *)
Definition batch_served (w0 w : W) (items : list IngestItem) (b : memJobBundle) : Prop :=
  j_Status (b_job b) = JobStatusSucceeded /\ j_Done (b_job b) = Z.of_nat (length items) /\ j_Failed (b_job b) = 0 /\
  NoDup (mi_trackID <$> b_items b) /\
  Forall2 (fun it m => mi_status m = done /\ Fake.tracks (sv_lr w0) !! mi_trackID m = None /\
      (GetMemory true (mi_trackID m) w).1 = Ok (served_as clock (mi_trackID m) (it_Text it)).1) items (b_items b) /\
  forall row, row ∈ sources w <-> row ∈ sources w0 \/
    exists i it m, items !! i = Some it /\ b_items b !! i = Some m /\ row ∈ row_of it (mi_trackID m).
Lemma ingested_batch (rand : nat -> string) (items : list IngestItem) (p p1 : mpool) (job : IngestJob) (fuel : nat) :
  answering (p_up p) -> Enqueue.Enqueue rand cfg now items p = (Ok job, p1) -> (5 * length items + 5 <= fuel)%nat ->
  exists p2 b, runJob service_upstream cfg now fuel (j_ID job) p1 = (Idle, p2) /\
    p_store p2 !! j_ID job = Some b /\ batch_served (p_up p) (p_up p2) items b /\
    answering (p_up p2) /\ grows (p_up p) (p_up p2) /\ Forall (fun m => kept (p_up p2) (mi_item m) (mi_trackID m)) (b_items b).
Proof.
  intros Hw He Hfuel. destruct (Enqueue_stores _ _ _ _ _ He) as (Hb & Hup & Hd).
  set (its := (fill_keys rand 0 items).1) in *. set (b := fresh_bundle job its) in *.
  pose proof (length_fill_keys rand 0 items) as Hlen.
  assert (Hpend : count is_pending (b_items b) = Z.of_nat (length items)).
  { unfold b, fresh_bundle. cbn [b_items]. rewrite <- Hlen. fold its. generalize its as l. induction l as [|x l IHl]; [done|].
    csimpl. rewrite count_cons, IHl. unfold is_pending. cbn [mi_status length]. rewrite bool_decide_true by done. lia. }
  destruct (start_alone service_upstream cfg now (j_ID job) p1 b Hb Hd) as (n1 & p2 & b2 & Hn1 & Hst & Hd2 & Hit & Hs2 & Hup2).
  destruct (drain_by service_upstream cfg now _ (length items) (j_ID job) p2 b2 (served_turn (p_up p) its (j_ID job)))
    as (n2 & p3 & b3 & Hn2 & Hdr & Hd3 & Hp3 & Hs3 & Hig & Hitems).
  { by rewrite Hs2, lookup_insert_eq. }
  { done. }
  { by rewrite Hit. }
  { split; [rewrite Hup2, Hup, Hit; by apply fresh_ingesting|]. unfold same_items. rewrite Hit. unfold b, fresh_bundle. cbn [b_items].
    rewrite <- list_fmap_compose. by apply list_fmap_id. }
  destruct (finalize_alone service_upstream cfg now (j_ID job) p3 b3) as (p4 & b4 & Hfin & Hc & Hit4 & Hs4 & Hup4);
    [by rewrite Hs3, lookup_insert_eq|done|done|].
  destruct (ingesting_complete _ _ _ _ _ (conj Hig Hitems) Hd3 Hp3) as (Hdone & Hfail & Hnd & Hall).
  destruct Hc as (Hcd & Hcf & _ & _ & Hst4). rewrite Hit4 in Hcd, Hcf.
  exists p4, b4. unfold batch_served. rewrite Hit4, Hup4. pose proof (ig_answering _ _ _ Hig) as Hw3.
  assert (Hof : forall i it m, items !! i = Some it -> b_items b3 !! i = Some m ->
    it_Text (mi_item m) = it_Text it /\ row_of (mi_item m) (mi_trackID m) = row_of it (mi_trackID m)).
  { intros i it m Hi Hm. destruct (Hall i m Hm) as [_ Hm2].
    destruct (Forall2_lookup_lr _ _ _ _ _ _ (fill_keys_spec rand 0 items) Hi Hm2) as (Htext & Hmeta & _).
    unfold row_of. by rewrite Hmeta. }
  assert (Hlen3 : length items = length (b_items b3)).
  { rewrite <- Hlen. fold its. unfold same_items in Hitems. by rewrite <- Hitems, length_fmap. }
  split; [unfold runJob; replace fuel with (n1 + (n2 + (2 + (fuel - n1 - n2 - 2))))%nat by lia; by rewrite Hst, Hdr, Hfin|].
  split; [by rewrite Hs4, lookup_insert_eq|]. split; [|split; [done|split; [apply Hig|]]].
  2:{ apply Forall_lookup. intros i m Hm. destruct (Hall i m Hm) as [Hm1 _]. by destruct (ig_kept _ _ _ Hig i m Hm Hm1). }
  split; [rewrite Hst4; unfold final_status; by rewrite Hcf, Hfail|]. split; [by rewrite Hcd, Hdone, <- Hlen|].
  split; [by rewrite Hcf|]. split; [done|]. split.
  - apply Forall2_same_length_lookup. split; [done|]. intros i it m Hi Hm. destruct (Hall i m Hm) as [Hm1 _].
    destruct (ig_kept _ _ _ Hig i m Hm Hm1) as [Hk Hnew]. split; [done|]. split; [done|].
    rewrite <- (proj1 (Hof i it m Hi Hm)). by apply kept_served.
  - intros row. rewrite (ig_index _ _ _ Hig). apply or_iff_compat_l. split.
    + intros (i & m & Hm & _ & Hrow). destruct (lookup_lt_is_Some_2 items i) as [it Hi]; [rewrite Hlen3; by eapply lookup_lt_Some|].
      exists i, it, m. by rewrite <- (proj2 (Hof i it m Hi Hm)).
    + intros (i & it & m & Hi & Hm & Hrow). exists i, m. rewrite (proj2 (Hof i it m Hi Hm)). by destruct (Hall i m Hm).
Qed.
End Ingestion.

