(* ===== verification/Reingest.v ===== *)
(** Replacing what was ingested from a file: the purge of the file's memories
    ([DeleteMemoriesBySources], [service.go]) and the ingest of the new batch
    ([Ingestion]), over the in-memory LightRAG. *)
From S2P Require Import Prelude GoErr Db Lightrag EdgeId Translate Tombstone Service Fake FakeLaws JobStore Pool Enqueue Ingestion.
#[local] Open Scope Z_scope.

Section Reingest.
Context `{MapRange} `{GoError} `{TimeParse} (clock : string) (cfg : PoolConfig) (now : Z).
#[local] Instance upstream_fake : Client Fake.t := Fake.fake_client clock.
Abbreviation W := (svc Fake.t (Db tomb_table) (Db source_table)).
Abbreviation tombs w := (db_tab (sv_tomb w)).
Abbreviation sources w := (db_tab (sv_src w)).

(** The service between two requests: every row of the index is of a stored memory, and
    of one file. *)
Record working (w : W) : Prop := {
  wk_answering : answering w;
  wk_indexed repo file tr : (repo, file, tr) ∈ sources w -> exists id d, stored (sv_lr w) tr id d;
  wk_one_file repo file repo' file' tr : (repo, file, tr) ∈ sources w -> (repo', file', tr) ∈ sources w -> (repo, file) = (repo', file') }.

(** * Purging *)

(** What the deletion of the memories in [gone] leaves. *)
Record purged (gone : string -> Prop) (w w' : W) : Prop := {
  pg_answering : answering w';
  pg_removed tr : gone tr -> Fake.tracks (sv_lr w') !! tr = None /\ is_Some (tombs w' !! tr);
  pg_absent tr : Fake.tracks (sv_lr w) !! tr = None -> Fake.tracks (sv_lr w') !! tr = None;
  pg_marked tr : is_Some (tombs w !! tr) -> is_Some (tombs w' !! tr);
  pg_rest tr id d : ~ gone tr -> stored (sv_lr w) tr id d -> stored (sv_lr w') tr id d;
  pg_unmarked tr : ~ gone tr -> tombs w !! tr = None -> tombs w' !! tr = None }.
Lemma purged_nothing (w : W) : answering w -> purged (fun _ => False) w w.
Proof. by intros Hw; split. Qed.
Lemma purged_then (g1 g2 : string -> Prop) (w w1 w2 : W) :
  purged g1 w w1 -> purged g2 w1 w2 -> purged (fun tr => g1 tr \/ g2 tr) w w2.
Proof.
  intros [_ R1 A1 M1 S1 U1] [Ho R2 A2 M2 S2 U2]. split; [done|..].
  - intros tr [[Ha Hm]%R1|Hg]; [auto|by apply R2].
  - auto.
  - auto.
  - intros tr id d Hn Hs. apply S2; [tauto|]. apply S1; [tauto|done].
  - intros tr Hn Hs. apply U2; [tauto|]. apply U1; [tauto|done].
Qed.
Lemma purged_iff (g g' : string -> Prop) (w w' : W) : (forall tr, g tr <-> g' tr) -> purged g w w' -> purged g' w w'.
Proof.
  intros He [Ho R A M S U]. split; [done|intros tr Hg; by apply R, He|done..| |].
  - intros tr id d Hn. apply S. by rewrite He.
  - intros tr Hn. apply U. by rewrite He.
Qed.

Lemma delete_one (tr id : string) (d : Fake.docState) (w : W) : answering w -> stored (sv_lr w) tr id d ->
  exists w', deleteMemoryRaw true now tr w = (Ok tt, w') /\ purged (fun x => x = tr) w w' /\ sv_src w' = sv_src w.
Proof.
  intros [Hok Hr Hsc Htc Hfut] Hst. destruct (ok_ids _ Hok id d (sd_doc _ _ _ _ Hst)) as [Hid _].
  destruct w as [lr [tab sc] src ops lg]. cbn in *. subst sc.
  exists (mkSvc (Fake.delete_doc lr id) (mkDb (<[tr := TombstoneStore.mark_row now (tab !! tr)]> tab) []) src ops lg).
  destruct Hst as [Ht Hd]. split; [|split; [split|done]]; cbn [sv_lr sv_tomb sv_src db_tab db_script].
  - unfold deleteMemoryRaw, on_lr, bind. cbn [Lightrag.TrackStatus upstream_fake Fake.fake_client fst snd sv_lr].
    assert (Hts : Fake.TrackStatus tr lr = (Ok (mkTrackStatus tr [Fake.st_doc d] 1 (inc (ds_Status (Fake.st_doc d)) ∅)), lr)).
    { unfold Fake.TrackStatus. rewrite Ht. cbn. unfold Fake.doc_of. by rewrite Hd. }
    rewrite Hts. cbn [fst snd ts_Documents]. rewrite list_fmap_singleton, Hid. cbn.
    unfold Fake.DeleteDocs. cbn. by rewrite Hd.
  - split; cbn [sv_lr sv_tomb sv_src db_tab db_script]; [by apply delete_ok|done..|]. intros n Hn. rewrite lookup_insert_ne; [by apply Hfut|].
    intros ->. destruct (ok_fresh _ Hok n Hn) as [_ Hnone]. congruence.
  - intros x ->. destruct (delete_effect lr id tr Hok) as (_ & Htr & _). rewrite Htr, Ht, lookup_insert_eq. split; [apply shrink_last|done].
  - intros x Hx. destruct (delete_effect lr id x Hok) as (_ & Htr & _). by rewrite Htr, Hx.
  - intros x Hx. apply lookup_insert_is_Some'. by right.
  - intros x id' d' Hne Hs. apply stored_delete_doc; [done| |done]. intros <-. apply Hne.
    destruct (ok_listed _ Hok _ _ _ (sd_track _ _ _ _ Hs) ltac:(left)) as (y & Hy & <-).
    destruct (ok_listed _ Hok _ _ _ Ht ltac:(left)) as (z & Hz & <-). congruence.
  - intros x Hne Hx. by rewrite lookup_insert_ne.
Qed.

Lemma purge_all (ids : list string) (n : Z) (w : W) : answering w -> NoDup ids ->
  (forall tr, tr ∈ ids -> exists id d, stored (sv_lr w) tr id d) ->
  exists w', purge_ids true now ids n w = ((n + Z.of_nat (length ids), None), w') /\
    purged (fun tr => tr ∈ ids) w w' /\ sv_src w' = sv_src w.
Proof.
  revert n w. induction ids as [|tr ids IH]; intros n w Hw Hnd Hst.
  { exists w. split; [by rewrite Z.add_0_r|]. split; [|done]. eapply purged_iff; [|by apply purged_nothing].
    intros x. split; [done|]. by intros ?%elem_of_nil. }
  apply NoDup_cons in Hnd as [Hn Hnd]. destruct (Hst tr ltac:(left)) as (id & d & Hs).
  destruct (delete_one tr id d w Hw Hs) as (w1 & Hdel & Hp1 & Hsrc1).
  destruct (IH (n + 1) w1) as (w2 & Hrest & Hp2 & Hsrc2); [apply Hp1|done| |].
  { intros x Hx. destruct (Hst x ltac:(by right)) as (id' & d' & Hs'). exists id', d'. apply (pg_rest _ _ _ Hp1); [|done]. by intros ->. }
  exists w2. split; [|split; [|by rewrite Hsrc2]].
  - cbn [purge_ids]. unfold bind. rewrite Hdel. cbn [fst snd]. rewrite Hrest. f_equal. f_equal. cbn [length]. lia.
  - eapply purged_iff; [|exact (purged_then _ _ _ _ _ Hp1 Hp2)]. intros x. by rewrite elem_of_cons.
Qed.

Lemma purged_indexed (g : string -> Prop) (w w' : W) (t : source_table) ops lg :
  purged g w w' -> purged g w (mkSvc (sv_lr w') (sv_tomb w') (mkDb t []) ops lg).
Proof. intros [[] R A M S U]. by split. Qed.
(** The rows of the files of a purge. *)
Definition from_files (repo : string) (files : list string) (row : string * string * string) : Prop :=
  row.1.1 = repo /\ row.1.2 ∈ files.
#[local] Instance from_files_dec repo files row : Decision (from_files repo files row).
Proof. unfold from_files. apply _. Defined.
Definition gone_with (w : W) (repo : string) (files : list string) (tr : string) : Prop :=
  exists f, f ∈ files /\ (repo, f, tr) ∈ sources w.
Lemma working_purged (w w' : W) (repo : string) (files : list string) :
  working w -> purged (gone_with w repo files) w w' -> sources w' = filter (fun row => ~ from_files repo files row) (sources w) -> working w'.
Proof.
  intros [Ha Hi Hone] Hp Hs. split; [apply Hp|..].
  - intros r f tr. rewrite Hs, elem_of_filter. intros [Hn Hrow]. destruct (Hi r f tr Hrow) as (id & d & Hst).
    exists id, d. apply (pg_rest _ _ _ Hp); [|done]. intros (f' & Hf' & Hrow'). apply Hn.
    pose proof (Hone _ _ _ _ _ Hrow Hrow') as Heq. simplify_eq. by split.
  - intros r f r' f' tr. rewrite Hs, !elem_of_filter. intros [_ ?] [_ ?]. by eapply Hone.
Qed.

Lemma purge_one_file (repo f : string) (w : W) : working w ->
  exists w', DeleteMemoriesBySource true true now repo f w = ((Z.of_nat (length (SourceStore.of_file repo f (sources w))), None), w') /\
    purged (gone_with w repo [f]) w w' /\ sources w' = filter (fun row => ~ from_files repo [f] row) (sources w).
Proof.
  intros [Hw Hi _]. pose proof (an_sources _ Hw) as Hsc. destruct w as [lr tb [tab sc] ops lg]. cbn in Hsc, Hi. subst sc.
  destruct (of_file_spec repo f tab) as [Hnd Hof].
  destruct (purge_all (SourceStore.of_file repo f tab) 0 _ Hw Hnd) as (w1 & Hpurge & Hp & Hsrc).
  { intros tr Htr%Hof. by apply (Hi repo f). }
  unfold DeleteMemoriesBySource, on_src, bind. cbn. rewrite Hpurge. cbn. rewrite Hsrc. cbn.
  eexists. split; [reflexivity|]. split.
  - apply purged_indexed. eapply purged_iff; [|exact Hp]. intros tr. rewrite Hof. unfold gone_with. cbn.
    split; [intros; exists f; by split; [left|]|]. by intros (f' & ->%list_elem_of_singleton & ?).
  - cbn. apply set_eq. intros [[r f'] tr]. rewrite !elem_of_filter. unfold from_files. cbn. rewrite list_elem_of_singleton.
    split; intros [Hne ?]; (split; [|done]); [intros [-> ->]; by apply Hne|intros ?; simplify_eq; by apply Hne].
Qed.

Lemma purge_every (repo : string) (files : list string) (total : Z) (w : W) : working w ->
  exists n w', purge_files true true now repo files total w = ((n, None), w') /\
    purged (gone_with w repo files) w w' /\ sources w' = filter (fun row => ~ from_files repo files row) (sources w).
Proof.
  revert total w. induction files as [|f files IH]; intros total w Hw.
  { exists total. eexists. split; [reflexivity|]. cbn. split.
    - eapply purged_iff; [|].
      2:{ pose proof (purged_indexed _ _ _ (sources w) (inc (op_label "delete_by_sources" "success") (sv_ops w)) (sv_log w) (purged_nothing w (wk_answering w Hw))) as Hp.
          pose proof (an_sources _ (wk_answering w Hw)). destruct w as [lr tb [tab sc] o l]. cbn in *. subst sc. exact Hp. }
      intros tr. split; [done|]. by intros (f & ?%elem_of_nil & _).
    - apply set_eq. intros row. rewrite elem_of_filter. unfold from_files. split; [|by intros [_ ?]].
      intros ?. split; [|done]. by intros [_ ?%elem_of_nil]. }
  destruct (purge_one_file repo f w Hw) as (w1 & Hf1 & Hp1 & Hs1).
  destruct (IH (total + Z.of_nat (length (SourceStore.of_file repo f (sources w)))) w1) as (n & w2 & Hf2 & Hp2 & Hs2).
  { by apply (working_purged w w1 repo [f]). }
  exists n, w2. cbn [purge_files]. unfold bind. rewrite Hf1. cbn [fst snd]. split; [exact Hf2|]. split.
  - eapply purged_iff; [|exact (purged_then _ _ _ _ _ Hp1 Hp2)]. intros tr. unfold gone_with. rewrite Hs1. split.
    + intros [(f' & ->%list_elem_of_singleton & ?)|(f' & ? & [_ ?]%elem_of_filter)]; [exists f; by split; [left|]|exists f'; by split; [right|]].
    + intros (f' & [->|Hf]%elem_of_cons & Hrow); [left; exists f; by split; [apply list_elem_of_singleton|]|].
      destruct (decide (f' = f)) as [->|Hne]; [left; exists f; by split; [apply list_elem_of_singleton|]|right].
      exists f'. split; [done|]. apply elem_of_filter. split; [|done]. intros [_ ?%list_elem_of_singleton]. done.
  - rewrite Hs2, Hs1. apply set_eq. intros row. rewrite !elem_of_filter. unfold from_files.
    rewrite list_elem_of_singleton, elem_of_cons. tauto.
Qed.

(** * Replacing *)

Lemma row_of_track (it : IngestItem) (tr : string) row : row ∈ row_of it tr ->
  source_of (it_Metadata it) = Some row.1 /\ row.2 = tr.
Proof. unfold row_of. destruct (source_of _) as [[r f]|]; [|by intros ?%elem_of_empty]. by intros ->%elem_of_singleton. Qed.
Lemma working_served (w0 w : W) (items : list IngestItem) (b : memJobBundle) :
  working w0 -> answering w -> grows w0 w -> Forall (fun m => kept clock w (mi_item m) (mi_trackID m)) (b_items b) ->
  batch_served clock w0 w items b -> working w.
Proof.
  intros [_ Hi Hone] Hw Hg Hk (_ & _ & _ & Hnd & Hall & Hrows).
  assert (Hold : forall r f tr i m, (r, f, tr) ∈ sources w0 -> b_items b !! i = Some m -> mi_trackID m <> tr).
  { intros r f tr i m (id & d & [Ht _])%Hi Hm <-. destruct (Forall2_lookup_r _ _ _ _ _ Hall Hm) as (it & _ & _ & Hn & _). congruence. }
  split; [done|..].
  - intros r f tr [Hrow|(i & it & m & _ & Hm & [_ Htr]%row_of_track)]%Hrows.
    + destruct (Hi r f tr Hrow) as (id & d & Hs). exists id, d. by apply (gr_stored _ _ Hg).
    + cbn in Htr. subst tr. rewrite Forall_lookup in Hk. destruct (Hk i m Hm) as [_ (id & d & Hs & _)]. by exists id, d.
  - intros r f r' f' tr [Hrow|(i & it & m & Hit & Hm & [Hsrc Htr]%row_of_track)]%Hrows
      [Hrow'|(j & it' & m' & Hit' & Hm' & [Hsrc' Htr']%row_of_track)]%Hrows; cbn in *.
    + by eapply Hone.
    + by destruct (Hold r f tr j m' Hrow Hm').
    + by destruct (Hold r' f' tr i m Hrow' Hm).
    + assert (i = j); [|congruence].
      apply (proj1 (NoDup_alt (mi_trackID <$> b_items b)) Hnd i j tr); rewrite list_lookup_fmap; [by rewrite Hm, Htr|by rewrite Hm', Htr'].
Qed.
Lemma tombstoned_not_found (tr : string) (w : W) : answering w -> is_Some (tombs w !! tr) ->
  exists e, (GetMemory true tr w).1 = Err e /\ errors_Is e ErrNotFound = true.
Proof.
  intros Hw Ht. exists (Sentinel ErrNotFound). split; [|done]. unfold GetMemory, bind at 1, on_tomb.
  rewrite tomb_answers by apply Hw. cbn [fst snd]. by rewrite bool_decide_true.
Qed.

Abbreviation mpool := (pool MemStore.t W).
Definition with_up (w : W) (p : mpool) : mpool := mkPool (p_store p) w (p_notify p) (p_metrics p).
End Reingest.

(** * A closed execution *)

Section Run.
#[local] Instance run_range : MapRange := map_to_list_range.
#[local] Instance run_error : GoError := fun _ => "boom"%string.
#[local] Instance run_time : TimeParse := {| ParseRFC3339 _ := Some 3; ParseRFC3339Nano _ := None |}.
#[local] Instance run_client : Client Fake.t := Fake.fake_client fake_clock.
Definition one_worker : PoolConfig := newPool 1 4 0.
(** Two notes of one file, the first without a key, and another file's; then a new
    version of the first file. *)
Definition from_file (f : string) : gmap string string := <["repo"%string := "r"%string]> {["file_path"%string := f]}.
Definition first_push : list IngestItem :=
  [mkItem "" "first" (from_file "a.md") ""; mkItem "k" "second" (from_file "a.md") ""; mkItem "b" "other" (from_file "b.md") ""].
Definition second_push : list IngestItem := [mkItem "k" "second, revised" (from_file "a.md") ""].
Definition idle_service : pool MemStore.t fakeW := mkPool ∅ fake_world [] ∅.
(** A purge of the files, the batch, and the worker. *)
Definition cleaned (files : list string) (p : pool MemStore.t fakeW) : pool MemStore.t fakeW :=
  with_up (DeleteMemoriesBySources true true 5 "r" files (p_up p)).2 p.
Definition push (rand : nat -> string) (files : list string) (items : list IngestItem) (p : pool MemStore.t fakeW) :=
  Enqueue.Enqueue rand one_worker 5 items (cleaned files p).
Definition drained (id : string) (p : pool MemStore.t fakeW) : pool MemStore.t fakeW :=
  (runJob (service_upstream fake_clock 5) one_worker 5 20 id p).2.
Definition other_rand (n : nat) : string := String.append "s" (counter_rand n).
Definition after_first : pool MemStore.t fakeW := drained "job_r1" (push counter_rand [] first_push idle_service).2.
Definition after_second : pool MemStore.t fakeW := drained "job_sr0" (push other_rand ["a.md"%string] second_push after_first).2.

Lemma idle_working : working fake_world.
Proof.
  split; [|by intros r f tr Hr; apply elem_of_empty in Hr|by intros r f r' f' tr Hr; apply elem_of_empty in Hr].
  split; [exact (proj1 two_people_ok)|reflexivity..].
Qed.
Lemma accepted_as (id : string) (x : result err IngestJob * pool MemStore.t fakeW) :
  match x.1 with Ok job => Some (j_ID job) | Err _ => None end = Some id -> exists job, x = (Ok job, x.2) /\ j_ID job = id.
Proof. destruct x as [[job|e] p]; [|done]. intros [= <-]. by exists job. Qed.
(** The new version is served, the old notes are not, the other file's still is. *)
Lemma second_push_served :
  (fun tr => is_ok (GetMemory true tr (p_up after_second)).1) <$> ["track-1"; "track-3"; "track-5"; "track-7"]%string =
    [false; false; true; true] /\
  elements (db_tab (sv_src (p_up after_second))) = [("r", "a.md", "track-7"); ("r", "b.md", "track-5")]%string.
Proof. by vm_compute. Qed.
End Run.
