(* ===== verification/Reaper.v ===== *)
(** The tombstone reaper ([internal/memory/reaper.go]): a periodic tick that
    removes tombstones once LightRAG confirms the document is gone, and a forced
    pass over day-old ones that backs off while the document is still there.

    A tick runs under a deadline; whether it has expired is asked of the
    environment before every item. *)
From S2P Require Import Prelude GoErr Db Lightrag Tombstone Service.

(** * Definitions *)

Definition TombstoneReapBatchSize : nat := 1000.
Definition forceReapBackoffBase : Z := Hour.
Definition forceReapBackoffCap : Z := 24 * Hour.

(** The doubling loop; [fuel] bounds its iterations. *)
Fixpoint backoff_loop (fuel : nat) (i attempts d : Z) : Z :=
  match fuel with
  | O => d
  | S fuel => if bool_decide (i < attempts) && bool_decide (d < forceReapBackoffCap)
              then backoff_loop fuel (i + 1) attempts (int64 (d * 2)) else d
  end.
Definition forceReapBackoff (attempts : Z) : Z :=
  let d := backoff_loop 6 1 attempts forceReapBackoffBase in
  if bool_decide (d > forceReapBackoffCap) then forceReapBackoffCap else d.

(** [trackStatuser] and [reapStore]; a response pointer may be nil. *)
Class TrackStatuser (W : Type) := {
  TrackStatusOf : string -> M W (result err (option TrackStatusResponse)) }.
Class ReapStore (W : Type) := {
  rs_List : nat -> M W (result err (list string));
  rs_Delete : string -> M W (result err unit);
  rs_ListOlderThan : Z -> nat -> M W (result err (list ForceCandidate));
  rs_RecordForceCheckStillPresent : string -> Z -> M W (result err unit) }.
(** [tickCtx.Err() != nil]. *)
Class Deadline (W : Type) := { expired : M W bool }.

Section Reaper.
Context {W : Type} `{TrackStatuser W} `{ReapStore W} `{Deadline W} (now maxAge : Z).
(** The world with the reaper's counter vector and a log of what it removed and
    deferred. *)
Record rw := mkRw { rw_world : W; rw_metric : gmap string Z }.
Definition on_world {A} (m : M W A) : M rw A := fun w =>
  let q := m (rw_world w) in (q.1, mkRw q.2 (rw_metric w)).
Definition count_op (op : string) : M rw unit :=
  modify (fun w => mkRw (rw_world w) (inc op (rw_metric w))).

Definition confirmed_gone (r : result err (option TrackStatusResponse)) : bool :=
  match r with
  | Err e => bool_decide (As_HTTPError e = Some StatusNotFound)
  | Ok None => true
  | Ok (Some ts) => match ts_Documents ts with [] => true | _ => false end
  end.
Definition reap (op id : string) : M rw unit :=
  r <- on_world (rs_Delete id) ;;
  match r with Ok _ => count_op op | Err _ => ret tt end.
Definition reapConfirmed (id : string) : M rw unit := reap "reaped" id.
Definition reapConfirmedForced (id : string) : M rw unit := reap "forced" id.

(** The body of the fast path's loop. *)
Definition check_one (id : string) : M rw unit :=
  r <- on_world (TrackStatusOf id) ;;
  if confirmed_gone r then reapConfirmed id
  else match r with Err _ => count_op "check_error" | Ok _ => ret tt end.
(** The body of the forced path's loop. *)
Definition force_one (cand : ForceCandidate) : M rw unit :=
  r <- on_world (TrackStatusOf (fc_TrackID cand)) ;;
  if confirmed_gone r then reapConfirmedForced (fc_TrackID cand)
  else match r with
       | Err _ => count_op "check_error"
       | Ok _ =>
           on_world (rs_RecordForceCheckStillPresent (fc_TrackID cand)
                       (now + forceReapBackoff (fc_Attempts cand + 1))) ;;
           count_op "force_skipped_still_present"
       end.

(** [for ... { if ctx.Err() != nil { return }; body }]: whether it ran to the end. *)
Fixpoint until_expired {A} (body : A -> M rw unit) (l : list A) : M rw bool :=
  match l with
  | [] => ret true
  | x :: l =>
      e <- on_world expired ;;
      if (e : bool) then ret false else (body x ;; until_expired body l)
  end.
Definition forceTick : M rw unit :=
  r <- on_world (rs_ListOlderThan maxAge TombstoneReapBatchSize) ;;
  match r with
  | Err _ => ret tt
  | Ok aged => until_expired force_one aged ;; ret tt
  end.
Definition tick : M rw unit :=
  r <- on_world (rs_List TombstoneReapBatchSize) ;;
  match r with
  | Err _ => ret tt
  | Ok ids =>
      finished <- until_expired check_one ids ;;
      if (finished : bool) then forceTick else ret tt
  end.
End Reaper.
Arguments mkRw {W} _ _.
Arguments rw_world {W} _.
Arguments rw_metric {W} _.

(** * The backoff *)

Lemma backoff_loop_spec k : forall i attempts d,
  backoff_loop k i attempts d =
  match k with
  | O => d
  | S k => if bool_decide (i < attempts) && bool_decide (d < forceReapBackoffCap)
           then backoff_loop k (i + 1) attempts (int64 (d * 2)) else d
  end.
Proof. by destruct k. Qed.

(** The delay before the next forced check is one hour doubled per attempt
    made and never more than a day: min(24h, 2^(n-1) h) for n attempts, an hour
    for none.  (After five doublings the loop's own bound stops it, so its
    termination and the absence of overflow do not depend on the count.) *)
Theorem forceReapBackoff_spec attempts :
  forceReapBackoff attempts = Z.min (24 * Hour) (2 ^ (Z.max 0 (attempts - 1)) * Hour) /\
  Hour <= forceReapBackoff attempts <= 24 * Hour /\
  (forall k, backoff_loop (6 + k) 1 attempts forceReapBackoffBase = backoff_loop 6 1 attempts forceReapBackoffBase).
Proof.
  assert (Hcases : attempts <= 1 \/ attempts = 2 \/ attempts = 3 \/ attempts = 4 \/ attempts = 5 \/ 6 <= attempts) by lia.
  assert (Hloop : forall k, backoff_loop (6 + k) 1 attempts forceReapBackoffBase
    = if decide (attempts <= 1) then Hour else if decide (attempts = 2) then 2 * Hour
      else if decide (attempts = 3) then 4 * Hour else if decide (attempts = 4) then 8 * Hour
      else if decide (attempts = 5) then 16 * Hour else 32 * Hour).
  { intros k. destruct (decide (attempts <= 1)).
    { simpl. by rewrite bool_decide_eq_false_2 by lia. }
    simpl. rewrite (bool_decide_eq_true_2 (1 < attempts)) by lia.
    destruct (decide (attempts = 2)) as [->|]; [done|].
    rewrite (bool_decide_eq_true_2 (1 + 1 < attempts)) by lia.
    destruct (decide (attempts = 3)) as [->|]; [done|].
    rewrite (bool_decide_eq_true_2 (1 + 1 + 1 < attempts)) by lia.
    destruct (decide (attempts = 4)) as [->|]; [done|].
    rewrite (bool_decide_eq_true_2 (1 + 1 + 1 + 1 < attempts)) by lia.
    destruct (decide (attempts = 5)) as [->|]; [done|].
    rewrite (bool_decide_eq_true_2 (1 + 1 + 1 + 1 + 1 < attempts)) by lia. simpl.
    by rewrite andb_comm. }
  assert (Hval : forceReapBackoff attempts = Z.min (24 * Hour) (2 ^ (Z.max 0 (attempts - 1)) * Hour)).
  { unfold forceReapBackoff. pose proof (Hloop 0%nat) as H0. simpl Nat.add in H0. rewrite H0.
    destruct Hcases as [Hc|[->|[->|[->|[->|Hc]]]]]; [|done..|].
    - rewrite decide_True by done. replace (Z.max 0 (attempts - 1)) with 0 by lia. done.
    - rewrite !decide_False by lia. assert (2 ^ 5 <= 2 ^ Z.max 0 (attempts - 1)) by (apply Z.pow_le_mono_r; lia).
      rewrite bool_decide_eq_true_2 by done. unfold forceReapBackoffCap, Hour, Minute, Second in *. lia. }
  split; [done|]. split.
  - rewrite Hval. assert (1 <= 2 ^ Z.max 0 (attempts - 1)) by (pose proof (Z.pow_pos_nonneg 2 (Z.max 0 (attempts - 1))); lia).
    unfold Hour, Minute, Second in *. lia.
  - intros k. rewrite Hloop. symmetry. apply (Hloop 0%nat).
Qed.

(** * Safety of a tick *)

(** What the reaper relies on: the store's operations touch only the tombstones
    they name, a document LightRAG has confirmed gone stays gone. *)
Class ReaperLaws (W : Type) `{TrackStatuser W} `{ReapStore W} `{Deadline W} := {
  rdead : W -> gset string;
  gone : W -> string -> Prop;
  rl_status : forall id w r w', TrackStatusOf id w = (r, w') ->
    rdead w' = rdead w /\ (forall i, gone w i -> gone w' i) /\ (confirmed_gone r = true -> gone w' id);
  rl_delete : forall id w r w', rs_Delete id w = (r, w') ->
    (rdead w' = rdead w \/ rdead w' = rdead w ∖ {[id]}) /\ (forall i, gone w i -> gone w' i);
  rl_list : forall n w r w', rs_List n w = (r, w') -> rdead w' = rdead w /\ (forall i, gone w i -> gone w' i);
  rl_older : forall a n w r w', rs_ListOlderThan a n w = (r, w') ->
    rdead w' = rdead w /\ (forall i, gone w i -> gone w' i);
  rl_record : forall id t w r w', rs_RecordForceCheckStillPresent id t w = (r, w') ->
    rdead w' = rdead w /\ (forall i, gone w i -> gone w' i);
  rl_expired : forall w r w', expired w = (r, w') -> rdead w' = rdead w /\ (forall i, gone w i -> gone w' i) }.

Section Safety.
Context {W : Type} `{ReaperLaws W} (now maxAge : Z).

(** A computation that only removes tombstones of documents that are gone. *)
Definition reaps {A} (w : rw (W:=W)) (q : A * rw (W:=W)) : Prop :=
  rdead (rw_world q.2) ⊆ rdead (rw_world w) /\
  (forall i, gone (rw_world w) i -> gone (rw_world q.2) i) /\
  (forall i, i ∈ rdead (rw_world w) -> i ∈ rdead (rw_world q.2) \/ gone (rw_world q.2) i).

Lemma reaps_ret {A} (a : A) w : reaps w (ret a w).
Proof. split; [done|]. split; [done|]. by left. Qed.
Lemma reaps_bind {A B} (m : M rw A) (k : A -> M rw B) w :
  reaps w (m w) -> (forall a w1, m w = (a, w1) -> reaps w1 (k a w1)) -> reaps w (bind m k w).
Proof.
  unfold bind. destruct (m w) as [a w1]. intros (Hs & Hg & Hd) Hk. simpl in *.
  destruct (Hk a w1 eq_refl) as (Hs' & Hg' & Hd'). split; [by etrans|]. split; [auto|].
  intros i [Hi|Hi]%Hd; [by apply Hd'|right; by apply Hg'].
Qed.
(** A call that keeps the tombstones and what is known to be gone. *)
Lemma reaps_keep {A} (m : M W A) w :
  (forall r w', m (rw_world w) = (r, w') -> rdead w' = rdead (rw_world w) /\ (forall i, gone (rw_world w) i -> gone w' i)) ->
  reaps w (on_world m w).
Proof.
  unfold on_world. destruct (m (rw_world w)) as [r w'] eqn:E. intros Hm.
  destruct (Hm _ _ eq_refl) as [Hd Hg]. split; simpl; [by rewrite Hd|]. split; [done|]. rewrite Hd. by left.
Qed.
Lemma reaps_count op w : reaps w (count_op op w).
Proof. split; [done|]. split; [done|]. by left. Qed.
Lemma reaps_delete op id w : gone (rw_world w) id -> reaps w (reap op id w).
Proof.
  intros Hgone. apply reaps_bind; [|intros [u|e] w1 _; [apply reaps_count|apply reaps_ret]].
  unfold on_world. destruct (rs_Delete id (rw_world w)) as [r w1] eqn:Ed.
  apply rl_delete in Ed as [Hd Hg]. split; simpl; [|split; [done|]].
  - destruct Hd as [->| ->]; [done|apply subseteq_difference_l; done].
  - intros i Hi. destruct Hd as [->| ->]; [by left|]. destruct (decide (i = id)) as [->|Hne]; [right; by apply Hg|].
    left. apply elem_of_difference. split; [done|]. by rewrite elem_of_singleton.
Qed.
(** Both loops' bodies ask first and remove only what the answer confirms. *)
Lemma reaps_status {A} id (k : result err (option TrackStatusResponse) -> M rw A) w :
  (forall r w1, (confirmed_gone r = true -> gone (rw_world w1) id) -> reaps w1 (k r w1)) ->
  reaps w (bind (on_world (TrackStatusOf id)) k w).
Proof.
  intros Hk. apply reaps_bind.
  - apply reaps_keep. intros r w' (? & ? & _)%rl_status. done.
  - intros r w1 Hr. apply Hk. unfold on_world in Hr. simplify_eq/=.
    destruct (TrackStatusOf id (rw_world w)) as [r' w'] eqn:E. by apply rl_status in E as (_ & _ & ?).
Qed.
Lemma reaps_check_one id w : reaps w (check_one id w).
Proof.
  apply reaps_status. intros r w1 Hr. destruct (confirmed_gone r); [by apply reaps_delete, Hr|].
  destruct r; [apply reaps_ret|apply reaps_count].
Qed.
Lemma reaps_force_one cand w : reaps w (force_one now cand w).
Proof.
  apply reaps_status. intros r w1 Hr. destruct (confirmed_gone r); [by apply reaps_delete, Hr|].
  destruct r as [ts|e]; [|apply reaps_count]. apply reaps_bind; [|intros; apply reaps_count].
  apply reaps_keep. intros x w'. apply rl_record.
Qed.
Lemma reaps_until_expired {A} (body : A -> M rw unit) l w :
  (forall x w, reaps w (body x w)) -> reaps w (until_expired body l w).
Proof.
  intros Hb. revert w. induction l as [|x l IH]; intros w; simpl; [apply reaps_ret|].
  apply reaps_bind; [apply reaps_keep; intros r w'; apply rl_expired|]. intros e w1 _.
  destruct e; [apply reaps_ret|]. apply reaps_bind; [apply Hb|]. intros; apply IH.
Qed.

End Safety.

(** * The reaper over the tombstone table *)

(** An upstream that answers each track from a table fixed for the tick, and a
    deadline that expires after a number of items. *)
Record upstream_world := mkUp { up_present : gset string; up_db : Db tomb_table; up_left : nat }.
Section Concrete.
Context (now : Z).
#[export] Instance concrete_status : TrackStatuser upstream_world := {
  TrackStatusOf := fun id w =>
    ((if bool_decide (id ∈ up_present w) then Ok (Some (mkTrackStatus id [mkDocStatus id "" 0 "processed" "" "" id 0 "" ∅ ""] 1 ∅))
      else Err (HTTPError 404 "" "")), w) }.
Definition with_db {A} (m : M (Db tomb_table) A) : M upstream_world A := fun w =>
  let q := m (up_db w) in (q.1, mkUp (up_present w) q.2 (up_left w)).
#[export] Instance concrete_store : ReapStore upstream_world := {
  rs_List := fun n => with_db (TombstoneStore.List n);
  rs_Delete := fun id => with_db (TombstoneStore.Delete id);
  rs_ListOlderThan := fun a n => with_db (TombstoneStore.ListOlderThan now a n);
  rs_RecordForceCheckStillPresent := fun id t => with_db (TombstoneStore.RecordForceCheckStillPresent id t) }.
#[export] Instance concrete_deadline : Deadline upstream_world := {
  expired := fun w => (bool_decide (up_left w = 0%nat), mkUp (up_present w) (up_db w) (pred (up_left w))) }.

Lemma with_db_select {A B} text (k : A -> B) (f : env -> tomb_table -> A) w r w' :
  with_db (TombstoneStore.wrapping text k (select f)) w = (r, w') ->
  up_present w' = up_present w /\ db_tab (up_db w') = db_tab (up_db w).
Proof.
  unfold with_db. destruct (TombstoneStore.wrapping _ _ _ _) as [x d] eqn:E. intros [= _ <-]. simpl. split; [done|].
  apply runs_intro in E. unfold TombstoneStore.wrapping in E. by apply runs_map in E as (y & [? _]%runs_select & _).
Qed.
Lemma with_db_exec {A B} text (k : A -> B) (f : tomb_table -> A * tomb_table) w r w' :
  with_db (TombstoneStore.wrapping text k (exec f)) w = (r, w') ->
  up_present w' = up_present w /\
  (db_tab (up_db w') = db_tab (up_db w) \/ db_tab (up_db w') = (f (db_tab (up_db w))).2).
Proof.
  unfold with_db. destruct (TombstoneStore.wrapping _ _ _ _) as [x d] eqn:E. intros [= _ <-]. simpl. split; [done|].
  apply wrapping_exec in E as [[_ ->]|[_ [?|?]]]; [by right|by left|by right].
Qed.
#[export] Program Instance concrete_laws : ReaperLaws upstream_world :=
  {| rdead := fun w => dom (db_tab (up_db w)); gone := fun w i => i ∉ up_present w |}.
Next Obligation.
  intros id w r w' [= <- <-]. split; [done|]. split; [done|]. by case_bool_decide.
Qed.
Next Obligation.
  intros id w r w' [Hp [Ht|Ht]]%with_db_exec; rewrite Hp, Ht; (split; [|done]); [by left|right].
  apply dom_delete_L.
Qed.
Next Obligation. intros n w r w' [Hp Ht]%with_db_select. by rewrite Hp, Ht. Qed.
Next Obligation. intros a n w r w' [Hp Ht]%with_db_select. by rewrite Hp, Ht. Qed.
Next Obligation.
  intros id t w r w' [Hp [Ht|Ht]]%with_db_exec; rewrite Hp, Ht; (split; [|done]); [done|]. apply dom_alter_L.
Qed.
Next Obligation. by intros w r w' [= _ <-]. Qed.
End Concrete.

Lemma oldest_first_sub limit l : oldest_first limit l ⊆ l.
Proof.
  intros x Hx. unfold oldest_first in Hx. rewrite <- (merge_sort_Permutation deleted_before l).
  rewrite <- (take_drop limit). apply elem_of_app. by left.
Qed.

(** A forced check that finds the document still there pushes the next one back
    by the backoff for its new attempt count: until then the tombstone is not
    among the candidates, so a stuck delete is not re-checked every tick. *)
Theorem forced_check_deferred now now' age limit id row (t : tomb_table) d' r :
  t !! id = Some row ->
  TombstoneStore.RecordForceCheckStillPresent id
    (now + forceReapBackoff (tb_force_reap_attempts row + 1)) (mkDb t []) = (Ok tt, d') ->
  now' < now + forceReapBackoff (tb_force_reap_attempts row + 1) ->
  (TombstoneStore.ListOlderThan now' age limit d').1 = Ok r ->
  id ∉ fc_TrackID <$> r.
Proof.
  intros Hrow Hrec Hnow Hlist Hin.
  apply wrapping_exec in Hrec as [[_ Ht]|[[e ?] _]]; [|done]. simpl in Ht.
  destruct (TombstoneStore.ListOlderThan now' age limit d') as [x d2] eqn:El. simpl in Hlist. subst x.
  apply runs_intro in El. unfold TombstoneStore.ListOlderThan, TombstoneStore.wrapping in El.
  apply runs_map in El as (y & [_ Hy]%runs_select & Heq). destruct y as [l|e]; simplify_eq/=.
  destruct Hy as [_ ->]. rewrite <- list_fmap_compose in Hin.
  apply list_elem_of_fmap in Hin as ([i row'] & -> & Hin%oldest_first_sub).
  apply elem_of_filter_bool in Hin as [Hin Ha]. apply elem_of_map_to_list in Hin. simpl in *.
  rewrite Ht, lookup_alter_eq, Hrow in Hin. simplify_eq/=. unfold TombstoneStore.aged in Ha. simpl in Ha.
  apply andb_prop in Ha as [_ Ha]. apply bool_decide_eq_true in Ha. lia.
Qed.

(** * Closed executions *)

Definition reap_world : rw (W:=upstream_world) :=
  mkRw (mkUp {["kept"%string]}
    (mkDb {["kept"%string := mkTombstone 0 0 None; "done"%string := mkTombstone 0 0 None]} []) 10) ∅.
Definition reap_now : Z := 100 * Hour.
#[local] Existing Instance concrete_store.
Definition after_tick : rw (W:=upstream_world) := (tick (H0:=concrete_store reap_now) reap_now (24 * Hour) reap_world).2.

Definition stuck_row : tombstone := mkTombstone 0 3 None.
Definition stuck_table : tomb_table := {["x"%string := stuck_row]}.
Definition recorded : Db tomb_table :=
  (TombstoneStore.RecordForceCheckStillPresent "x" (100 * Hour + forceReapBackoff 4) (mkDb stuck_table [])).2.
Lemma forced_check_deferred_witness :
  TombstoneStore.RecordForceCheckStillPresent "x" (100 * Hour + forceReapBackoff 4) (mkDb stuck_table [])
    = (Ok tt, recorded) /\ ("x"%string ∉ fc_TrackID <$> []).
Proof.
  assert (Hr : TombstoneStore.RecordForceCheckStillPresent "x" (100 * Hour + forceReapBackoff 4) (mkDb stuck_table [])
    = (Ok tt, recorded)) by by_evaluation.
  split; [exact Hr|].
  apply (forced_check_deferred (100 * Hour) (105 * Hour) (24 * Hour) 10 "x" stuck_row stuck_table recorded []);
    [by_evaluation|exact Hr|reflexivity|by_evaluation].
Defined.
