(* ===== verification/LightragHttp.v ===== *)
(** The HTTP client for LightRAG ([internal/lightrag/http.go]).

    The network and the clock are the environment: a script of exchanges, each
    with the time it takes and either a transport error or a response, whose body
    takes time of its own.  The request context is a deadline and a cancellation
    time; it ends a sleep, a request and the reading of a body, and so does the
    30-second timeout of the client for the last two.  JSON bodies are texts; their
    codec is a parameter of the operations that use it.

    [roundTrip] retries transport errors, 429 and 5xx up to three times;
    [DeleteDocs] polls a busy pipeline until its deadline and carries fuel. *)
From S2P Require Import Prelude GoErr Lightrag.
From Stdlib Require Import Ascii.

(** * The environment *)

Inductive reply :=
| Transport (e : err)
| Response (status : Z) (retry_after body : string).
(** The time until the reply and until its body is read, and how much of the body is
    there when the reading is cut short. *)
Record exchange := mkExchange { x_took : N; x_reply : reply; x_body : N; x_partial : nat }.
Record request := mkRequest { rq_method : string; rq_path : string; rq_body : option string }.
Record context := mkContext { cx_deadline : option Z; cx_cancel : option Z }.

Record net := mkNet {
  n_clock : Z; n_script : list exchange;
  n_requests : list request;       (* what was sent, in order *)
  n_sleeps : list Z;               (* the durations waited for, in order *)
  n_calls : gmap string Z }.       (* lightrag_calls_total *)

Definition maxErrBodyDisplay : nat := 512.
Definition retryMax : Z := 3.
Definition retryBaseDelay : Z := 200 * Millisecond.
Definition maxRetryAfter : Z := 30 * Second.
Definition busyRetryMaxDelay : Z := 2 * Second.
Definition defaultBusyRetryBudget : Z := 45 * Second.

(** The moment the context is done, and why. *)
Definition done_at (c : context) : option (Z * err) :=
  match cx_deadline c, cx_cancel c with
  | None, None => None
  | Some d, None => Some (d, Sentinel DeadlineExceeded)
  | None, Some x => Some (x, Sentinel Canceled)
  | Some d, Some x => if bool_decide (x < d) then Some (x, Sentinel Canceled)
                      else Some (d, Sentinel DeadlineExceeded)
  end.
(** [select { case <-ctx.Done(): return ctx.Err(); case <-time.After(d): }]. *)
Definition sleep (c : context) (d : Z) : M net (option err) := fun n =>
  let wake t := mkNet t (n_script n) (n_requests n) (n_sleeps n ++ [d]) (n_calls n) in
  match done_at c with
  | Some (t, e) => if bool_decide (t <= n_clock n + d) then (Some e, wake (Z.max t (n_clock n)))
                   else (None, wake (n_clock n + d))
  | None => (None, wake (n_clock n + d))
  end.
(** [http.Client.Timeout], from the request to the end of its body. *)
Definition clientTimeout : Z := 30 * Second.
(** What ends a wait from [now] for something at [finish], in a request begun at
    [start]: the context or the timeout, if one of them comes first. *)
Definition cut_at (c : context) (start now finish : Z) : option (Z * err) :=
  let limit := start + clientTimeout in
  let timeout := if bool_decide (limit < finish) then Some (limit, Sentinel DeadlineExceeded) else None in
  match done_at c with
  | Some (t, e) =>
      if bool_decide (t <= now \/ t < finish) && bool_decide (Z.max t now <= limit)
      then Some (Z.max t now, e) else timeout
  | None => timeout
  end.
(** What the caller of [c.http.Do] gets: an error, or a response and the body it reads,
    with the error that broke the reading off. *)
Inductive received :=
| Lost (e : err)
| Got (status : Z) (retry_after text : string) (broken : option err).
Definition maxBodyBytes : Z := 4 * 1024 * 1024.
(** [io.LimitReader(resp.Body, maxBodyBytes)]. *)
Definition limit_body (body : string) : string :=
  if bool_decide (Z.of_nat (String.length body) <= maxBodyBytes) then body
  else String.substring 0 (Z.to_nat maxBodyBytes) body.
(** [c.http.Do(req)] and the reading of the body, which follows at once. *)
Definition http_Do (c : context) (rq : request) : M net received := fun n =>
  let start := n_clock n in
  let at_ t := mkNet t (tail (n_script n)) (n_requests n ++ [rq]) (n_sleeps n) (n_calls n) in
  let x := default (mkExchange 0 (Transport NetError) 0 0) (head (n_script n)) in
  let replied := start + Z.of_N (x_took x) in
  match cut_at c start start replied with
  | Some (t, e) => (Lost (Wrap (rq_method rq) e), at_ t)
  | None =>
      match x_reply x with
      | Transport e => (Lost e, at_ replied)
      | Response status ra body =>
          let read := replied + Z.of_N (x_body x) in
          match cut_at c start replied read with
          | Some (t, e) => (Got status ra (limit_body (String.substring 0 (x_partial x) body)) (Some e), at_ t)
          | None => (Got status ra (limit_body body) None, at_ read)
          end
      end
  end.
Definition observe (op : string) (e : option err) : M net unit := modify (fun n =>
  mkNet (n_clock n) (n_script n) (n_requests n) (n_sleeps n)
    (inc (String.append op (match e with None => "/success" | Some _ => "/error" end)) (n_calls n))).

(** * [strconv.Atoi] *)

Definition digit (c : ascii) : option Z :=
  let n := Z.of_N (N_of_ascii c) in
  if bool_decide (48 <= n <= 57) then Some (n - 48) else None.
Fixpoint digits (acc : Z) (s : string) : option Z :=
  match s with
  | EmptyString => Some acc
  | String c s => match digit c with Some d => digits (acc * 10 + d) s | None => None end
  end.
Definition in_range (z : Z) : option Z := if bool_decide (- two63 <= z < two63) then Some z else None.
Definition Atoi (s : string) : option Z :=
  match s with
  | EmptyString => None
  | String c s' =>
      if bool_decide (c = "-"%char)
      then match s' with EmptyString => None
           | _ => match digits 0 s' with Some z => in_range (- z) | None => None end end
      else if bool_decide (c = "+"%char)
      then match s' with EmptyString => None
           | _ => match digits 0 s' with Some z => in_range z | None => None end end
      else match digits 0 s with Some z => in_range z | None => None end
  end.

(** * roundTrip *)

Definition isRetryable (statusCode : Z) : bool :=
  bool_decide (statusCode = 429) || bool_decide (statusCode >= 500).

Section HTTPClient.
(** [http.ParseTime] of a Retry-After header. *)
Context (ParseTime : string -> option Z) (ctx : context).

(** The wait a Retry-After header asks for, capped; 64-bit durations wrap. *)
Definition retry_after_wait (now : Z) (ra : string) : Z :=
  let wait := match Atoi ra with
              | Some secs => int64 (secs * Second)
              | None => match ParseTime ra with
                        | Some t => if bool_decide (t > now) then t - now else 0
                        | None => 0
                        end
              end in
  if bool_decide (wait > maxRetryAfter) then maxRetryAfter else wait.
Definition shown_body (body : string) : string :=
  if (maxErrBodyDisplay <? String.length body)%nat
  then String.append (String.substring 0 maxErrBodyDisplay body) "...(truncated)" else body.

(** [wait > 0]: sleep it; the context may end it. *)
Definition wait_positive (wait : Z) : M net (option err) :=
  if bool_decide (wait > 0) then sleep ctx wait else ret None.

(** The retry loop from [attempt] on; [more] is the number of iterations that
    remain.  A reply below 400 is handed to [decode]; the body of another is read as
    far as it comes. *)
Fixpoint attempts {A} (more : nat) (attempt : Z) (skipBackoff : bool) (lastErr : err)
    (rq : request) (decode : Z -> result err string -> result err A) : M net (result err A) :=
  match more with
  | O => ret (Err lastErr)
  | S more =>
      stopped <- (if bool_decide (attempt > 0) && negb skipBackoff
                  then sleep ctx (retryBaseDelay * 2 ^ (attempt - 1)) else ret None) ;;
      match stopped with
      | Some e => ret (Err e)
      | None =>
          rep <- http_Do ctx rq ;;
          match rep with
          | Lost e =>
              attempts more (attempt + 1) false (Wrap "lightrag: do request" e) rq decode
          | Got status retry_after body broken =>
              if bool_decide (status >= 400) then
                let httpErr := HTTPError status (shown_body body) (rq_path rq) in
                if isRetryable status && bool_decide (attempt < retryMax) then
                  if bool_decide (retry_after <> ""%string) then
                    now <- gets n_clock ;;
                    stopped <- wait_positive (retry_after_wait now retry_after) ;;
                    match stopped with
                    | Some e => ret (Err e)
                    | None => attempts more (attempt + 1) true httpErr rq decode
                    end
                  else attempts more (attempt + 1) false httpErr rq decode
                else ret (Err httpErr)
              else ret (decode status (match broken with Some e => Err e | None => Ok body end))
          end
      end
  end.
Definition roundTrip {A} (rq : request) (decode : Z -> result err string -> result err A) : M net (result err A) :=
  attempts (Z.to_nat (retryMax + 1)) 0 false (Errorf "") rq decode.

(** [out] is decoded from any body but that of a 204. *)
Definition into {A} (zero : A) (unmarshal : string -> option A) (status : Z) (body : result err string) : result err A :=
  if bool_decide (status = 204) then Ok zero
  else match body with
       | Err e => Err (Wrap "lightrag: decode response" e)
       | Ok body => match unmarshal body with
                    | Some a => Ok a
                    | None => Err (Errorf "lightrag: decode response")
                    end
       end.
(** Without [out] a body is drained and the error of doing so dropped. *)
Definition discard (status : Z) (body : result err string) : result err unit := Ok tt.

(** [do]: one metric per call. *)
Definition err_of {A} (r : result err A) : option err :=
  match r with Ok _ => None | Err e => Some e end.
Definition do_ {A} (op : string) (rq : request) (decode : Z -> result err string -> result err A) : M net (result err A) :=
  r <- roundTrip rq decode ;;
  observe op (err_of r) ;;
  ret r.

(** * DeleteDocs *)

(** The busy poll; [None] is out of fuel. *)
Fixpoint busy_loop (fuel : nat) (attempt delay start deadline : Z) (rq : request)
    (unmarshal : string -> option DeleteDocByIdResponse) :
    M net (option (result err DeleteDocByIdResponse)) :=
  match fuel with
  | O => ret None
  | S fuel =>
      r <- roundTrip rq (into (mkDeleteDoc "" "" "") unmarshal) ;;
      match r with
      | Err e => observe "delete_docs" (Some e) ;; ret (Some (Err e))
      | Ok out =>
          if bool_decide (dd_Status out <> "busy"%string)
          then observe "delete_docs" None ;; ret (Some (Ok out))
          else
            now <- gets n_clock ;;
            if bool_decide (now + delay > deadline) then
              let busyErr := BusyError "delete_docs" attempt (now - start) in
              observe "delete_docs" (Some busyErr) ;; ret (Some (Err busyErr))
            else
              stopped <- sleep ctx delay ;;
              match stopped with
              | Some e => ret (Some (Err e))
              | None => busy_loop fuel (attempt + 1)
                          (if bool_decide (delay * 2 > busyRetryMaxDelay) then busyRetryMaxDelay else delay * 2)
                          start deadline rq unmarshal
              end
      end
  end.
Definition busy_deadline (now : Z) : Z :=
  match cx_deadline ctx with Some d => d | None => now + defaultBusyRetryBudget end.
Definition delete_request (body : string) : request :=
  mkRequest "DELETE" "/documents/delete_document" (Some body).
Definition HTTP_DeleteDocs (fuel : nat) (marshal : list string -> string)
    (unmarshal : string -> option DeleteDocByIdResponse) (docIDs : list string) :
    M net (option (result err DeleteDocByIdResponse)) :=
  now <- gets n_clock ;;
  busy_loop fuel 1 retryBaseDelay now (busy_deadline now) (delete_request (marshal docIDs)) unmarshal.

(** * The other operations *)

(** The JSON and URL encodings the operations use. *)
Class Codec := {
  marshal_insert : InsertTextRequest -> string; unmarshal_insert : string -> option InsertResponse;
  unmarshal_track : string -> option TrackStatusResponse;
  marshal_query : QueryRequest -> string; unmarshal_query : string -> option QueryResponse;
  unmarshal_query_data : string -> option QueryDataResponse;
  unmarshal_exists : string -> option bool;
  marshal_create : EntityCreateRequest -> string;
  marshal_update : EntityUpdateRequest -> string; unmarshal_entity : string -> option EntityResponse;
  unmarshal_labels : string -> option (list string);
  unmarshal_graph : string -> option KnowledgeGraph;
  marshal_relation : RelationCreateRequest -> string; unmarshal_relation : string -> option RelationResponse;
  marshal_ids : list string -> string; unmarshal_delete : string -> option DeleteDocByIdResponse;
  marshal_delete_relation : string -> string -> string;
  marshal_delete_entity : string -> string;
  PathEscape : string -> string; QueryEscape : string -> string;
  graph_query : string -> Z -> Z -> string }.
Context `{Codec}.

Definition get (path : string) : request := mkRequest "GET" path None.
Definition post (path body : string) : request := mkRequest "POST" path (Some body).
(** LightRAG's own query modes; an empty mode is left to the server. *)
Definition lr_mode_valid (m : string) : bool :=
  existsb (fun x => bool_decide (m = x)) ["local"; "global"; "hybrid"; "naive"; "mix"; "bypass"]%string.
Definition bad_mode (m : string) : bool := bool_decide (m <> ""%string) && negb (lr_mode_valid m).

Definition HTTP_InsertText (r : InsertTextRequest) : M net (result err InsertResponse) :=
  do_ "insert_text" (post "/documents/text" (marshal_insert r)) (into (mkInsertResponse "" "" "") unmarshal_insert).
Definition HTTP_TrackStatus (trackID : string) : M net (result err TrackStatusResponse) :=
  do_ "track_status" (get (String.append "/documents/track_status/" (PathEscape trackID)))
    (into (mkTrackStatus "" [] 0 ∅) unmarshal_track).
Definition HTTP_Query (r : QueryRequest) : M net (result err QueryResponse) :=
  if bad_mode (qr_Mode r)
  then observe "query" (Some (Errorf "lightrag: invalid query mode")) ;;
       ret (Err (Errorf "lightrag: invalid query mode"))
  else do_ "query" (post "/query" (marshal_query r)) (into (mkQueryResponse "" []) unmarshal_query).
Definition HTTP_QueryData (r : QueryRequest) : M net (result err QueryDataResponse) :=
  if bad_mode (qr_Mode r)
  then observe "query_data" (Some (Errorf "lightrag: invalid query mode")) ;;
       ret (Err (Errorf "lightrag: invalid query mode"))
  else
    x <- roundTrip (post "/query/data" (marshal_query r)) (into (mkQueryData "" "" ∅ ∅) unmarshal_query_data) ;;
    let res := match x with
               | Err e => Err e
               | Ok out => if bool_decide (qd_Status out <> "success"%string)
                           then Err (LogicalError "query_data" (qd_Status out) (qd_Message out)) else Ok out
               end in
    observe "query_data" (err_of res) ;; ret res.
Definition HTTP_EntityExists (name : string) : M net (result err bool) :=
  do_ "entity_exists" (get (String.append "/graph/entity/exists?name=" (QueryEscape name)))
    (into false unmarshal_exists).
Definition HTTP_CreateEntity (r : EntityCreateRequest) : M net (result err EntityResponse) :=
  do_ "create_entity" (post "/graph/entity/create" (marshal_create r)) (into (mkEntityResponse "" "" None) unmarshal_entity).
Definition HTTP_UpdateEntity (r : EntityUpdateRequest) : M net (result err EntityResponse) :=
  do_ "update_entity" (post "/graph/entity/edit" (marshal_update r)) (into (mkEntityResponse "" "" None) unmarshal_entity).
Definition HTTP_DeleteEntity (name : string) : M net (result err unit) :=
  do_ "delete_entity" (mkRequest "DELETE" "/documents/delete_entity" (Some (marshal_delete_entity name))) discard.
Definition HTTP_LabelSearch (q : string) : M net (result err (list string)) :=
  do_ "label_search" (get (String.append "/graph/label/search?q=" (QueryEscape q))) (into [] unmarshal_labels).
Definition HTTP_Graph (label : string) (maxDepth maxNodes : Z) : M net (result err KnowledgeGraph) :=
  do_ "graph" (get (String.append "/graphs?" (graph_query label maxDepth maxNodes)))
    (into (mkGraph [] []) unmarshal_graph).
Definition HTTP_CreateRelation (r : RelationCreateRequest) : M net (result err RelationResponse) :=
  do_ "create_relation" (post "/graph/relation/create" (marshal_relation r)) (into (mkRelationResponse "" "" ∅) unmarshal_relation).
Definition HTTP_DeleteRelation (from to : string) : M net (result err unit) :=
  do_ "delete_relation" (mkRequest "DELETE" "/documents/delete_relation" (Some (marshal_delete_relation from to))) discard.
Definition HTTP_Health : M net (result err unit) := do_ "health" (get "/health") discard.
(** Enough fuel for the poll; [DeleteDocs_polls] shows that it is. *)
Definition busy_fuel (now : Z) : nat := S (Z.to_nat ((busy_deadline now - now) / retryBaseDelay + 1)).
Definition DeleteDocs_enough (marshal : list string -> string)
    (unmarshal : string -> option DeleteDocByIdResponse) (docIDs : list string) :
    M net (result err DeleteDocByIdResponse) :=
  now <- gets n_clock ;;
  r <- HTTP_DeleteDocs (busy_fuel now) marshal unmarshal docIDs ;;
  ret (default (Err (Errorf "fuel")) r).
#[global] Instance HTTPClient_Client : Client net := {
  InsertText := HTTP_InsertText; TrackStatus := HTTP_TrackStatus;
  DeleteDocs := DeleteDocs_enough marshal_ids unmarshal_delete;
  lr_Query := HTTP_Query; lr_QueryData := HTTP_QueryData; EntityExists := HTTP_EntityExists;
  CreateEntity := HTTP_CreateEntity; UpdateEntity := HTTP_UpdateEntity; DeleteEntity := HTTP_DeleteEntity;
  LabelSearch := HTTP_LabelSearch; Graph := HTTP_Graph;
  CreateRelation := HTTP_CreateRelation; DeleteRelation := HTTP_DeleteRelation;
  Health := HTTP_Health }.
End HTTPClient.

(** * roundTrip: attempts and waits are bounded *)

Section RoundTrip.
Context (ParseTime : string -> option Z) (ctx : context).

Lemma retry_after_wait_cap now ra : retry_after_wait ParseTime now ra <= maxRetryAfter.
Proof. unfold retry_after_wait. by case_bool_decide; lia. Qed.

Definition wait_ok (d : Z) : Prop := 0 < d <= maxRetryAfter.

(** It takes at most [limit], and never lasts past the end of the context. *)
Definition in_time (limit : Z) (n n' : net) : Prop :=
  n_clock n <= n_clock n' <= n_clock n + limit /\
  (forall d e, done_at ctx = Some (d, e) -> n_clock n' <= Z.max d (n_clock n)).
Lemma in_time_refl n : in_time 0 n n.
Proof. split; [lia|]. intros. lia. Qed.
Lemma in_time_trans a b n1 n2 n3 : in_time a n1 n2 -> in_time b n2 n3 -> in_time (a + b) n1 n3.
Proof. intros [H1 D1] [H2 D2]. split; [lia|]. intros d e Hd. specialize (D1 d e Hd). specialize (D2 d e Hd). lia. Qed.
Lemma sleep_in_time d n n' r : 0 <= d -> sleep ctx d n = (r, n') -> in_time d n n'.
Proof.
  unfold sleep, in_time. intros Hd. destruct (done_at ctx) as [[t e]|]; [case_bool_decide|]; intros ?; simplify_eq/=;
    (split; [lia|]); intros ? ? ?; simplify_eq; lia.
Qed.
(** What a stretch of the client's work adds to the record of the environment, and the
    time it takes at most. *)
Definition extends (n n' : net) (reqs : nat) (rq : request) (sl : list Z) : Prop :=
  n_requests n' = n_requests n ++ repeat rq reqs /\ n_sleeps n' = n_sleeps n ++ sl /\
  n_calls n' = n_calls n /\
  in_time (Z.of_nat reqs * clientTimeout + Z.of_nat (length sl) * maxRetryAfter) n n' /\
  n_script n' = drop reqs (n_script n).
Lemma extends_refl n rq : extends n n 0 rq [].
Proof. split_and!; simpl; rewrite ?app_nil_r; try done; apply in_time_refl. Qed.
Lemma extends_trans n1 n2 n3 a b rq s t :
  extends n1 n2 a rq s -> extends n2 n3 b rq t -> extends n1 n3 (a + b) rq (s ++ t).
Proof.
  intros (R1 & S1 & C1 & K1 & X1) (R2 & S2 & C2 & K2 & X2). split_and!; [|by rewrite S2, S1, <- app_assoc|congruence| |].
  - by rewrite R2, R1, repeat_app, app_assoc.
  - pose proof (in_time_trans _ _ _ _ _ K1 K2) as K. rewrite length_app, !Nat2Z.inj_add.
    by replace (_ * _ + _ * _) with (Z.of_nat a * clientTimeout + Z.of_nat (length s) * maxRetryAfter +
      (Z.of_nat b * clientTimeout + Z.of_nat (length t) * maxRetryAfter)) by lia.
  - by rewrite X2, X1, drop_drop.
Qed.
Lemma sleep_extends d n n' r rq : 0 <= d <= maxRetryAfter -> sleep ctx d n = (r, n') ->
  extends n n' 0 rq [d] /\ (r = None -> n_clock n' = n_clock n + d).
Proof.
  intros Hd Hs. pose proof (sleep_in_time _ _ _ _ (proj1 Hd) Hs) as [Ht Hdl]. unfold sleep in Hs.
  assert (Hin : in_time (Z.of_nat 0 * clientTimeout + Z.of_nat (length [d]) * maxRetryAfter) n n') by (split; [simpl; lia|done]).
  destruct (done_at ctx) as [[t e]|]; [case_bool_decide|]; simplify_eq/=;
    (split; [split_and!; simpl; rewrite ?app_nil_r; done|done]).
Qed.
Lemma cut_at_bounds start now finish t e : start <= now <= start + clientTimeout -> cut_at ctx start now finish = Some (t, e) ->
  now <= t <= start + clientTimeout /\ (forall d e', done_at ctx = Some (d, e') -> t <= Z.max d now).
Proof.
  intros Hs. unfold cut_at. cbv zeta. destruct (done_at ctx) as [[d e']|].
  - destruct (bool_decide (d <= now \/ d < finish)) eqn:Ed; simpl.
    + apply bool_decide_eq_true in Ed. destruct (bool_decide (Z.max d now <= start + clientTimeout)) eqn:El.
      * apply bool_decide_eq_true in El. intros [= <- _]. split; [lia|]. intros ?? [= <- _]. lia.
      * apply bool_decide_eq_false in El. case_bool_decide; intros ?; simplify_eq. split; [lia|]. intros ?? [= <- _]. lia.
    + apply bool_decide_eq_false in Ed. case_bool_decide; intros ?; simplify_eq. split; [lia|]. intros ?? [= <- _]. lia.
  - case_bool_decide; intros ?; simplify_eq. split; [lia|done].
Qed.
Lemma uncut_bounds start now finish : cut_at ctx start now finish = None ->
  finish <= start + clientTimeout /\ (forall d e, done_at ctx = Some (d, e) -> finish <= Z.max d now).
Proof.
  unfold cut_at. cbv zeta. destruct (done_at ctx) as [[d e']|]; [|case_bool_decide; [done|]; intros _; split; [lia|done]].
  destruct (bool_decide (d <= now \/ d < finish)) eqn:Ed; simpl.
  - apply bool_decide_eq_true in Ed. destruct (bool_decide (Z.max d now <= start + clientTimeout)) eqn:El; [done|].
    apply bool_decide_eq_false in El. case_bool_decide; [done|]. intros _. split; [lia|]. intros ?? [= <- _]. lia.
  - apply bool_decide_eq_false in Ed. case_bool_decide; [done|]. intros _. split; [lia|]. intros ?? [= <- _]. lia.
Qed.
Lemma http_Do_extends rq n n' r : http_Do ctx rq n = (r, n') -> extends n n' 1 rq [].
Proof.
  unfold http_Do. cbv zeta. set (x := default _ _). set (s := n_clock n). intros Hd.
  assert (Hext : forall t, s <= t <= s + clientTimeout -> (forall d e, done_at ctx = Some (d, e) -> t <= Z.max d s) ->
    extends n (mkNet t (tail (n_script n)) (n_requests n ++ [rq]) (n_sleeps n) (n_calls n)) 1 rq []).
  { intros t Ht Hdl. split_and!; simpl; rewrite ?app_nil_r; try done; simpl; fold s; lia. }
  assert (H0 : 0 <= clientTimeout) by (unfold clientTimeout, Second; lia).
  destruct (cut_at ctx s s _) as [[t e]|] eqn:E1.
  { apply cut_at_bounds in E1 as [Ht Hdl]; [|lia]. simplify_eq. by apply Hext. }
  apply uncut_bounds in E1 as [Ht1 Hdl1]. destruct (x_reply x) as [e|status ra body]; [simplify_eq; apply Hext; [lia|done]|].
  destruct (cut_at ctx s (s + Z.of_N (x_took x)) _) as [[t e]|] eqn:E2.
  - apply cut_at_bounds in E2 as [Ht2 Hdl2]; [|lia]. simplify_eq. apply Hext; [lia|].
    intros d e' Hde. specialize (Hdl1 d e' Hde). specialize (Hdl2 d e' Hde). lia.
  - apply uncut_bounds in E2 as [Ht2 Hdl2]. simplify_eq. apply Hext; [lia|].
    intros d e' Hde. specialize (Hdl1 d e' Hde). specialize (Hdl2 d e' Hde). lia.
Qed.
Lemma wait_positive_extends d n n' r rq : d <= maxRetryAfter -> wait_positive ctx d n = (r, n') ->
  exists sl, extends n n' 0 rq sl /\ Forall wait_ok sl /\ (length sl <= 1)%nat.
Proof.
  intros Hd Hw. unfold wait_positive in Hw. case_bool_decide.
  - exists [d]. apply (sleep_extends _ _ _ _ rq) in Hw as [? _]; [|lia].
    split; [done|]. split; [|simpl; lia]. constructor; [|constructor]. split; lia.
  - unfold ret in Hw. simplify_eq. exists []. split; [apply extends_refl|]. split; [constructor|simpl; lia].
Qed.

Definition backs_off (attempt : Z) (skip : bool) : bool := bool_decide (attempt > 0) && negb skip.
Lemma first_wait attempt skip n st n1 rq :
  0 <= attempt <= retryMax ->
  (if backs_off attempt skip then sleep ctx (retryBaseDelay * 2 ^ (attempt - 1)) else ret None) n = (st, n1) ->
  exists sl, extends n n1 0 rq sl /\ Forall wait_ok sl /\
    length sl = (if backs_off attempt skip then 1 else 0)%nat /\ (attempt = 0 -> st = None).
Proof.
  intros Ha. destruct (backs_off attempt skip) eqn:Hb.
  - assert (attempt = 1 \/ attempt = 2 \/ attempt = 3) as Hc.
    { unfold backs_off in Hb. apply andb_prop in Hb as [Hb%bool_decide_eq_true _]. unfold retryMax in Ha. lia. }
    assert (wait_ok (retryBaseDelay * 2 ^ (attempt - 1))) as Hw by (unfold wait_ok, retryBaseDelay, maxRetryAfter, Millisecond, Second; destruct Hc as [->|[->| ->]]; lia).
    intros [Hx _]%(sleep_extends _ _ _ _ rq); [|destruct Hw; lia].
    exists [retryBaseDelay * 2 ^ (attempt - 1)]. split; [done|]. split; [by constructor|].
    split; [done|]. intros ->. by destruct Hc as [?|[?|?]].
  - unfold ret. intros ?. simplify_eq. exists []. split; [apply extends_refl|]. by split.
Qed.

(** Every pass of the loop makes at most one request, and never two waits. *)
Lemma attempts_extends {A} more attempt skip lastErr rq (decode : Z -> result err string -> result err A) n n' r :
  0 <= attempt -> attempt + Z.of_nat more = retryMax + 1 ->
  attempts ParseTime ctx more attempt skip lastErr rq decode n = (r, n') ->
  exists k sl, (k <= more)%nat /\ (attempt = 0 -> (1 <= k)%nat) /\ extends n n' k rq sl /\ Forall wait_ok sl /\
    (length sl <= match more with O => 0 | S l => (if backs_off attempt skip then 1 else 0) + l end)%nat.
Proof.
  revert attempt skip lastErr n. induction more as [|more IH]; intros attempt skip lastErr n Ha Hl Hr.
  { simpl in Hr. unfold ret in Hr. simplify_eq. exists 0%nat, []. split; [done|]. split; [unfold retryMax in *; lia|].
    split; [apply extends_refl|]. split; [constructor|simpl; lia]. }
  cbn [attempts] in Hr. unfold bind in Hr. fold (backs_off attempt skip) in Hr.
  destruct ((if backs_off attempt skip then sleep ctx (retryBaseDelay * 2 ^ (attempt - 1)) else ret None) n) as [st n1] eqn:Hw.
  apply (first_wait _ _ _ _ _ rq) in Hw as (s1 & E1 & F1 & L1 & Z1); [|unfold retryMax in *; lia]. simpl in Hr.
  destruct st as [e|]; [unfold ret in Hr; simplify_eq; exists 0%nat, s1;
    split_and!; [lia|by intros ?%Z1|done|done|lia]|].
  destruct (http_Do ctx rq n1) as [rep n2] eqn:Hd. apply http_Do_extends in Hd. simpl in Hr.
  pose proof (extends_trans _ _ _ _ _ _ _ _ E1 Hd) as E2. rewrite app_nil_r in E2. simpl in E2.
  assert (Hstop : forall x : result err A, (x, n2) = (r, n') -> exists k sl, (k <= S more)%nat /\ (attempt = 0 -> (1 <= k)%nat) /\ extends n n' k rq sl /\
    Forall wait_ok sl /\ (length sl <= (if backs_off attempt skip then 1 else 0) + more)%nat).
  { intros x ?. simplify_eq. exists 1%nat, s1. split_and!; [lia|lia|done|done|lia]. }
  assert (Hnext : forall (skip' : bool) lastErr' n3 s2, extends n2 n3 0 rq s2 -> Forall wait_ok s2 ->
    (length s2 + (if skip' then 0 else 1) <= 1)%nat -> (s2 = [] \/ more <> 0%nat) ->
    attempts ParseTime ctx more (attempt + 1) skip' lastErr' rq decode n3 = (r, n') ->
    exists k sl, (k <= S more)%nat /\ (attempt = 0 -> (1 <= k)%nat) /\ extends n n' k rq sl /\ Forall wait_ok sl /\
      (length sl <= (if backs_off attempt skip then 1 else 0) + more)%nat).
  { intros skip' lastErr' n3 s2 E3 F3 L3 Hm Hk. apply IH in Hk as (k & s3 & Hk & _ & E4 & F4 & L4); [|lia|lia].
    exists (1 + k)%nat, (s1 ++ s2 ++ s3). split; [lia|]. split; [lia|].
    split; [eapply (extends_trans _ _ _ 1 k); [exact E2|exact (extends_trans _ _ _ 0 k _ _ _ E3 E4)]|].
    split; [by rewrite !Forall_app|]. rewrite !length_app, L1.
    destruct more as [|more]; [destruct Hm as [->|?]; [simpl; lia|done]|].
    unfold backs_off in L4 at 1. destruct skip'; simpl in *; rewrite ?andb_false_r in L4; [lia|].
    destruct (bool_decide (attempt + 1 > 0)); simpl in L4; lia. }
  destruct rep as [e|status ra body broken]; simpl in Hr.
  { eapply (Hnext false _ n2 []); [apply extends_refl|constructor|simpl; lia|by left|exact Hr]. }
  case_bool_decide; [|by eapply Hstop].
  destruct (isRetryable status && bool_decide (attempt < retryMax)) eqn:Hre; [|by eapply Hstop].
  apply andb_prop in Hre as [_ Hlt%bool_decide_eq_true].
  case_bool_decide; [|eapply (Hnext false _ n2 []); [apply extends_refl|constructor|simpl; lia|by left|exact Hr]].
  unfold gets in Hr. simpl in Hr. destruct (wait_positive ctx _ n2) as [st2 n3] eqn:Hw2.
  apply (wait_positive_extends _ _ _ _ rq) in Hw2 as (s2 & E3 & F3 & L3); [|apply retry_after_wait_cap].
  simpl in Hr. destruct st2 as [e|].
  - unfold ret in Hr. simplify_eq. exists 1%nat, (s1 ++ s2).
    split; [lia|]. split; [lia|]. split; [exact (extends_trans _ _ _ 1 0 _ _ _ E2 E3)|].
    split; [by rewrite Forall_app|]. rewrite length_app. lia.
  - eapply (Hnext true _ n3 s2); [exact E3|exact F3|lia|right; lia|exact Hr].
Qed.

Lemma in_time_weaken a b n n' : a <= b -> in_time a n n' -> in_time b n n'.
Proof. intros Hab [H D]. split; [lia|done]. Qed.
Lemma roundTrip_extends {A} rq (decode : Z -> result err string -> result err A) n n' r :
  roundTrip ParseTime ctx rq decode n = (r, n') ->
  exists k sl, (1 <= k <= 4)%nat /\ (length sl <= 3)%nat /\ extends n n' k rq sl /\ Forall wait_ok sl /\ in_time (210 * Second) n n'.
Proof.
  intros Hr. apply attempts_extends in Hr as (k & sl & Hk & H1 & E & F & L); [|done|done].
  exists k, sl. change (Z.to_nat (retryMax + 1)) with 4%nat in *. simpl in L. specialize (H1 eq_refl).
  split; [lia|]. split; [lia|]. split; [done|]. split; [done|]. destruct E as (_ & _ & _ & Ht & _).
  eapply in_time_weaken; [|exact Ht]. unfold clientTimeout, maxRetryAfter, Second. lia.
Qed.

(** C12: one call makes at most four requests, all identical, and between them at
    most three waits of at most 30 seconds each, whatever the server answers and
    whatever its Retry-After says; nothing is counted twice. However slow the server,
    it returns within 210 seconds, and never after the end of its context. *)
Theorem roundTrip_bounded {A} rq (decode : Z -> result err string -> result err A) n n' r :
  roundTrip ParseTime ctx rq decode n = (r, n') ->
  exists k sl, (1 <= k <= 4)%nat /\ n_requests n' = n_requests n ++ repeat rq k /\
    n_sleeps n' = n_sleeps n ++ sl /\ Forall wait_ok sl /\ (length sl <= 3)%nat /\ n_calls n' = n_calls n /\
    in_time (210 * Second) n n'.
Proof.
  intros Hr. destruct (roundTrip_extends _ _ _ _ _ Hr) as (k & sl & Hk & L & (R & S & C & _ & _) & F & Ht). by exists k, sl.
Qed.

(** * DeleteDocs: the busy poll *)

Definition interrupted {A} (r : result err A) : Prop := exists t e, done_at ctx = Some (t, e) /\ r = Err e.
Definition busy_measure (fuel : nat) (deadline now : Z) : Prop :=
  fuel <> O /\ deadline - now < retryBaseDelay * Z.of_nat fuel.
Definition calls_after {A} (r : result err A) (n n' : net) : Prop :=
  n_calls n' = inc (String.append "delete_docs" (match r with Ok _ => "/success" | Err _ => "/error" end)) (n_calls n)
  \/ (n_calls n' = n_calls n /\ interrupted r).

Lemma sleep_interrupted d n e n' : sleep ctx d n = (Some e, n') -> exists t, done_at ctx = Some (t, e).
Proof.
  unfold sleep. destruct (done_at ctx) as [[t e']|]; [case_bool_decide|]; intros ?; simplify_eq. by exists t.
Qed.
Lemma next_delay delay : retryBaseDelay <= delay <= busyRetryMaxDelay ->
  retryBaseDelay <= (if bool_decide (delay * 2 > busyRetryMaxDelay) then busyRetryMaxDelay else delay * 2) <= busyRetryMaxDelay.
Proof. intros. case_bool_decide; unfold retryBaseDelay, busyRetryMaxDelay, Millisecond, Second in *; lia. Qed.

Lemma busy_loop_spec fuel attempt delay start deadline rq um n :
  retryBaseDelay <= delay <= busyRetryMaxDelay -> busy_measure fuel deadline (n_clock n) ->
  exists r n' k sl, busy_loop ParseTime ctx fuel attempt delay start deadline rq um n = (Some r, n') /\
    (1 <= k)%nat /\ n_requests n' = n_requests n ++ repeat rq k /\
    n_sleeps n' = n_sleeps n ++ sl /\ Forall wait_ok sl /\ calls_after r n n' /\
    in_time (Z.max 0 (deadline - n_clock n) + 210 * Second) n n'.
Proof.
  revert attempt delay n. induction fuel as [|fuel IH]; intros attempt delay n Hd [Hf Hm]; [done|].
  cbn [busy_loop]. unfold bind.
  destruct (roundTrip ParseTime ctx rq _ n) as [x n1] eqn:Hr.
  apply roundTrip_extends in Hr as (k & sl & [H1 _] & _ & (R & S & C & _ & _) & F & K).
  assert (Hone : in_time (Z.max 0 (deadline - n_clock n) + 210 * Second) n n1) by (eapply in_time_weaken; [|exact K]; lia).
  destruct x as [out|e].
  2: { eexists (Err e), _, k, sl. split; [reflexivity|]. simpl. split_and!; try done. left. simpl. by rewrite C. }
  cbn [fst snd]. destruct (bool_decide (dd_Status out <> "busy"%string)).
  { eexists (Ok out), _, k, sl. split; [reflexivity|]. simpl. split_and!; try done. left. simpl. by rewrite C. }
  cbn [gets fst snd]. destruct (bool_decide (n_clock n1 + delay > deadline)) eqn:Hlate.
  { eexists (Err _), _, k, sl. split; [reflexivity|]. simpl. split_and!; try done. left. simpl. by rewrite C. }
  apply bool_decide_eq_false in Hlate.
  destruct (sleep ctx delay n1) as [st n2] eqn:Hs.
  assert (Hdel : 0 < retryBaseDelay /\ busyRetryMaxDelay <= maxRetryAfter) by (unfold retryBaseDelay, busyRetryMaxDelay, maxRetryAfter, Millisecond, Second; lia).
  assert (Hok : wait_ok delay) by (unfold wait_ok; lia).
  pose proof (sleep_extends delay n1 n2 st rq ltac:(lia) Hs) as [(R2 & S2 & C2 & K2 & _) Hclock]. simpl in R2.
  rewrite app_nil_r in R2. destruct st as [e|].
  { pose proof (in_time_trans _ _ _ _ _ K (sleep_in_time delay _ _ _ ltac:(lia) Hs)) as Htwo.
    apply sleep_interrupted in Hs as [t Ht]. exists (Err e), n2, k, (sl ++ [delay]). split; [reflexivity|].
    split_and!; [done|by rewrite R2|by rewrite S2, S, app_assoc|by rewrite Forall_app, Forall_singleton| |].
    - right. split; [congruence|]. by exists t, e.
    - destruct K as [K _]. eapply in_time_weaken; [|exact Htwo]. lia. }
  specialize (Hclock eq_refl).
  destruct (IH (attempt + 1) (if bool_decide (delay * 2 > busyRetryMaxDelay) then busyRetryMaxDelay else delay * 2) n2)
    as (r & n' & k2 & sl2 & E & _ & R3 & S3 & F3 & C3 & K3); [by apply next_delay| |].
  { destruct K as [K _]. split; [intros ->; lia|lia]. }
  exists r, n', (k + k2)%nat, (sl ++ delay :: sl2). split; [exact E|].
  split_and!; [lia|by rewrite R3, R2, R, repeat_app, app_assoc| |apply Forall_app; split; [done|by constructor]| |].
  - rewrite S3, S2, S, <- !app_assoc. reflexivity.
  - unfold calls_after in *. by rewrite C2, C in C3.
  - destruct K as [K D], K2 as [K2 D2], K3 as [K3 D3]. simpl in K2. split; [lia|].
    intros d e Hd'. specialize (D d e Hd'). specialize (D2 d e Hd'). specialize (D3 d e Hd'). lia.
Qed.

Lemma busy_fuel_enough now : busy_measure (busy_fuel ctx now) (busy_deadline ctx now) now.
Proof.
  split; [done|]. unfold busy_fuel. set (d := busy_deadline ctx now - now).
  assert (Hb : 0 < retryBaseDelay) by (unfold retryBaseDelay, Millisecond; lia).
  pose proof (Z.div_mod d retryBaseDelay ltac:(lia)). pose proof (Z.mod_pos_bound d retryBaseDelay Hb). nia.
Qed.

(** C11: DeleteDocs always returns: the poll of a busy pipeline ends in a result by
    its deadline (the fuel computed from it is enough: 45 s are 225 polls); every
    poll sends the same complete request, and one call counts once, unless the
    context ended while it slept. However slow the server, it returns within 210
    seconds of its deadline, and never after the end of its context. *)
Theorem DeleteDocs_polls marshal um docIDs n :
  let n' := (DeleteDocs_enough ParseTime ctx marshal um docIDs n).2 in
  exists r k sl,
    HTTP_DeleteDocs ParseTime ctx (busy_fuel ctx (n_clock n)) marshal um docIDs n = (Some r, n') /\
    (DeleteDocs_enough ParseTime ctx marshal um docIDs n).1 = r /\
    (1 <= k)%nat /\ n_requests n' = n_requests n ++ repeat (delete_request (marshal docIDs)) k /\
    n_sleeps n' = n_sleeps n ++ sl /\ Forall wait_ok sl /\ calls_after r n n' /\
    in_time (Z.max 0 (busy_deadline ctx (n_clock n) - n_clock n) + 210 * Second) n n'.
Proof.
  unfold DeleteDocs_enough, HTTP_DeleteDocs, bind, gets. cbn [fst snd].
  edestruct busy_loop_spec as (r & n' & k & sl & E & H1 & R & S & F & C & T);
    [|apply busy_fuel_enough|rewrite E; by exists r, k, sl].
  unfold retryBaseDelay, busyRetryMaxDelay, Millisecond, Second. lia.
Qed.
End RoundTrip.

(** * Concrete runs *)

Definition no_dates (_ : string) : option Z := None.
Definition background : context := mkContext None None.
Definition replies (l : list reply) : net := mkNet 0 ((fun r => mkExchange 1000 r 0 0) <$> l) [] [] ∅.
Definition text_codec (s : string) : option string := Some s.

(** Two 503s, the first with a Retry-After of a minute (capped), then success. *)
Definition flaky : net := replies [Response 503 "60" ""; Response 503 "" ""; Response 200 "" "ok"].
Definition a_request : request := mkRequest "GET" "/health" None.
Definition after_flaky := roundTrip no_dates background a_request (into ""%string text_codec) flaky.
Lemma flaky_run : after_flaky.1 = Ok "ok"%string /\
  n_sleeps after_flaky.2 = [30 * Second; 400 * Millisecond] /\ length (n_requests after_flaky.2) = 3%nat.
Proof. by vm_compute. Qed.
Lemma roundTrip_bounded_witness :
  exists k sl, (1 <= k <= 4)%nat /\ n_requests after_flaky.2 = n_requests flaky ++ repeat a_request k /\
    n_sleeps after_flaky.2 = n_sleeps flaky ++ sl /\ Forall wait_ok sl /\ (length sl <= 3)%nat /\
    n_calls after_flaky.2 = n_calls flaky /\ in_time background (210 * Second) flaky after_flaky.2.
Proof.
  apply (roundTrip_bounded no_dates background a_request (into ""%string text_codec) flaky after_flaky.2 after_flaky.1).
  apply surjective_pairing.
Defined.

(** A Retry-After that overflows 64-bit nanoseconds is a negative wait: the next
    attempt follows at once, without the exponential backoff either. *)
Lemma retry_after_overflow :
  n_sleeps (roundTrip no_dates background a_request (into ""%string text_codec)
    (replies [Response 503 "9223372037" ""; Response 200 "" "ok"])).2 = [].
Proof. by vm_compute. Qed.

(** A server that accepts connections and never answers: four requests of 30 seconds
    each and the backoff between them; a deadline ends the first of them. *)
Definition silent : net := mkNet 0 (replicate 4 (mkExchange (1000 * 1000000000) (Response 200 "" "ok") 0 0)) [] [] ∅.
Lemma silent_server :
  n_clock (roundTrip no_dates background a_request (into ""%string text_codec) silent).2 = 120 * Second + 1400 * Millisecond /\
  (let q := roundTrip no_dates (mkContext (Some (7 * Second)) None) a_request (into ""%string text_codec) silent in
   q.1 = Err (Sentinel DeadlineExceeded) /\ n_clock q.2 = 7 * Second).
Proof. by vm_compute. Qed.
(** A body cut by the deadline: the response is not retried, its decoding fails. *)
Lemma broken_body :
  (roundTrip no_dates (mkContext (Some Second) None) a_request (into ""%string text_codec)
     (mkNet 0 [mkExchange 0 (Response 200 "" "a long body") (2 * 1000000000) 6] [] [] ∅)).1
  = Err (Wrap "lightrag: decode response" (Sentinel DeadlineExceeded)).
Proof. by vm_compute. Qed.

(** Busy twice, then deleted. *)
Definition one_id (l : list string) : string := String.concat "," l.
Definition status_codec (s : string) : option DeleteDocByIdResponse := Some (mkDeleteDoc s "" "").
Definition busy_then_done : net := replies [Response 200 "" "busy"; Response 200 "" "busy"; Response 200 "" "success"].
Lemma busy_then_done_run :
  (DeleteDocs_enough no_dates background one_id status_codec ["d1"%string] busy_then_done).1 =
    Ok (mkDeleteDoc "success" "" "") /\
  n_sleeps (DeleteDocs_enough no_dates background one_id status_codec ["d1"%string] busy_then_done).2 =
    [200 * Millisecond; 400 * Millisecond].
Proof. by vm_compute. Qed.

(** The context ends during the wait: the call is counted nowhere. *)
Lemma DeleteDocs_cancelled_uncounted :
  let run := HTTP_DeleteDocs no_dates (mkContext None (Some (100 * Millisecond))) 226 one_id status_codec
               ["d1"%string] (replies [Response 200 "" "busy"]) in
  run.1 = Some (Err (Sentinel Canceled)) /\ n_calls run.2 = ∅.
Proof. by vm_compute. Qed.
