(* ===== verification/Purge.v ===== *)
(** A purge over HTTP under its budget: [DeleteMemoriesBySources] ([service.go]) hands
    one deadline to every upstream call of the batch ([http.go]). *)
From S2P Require Import Prelude GoErr Db Lightrag LightragHttp EdgeId Translate Tombstone Service.
#[local] Open Scope Z_scope.

(** [context.WithTimeout]. *)
Definition WithTimeout (c : context) (now d : Z) : context :=
  mkContext (Some (match cx_deadline c with Some x => Z.min x (now + d) | None => now + d end)) (cx_cancel c).

Section Purge.
Context (ParseTime : string -> option Z) `{Codec} {T S : Type} `{Tombstoner T} `{SourceIndex S} `{TimeParse}.
Context (has_tomb has_sources : bool) (now : Z).
Abbreviation W := (svc net T S).
(** [if s.purgeBudget > 0 { ctx, cancel = context.WithTimeout(ctx, s.purgeBudget) }]. *)
Definition purge_context (purgeBudget : Z) (c : context) (w : W) : context :=
  if bool_decide (purgeBudget > 0) then WithTimeout c (n_clock (sv_lr w)) purgeBudget else c.
Definition budgeted_purge (purgeBudget : Z) (c : context) (repo : string) (files : list string) : M W (Z * option err) :=
  fun w => DeleteMemoriesBySources (H := HTTPClient_Client ParseTime (purge_context purgeBudget c w))
             has_tomb has_sources now repo files w.

(** * Calls that stay inside their context *)

Section Timely.
Context (ctx : context).
#[local] Instance client : Client net := HTTPClient_Client ParseTime ctx.
(** The clock does not run back, nor past the end of the context. *)
Definition inside (n n' : net) : Prop :=
  n_clock n <= n_clock n' /\ (forall d e, done_at ctx = Some (d, e) -> n_clock n' <= Z.max d (n_clock n)).
#[local] Instance inside_preorder : PreOrder inside.
Proof.
  split; [intros n; split; [done|lia]|]. intros a b c [Hab Da] [Hbc Db]. split; [lia|].
  intros d e Hd. specialize (Da d e Hd). specialize (Db d e Hd). lia.
Qed.
Definition timely {A} (m : M W A) : Prop := forall w, inside (sv_lr w) (sv_lr (m w).2).
Lemma timely_ret {A} (a : A) : timely (ret a).
Proof. by intros w. Qed.
Lemma timely_bind {A B} (m : M W A) (k : A -> M W B) : timely m -> (forall a, timely (k a)) -> timely (bind m k).
Proof. intros Hm Hk w. unfold bind. etrans; [apply Hm|apply Hk]. Qed.
Lemma timely_on_tomb {A} (m : M T A) : timely (on_tomb m).
Proof. by intros w. Qed.
Lemma timely_on_src {A} (m : M S A) : timely (on_src m).
Proof. by intros w. Qed.
Lemma timely_incOp op e : timely (incOp op e).
Proof. by intros w. Qed.
Lemma timely_log msg e : timely (logPurgeErr msg e).
Proof. by intros w. Qed.
Lemma timely_on_lr {A} (m : M net A) : (forall n, inside n (m n).2) -> timely (on_lr m).
Proof. intros Hm w. apply Hm. Qed.
Lemma inside_in_time limit n n' : in_time ctx limit n n' -> inside n n'.
Proof. intros [? ?]. split; [lia|done]. Qed.
Lemma timely_status id : timely (on_lr (TrackStatus id)).
Proof.
  apply timely_on_lr. intros n. simpl. unfold HTTP_TrackStatus, do_, bind.
  destruct (roundTrip _ _ _ _ n) as [r n1] eqn:E.
  apply roundTrip_extends in E as (k & sl & _ & _ & _ & _ & Ht). by apply inside_in_time in Ht.
Qed.
Lemma timely_delete ids : timely (on_lr (DeleteDocs ids)).
Proof.
  apply timely_on_lr. intros n.
  pose proof (busy_loop_spec ParseTime ctx (busy_fuel ctx (n_clock n)) 1 retryBaseDelay (n_clock n) (busy_deadline ctx (n_clock n))
    (delete_request (marshal_ids ids)) unmarshal_delete n) as Hb.
  destruct Hb as (r & n' & k & sl & E & _ & _ & _ & _ & _ & Ht);
    [unfold retryBaseDelay, busyRetryMaxDelay, Millisecond, Second; lia|apply busy_fuel_enough|].
  simpl. unfold DeleteDocs_enough, HTTP_DeleteDocs, bind, gets. cbn [fst snd]. rewrite E. by eapply inside_in_time.
Qed.
#[local] Hint Resolve timely_ret timely_on_tomb timely_on_src timely_incOp timely_log timely_status timely_delete : timely.
Ltac timely := repeat first [apply timely_bind; [|intros ?] | case_match | progress eauto with timely].
Lemma timely_raw id : timely (deleteMemoryRaw has_tomb now id).
Proof. unfold deleteMemoryRaw, rollback. timely. Qed.
#[local] Hint Resolve timely_raw : timely.
Lemma timely_ids ids purged : timely (purge_ids has_tomb now ids purged).
Proof. revert purged. induction ids as [|id ids IH]; intros purged; cbn [purge_ids]; unfold purge_failed; timely. Qed.
#[local] Hint Resolve timely_ids : timely.
Lemma timely_files repo files total : timely (purge_files has_tomb has_sources now repo files total).
Proof.
  revert total. induction files as [|f files IH]; intros total; cbn [purge_files]; [timely|].
  unfold DeleteMemoriesBySource, purge_failed. timely.
Qed.

(** ** After the end of the context *)

Lemma expired_wait {A} more attempt lastErr rq (decode : Z -> result err string -> result err A) n d e :
  done_at ctx = Some (d, e) -> d <= n_clock n -> 1 <= attempt ->
  (attempts ParseTime ctx (Datatypes.S more) attempt false lastErr rq decode n).1 = Err e.
Proof.
  intros Hd Hle Ha. cbn [attempts negb]. rewrite (bool_decide_true (attempt > 0)) by lia. cbn [andb].
  unfold bind at 1, sleep. rewrite Hd, bool_decide_true; [done|].
  assert (0 <= 2 ^ (attempt - 1)) by (apply Z.pow_nonneg; lia). unfold retryBaseDelay, Millisecond. nia.
Qed.
(** The one request of a call after the deadline is given up at once, and the wait
    before the second returns the error of the context. *)
Lemma expired_call {A} rq (decode : Z -> result err string -> result err A) n d e :
  done_at ctx = Some (d, e) -> d <= n_clock n -> (roundTrip ParseTime ctx rq decode n).1 = Err e.
Proof.
  intros Hd Hle. unfold roundTrip. change (Z.to_nat (retryMax + 1)) with 4%nat.
  remember 3%nat as more eqn:Hm. cbn [attempts].
  change (bool_decide (0 > 0) && negb false) with false. cbv iota. rewrite bind_ret_l.
  assert (Hc : http_Do ctx rq n = (Lost (Wrap (rq_method rq) e),
    mkNet (n_clock n) (tail (n_script n)) (n_requests n ++ [rq]) (n_sleeps n) (n_calls n))).
  { unfold http_Do, cut_at. cbv zeta. rewrite Hd, Z.max_r, !bool_decide_true by (unfold clientTimeout, Second; lia). done. }
  rewrite (bind_run _ _ _ _ _ Hc). subst more. by apply (expired_wait 2 _ _ _ _ _ d).
Qed.
(** A memory looked at after the deadline ends the purge there, with an error the
    callers retry on. *)
Lemma expired_delete id (w : W) d : done_at ctx = Some (d, Sentinel DeadlineExceeded) -> d <= n_clock (sv_lr w) ->
  exists e, (deleteMemoryRaw has_tomb now id w).1 = Err (WrapAs ErrBusy e).
Proof.
  intros Hd Hle. exists (Sentinel DeadlineExceeded). unfold deleteMemoryRaw, bind at 1, on_lr. cbn [fst snd].
  assert (Ht : (TrackStatus id (sv_lr w)).1 = Err (Sentinel DeadlineExceeded)); [|by rewrite Ht].
  simpl. unfold HTTP_TrackStatus, do_, bind, ret. cbn [fst]. by apply (expired_call _ _ _ d).
Qed.
End Timely.

Lemma purge_context_ends b c (w : W) d e : 0 < b -> done_at c = Some (d, e) ->
  exists d' e', done_at (purge_context b c w) = Some (d', e') /\ d' <= d.
Proof.
  intros Hb. unfold purge_context. rewrite bool_decide_true by lia. destruct c as [[x|] [y|]];
    unfold WithTimeout, done_at; simpl; repeat case_bool_decide; intros ?; simplify_eq; eexists _, _; (split; [done|lia]).
Qed.
Lemma purge_context_budget b c (w : W) : 0 < b ->
  exists d e, done_at (purge_context b c w) = Some (d, e) /\ d <= n_clock (sv_lr w) + b.
Proof.
  intros Hb. unfold purge_context. rewrite bool_decide_true by lia. destruct c as [[x|] [y|]];
    unfold WithTimeout, done_at; simpl; repeat case_bool_decide; eexists _, _; (split; [done|lia]).
Qed.

(** C36: however many files and memories a purge goes through, and however slow or
    silent LightRAG is, its upstream calls take no more than the budget of the batch in
    all, and end with the caller's context if that ends first. A memory that is reached
    after the deadline is not touched: the purge stops there with an error that is
    answered as one to retry, and with the count of what it removed. *)
Theorem purge_within_budget b c repo files (w : W) : 0 < b ->
  let w' := (budgeted_purge b c repo files w).2 in
  n_clock (sv_lr w) <= n_clock (sv_lr w') <= n_clock (sv_lr w) + b /\
  (forall d e, done_at c = Some (d, e) -> n_clock (sv_lr w') <= Z.max d (n_clock (sv_lr w))) /\
  (forall d (v : W) id ids purged, done_at (purge_context b c w) = Some (d, Sentinel DeadlineExceeded) -> d <= n_clock (sv_lr v) ->
    exists e, (purge_ids (H := HTTPClient_Client ParseTime (purge_context b c w)) has_tomb now (id :: ids) purged v).1 = (purged, Some e) /\
      errors_Is e ErrBusy = true).
Proof.
  intros Hb. cbv zeta.
  assert (Ht : inside (purge_context b c w) (sv_lr w) (sv_lr (budgeted_purge b c repo files w).2)) by exact (timely_files _ repo files 0 w).
  destruct Ht as [Hle Hin]. split; [|split].
  - destruct (purge_context_budget b c w Hb) as (d & e & Hd%Hin & Hdb). lia.
  - intros d e Hdone. destruct (purge_context_ends b c w d e Hb Hdone) as (d' & e' & Hd'%Hin & Hle'). lia.
  - intros d v id ids purged Hdone Hpast. destruct (expired_delete (purge_context b c w) id v d Hdone Hpast) as [e He].
    exists (Wrap "delete memory" (WrapAs ErrBusy e)). split; [|done]. cbn [purge_ids]. unfold bind at 1.
    destruct (deleteMemoryRaw _ _ _ _) as [r v'] eqn:Er. cbn [fst snd] in *. subst r. reflexivity.
Qed.
End Purge.

(** * Concrete runs *)

Definition one_document (body : string) : DocStatusResponse := mkDocStatus body "" 0 "processed" "" "" "" 1 "" ∅ "".
(** Bodies are plain texts: a status of one word, and a track of one document. *)
#[local] Instance plain_codec : Codec := {
  marshal_insert := fun r => in_Text r; unmarshal_insert := fun _ => None;
  unmarshal_track := fun body => Some (mkTrackStatus body [one_document body] 1 ∅); marshal_query := fun r => qr_Query r;
  unmarshal_query := fun _ => None; unmarshal_query_data := fun _ => None;
  unmarshal_exists := fun _ => None; marshal_create := fun r => ec_EntityName r; marshal_update := fun r => eu_EntityName r;
  unmarshal_entity := fun _ => None; unmarshal_labels := fun _ => None; unmarshal_graph := fun _ => None;
  marshal_relation := fun r => rc_SourceEntity r; unmarshal_relation := fun _ => None;
  marshal_ids := one_id; unmarshal_delete := status_codec;
  marshal_delete_relation := String.append; marshal_delete_entity := fun s => s;
  PathEscape := fun s => s; QueryEscape := fun s => s; graph_query := fun l _ _ => l }.
#[local] Instance no_times : TimeParse := { ParseRFC3339 := no_dates; ParseRFC3339Nano := no_dates }.
Definition says (took : N) (body : string) : exchange := mkExchange (took * 1000000000) (Response 200 "" body) 0 0.
(** File a made the memory m1 and file b the memory m2. *)
Definition two_files (script : list exchange) (tombs : list env) : svc net (Db tomb_table) (Db source_table) :=
  mkSvc (mkNet 0 script [] [] ∅) (mkDb ∅ tombs) (mkDb {[("r", "a", "m1"); ("r", "b", "m2")]} []) ∅ [].
Definition purge_run (script : list exchange) (tombs : list env) :=
  budgeted_purge no_dates true true 0 (5 * Second) background "r" ["a"; "b"] (two_files script tombs).

(** The server deletes the memory of the first file and then goes silent: the budget of
    five seconds ends the batch with one memory removed and the other file still
    indexed. *)
Definition silent_midway : list exchange := [says 1 "d1"; says 1 "success"; says 1000 "d2"].
Lemma purge_stopped_midway :
  let q := purge_run silent_midway [] in
  fst q.1 = 1 /\ (fun e => errors_Is e ErrBusy) <$> snd q.1 = Some true /\ n_clock (sv_lr q.2) = 5 * Second /\
  elements (db_tab (sv_src q.2)) = [("r", "b", "m2")].
Proof. by vm_compute. Qed.
Lemma purge_within_budget_witness :
  0 < 5 * Second /\
  n_clock (sv_lr (purge_run silent_midway []).2) <= n_clock (sv_lr (two_files silent_midway [])) + 5 * Second.
Proof.
  assert (Hb : 0 < 5 * Second) by reflexivity. split; [exact Hb|]. unfold purge_run.
  exact (proj2 (proj1 (purge_within_budget no_dates true true 0 (5 * Second) background "r" ["a"; "b"]
    (two_files silent_midway []) Hb))).
Defined.

(** The delete of a memory is cut off by the deadline. The tombstone is taken back under
    the same context, which the database refuses: the memory stays hidden although no
    delete of it was accepted. *)
Lemma refused_delete_stays_hidden :
  let q := purge_run [says 1 "d1"; says 1000 ""] [calm; mkEnv (Fails DeadlineExceeded) ∅ 0 ""] in
  is_Some (snd q.1) /\ fst q.1 = 0 /\ map_to_list (db_tab (sv_tomb q.2)) = [("m1", mkTombstone 0 0 None)] /\
  elements (db_tab (sv_src q.2)) = [("r", "a", "m1"); ("r", "b", "m2")].
Proof. cbv zeta. split_and!; [by eexists|by vm_compute..]. Qed.
