(* ===== verification/HttpApi.v ===== *)
(** The HTTP handlers of the memory service ([internal/httpapi]): request
    validation, the classification of domain errors into status codes
    ([errmap.go], [dberrors.go]) and the handlers for memories, queries,
    entities, edges and bulk ingest.

    A request is its decoded body and parameters (JSON decoding is a parameter
    where its result matters), a response the status, the Retry-After header and
    the body.  The services are the interfaces of [service.go], so every handler
    is verified against what they may answer. *)
From S2P Require Import Prelude GoErr JobStore Pool Db Enqueue Lightrag EdgeId Translate Tombstone Service LightragHttp.

(** * Responses *)

Inductive payload :=
| PNone
| PError (msg : string)
| PMemory (m : Memory)
| PJob (j : IngestJob)
| PQuery (r : QueryResult)
| PDescribe (r : DescribeResult)
| PEntity (e : Entity)
| PEntities (l : list Entity)
| PEdge (e : Edge)
| PEdges (l : list Edge).
Record response := mkResponse { rs_status : Z; rs_retry_after : option Z; rs_body : payload }.

Definition WriteError (status : Z) (msg : string) : response := mkResponse status None (PError msg).
Definition WriteJSON (status : Z) (p : payload) : response := mkResponse status None p.
Definition retry_later (status : Z) (msg : string) : response := mkResponse status (Some 5) (PError msg).

(** * dberrors.go and errmap.go *)

Definition is_one_of (s : string) (l : list string) : bool := existsb (fun x => bool_decide (s = x)) l.
Definition isDBUnavailable (e : err) : bool :=
  errors_Is e ErrBadConn || errors_Is e ErrConnDone ||
  match As_PgError e with
  | Some code => String.prefix "08" code || is_one_of code ["53300"; "53400"; "57P01"; "57P02"; "57P03"]%string
  | None => As_ConnectError e || As_NetError e
  end.
Definition isDBLockContention (e : err) : bool := bool_decide (As_PgError e = Some "55P03"%string).

(** mapServiceError; [shown] is [err.Error()]. *)
Definition mapServiceError (shown : err -> string) (e : err) : response :=
  if errors_Is e ErrEntityNotFound then WriteError 404 "not found"
  else if errors_Is e ErrInvalidScope then WriteError 400 (shown e)
  else if errors_Is e ErrInvalid then WriteError 400 "invalid input"
  else if errors_Is e ErrNotFound then WriteError 404 "not found"
  else if errors_Is e ErrBusy || errors_Is e DeadlineExceeded || isDBLockContention e
  then retry_later 429 "overloaded, retry after backoff"
  else if errors_Is e ErrTransient then retry_later 503 "upstream temporarily unavailable"
  else if isDBUnavailable e then retry_later 503 "database temporarily unavailable"
  else if errors_Is e Canceled then WriteError 499 "client closed request"
  else if errors_Is e ErrUpstream then WriteError 502 "upstream error"
  else if errors_Is e ErrDuplicateKey then WriteError 400 "duplicate idempotency key in batch"
  else WriteError 500 "internal error".

(** * The services the handlers call (service.go) *)

Class MemoryService (A : Type) := {
  ms_CreateMemory : Memory -> M A (result err Memory);
  ms_GetMemory : string -> M A (result err Memory);
  ms_DeleteMemory : string -> M A (result err unit);
  ms_DeleteMemoriesBySources : string -> list string -> M A (Z * option err);
  ms_Query : Query -> M A (result err QueryResult);
  ms_QueryData : Query -> M A (result err QueryResult);
  ms_Describe : Query -> M A (result err DescribeResult);
  ms_GetEntity : string -> M A (result err Entity);
  ms_SearchEntities : string -> M A (result err (list Entity));
  ms_PatchEntity : string -> Entity -> M A (result err Entity);
  ms_ListEdges : M A (result err (list Edge));
  ms_CreateEdge : Edge -> M A (result err Edge);
  ms_DeleteEdge : string -> M A (result err unit) }.
Class IngestService (I : Type) := {
  is_Enqueue : list IngestItem -> M I (result err IngestJob);
  is_GetJob : string -> M I (result err IngestJob) }.

(** The memory service is one, over any collaborators. *)
#[global] Instance Service_MemoryService {L T S} `{Client L} `{Tombstoner T} `{SourceIndex S} `{TimeParse}
    (now : Z) : MemoryService (svc L T S) := {
  ms_CreateMemory := CreateMemory now; ms_GetMemory := GetMemory true;
  ms_DeleteMemory := DeleteMemory true now;
  ms_DeleteMemoriesBySources := DeleteMemoriesBySources true true now;
  ms_Query := Query_ true; ms_QueryData := QueryData true; ms_Describe := Describe true;
  ms_GetEntity := GetEntity; ms_SearchEntities := SearchEntities; ms_PatchEntity := PatchEntity;
  ms_ListEdges := ListEdges; ms_CreateEdge := CreateEdge; ms_DeleteEdge := DeleteEdge }.
(** The enqueuer over a job store and the pool's channel. *)
#[global] Instance Enqueuer_IngestService {S U} `{JobStore S} (rand : nat -> string) (cfg : PoolConfig)
    (now : Z) : IngestService (pool S U) := {
  is_Enqueue := Enqueue rand cfg now; is_GetJob := fun id => on_store (GetJob id) }.

(** * Handlers *)

Definition maxSmallBody : Z := 1048576.
Definition maxTopK : Z := 500.
Definition defaultTopK : Z := 10.
Definition maxBulkBody : Z := 33554432.

Section Handlers.
Context {A I : Type} `{MemoryService A} `{IngestService I} (shown : err -> string).
Abbreviation W := (A * I)%type.

Definition on_memory {X} (m : M A X) : M W X := fun w => let q := m w.1 in (q.1, (q.2, w.2)).
Definition on_ingest {X} (m : M I X) : M W X := fun w => let q := m w.2 in (q.1, (w.1, q.2)).
(** [if err != nil { mapServiceError(w, r, err); return }]. *)
Definition answer {X} (m : M W (result err X)) (k : X -> response) : M W response :=
  r <- m ;; ret (match r with Ok x => k x | Err e => mapServiceError shown e end).
(** [decodeStrict]: [None] is a body that is too large, malformed or has unknown
    fields. *)
Definition decodeStrict {X} (body : option X) (k : X -> M W response) : M W response :=
  match body with None => ret (WriteError 400 "invalid json") | Some x => k x end.

Definition handlePostMemory (body : option Memory) : M W response :=
  decodeStrict body (fun m => answer (on_memory (ms_CreateMemory m)) (fun c => WriteJSON 201 (PMemory c))).
Definition handleGetMemory (id : string) : M W response :=
  answer (on_memory (ms_GetMemory id)) (fun m => WriteJSON 200 (PMemory m)).
Definition handleDeleteMemory (id : string) : M W response :=
  answer (on_memory (ms_DeleteMemory id)) (fun _ => mkResponse 204 None PNone).

Definition clampTopK (q : Query) : option Query :=
  if bool_decide (q_TopK q < 0) then None
  else let k := if bool_decide (q_TopK q = 0) then defaultTopK else q_TopK q in
       Some (mkQuery (q_Mode q) (q_Text q) (if bool_decide (k > maxTopK) then maxTopK else k)).
(** The checks the three query handlers share, in their order. *)
Definition validQuery (body : option Query) (k : Query -> M W response) : M W response :=
  decodeStrict body (fun q =>
  if negb (Valid (q_Mode q)) then ret (WriteError 400 "invalid mode")
  else if bool_decide (q_Text q = ""%string) then ret (WriteError 400 "text required")
  else match clampTopK q with
       | None => ret (WriteError 400 "top_k must be non-negative")
       | Some q => k q
       end).
Definition handlePostQuery (body : option Query) : M W response :=
  validQuery body (fun q => answer (on_memory (ms_Query q)) (fun r => WriteJSON 200 (PQuery r))).
Definition handlePostQueryDescribe (body : option Query) : M W response :=
  validQuery body (fun q => answer (on_memory (ms_Describe q)) (fun r => WriteJSON 200 (PDescribe r))).
Definition handlePostQueryData (body : option Query) : M W response :=
  validQuery body (fun q => answer (on_memory (ms_QueryData q)) (fun r => WriteJSON 200 (PQuery r))).

Definition handleGetEntity (id : string) : M W response :=
  answer (on_memory (ms_GetEntity id)) (fun e => WriteJSON 200 (PEntity e)).
Definition handleSearchEntities (q : string) : M W response :=
  if bool_decide (q = ""%string) then ret (WriteError 400 "missing query parameter q")
  else answer (on_memory (ms_SearchEntities q)) (fun es => WriteJSON 200 (PEntities es)).
Definition handlePatchEntity (id : string) (body : option Entity) : M W response :=
  decodeStrict body (fun patch =>
  answer (on_memory (ms_PatchEntity id patch)) (fun e => WriteJSON 200 (PEntity e))).
Definition handleListEdges : M W response :=
  answer (on_memory ms_ListEdges) (fun es => WriteJSON 200 (PEdges es)).
Definition handleCreateEdge (body : option Edge) : M W response :=
  decodeStrict body (fun e =>
  if bool_decide (ed_From e = ""%string) || bool_decide (ed_To e = ""%string) || bool_decide (ed_Relation e = ""%string)
  then ret (WriteError 400 "from_entity, to_entity, relation required")
  else answer (on_memory (ms_CreateEdge e)) (fun c => WriteJSON 201 (PEdge c))).
Definition handleDeleteEdge (id : string) : M W response :=
  answer (on_memory (ms_DeleteEdge id)) (fun _ => mkResponse 204 None PNone).

(** Bulk ingest. *)
Record BulkMemoriesRequest := mkBulk {
  bk_Repo : string; bk_ReconcileFiles : list string; bk_Items : list IngestItem }.
Context (unmarshal_items : string -> option (list IngestItem))
  (decode_request : string -> option BulkMemoriesRequest).
Definition is_json_space (c : Ascii.ascii) : bool :=
  let n := Ascii.nat_of_ascii c in
  (n =? 32)%nat || (n =? 9)%nat || (n =? 13)%nat || (n =? 10)%nat.
Fixpoint TrimLeft (s : string) : string :=
  match s with
  | EmptyString => EmptyString
  | String c s' => if is_json_space c then TrimLeft s' else s
  end.
Definition decodeBulk (body : string) : option BulkMemoriesRequest :=
  match TrimLeft body with
  | String c _ => if bool_decide (c = Ascii.ascii_of_nat 91) (* '[' *)
                  then mkBulk "" [] <$> unmarshal_items body else decode_request body
  | EmptyString => decode_request body
  end.
Fixpoint repoFromItems (items : list IngestItem) : string :=
  match items with
  | [] => ""
  | it :: items =>
      let r := default ""%string (it_Metadata it !! "repo"%string) in
      if bool_decide (r <> ""%string) then r else repoFromItems items
  end.
Definition readAllLimited (body : string) : option string :=
  if bool_decide (maxBulkBody < Z.of_nat (String.length body)) then None else Some body.
Definition purged_job : IngestJob := mkJob "" JobStatusSucceeded 0 0 0 [] 0 0.
(** The tail: nothing to insert, or enqueue. *)
Definition bulk_insert (items : list IngestItem) : M W response :=
  match items with
  | [] => ret (WriteJSON 200 (PJob purged_job))
  | _ => answer (on_ingest (is_Enqueue items)) (fun job => WriteJSON 202 (PJob job))
  end.
Definition bulk_repo (req : BulkMemoriesRequest) : string :=
  if bool_decide (bk_Repo req = ""%string) then repoFromItems (bk_Items req) else bk_Repo req.
Definition handleBulkIngest (body : string) : M W response :=
  match readAllLimited body ≫= decodeBulk with
  | None => ret (WriteError 400 "invalid json")
  | Some req =>
      match bk_Items req, bk_ReconcileFiles req with
      | [], [] => ret (WriteError 400 "items must not be empty")
      | items, [] => bulk_insert items
      | items, files =>
          let repo := bulk_repo req in
          if bool_decide (repo = ""%string)
          then ret (WriteError 400 "repo is required when reconcile_files is set")
          else
            p <- on_memory (ms_DeleteMemoriesBySources repo files) ;;
            match p.2 with
            | Some e => ret (mapServiceError shown e)
            | None => bulk_insert items
            end
      end
  end.
Definition handleGetJob (id : string) : M W response :=
  answer (on_ingest (is_GetJob id)) (fun job => WriteJSON 200 (PJob job)).
End Handlers.

(** * Classification of failures *)

Definition retryable (status : Z) : Prop := status = 429 \/ status = 503.
Lemma mapServiceError_status shown e :
  rs_status (mapServiceError shown e) ∈ [400; 404; 429; 499; 500; 502; 503] /\
  (rs_retry_after (mapServiceError shown e) = Some 5 <-> retryable (rs_status (mapServiceError shown e))).
Proof.
  unfold mapServiceError, retryable.
  repeat match goal with |- context [if ?b then _ else _] => destruct b end; simpl;
    (split; [set_solver|]); split; intros; naive_solver.
Qed.
Lemma mapServiceError_fails shown e : rs_status (mapServiceError shown e) <> 200 /\
  rs_status (mapServiceError shown e) <> 202.
Proof.
  destruct (mapServiceError_status shown e) as [Hs _]. split; intros Heq; rewrite Heq in Hs;
    repeat (apply elem_of_cons in Hs as [|Hs]; [done|]); by apply elem_of_nil in Hs.
Qed.

(** What the client is told about an upstream failure, by what the LightRAG client
    reported. *)
Definition upstream_status (e : err) : Z :=
  if As_BusyError e then 429
  else match As_HTTPError e with
       | Some st => if bool_decide (st = 404) then 404 else if bool_decide (st = 429) then 429
                    else if bool_decide (st >= 500) then 503 else 502
       | None => if errors_Is e DeadlineExceeded then 429 else if errors_Is e Canceled then 503 else 502
       end.
Lemma wrapUpstream_cases e :
  exists s, wrapUpstream e = WrapAs s e /\ upstream_status e =
    match s with ErrBusy => 429 | ErrNotFound => 404 | ErrTransient => 503 | _ => 502 end /\
    s ∈ [ErrBusy; ErrNotFound; ErrTransient; ErrUpstream].
Proof.
  unfold wrapUpstream, upstream_status, StatusNotFound, StatusTooManyRequests.
  destruct (As_BusyError e); [exists ErrBusy; set_solver|].
  destruct (As_HTTPError e) as [st|].
  - case_bool_decide; [exists ErrNotFound; set_solver|].
    case_bool_decide; [exists ErrBusy; set_solver|].
    case_bool_decide; [exists ErrTransient|exists ErrUpstream]; set_solver.
  - destruct (errors_Is e DeadlineExceeded); [exists ErrBusy; set_solver|].
    destruct (errors_Is e Canceled); [exists ErrTransient|exists ErrUpstream]; set_solver.
Qed.

Section Answers.
Context {A I : Type} `{MemoryService A} `{IngestService I} (shown : err -> string).
Context (unmarshal_items : string -> option (list IngestItem))
  (decode_request : string -> option BulkMemoriesRequest).
Abbreviation W := (A * I)%type.

(** C21: an upstream failure reported by the LightRAG client becomes one answer
    through both classification steps: a held pipeline lock, an upstream 429 and a
    spent deadline are 429, an upstream 5xx is 503, both with Retry-After 5; a 404
    is 404 and every other failure 502; it is never a 500 and never a success. *)
Theorem upstream_failure_answer e :
  let r := mapServiceError shown (wrapUpstream e) in
  rs_status r = upstream_status e /\ rs_status r ∈ [404; 429; 502; 503] /\
  (rs_retry_after r = Some 5 <-> retryable (upstream_status e)).
Proof.
  destruct (wrapUpstream_cases e) as (s & -> & -> & Hs). simpl.
  repeat (apply elem_of_cons in Hs as [->|Hs]); [..|by apply elem_of_nil in Hs];
    (split; [done|]; split; [simpl; set_solver|]; split; simpl; unfold retryable; naive_solver).
Qed.

Lemma bulk_insert_spec items (w : W) :
  let q := bulk_insert shown items w in
  q.2.1 = w.1 /\ (rs_status q.1 = 200 -> items = [] /\ q.2 = w) /\
  (rs_status q.1 = 202 -> exists job, (is_Enqueue items w.2).1 = Ok job /\ rs_body q.1 = PJob job) /\
  (items = [] \/ q.2.2 = (is_Enqueue items w.2).2).
Proof.
  destruct items as [|it items].
  - simpl. split_and!; try done. by left.
  - unfold bulk_insert, answer, on_ingest, bind. cbn [fst snd].
    destruct (is_Enqueue (it :: items) w.2) as [[job|e] i'] eqn:E; simpl.
    + split_and!; try done; [by exists job|by right].
    + destruct (mapServiceError_fails shown e). split_and!; try done. by right.
Qed.

(** The purge a bulk request asks for went through. *)
Definition purge_done (req : BulkMemoriesRequest) (a : A) : Prop :=
  bk_ReconcileFiles req = [] \/
  (bulk_repo req <> ""%string /\
   (ms_DeleteMemoriesBySources (bulk_repo req) (bk_ReconcileFiles req) a).1.2 = None).

(** C10: a bulk ingest purges before it inserts: the job store is touched only when
    every reconcile file was purged, and only by enqueuing exactly the request's
    items; 202 carries the job that was accepted, 200 means a pure purge that
    succeeded, and a body that does not decode changes nothing. *)
Theorem bulk_purges_before_insert body (w : W) :
  let '(r, w') := handleBulkIngest shown unmarshal_items decode_request body w in
  match readAllLimited body ≫= decodeBulk unmarshal_items decode_request with
  | None => rs_status r = 400 /\ w' = w
  | Some req =>
      (w'.2 = w.2 \/ (purge_done req w.1 /\ w'.2 = (is_Enqueue (bk_Items req) w.2).2)) /\
      (w'.1 = w.1 \/ (bk_ReconcileFiles req <> [] /\
         w'.1 = (ms_DeleteMemoriesBySources (bulk_repo req) (bk_ReconcileFiles req) w.1).2)) /\
      (rs_status r = 202 -> purge_done req w.1 /\
         exists job, (is_Enqueue (bk_Items req) w.2).1 = Ok job /\ rs_body r = PJob job) /\
      (rs_status r = 200 -> purge_done req w.1 /\ bk_Items req = [] /\ bk_ReconcileFiles req <> [])
  end.
Proof.
  destruct (handleBulkIngest _ _ _ body w) as [r w'] eqn:Hh. unfold handleBulkIngest in Hh.
  destruct (readAllLimited body ≫= _) as [req|]; [|by injection Hh as <- <-].
  destruct (bk_ReconcileFiles req) as [|f files] eqn:Hf.
  - destruct (bk_Items req) as [|it items] eqn:Hi; [injection Hh as <- <-; simpl; split_and!; auto; done|].
    destruct (bulk_insert_spec (it :: items) w) as (Hm & H200 & H202 & Hs). rewrite Hh in Hm, H200, H202, Hs.
    cbn [fst snd] in *. assert (Hp : purge_done req w.1) by by left.
    destruct Hs as [?|Hs]; [done|]. split_and!; auto. by intros [? _]%H200.
  - assert (Hh' : (if bool_decide (bulk_repo req = ""%string)
      then ret (WriteError 400 "repo is required when reconcile_files is set")
      else p <- on_memory (ms_DeleteMemoriesBySources (bulk_repo req) (f :: files)) ;;
           match p.2 with Some e => ret (mapServiceError shown e) | None => bulk_insert shown (bk_Items req) end) w
      = (r, w')) by by destruct (bk_Items req). clear Hh.
    case_bool_decide as Hr; [injection Hh' as <- <-; simpl; split_and!; auto; done|].
    unfold bind, on_memory in Hh'. cbn [fst snd] in Hh'.
    destruct (ms_DeleteMemoriesBySources (bulk_repo req) (f :: files) w.1) as [[n [e|]] a'] eqn:Hd; cbn [fst snd] in Hh'.
    + injection Hh' as <- <-. destruct (mapServiceError_fails shown e). simpl. split_and!; auto; try done.
    + assert (Hp : purge_done req w.1) by (right; by rewrite Hf, Hd).
      destruct (bulk_insert_spec (bk_Items req) (a', w.2)) as (Hm & H200 & H202 & Hs).
      rewrite Hh' in Hm, H200, H202, Hs. cbn [fst snd] in *. split_and!; auto.
      * destruct Hs as [Hn|Hs]; [left|by right]. rewrite Hn in Hh'. by injection Hh' as <- <-.
      * intros [Hn _]%H200. auto.
Qed.
End Answers.

(** * The whole stack on concrete input *)

(** Handlers over the service over the HTTP client over a scripted network, with
    the stores of the service in an ideal database. *)
Section Stack.
#[local] Instance no_codec : Codec := {
  marshal_insert := fun r => in_Text r; unmarshal_insert := fun _ => None;
  unmarshal_track := fun _ => None; marshal_query := fun r => qr_Query r;
  unmarshal_query := fun _ => None; unmarshal_query_data := fun _ => None;
  unmarshal_exists := fun _ => None; marshal_create := fun r => ec_EntityName r; marshal_update := fun r => eu_EntityName r;
  unmarshal_entity := fun _ => None; unmarshal_labels := fun _ => None;
  unmarshal_graph := fun b => if bool_decide (b = "{}"%string) then Some (mkGraph [] []) else None;
  marshal_relation := fun r => rc_SourceEntity r; unmarshal_relation := fun _ => None;
  marshal_ids := one_id; unmarshal_delete := status_codec;
  marshal_delete_relation := String.append; marshal_delete_entity := fun s => s;
  PathEscape := fun s => s; QueryEscape := fun s => s; graph_query := fun l _ _ => l }.
#[local] Instance no_times : TimeParse := { ParseRFC3339 := no_dates; ParseRFC3339Nano := no_dates }.
#[local] Instance stack_range : MapRange := map_to_list_range.
Definition stack_client (c : context) : Client net := HTTPClient_Client no_dates c.
Definition stack_memory (c : context) : MemoryService (svc net (Db tomb_table) (Db source_table)) :=
  @Service_MemoryService net _ _ (stack_client c) _ _ _ 0.
Definition stack_ingest : IngestService (pool MemStore.t unit) := Enqueuer_IngestService counter_rand (newPool 1 1 0) 0.
Definition stack (l : list reply) : svc net (Db tomb_table) (Db source_table) * pool MemStore.t unit :=
  (mkSvc (replies l) (mkDb ∅ []) (mkDb ∅ []) ∅ [], empty_pool).
Definition no_text (_ : err) : string := "".
Definition get_entity_status (c : context) (l : list reply) : Z :=
  rs_status (@handleGetEntity _ _ (stack_memory c) no_text "e" (stack l)).1.

(** Through the whole stack, a LightRAG that cannot be reached at all is
    answered 502, the status of a permanent fault, where one that answers 500 is
    answered 503; and a request whose client went away during the upstream call is
    answered 503, not 499. *)
Theorem unreachable_is_permanent :
  get_entity_status background (replicate 4 (Transport NetError)) = 502 /\
  get_entity_status background (replicate 4 (Response 500 "" "")) = 503 /\
  get_entity_status (mkContext None (Some 5000)) [Transport (Wrap "Get" (Sentinel Canceled))] = 503.
Proof. by vm_compute. Qed.

(** Asking for an ingest job that does not exist is answered 500, whatever the
    store holds. *)
Theorem missing_job_is_500 {A} shown (w : A * pool MemStore.t unit) id :
  p_store w.2 !! id = None ->
  rs_status (@handleGetJob A _ stack_ingest shown id w).1 = 500 /\
  (@handleGetJob A _ stack_ingest shown id w).2 = w.
Proof.
  destruct w as [a [st u n m]]. simpl. intros Hm.
  unfold handleGetJob, answer, on_ingest, bind, on_store. simpl. unfold MemStore.GetJob. by rewrite Hm.
Qed.
Lemma missing_job_is_500_witness :
  p_store (stack []).2 !! "j"%string = None /\
  rs_status (@handleGetJob _ _ stack_ingest no_text "j" (stack [])).1 = 500.
Proof.
  split; [reflexivity|]. apply (missing_job_is_500 no_text (stack []) "j"). reflexivity.
Defined.
End Stack.
