(* ===== verification/Admission.v ===== *)
(** Admission control of the bulk routes ([internal/httpapi/admission.go]).

    The limiter is a buffered channel of slots shared by concurrent requests; each
    request is a phase of the Middleware's code and a step is one of its atomic
    actions (the [select] with a default, the queue's [select], the deferred
    releases).  A step relation interleaves any number of requests with the clock. *)
From S2P Require Import Prelude.

(** * Definitions *)

Record AdmissionConfig := mkAdmissionConfig { MaxInFlight : Z; Wait : Z; RetryAfter : Z }.

(** Where one request is in the Middleware. *)
Inductive phase :=
| Queued (start : Z)             (* in queue's select *)
| Holding                        (* slot taken, gauge not yet bumped *)
| Serving                        (* in next.ServeHTTP *)
| Leaving                        (* gauge dropped, slot still held *)
| Served                         (* slot returned *)
| Shed (retryAfter : Z)          (* answered 429 *)
| Gone                           (* answered 499 *)
| Unlimited.                     (* no limiter: next is called directly *)

Record adm := mkAdm {
  ad_slots : Z;                  (* len(l.slots) *)
  ad_reqs : list phase;
  ad_inFlight : Z; ad_waiting : Z;
  ad_admitted : Z; ad_shed : Z; ad_canceled : Z;
  ad_seq : Z;                    (* l.shedSeq, a uint64 *)
  ad_now : Z }.
Definition idle (now : Z) : adm := mkAdm 0 [] 0 0 0 0 0 0 now.

(** [math.Ceil(d.Seconds())], exact for the durations whose nanoseconds a float64
    of seconds still distinguishes (below 2^22 seconds). *)
Definition ceil_seconds (d : Z) : Z := - ((- d) / Second).
Definition retryAfterEighths (i : Z) : Z := nth (Z.to_nat i) [0; 1; 2; 3] 0.
Definition uint64 (z : Z) : Z := z mod 2 ^ 64.

Section Limiter.
Context (cfg : AdmissionConfig).

Definition retry_base : Z :=
  let base := ceil_seconds (RetryAfter cfg) in if bool_decide (base < 1) then 1 else base.
(** [retryAfterSeconds]: the value and the advanced counter. *)
Definition retryAfterSeconds (seq : Z) : Z * Z :=
  let seq := uint64 (seq + 1) in
  (int64 (retry_base + int64 (retry_base * retryAfterEighths (Z.land seq 3)) / 8), seq).

(** The first select of the Middleware. *)
Definition arrive (s : adm) : adm :=
  if bool_decide (MaxInFlight cfg <= 0)
  then mkAdm (ad_slots s) (ad_reqs s ++ [Unlimited]) (ad_inFlight s) (ad_waiting s)
         (ad_admitted s) (ad_shed s) (ad_canceled s) (ad_seq s) (ad_now s)
  else if bool_decide (ad_slots s < MaxInFlight cfg)
  then mkAdm (ad_slots s + 1) (ad_reqs s ++ [Holding]) (ad_inFlight s) (ad_waiting s)
         (ad_admitted s + 1) (ad_shed s) (ad_canceled s) (ad_seq s) (ad_now s)
  else mkAdm (ad_slots s) (ad_reqs s ++ [Queued (ad_now s)]) (ad_inFlight s) (ad_waiting s + 1)
         (ad_admitted s) (ad_shed s) (ad_canceled s) (ad_seq s) (ad_now s).

(** The three arms of queue's select. *)
Definition queue_admit (i : nat) (s : adm) : option adm :=
  match ad_reqs s !! i with
  | Some (Queued _) =>
      if bool_decide (ad_slots s < MaxInFlight cfg)
      then Some (mkAdm (ad_slots s + 1) (<[i := Holding]> (ad_reqs s)) (ad_inFlight s) (ad_waiting s - 1)
                   (ad_admitted s + 1) (ad_shed s) (ad_canceled s) (ad_seq s) (ad_now s))
      else None
  | _ => None
  end.
Definition queue_timeout (i : nat) (s : adm) : option adm :=
  match ad_reqs s !! i with
  | Some (Queued start) =>
      if bool_decide (start + Z.max (Wait cfg) 0 <= ad_now s)
      then let r := retryAfterSeconds (ad_seq s) in
           Some (mkAdm (ad_slots s) (<[i := Shed r.1]> (ad_reqs s)) (ad_inFlight s) (ad_waiting s - 1)
                   (ad_admitted s) (ad_shed s + 1) (ad_canceled s) r.2 (ad_now s))
      else None
  | _ => None
  end.
Definition queue_cancel (i : nat) (s : adm) : option adm :=
  match ad_reqs s !! i with
  | Some (Queued _) =>
      Some (mkAdm (ad_slots s) (<[i := Gone]> (ad_reqs s)) (ad_inFlight s) (ad_waiting s - 1)
              (ad_admitted s) (ad_shed s) (ad_canceled s + 1) (ad_seq s) (ad_now s))
  | _ => None
  end.
(** Serving, and the deferred calls in their order: the gauge, then the slot. *)
Definition serve (i : nat) (s : adm) : option adm :=
  match ad_reqs s !! i with
  | Some Holding => Some (mkAdm (ad_slots s) (<[i := Serving]> (ad_reqs s)) (ad_inFlight s + 1) (ad_waiting s)
                            (ad_admitted s) (ad_shed s) (ad_canceled s) (ad_seq s) (ad_now s))
  | _ => None
  end.
Definition leave (i : nat) (s : adm) : option adm :=
  match ad_reqs s !! i with
  | Some Serving => Some (mkAdm (ad_slots s) (<[i := Leaving]> (ad_reqs s)) (ad_inFlight s - 1) (ad_waiting s)
                            (ad_admitted s) (ad_shed s) (ad_canceled s) (ad_seq s) (ad_now s))
  | _ => None
  end.
Definition release (i : nat) (s : adm) : option adm :=
  match ad_reqs s !! i with
  | Some Leaving => Some (mkAdm (ad_slots s - 1) (<[i := Served]> (ad_reqs s)) (ad_inFlight s) (ad_waiting s)
                            (ad_admitted s) (ad_shed s) (ad_canceled s) (ad_seq s) (ad_now s))
  | _ => None
  end.
Definition wait_clock (d : N) (s : adm) : adm :=
  mkAdm (ad_slots s) (ad_reqs s) (ad_inFlight s) (ad_waiting s)
    (ad_admitted s) (ad_shed s) (ad_canceled s) (ad_seq s) (ad_now s + Z.of_N d).

Inductive adm_step : adm -> adm -> Prop :=
| adm_arrive s : adm_step s (arrive s)
| adm_admit i s s' : queue_admit i s = Some s' -> adm_step s s'
| adm_timeout i s s' : queue_timeout i s = Some s' -> adm_step s s'
| adm_cancel i s s' : queue_cancel i s = Some s' -> adm_step s s'
| adm_serve i s s' : serve i s = Some s' -> adm_step s s'
| adm_leave i s s' : leave i s = Some s' -> adm_step s s'
| adm_release i s s' : release i s = Some s' -> adm_step s s'
| adm_clock d s : adm_step s (wait_clock d s).

(** * The invariant *)

Definition queued (p : phase) : bool := match p with Queued _ => true | _ => false end.
Definition holds (p : phase) : bool := match p with Holding | Serving | Leaving => true | _ => false end.
Definition serving (p : phase) : bool := match p with Serving => true | _ => false end.
Definition served (p : phase) : bool := match p with Served => true | _ => false end.
Definition is_shed (p : phase) : bool := match p with Shed _ => true | _ => false end.
Definition gone (p : phase) : bool := match p with Gone => true | _ => false end.
Definition unlimited (p : phase) : bool := match p with Unlimited => true | _ => false end.
Definition counted (p : phase) : Z :=
  (if holds p then 1 else 0) + (if served p then 1 else 0).

Record adm_inv (s : adm) : Prop := {
  inv_slots : ad_slots s = count holds (ad_reqs s);
  inv_inFlight : ad_inFlight s = count serving (ad_reqs s);
  inv_waiting : ad_waiting s = count queued (ad_reqs s);
  inv_admitted : ad_admitted s = count holds (ad_reqs s) + count served (ad_reqs s);
  inv_shed : ad_shed s = count is_shed (ad_reqs s);
  inv_canceled : ad_canceled s = count gone (ad_reqs s);
  inv_max : ad_slots s <= Z.max (MaxInFlight cfg) 0;
  inv_seq : ad_seq s = uint64 (ad_shed s);
  inv_limited : 0 < MaxInFlight cfg -> count unlimited (ad_reqs s) = 0;
  inv_after : Forall (fun p => forall ra, p = Shed ra -> retry_base <= ra <= retry_base + retry_base * 3 / 8) (ad_reqs s) }.

Lemma phases_partition l :
  Z.of_nat (length l) = count queued l + count holds l + count served l + count is_shed l
    + count gone l + count unlimited l.
Proof. induction l as [|p l IH]; [done|]. rewrite !count_cons. simpl length. destruct p; simpl; lia. Qed.
Lemma serving_le_holds l : count serving l <= count holds l.
Proof. induction l as [|p l IH]; [done|]. rewrite !count_cons. destruct p; simpl; lia. Qed.

Section Proofs.
Context (Hcfg : in_int64 (RetryAfter cfg)).

Lemma retry_base_bounds : 1 <= retry_base <= 9223372037.
Proof.
  unfold retry_base, ceil_seconds. unfold in_int64, two63, Second in *.
  pose proof (Z.div_mod (- RetryAfter cfg) 1000000000 ltac:(lia)).
  pose proof (Z.mod_pos_bound (- RetryAfter cfg) 1000000000 ltac:(lia)).
  case_bool_decide; lia.
Qed.
Lemma land_3 z : Z.land z 3 = z mod 4.
Proof. exact (Z.land_ones z 2 ltac:(lia)). Qed.
Lemma mod_4_cases z : z mod 4 = 0 \/ z mod 4 = 1 \/ z mod 4 = 2 \/ z mod 4 = 3.
Proof. pose proof (Z.mod_pos_bound z 4 ltac:(lia)). lia. Qed.
Lemma eighths_bounds seq : exists e, retryAfterEighths (Z.land seq 3) = e /\ 0 <= e <= 3.
Proof.
  eexists. split; [done|]. rewrite land_3. unfold retryAfterEighths.
  destruct (mod_4_cases seq) as [-> | [-> | [-> | ->]]]; split; by vm_compute.
Qed.
(** No intermediate result overflows. *)
Lemma retryAfterSeconds_value seq :
  retryAfterSeconds seq =
    (retry_base + retry_base * retryAfterEighths (Z.land (uint64 (seq + 1)) 3) / 8, uint64 (seq + 1)).
Proof.
  unfold retryAfterSeconds. destruct (eighths_bounds (uint64 (seq + 1))) as (e & -> & He).
  pose proof retry_base_bounds as Hb.
  assert (He8 : 0 <= retry_base * e / 8 <= retry_base * e) by (split; [apply Z.div_pos; nia|apply Z.div_le_upper_bound; nia]).
  rewrite (int64_id (retry_base * e)) by (unfold in_int64, two63; nia).
  rewrite int64_id by (unfold in_int64, two63; nia). done.
Qed.
Lemma retryAfterSeconds_bounds seq :
  retry_base <= (retryAfterSeconds seq).1 <= retry_base + retry_base * 3 / 8.
Proof.
  rewrite retryAfterSeconds_value. simpl. destruct (eighths_bounds (uint64 (seq + 1))) as (e & -> & He).
  pose proof retry_base_bounds. split.
  - assert (0 <= retry_base * e / 8) by (apply Z.div_pos; nia). lia.
  - apply Z.add_le_mono_l, Z.div_le_mono; nia.
Qed.
Lemma uint64_succ z : uint64 (uint64 z + 1) = uint64 (z + 1).
Proof. unfold uint64. by rewrite Zplus_mod_idemp_l. Qed.

Lemma idle_inv now : adm_inv (idle now).
Proof. split; simpl; try done; lia. Qed.

(** A step that moves request [i] from phase [x] to [y]. *)
Lemma move_inv s s' i x y :
  adm_inv s -> ad_reqs s !! i = Some x -> ad_reqs s' = <[i := y]> (ad_reqs s) ->
  ad_slots s' = ad_slots s - Z.b2z (holds x) + Z.b2z (holds y) ->
  ad_inFlight s' = ad_inFlight s - Z.b2z (serving x) + Z.b2z (serving y) ->
  ad_waiting s' = ad_waiting s - Z.b2z (queued x) + Z.b2z (queued y) ->
  ad_admitted s' = ad_admitted s - Z.b2z (holds x) - Z.b2z (served x) + Z.b2z (holds y) + Z.b2z (served y) ->
  ad_shed s' = ad_shed s - Z.b2z (is_shed x) + Z.b2z (is_shed y) ->
  ad_canceled s' = ad_canceled s - Z.b2z (gone x) + Z.b2z (gone y) ->
  ad_slots s' <= Z.max (MaxInFlight cfg) 0 -> ad_seq s' = uint64 (ad_shed s') ->
  unlimited y = false ->
  (forall ra, y = Shed ra -> retry_base <= ra <= retry_base + retry_base * 3 / 8) ->
  adm_inv s'.
Proof.
  intros [] Hx Hr ? ? ? ? ? ? ? ? Hu Hy.
  split; try done; rewrite ?Hr, ?(count_insert _ (ad_reqs s) i x y Hx); unfold Z.b2z in *; try lia.
  - rewrite Hu. pose proof (count_nonneg unlimited (ad_reqs s)).
    intros Hm%inv_limited0. destruct (unlimited x) eqn:Eu; [|lia].
    apply list_elem_of_lookup_2 in Hx. pose proof (count_pos _ _ _ Hx Eu). lia.
  - by apply Forall_insert.
Qed.
Lemma step_inv s s' : adm_inv s -> adm_step s s' -> adm_inv s'.
Proof.
  intros Hi Hs. pose proof Hi as []. destruct Hs as [s|i s s' H|i s s' H|i s s' H|i s s' H|i s s' H|i s s' H|d s].
  - unfold arrive. repeat case_bool_decide; (split; simpl; try done; rewrite ?count_app, ?count_cons, ?count_nil; simpl; try lia);
      apply Forall_app; split; try done; by constructor.
  - unfold queue_admit in H. destruct (ad_reqs s !! i) as [[]|] eqn:Hx; try done.
    case_bool_decide; simplify_eq. eapply (move_inv s); try done; simpl; lia.
  - unfold queue_timeout in H. destruct (ad_reqs s !! i) as [[]|] eqn:Hx; try done.
    case_bool_decide; simplify_eq. eapply (move_inv s); try done; simpl; try lia.
    + rewrite inv_seq0. apply uint64_succ.
    + intros ra [= <-]. apply retryAfterSeconds_bounds.
  - unfold queue_cancel in H. destruct (ad_reqs s !! i) as [[]|] eqn:Hx; try done.
    simplify_eq. eapply (move_inv s); try done; simpl; lia.
  - unfold serve in H. destruct (ad_reqs s !! i) as [[]|] eqn:Hx; try done.
    simplify_eq. eapply (move_inv s); try done; simpl; lia.
  - unfold leave in H. destruct (ad_reqs s !! i) as [[]|] eqn:Hx; try done.
    simplify_eq. eapply (move_inv s); try done; simpl; lia.
  - unfold release in H. destruct (ad_reqs s !! i) as [[]|] eqn:Hx; try done.
    simplify_eq. eapply (move_inv s); try done; simpl; lia.
  - by split.
Qed.
Lemma reachable_inv now s : rtc adm_step (idle now) s -> adm_inv s.
Proof.
  intros Hr. cut (forall a b, rtc adm_step a b -> adm_inv a -> adm_inv b); [intros Hc; exact (Hc _ _ Hr (idle_inv now))|].
  clear Hr s. intros a b. induction 1 as [|a b c Hs _ IH]; [done|]. intros Ha. by apply IH, (step_inv a).
Qed.


(** Four shed responses in a row are told four different multiples of an
    eighth of the base, in rotation, never less than the base nor more than 3/8
    above it, whatever the counter was and across its wrap. *)
Theorem retry_after_spread seq :
  0 <= seq < 2 ^ 64 ->
  let r1 := retryAfterSeconds seq in let r2 := retryAfterSeconds r1.2 in
  let r3 := retryAfterSeconds r2.2 in let r4 := retryAfterSeconds r3.2 in
  exists rot, rot ≡ₚ [0; 1; 2; 3] /\
    [r1.1; r2.1; r3.1; r4.1] = (fun e => retry_base + retry_base * e / 8) <$> rot /\
    0 <= r4.2 < 2 ^ 64.
Proof.
  intros Hs. cbv zeta. rewrite !retryAfterSeconds_value. cbn [fst snd]. rewrite !uint64_succ.
  rewrite !land_3.
  assert (Hm : forall k, uint64 (seq + k) mod 4 = (seq mod 4 + k) mod 4).
  { intros k. unfold uint64. change (2 ^ 64) with (4 * 2 ^ 62).
    rewrite Z.rem_mul_r by lia. set (t := _ mod 2 ^ 62).
    rewrite (Z.mul_comm 4 t), Z_mod_plus_full, Zmod_mod. by rewrite Zplus_mod_idemp_l. }
  rewrite <- !Z.add_assoc, !Hm.
  assert (Hb : forall z, 0 <= uint64 z < 2 ^ 64) by (intros z; apply Z.mod_pos_bound; lia).
  destruct (mod_4_cases seq) as [-> | [-> | [-> | ->]]].
  - exists [1; 2; 3; 0]. split; [by apply (Permutation_app_comm [1; 2; 3] [0])|split; [reflexivity|apply Hb]].
  - exists [2; 3; 0; 1]. split; [by apply (Permutation_app_comm [2; 3] [0; 1])|split; [reflexivity|apply Hb]].
  - exists [3; 0; 1; 2]. split; [by apply (Permutation_app_comm [3] [0; 1; 2])|split; [reflexivity|apply Hb]].
  - exists [0; 1; 2; 3]. split; [done|split; [reflexivity|apply Hb]].
Qed.
End Proofs.
End Limiter.

(** * A concrete burst *)

Definition one_slot : AdmissionConfig := mkAdmissionConfig 1 (2 * Second) (5 * Second).
(** Two requests arrive; the first is served while the second waits and is shed. *)
Definition burst : option adm :=
  let s := arrive one_slot (arrive one_slot (idle 0)) in
  s ← serve 0 s; queue_timeout one_slot 1 (wait_clock 3000000000 s).
Definition after_burst : adm := default (idle 0) burst.
Lemma after_burst_reachable : rtc (adm_step one_slot) (idle 0) after_burst.
Proof.
  eapply rtc_l; [apply adm_arrive|]. eapply rtc_l; [apply adm_arrive|].
  eapply rtc_l; [apply (adm_serve _ 0); reflexivity|].
  eapply rtc_l; [apply (adm_clock _ 3000000000)|].
  eapply rtc_l; [apply (adm_timeout _ 1); vm_compute; reflexivity|]. apply rtc_refl.
Qed.
Lemma one_slot_cfg : in_int64 (RetryAfter one_slot).
Proof. by vm_compute. Qed.
Lemma retry_after_spread_witness :
  let r := retryAfterSeconds one_slot in
  exists rot, rot ≡ₚ [0; 1; 2; 3] /\
    [(r 7).1; (r (r 7).2).1; (r (r (r 7).2).2).1; (r (r (r (r 7).2).2).2).1]
      = (fun e => retry_base one_slot + retry_base one_slot * e / 8) <$> rot.
Proof.
  destruct (retry_after_spread one_slot one_slot_cfg 7) as (rot & Hp & He & _); [lia|].
  exists rot. split; [exact Hp|exact He].
Defined.
