(* ===== verification/CodeGraph.v ===== *)
(** The code graph and its Postgres store ([internal/codegraph/types.go],
    [internal/codegraph/pgstore.go]): the tables, the file-granular
    reconciliation of a push, the neighbour walk and the check of semantic
    misses.  The other reads are in [CodeReads.v].

    A stored confidence is a rational (every finite float64 is one), a bound on it
    any [float64]; [real4] is the rounding of the [real] column.  Texts the server
    itself would refuse (a [captured_at] that is no timestamp) are failures of the
    statement, which the environment decides. *)
From S2P Require Import Prelude GoErr Db.
From Stdlib Require Import QArith.
#[local] Open Scope Z_scope.

(** * types.go *)

Definition ExtractorAST : string := "ast".
Definition ExtractorSemantic : string := "semantic".
Definition TierExtracted : string := "EXTRACTED".
Definition TierInferred : string := "INFERRED".
Definition TierAmbiguous : string := "AMBIGUOUS".
(** The float64 nearest to 0.3. *)
Definition ambiguousScoreThreshold : Q := 5404319552844595 # 18014398509481984.
Definition TierFor (score : Q) : string :=
  if Qle_bool 1 score then TierExtracted
  else if Qle_bool score ambiguousScoreThreshold then TierAmbiguous
  else TierInferred.

Record CodeEntity := mkCodeEntity {
  ce_ID : string; ce_Name : string; ce_Type : string; ce_Description : string;
  ce_FilePath : string; ce_LineStart : Z; ce_LineEnd : Z; ce_SourceURL : string;
  ce_Author : string; ce_CapturedAt : string; ce_Properties : gmap string string }.
Record CodeEdge := mkCodeEdge {
  cg_From : string; cg_To : string; cg_Relation : string; cg_SrcFile : string;
  cg_ConfidenceScore : Q; cg_ConfidenceTier : string; cg_Properties : gmap string string }.
Record SymbolRow := mkSymbol {
  sy_Symbol : string; sy_Lang : string; sy_Kind : string; sy_Role : string;
  sy_EntityID : string; sy_SrcFile : string }.
Record Hyperedge := mkHyperedge {
  hy_ID : string; hy_Label : string; hy_Relation : string; hy_ConfidenceScore : Q;
  hy_SrcFile : string; hy_Members : list string; hy_Properties : gmap string string }.
Record FileSHA := mkFileSHA { fs_Path : string; fs_ContentSHA : string }.
Record GraphPush := mkPush {
  gp_Repo : string; gp_Extractor : string; gp_Files : list string;
  gp_Entities : list CodeEntity; gp_Edges : list CodeEdge; gp_Symbols : list SymbolRow;
  gp_Hyperedges : list Hyperedge; gp_FileSHAs : gmap string string }.
Record PushResult := mkPushResult {
  pr_Repo : string; pr_Files : Z; pr_EntitiesUpserted : Z; pr_EdgesUpserted : Z }.
Record PathNode := mkPathNode { pn_Entity : CodeEntity; pn_Depth : Z }.
(** [float64]: [strconv.ParseFloat] also makes the values that are no numbers. *)
Inductive float64 := Finite (q : Q) | NaN | PosInf | NegInf.
(** Go's [x < q] and [x > q]: a NaN is neither. *)
Definition float_lt (x : float64) (q : Q) : bool :=
  match x with Finite y => negb (Qle_bool q y) | NegInf => true | NaN | PosInf => false end.
Definition float_gt (x : float64) (q : Q) : bool :=
  match x with Finite y => negb (Qle_bool y q) | PosInf => true | NaN | NegInf => false end.
Record ConfidenceFilter := mkCF { cf_MinConfidence : float64; cf_Tier : string }.

Definition defaultDepth : Z := 3.
Definition maxDepth : Z := 10.
Definition defaultNeighborLimit : Z := 1000.
Definition maxNeighborLimit : Z := 5000.
Definition clampDepth (d : Z) : Z :=
  if bool_decide (d <= 0) then defaultDepth else if bool_decide (d > maxDepth) then maxDepth else d.
Definition clampNeighborLimit (n : Z) : Z :=
  if bool_decide (n <= 0) then defaultNeighborLimit
  else if bool_decide (n > maxNeighborLimit) then maxNeighborLimit else n.

(** * The tables *)

Record entity_row := mkEntityRow {
  er_name : string; er_type : string; er_description : string; er_file_path : string;
  er_properties : gmap string string; er_line_start : option Z; er_line_end : option Z;
  er_source_url : option string; er_author : option string; er_captured_at : option string;
  er_extractor : string; er_community : option Z; er_betweenness : option Q }.
Record edge_row := mkEdgeRow {
  gr_src_file : string; gr_properties : gmap string string;
  gr_score : Q; gr_tier : string }.
Record symbol_row := mkSymbolRow { sr_lang : string; sr_kind : string; sr_src_file : string }.
Record hyper_row := mkHyperRow {
  hr_label : string; hr_relation : string; hr_score : Q; hr_src_file : string;
  hr_properties : gmap string string; hr_extractor : string }.
Record state_row := mkStateRow { st_dirty : bool; st_reconciled_at : option Z; st_computed_at : option Z }.
(** [code_communities]: label, cohesion, size. *)
Record community_row := mkCommunityRow { cr_label : string; cr_cohesion : Q; cr_size : Z }.

(** Primary keys: (repo, id); (repo, from, to, relation, extractor);
    (repo, symbol, role, entity); (repo, id); (repo, hyperedge, entity);
    (repo, path); (repo, community); repo. *)
Definition edge_key : Type := string * string * string * string * string.
Definition symbol_key : Type := string * string * string * string.
Record graph := mkGraphTables {
  g_entities : gmap (string * string) entity_row;
  g_edges : gmap edge_key edge_row;
  g_symbols : gmap symbol_key symbol_row;
  g_hyper : gmap (string * string) hyper_row;
  g_members : gset (string * string * string);
  g_sem : gmap (string * string) (string * Z);
  g_comm : gmap (string * Z) community_row;
  g_state : gmap string state_row }.
Definition set_entities f (g : graph) := mkGraphTables (f (g_entities g)) (g_edges g) (g_symbols g) (g_hyper g) (g_members g) (g_sem g) (g_comm g) (g_state g).
Definition set_edges f (g : graph) := mkGraphTables (g_entities g) (f (g_edges g)) (g_symbols g) (g_hyper g) (g_members g) (g_sem g) (g_comm g) (g_state g).
Definition set_symbols f (g : graph) := mkGraphTables (g_entities g) (g_edges g) (f (g_symbols g)) (g_hyper g) (g_members g) (g_sem g) (g_comm g) (g_state g).
Definition set_hyper f (g : graph) := mkGraphTables (g_entities g) (g_edges g) (g_symbols g) (f (g_hyper g)) (g_members g) (g_sem g) (g_comm g) (g_state g).
Definition set_members f (g : graph) := mkGraphTables (g_entities g) (g_edges g) (g_symbols g) (g_hyper g) (f (g_members g)) (g_sem g) (g_comm g) (g_state g).
Definition set_sem f (g : graph) := mkGraphTables (g_entities g) (g_edges g) (g_symbols g) (g_hyper g) (g_members g) (f (g_sem g)) (g_comm g) (g_state g).
Definition set_comm f (g : graph) := mkGraphTables (g_entities g) (g_edges g) (g_symbols g) (g_hyper g) (g_members g) (g_sem g) (f (g_comm g)) (g_state g).
Definition set_state f (g : graph) := mkGraphTables (g_entities g) (g_edges g) (g_symbols g) (g_hyper g) (g_members g) (g_sem g) (g_comm g) (f (g_state g)).

Definition nullInt (v : Z) : option Z := if bool_decide (v = 0) then None else Some v.
Definition nullStr (v : string) : option string := if bool_decide (v = ""%string) then None else Some v.
Definition nullTime (v : string) : option string := nullStr v.

(** [score >= bound] in SQL, where a NaN is above every number. *)
Definition as_real (real4 : Q -> Q) (x : float64) : float64 :=
  match x with Finite q => Finite (real4 q) | _ => x end.
Definition score_at_least (bound : float64) (score : Q) : bool :=
  match bound with Finite q => Qle_bool q score | NegInf => true | NaN | PosInf => false end.

Module CodeStore.
Section Reconcile.
Context `{MapRange} (real4 : Q -> Q) (now : Z).
Abbreviation DB := (Db graph).

(** Statements that a transaction runs one after the other, returning the first
    error as it is. *)
Fixpoint exec_all {B} (stmts : list (graph -> graph)) (k : M DB (exit B)) : M DB (exit B) :=
  match stmts with
  | [] => k
  | f :: stmts => or_rollback (fun e => e) (exec (fun g => (tt, f g))) (fun _ => exec_all stmts k)
  end.

(** Reconcile, statement by statement. *)
Definition edge_owned (repo ext f : string) (k : edge_key) (r : edge_row) : bool :=
  bool_decide (k.1.1.1.1 = repo) && bool_decide (gr_src_file r = f) && bool_decide (k.2 = ext).
Definition entity_owned (repo ext f : string) (k : string * string) (r : entity_row) : bool :=
  bool_decide (k.1 = repo) && bool_decide (er_file_path r = f) && bool_decide (er_extractor r = ext).
Definition symbol_owned (repo f : string) (k : symbol_key) (r : symbol_row) : bool :=
  bool_decide (k.1.1.1 = repo) && bool_decide (sr_src_file r = f).
Definition hyper_owned (repo ext f : string) (k : string * string) (r : hyper_row) : bool :=
  bool_decide (k.1 = repo) && bool_decide (hr_src_file r = f) && bool_decide (hr_extractor r = ext).
Definition member_owned (repo ext f : string) (hyper : gmap (string * string) hyper_row)
    (m : string * string * string) : bool :=
  bool_decide (m.1.1 = repo) &&
  match hyper !! m.1 with Some r => hyper_owned repo ext f m.1 r | None => false end.
Definition delete_file (repo ext f : string) : list (graph -> graph) :=
  [ set_edges (delete_where (edge_owned repo ext f));
    set_entities (delete_where (entity_owned repo ext f)) ] ++
  (if bool_decide (ext = ExtractorAST) then [set_symbols (delete_where (symbol_owned repo f))] else []) ++
  [ (fun g => set_members (filter (fun m => member_owned repo ext f (g_hyper g) m = false)) g);
    set_hyper (delete_where (hyper_owned repo ext f)) ].

(** [INSERT ... ON CONFLICT DO UPDATE]: the analytics columns keep their value. *)
Definition entity_values (ext : string) (e : CodeEntity) (old : option entity_row) : entity_row :=
  mkEntityRow (ce_Name e) (ce_Type e) (ce_Description e) (ce_FilePath e) (ce_Properties e)
    (nullInt (ce_LineStart e)) (nullInt (ce_LineEnd e)) (nullStr (ce_SourceURL e))
    (nullStr (ce_Author e)) (nullTime (ce_CapturedAt e)) ext
    (old ≫= er_community) (old ≫= er_betweenness).
Definition upsert_entity (repo ext : string) (e : CodeEntity) : graph -> graph :=
  set_entities (fun m => <[(repo, ce_ID e) := entity_values ext e (m !! (repo, ce_ID e))]> m).
Definition default_confidence (e : CodeEdge) : Q * string :=
  if Qeq_bool (cg_ConfidenceScore e) 0 && bool_decide (cg_ConfidenceTier e = ""%string)
  then (1%Q, TierExtracted)
  else (cg_ConfidenceScore e,
        if bool_decide (cg_ConfidenceTier e = ""%string) then TierFor (cg_ConfidenceScore e) else cg_ConfidenceTier e).
Definition edge_values (e : CodeEdge) : edge_row :=
  let c := default_confidence e in
  mkEdgeRow (cg_SrcFile e) (cg_Properties e) (real4 c.1) c.2.
Definition key_of_edge (repo ext : string) (e : CodeEdge) : edge_key :=
  (repo, cg_From e, cg_To e, cg_Relation e, ext).
Definition upsert_edge (repo ext : string) (e : CodeEdge) : graph -> graph :=
  set_edges (fun m => <[key_of_edge repo ext e := edge_values e]> m).
Definition key_of_symbol (repo : string) (s : SymbolRow) : symbol_key :=
  (repo, sy_Symbol s, sy_Role s, sy_EntityID s).
Definition upsert_symbol (repo : string) (s : SymbolRow) : graph -> graph :=
  set_symbols (fun m => <[key_of_symbol repo s := mkSymbolRow (sy_Lang s) (sy_Kind s) (sy_SrcFile s)]> m).
Definition hyper_values (ext : string) (h : Hyperedge) : hyper_row :=
  mkHyperRow (hy_Label h) (hy_Relation h)
    (real4 (if Qeq_bool (hy_ConfidenceScore h) 0 then 1%Q else hy_ConfidenceScore h))
    (hy_SrcFile h) (hy_Properties h) ext.
Definition upsert_hyperedge (repo ext : string) (h : Hyperedge) : list (graph -> graph) :=
  set_hyper (fun m => <[(repo, hy_ID h) := hyper_values ext h]> m) ::
  ((fun m => set_members (fun s => {[(repo, hy_ID h, m)]} ∪ s)) <$> hy_Members h).
Definition upsert_sha (repo : string) (p : string * string) : graph -> graph :=
  set_sem (fun m => <[(repo, p.1) := (p.2, now)]> m).
Definition mark_dirty (repo : string) : graph -> graph :=
  set_state (fun m => <[repo := mkStateRow true (Some now) (m !! repo ≫= st_computed_at)]> m).

Definition extractor_of (p : GraphPush) : string :=
  if bool_decide (gp_Extractor p = ""%string) then ExtractorAST else gp_Extractor p.
Definition reconcile_statements (p : GraphPush) : list (graph -> graph) :=
  let ext := extractor_of p in
  mjoin (delete_file (gp_Repo p) ext <$> gp_Files p) ++
  (upsert_entity (gp_Repo p) ext <$> gp_Entities p) ++
  (upsert_edge (gp_Repo p) ext <$> gp_Edges p) ++
  (upsert_symbol (gp_Repo p) <$> gp_Symbols p) ++
  mjoin (upsert_hyperedge (gp_Repo p) ext <$> gp_Hyperedges p) ++
  (upsert_sha (gp_Repo p) <$> range (gp_FileSHAs p)) ++
  [mark_dirty (gp_Repo p)].
Definition push_result (p : GraphPush) : PushResult :=
  mkPushResult (gp_Repo p) (Z.of_nat (length (gp_Files p)))
    (Z.of_nat (length (gp_Entities p))) (Z.of_nat (length (gp_Edges p))).
Definition Reconcile (p : GraphPush) : M DB (result err PushResult) :=
  transaction (fun e => e)
    (exec_all (reconcile_statements p) (ret (Commit (push_result p) (fun e => e)))).
End Reconcile.

(** * Reads *)

Section Reads.
Context (real4 : Q -> Q).
Abbreviation DB := (Db graph).
Definition entity_of (id : string) (r : entity_row) : CodeEntity :=
  mkCodeEntity id (er_name r) (er_type r) (er_description r) (er_file_path r) 0 0 "" "" "" (er_properties r).

(** [string_to_array(s, ',')] and [strings.Split] on a one-byte separator. *)
Fixpoint split_on (sep : Ascii.ascii) (acc : string) (s : string) : list string :=
  match s with
  | EmptyString => [acc]
  | String c s => if bool_decide (c = sep) then acc :: split_on sep "" s
                  else split_on sep (String.append acc (String c "")) s
  end.
Definition join_with (sep : Ascii.ascii) (l : list string) : string :=
  String.concat (String sep "") l.
Definition comma : Ascii.ascii := Ascii.ascii_of_nat 44.
Definition bar : Ascii.ascii := Ascii.ascii_of_nat 124.
Definition relation_passes (relStr relation : string) : bool :=
  bool_decide (relStr = ""%string) || bool_decide (relation ∈ split_on comma "" relStr).
Definition cf_active (cf : ConfidenceFilter) : bool :=
  float_gt (cf_MinConfidence cf) 0 || bool_decide (cf_Tier cf <> ""%string).
(** The filter of the query that runs, if it is one with a filter; its bound is
    compared as a [real], the type of the column. *)
Definition bound_filter (cf : ConfidenceFilter) : option ConfidenceFilter :=
  if cf_active cf then Some (mkCF (as_real real4 (cf_MinConfidence cf)) (cf_Tier cf)) else None.
Definition cf_passes (cf : option ConfidenceFilter) (r : edge_row) : bool :=
  match cf with
  | None => true
  | Some cf => score_at_least (cf_MinConfidence cf) (gr_score r) &&
               (bool_decide (cf_Tier cf = ""%string) || bool_decide (gr_tier r = cf_Tier cf))
  end.

(** The recursive walk: the nodes at each depth, duplicates removed per depth. *)
Definition hop (repo relStr : string) (inward : bool) (cf : option ConfidenceFilter) (g : graph)
    (front : gset string) : gset string :=
  list_to_set (omap (fun kv : edge_key * edge_row =>
    let '(r, from, to, rel, _) := kv.1 in
    let src := if inward then to else from in
    let dst := if inward then from else to in
    if bool_decide (r = repo) && bool_decide (src ∈ front) && relation_passes relStr rel && cf_passes cf kv.2
    then Some dst else None) (map_to_list (g_edges g))).
Fixpoint walk (repo relStr : string) (inward : bool) (cf : option ConfidenceFilter) (g : graph)
    (front : gset string) (depth : nat) : list (gset string) :=
  match depth with
  | O => []
  | S n => let next := hop repo relStr inward cf g front in
           next :: walk repo relStr inward cf g next n
  end.
Fixpoint first_depth (id : string) (levels : list (gset string)) (d : Z) : option Z :=
  match levels with
  | [] => None
  | l :: levels => if bool_decide (id ∈ l) then Some d else first_depth id levels (d + 1)
  end.
Definition node_le (a b : PathNode) : Prop := String.le (ce_ID (pn_Entity a)) (ce_ID (pn_Entity b)).
#[export] Instance node_le_dec a b : Decision (node_le a b).
Proof. unfold node_le. apply _. Defined.
(** [SELECT DISTINCT ON (en.id) ... ORDER BY en.id, w.depth LIMIT]. *)
Definition reached (repo : string) (levels : list (gset string)) (g : graph) : list PathNode :=
  omap (fun kv : (string * string) * entity_row =>
    if bool_decide (kv.1.1 = repo)
    then (fun d => mkPathNode (entity_of kv.1.2 kv.2) d) <$> first_depth kv.1.2 levels 1
    else None) (map_to_list (g_entities g)).
Definition Neighbors (repo id : string) (relations : list string) (dir : string) (depth limit : Z)
    (cf : ConfidenceFilter) : M DB (result err (list PathNode)) :=
  select (fun _ g =>
    take (Z.to_nat limit) (merge_sort node_le
      (reached repo (walk repo (join_with comma relations) (bool_decide (dir = "in"%string)) (bound_filter cf) g
                       {[id]} (Z.to_nat depth)) g))).

(** SemanticMisses: one query per file. *)
Fixpoint SemanticMisses (repo : string) (files : list FileSHA) (out : list string) : M DB (result err (list string)) :=
  match files with
  | [] => ret (Ok out)
  | f :: files =>
      r <- select (fun _ g => fst <$> g_sem g !! (repo, fs_Path f)) ;;
      match r with
      | Err e => ret (Err e)
      | Ok None => SemanticMisses repo files (out ++ [fs_Path f])
      | Ok (Some stored) =>
          SemanticMisses repo files (if bool_decide (stored <> fs_ContentSHA f) then out ++ [fs_Path f] else out)
      end
  end.
End Reads.
End CodeStore.
