(* ===== verification/CodeGraphLaws.v ===== *)
(** What the reconciliation of a push does to the tables: an abstract
    specification, key by key, and the proof that the statement sequence of
    [CodeStore.Reconcile] implements it atomically; idempotence, isolation and the
    neighbour walk. *)
From S2P Require Import Prelude GoErr Db CodeGraph.
Import CodeStore.
From Stdlib Require Import QArith.
#[local] Open Scope Z_scope.

(** * Running statements *)

Definition run_all {G} (stmts : list (G -> G)) (g : G) : G := foldl (fun g f => f g) g stmts.
Lemma run_all_app {G} (l k : list (G -> G)) g : run_all (l ++ k) g = run_all k (run_all l g).
Proof. unfold run_all. by rewrite foldl_app. Qed.
Lemma runs_exec_all {B} (stmts : list (graph -> graph)) (a : B) w g x g' :
  runs (exec_all stmts (ret (Commit a w))) g x g' ->
  (x = Commit a w /\ g' = run_all stmts g) \/ (exists e, x = Rollback (Err e)).
Proof.
  revert g. induction stmts as [|f stmts IH]; intros g.
  - intros [-> ->]%runs_ret. by left.
  - cbn [exec_all]. intros [(u & t1 & Hx%runs_exec & Hk)|(e & -> & _)]%runs_or_rollback; [|right; eauto].
    simpl in Hx. simplify_eq. apply IH in Hk. exact Hk.
Qed.

(** A field of the state under a list of statements. *)
Section Field.
Context {G F X : Type} (field : G -> F).
Lemma run_field (h : F -> X -> F) (st : X -> G -> G) l g :
  (forall x g, field (st x g) = h (field g) x) ->
  field (run_all (st <$> l) g) = foldl h (field g) l.
Proof.
  intros Hst. unfold run_all. revert g. induction l as [|x l IH]; intros g; [done|].
  simpl. rewrite IH. by rewrite Hst.
Qed.
Lemma run_field_join (h : F -> X -> F) (st : X -> list (G -> G)) l g :
  (forall x g, field (run_all (st x) g) = h (field g) x) ->
  field (run_all (mjoin (st <$> l)) g) = foldl h (field g) l.
Proof.
  intros Hst. revert g. induction l as [|x l IH]; intros g; [done|].
  simpl. rewrite run_all_app, IH. by rewrite Hst.
Qed.
Lemma run_same (st : X -> G -> G) l g :
  (forall x g, field (st x g) = field g) -> field (run_all (st <$> l) g) = field g.
Proof.
  intros Hst. rewrite (run_field (fun m _ => m)) by done. induction l; simpl; auto.
Qed.
Lemma run_same_join (st : X -> list (G -> G)) l g :
  (forall x g, field (run_all (st x) g) = field g) -> field (run_all (mjoin (st <$> l)) g) = field g.
Proof.
  intros Hst. rewrite (run_field_join (fun m _ => m)) by done. induction l; simpl; auto.
Qed.
End Field.

(** * The specification of a push *)

Section Spec.
Context `{MapRange} (real4 : Q -> Q) (now : Z) (p : GraphPush).
Abbreviation repo := (gp_Repo p).
Abbreviation ext := (extractor_of p).
Abbreviation files := (gp_Files p).

(** The rows the push replaces are those owned by its files under its extractor. *)
Definition old_entity (g : graph) := surviving (entity_owned repo ext) files (g_entities g).
Definition old_edge (g : graph) := surviving (edge_owned repo ext) files (g_edges g).
Definition old_symbol (g : graph) := 
  surviving (fun f k r => bool_decide (ext = ExtractorAST) && symbol_owned repo f k r) files (g_symbols g).
Definition old_hyper (g : graph) := surviving (hyper_owned repo ext) files (g_hyper g).
Definition old_member (g : graph) (m : string * string * string) : Prop :=
  m ∈ g_members g /\ existsb (fun f => member_owned repo ext f (g_hyper g) m) files = false.

Record reconciled (g g' : graph) : Prop := {
  rc_entities k : g_entities g' !! k =
    match last_with (fun e => (repo, ce_ID e)) k (gp_Entities p) with
    | Some e => Some (entity_values ext e (old_entity g k))
    | None => old_entity g k
    end;
  rc_edges k : g_edges g' !! k =
    match last_with (key_of_edge repo ext) k (gp_Edges p) with
    | Some e => Some (edge_values real4 e)
    | None => old_edge g k
    end;
  rc_symbols k : g_symbols g' !! k =
    match last_with (key_of_symbol repo) k (gp_Symbols p) with
    | Some s => Some (mkSymbolRow (sy_Lang s) (sy_Kind s) (sy_SrcFile s))
    | None => old_symbol g k
    end;
  rc_hyper k : g_hyper g' !! k =
    match last_with (fun h => (repo, hy_ID h)) k (gp_Hyperedges p) with
    | Some h => Some (hyper_values real4 ext h)
    | None => old_hyper g k
    end;
  rc_members m : m ∈ g_members g' <->
    old_member g m \/ exists h, h ∈ gp_Hyperedges p /\ m.1 = (repo, hy_ID h) /\ m.2 ∈ hy_Members h;
  rc_sem k : g_sem g' !! k =
    match (if bool_decide (k.1 = repo) then gp_FileSHAs p !! k.2 else None) with
    | Some sha => Some (sha, now)
    | None => g_sem g !! k
    end;
  rc_comm : g_comm g' = g_comm g;
  rc_state r : g_state g' !! r =
    if bool_decide (r = repo) then Some (mkStateRow true (Some now) (g_state g !! repo ≫= st_computed_at))
    else g_state g !! r }.
End Spec.

(** * The statements implement it *)

Section Refines.
Context `{MapRange} (real4 : Q -> Q) (now : Z) (p : GraphPush).
Abbreviation repo := (gp_Repo p).
Abbreviation ext := (extractor_of p).
Abbreviation stmts := (reconcile_statements real4 now p).


Lemma files_entities repo ext l g :
  g_entities (run_all (mjoin (delete_file repo ext <$> l)) g) =
  foldl (fun m f => delete_where (entity_owned repo ext f) m) (g_entities g) l.
Proof.
  apply (run_field_join g_entities (fun m f => delete_where (entity_owned repo ext f) m)).
  intros f g'. unfold delete_file. by case_bool_decide.
Qed.
Lemma files_edges repo ext l g :
  g_edges (run_all (mjoin (delete_file repo ext <$> l)) g) =
  foldl (fun m f => delete_where (edge_owned repo ext f) m) (g_edges g) l.
Proof.
  apply (run_field_join g_edges (fun m f => delete_where (edge_owned repo ext f) m)).
  intros f g'. unfold delete_file. by case_bool_decide.
Qed.
Lemma files_symbols repo ext l g :
  g_symbols (run_all (mjoin (delete_file repo ext <$> l)) g) =
  foldl (fun m f => if bool_decide (ext = ExtractorAST) then delete_where (symbol_owned repo f) m else m) (g_symbols g) l.
Proof.
  apply (run_field_join g_symbols (fun m f => if bool_decide (ext = ExtractorAST) then delete_where (symbol_owned repo f) m else m)).
  intros f g'. unfold delete_file. by case_bool_decide.
Qed.
Lemma files_hyper repo ext l g :
  g_hyper (run_all (mjoin (delete_file repo ext <$> l)) g) =
  foldl (fun m f => delete_where (hyper_owned repo ext f) m) (g_hyper g) l.
Proof.
  apply (run_field_join g_hyper (fun m f => delete_where (hyper_owned repo ext f) m)).
  intros f g'. unfold delete_file. by case_bool_decide.
Qed.
Lemma hypers_hyper repo ext l g :
  g_hyper (run_all (mjoin (upsert_hyperedge real4 repo ext <$> l)) g) =
  foldl (fun m h => <[(repo, hy_ID h) := hyper_values real4 ext h]> m) (g_hyper g) l.
Proof.
  apply (run_field_join g_hyper (fun m h => <[(repo, hy_ID h) := hyper_values real4 ext h]> m)).
  intros h g'. unfold upsert_hyperedge. change (run_all (?a :: ?l) ?g) with (run_all l (a g)).
  by rewrite run_same.
Qed.

(** A segment of statements that does not write the field. *)
Lemma hypers_same {F} (field : graph -> F) l g :
  (forall f g, field (set_hyper f g) = field g) -> (forall f g, field (set_members f g) = field g) ->
  field (run_all (mjoin (upsert_hyperedge real4 repo ext <$> l)) g) = field g.
Proof.
  intros Hh Hm. apply run_same_join. intros h g'. unfold upsert_hyperedge.
  change (run_all (?a :: ?l) ?g) with (run_all l (a g)). rewrite run_same; [apply Hh|intros; apply Hm].
Qed.
Lemma files_same {F} (field : graph -> F) l g :
  (forall f g, field (set_edges f g) = field g) -> (forall f g, field (set_entities f g) = field g) ->
  (forall f g, field (set_symbols f g) = field g) -> (forall f g, field (set_hyper f g) = field g) ->
  (forall f g, field (set_members f g) = field g) ->
  field (run_all (mjoin (delete_file repo ext <$> l)) g) = field g.
Proof.
  intros He Hn Hs Hh Hm. apply run_same_join. intros f g'. unfold delete_file. rewrite !run_all_app.
  case_bool_decide; unfold run_all; cbn [foldl]; by rewrite Hh, Hm, ?Hs, Hn, He.
Qed.
Ltac segments := unfold reconcile_statements; rewrite !run_all_app;
  change (run_all [?f] ?g) with (f g).

Lemma stmts_entities g : g_entities (run_all stmts g) =
  foldl (fun m e => <[(repo, ce_ID e) := entity_values ext e (m !! (repo, ce_ID e))]> m)
    (foldl (fun m f => delete_where (entity_owned repo ext f) m) (g_entities g) (gp_Files p)) (gp_Entities p).
Proof.
  segments. change (g_entities (mark_dirty _ _ ?x)) with (g_entities x).
  rewrite (run_same g_entities) by done. rewrite hypers_same by done. rewrite !(run_same g_entities) by done.
  rewrite (run_field g_entities (fun m e => <[(repo, ce_ID e) := entity_values ext e (m !! (repo, ce_ID e))]> m)) by done.
  by rewrite files_entities.
Qed.
Lemma stmts_edges g : g_edges (run_all stmts g) =
  foldl (fun m e => <[key_of_edge repo ext e := edge_values real4 e]> m)
    (foldl (fun m f => delete_where (edge_owned repo ext f) m) (g_edges g) (gp_Files p)) (gp_Edges p).
Proof.
  segments. change (g_edges (mark_dirty _ _ ?x)) with (g_edges x).
  rewrite (run_same g_edges) by done. rewrite hypers_same by done. rewrite (run_same g_edges) by done.
  rewrite (run_field g_edges (fun m e => <[key_of_edge repo ext e := edge_values real4 e]> m)) by done.
  rewrite (run_same g_edges) by done. by rewrite files_edges.
Qed.
Lemma stmts_symbols g : g_symbols (run_all stmts g) =
  foldl (fun m s => <[key_of_symbol repo s := mkSymbolRow (sy_Lang s) (sy_Kind s) (sy_SrcFile s)]> m)
    (foldl (fun m f => if bool_decide (ext = ExtractorAST) then delete_where (symbol_owned repo f) m else m)
       (g_symbols g) (gp_Files p)) (gp_Symbols p).
Proof.
  segments. change (g_symbols (mark_dirty _ _ ?x)) with (g_symbols x).
  rewrite (run_same g_symbols) by done. rewrite hypers_same by done.
  rewrite (run_field g_symbols (fun m s => <[key_of_symbol repo s := mkSymbolRow (sy_Lang s) (sy_Kind s) (sy_SrcFile s)]> m)) by done.
  rewrite !(run_same g_symbols) by done. by rewrite files_symbols.
Qed.
Lemma stmts_hyper g : g_hyper (run_all stmts g) =
  foldl (fun m h => <[(repo, hy_ID h) := hyper_values real4 ext h]> m)
    (foldl (fun m f => delete_where (hyper_owned repo ext f) m) (g_hyper g) (gp_Files p)) (gp_Hyperedges p).
Proof.
  segments. change (g_hyper (mark_dirty _ _ ?x)) with (g_hyper x).
  rewrite (run_same g_hyper) by done. rewrite hypers_hyper. rewrite !(run_same g_hyper) by done.
  by rewrite files_hyper.
Qed.
Lemma stmts_sem g : g_sem (run_all stmts g) =
  foldl (fun m kv => <[(repo, kv.1) := (kv.2, now)]> m) (g_sem g) (range (gp_FileSHAs p)).
Proof.
  segments. change (g_sem (mark_dirty _ _ ?x)) with (g_sem x).
  rewrite (run_field g_sem (fun m kv => <[(repo, kv.1) := (kv.2, now)]> m)) by done.
  rewrite hypers_same by done. rewrite !(run_same g_sem) by done. by rewrite files_same.
Qed.
Lemma stmts_rest g : g_comm (run_all stmts g) = g_comm g /\
  g_state (run_all stmts g) = <[repo := mkStateRow true (Some now) (g_state g !! repo ≫= st_computed_at)]> (g_state g).
Proof.
  assert (Hs : forall {F} (field : graph -> F) g,
    (forall f g, field (set_edges f g) = field g) -> (forall f g, field (set_entities f g) = field g) ->
    (forall f g, field (set_symbols f g) = field g) -> (forall f g, field (set_hyper f g) = field g) ->
    (forall f g, field (set_members f g) = field g) -> (forall f g, field (set_sem f g) = field g) ->
    field (run_all stmts g) = field (mark_dirty now repo (run_all (removelast stmts) g)) /\
    field (run_all (removelast stmts) g) = field g).
  { intros F field g' He Hn Hy Hh Hm Hq. unfold reconcile_statements. rewrite !(app_assoc _ _ [_]), removelast_last.
    rewrite !run_all_app. split; [done|]. rewrite run_same by (intros; apply Hq).
    rewrite hypers_same by done. rewrite (run_same field) by (intros; apply Hy).
    rewrite (run_same field) by (intros; apply He). rewrite (run_same field) by (intros; apply Hn).
    by apply files_same. }
  destruct (Hs _ g_comm g) as [-> Hc]; try done. destruct (Hs _ g_state g) as [-> Hst]; try done.
  simpl. by rewrite Hc, Hst.
Qed.

(** Hyperedge members go with their hyperedge, deleted first. *)
Lemma file_members repo ext f g m :
  m ∈ g_members (run_all (delete_file repo ext f) g) <->
  m ∈ g_members g /\ member_owned repo ext f (g_hyper g) m = false.
Proof.
  unfold delete_file. case_bool_decide; simpl; rewrite elem_of_filter; tauto.
Qed.
Lemma member_owned_step repo ext f f' g m :
  member_owned repo ext f (g_hyper g) m = false ->
  member_owned repo ext f' (g_hyper (run_all (delete_file repo ext f) g)) m = member_owned repo ext f' (g_hyper g) m.
Proof.
  assert (Hr : run_all (delete_file repo ext f) g = run_all (mjoin (delete_file repo ext <$> [f])) g)
    by by rewrite fmap_cons, fmap_nil; simpl; rewrite app_nil_r.
  rewrite Hr, files_hyper. simpl. unfold member_owned. rewrite lookup_delete_where.
  case_bool_decide; [|done]. simpl. destruct (g_hyper g !! m.1) as [r|]; [|done]. by intros ->.
Qed.
Lemma files_members repo ext l g m :
  m ∈ g_members (run_all (mjoin (delete_file repo ext <$> l)) g) <->
  m ∈ g_members g /\ existsb (fun f => member_owned repo ext f (g_hyper g) m) l = false.
Proof.
  revert g. induction l as [|f l IH]; intros g; [simpl; naive_solver|].
  rewrite fmap_cons. change (mjoin (?a :: ?b)) with (a ++ mjoin b). rewrite run_all_app, IH, file_members.
  cbn [existsb]. rewrite orb_false_iff.
  assert (Heq : member_owned repo ext f (g_hyper g) m = false ->
    existsb (fun f' => member_owned repo ext f' (g_hyper (run_all (delete_file repo ext f) g)) m) l =
    existsb (fun f' => member_owned repo ext f' (g_hyper g) m) l).
  { intros Hf. clear IH. induction l as [|f' l IH]; [done|]. cbn [existsb]. by rewrite IH, member_owned_step. }
  split.
  - intros [[Hm Hf] Hl]. rewrite Heq in Hl by done. done.
  - intros (Hm & Hf & Hl). by rewrite Heq.
Qed.
Lemma hypers_members l g m :
  m ∈ g_members (run_all (mjoin (upsert_hyperedge real4 repo ext <$> l)) g) <->
  m ∈ g_members g \/ exists h, h ∈ l /\ m.1 = (repo, hy_ID h) /\ m.2 ∈ hy_Members h.
Proof.
  rewrite (run_field_join g_members (fun s h => foldl (fun s x => {[(repo, hy_ID h, x)]} ∪ s) s (hy_Members h))).
  2:{ intros h g'. unfold upsert_hyperedge. change (run_all (?a :: ?l) ?g) with (run_all l (a g)).
      by rewrite (run_field g_members (fun s x => {[(repo, hy_ID h, x)]} ∪ s)). }
  assert (Hin : forall h (s : gset (string * string * string)), m ∈ foldl (fun s x => {[(repo, hy_ID h, x)]} ∪ s) s (hy_Members h) <->
    m ∈ s \/ (m.1 = (repo, hy_ID h) /\ m.2 ∈ hy_Members h)).
  { intros h. induction (hy_Members h) as [|x xs IH]; intros s; simpl; [set_solver|].
    rewrite IH, elem_of_union, elem_of_singleton, elem_of_cons. destruct m as [k y]; simpl. naive_solver. }
  generalize (g_members g) as s. induction l as [|h l IH]; intros s; simpl; [set_solver|].
  rewrite IH, Hin. set_solver.
Qed.
Lemma stmts_members g m : m ∈ g_members (run_all stmts g) <->
  old_member p g m \/ exists h, h ∈ gp_Hyperedges p /\ m.1 = (repo, hy_ID h) /\ m.2 ∈ hy_Members h.
Proof.
  segments. change (g_members (mark_dirty _ _ ?x)) with (g_members x).
  rewrite (run_same g_members) by done. rewrite hypers_members.
  rewrite !(run_same g_members) by done. by rewrite files_members.
Qed.

Lemma last_range r f (m : gmap string string) :
  last_with (fun kv : string * string => (repo, kv.1)) (r, f) (range m) =
    if bool_decide (r = repo) then (fun sha => (f, sha)) <$> m !! f else None.
Proof.
  assert (Hin : forall kv, kv ∈ List.filter (fun kv : string * string => bool_decide ((repo, kv.1) = (r, f))) (range m) <->
    r = repo /\ kv.1 = f /\ m !! f = Some kv.2).
  { intros [k sha]. rewrite list_elem_of_In, filter_In, <- list_elem_of_In, range_perm, elem_of_map_to_list, bool_decide_eq_true.
    simpl. naive_solver. }
  unfold last_with. destruct (last _) as [[k sha]|] eqn:Hl.
  - apply last_elem_of, Hin in Hl as (-> & <- & Hm). cbn [fst snd] in *. rewrite bool_decide_true by done. by rewrite Hm.
  - apply last_None in Hl. case_bool_decide; [|done]. destruct (m !! f) as [sha|] eqn:Hm; [|done].
    exfalso. pose proof (proj2 (Hin (f, sha))) as Hx. rewrite Hl in Hx. by apply elem_of_nil in Hx.
Qed.
Lemma run_all_reconciled g : reconciled real4 now p g (run_all stmts g).
Proof.
  destruct (stmts_rest g) as [Hc Hs]. split.
  - intros k. rewrite stmts_entities, lookup_upserts, lookup_deletes; [done|].
    intros x y o. unfold entity_values. simpl. by destruct o.
  - intros k. rewrite stmts_edges.
    rewrite (lookup_upserts (key_of_edge repo ext) (fun e _ => edge_values real4 e)) by done. by rewrite lookup_deletes.
  - intros k. rewrite stmts_symbols.
    rewrite (lookup_upserts (key_of_symbol repo) (fun s _ => mkSymbolRow (sy_Lang s) (sy_Kind s) (sy_SrcFile s))) by done.
    unfold old_symbol. destruct (bool_decide (ext = ExtractorAST)); simpl; [by rewrite lookup_deletes|].
    assert (Hid : forall (l : list string) (m : gmap symbol_key symbol_row), foldl (fun m _ => m) m l = m) by (intros l; induction l; auto).
    rewrite (Hid (gp_Files p)). unfold surviving. destruct (g_symbols g !! k) as [v|]; [|done].
    by rewrite existsb_false_le.
  - intros k. rewrite stmts_hyper.
    rewrite (lookup_upserts (fun h => (repo, hy_ID h)) (fun h _ => hyper_values real4 ext h)) by done.
    by rewrite lookup_deletes.
  - intros m. apply stmts_members.
  - intros [r f]. rewrite stmts_sem.
    rewrite (lookup_upserts (fun kv : string * string => (repo, kv.1)) (fun kv _ => (kv.2, now))) by done.
    cbn [fst snd]. by rewrite last_range; case_bool_decide; [destruct (gp_FileSHAs p !! f)|].
  - done.
  - intros r. rewrite Hs. case_bool_decide; subst; [by rewrite lookup_insert_eq|by rewrite lookup_insert_ne].
Qed.

Lemma exec_all_calm {B} (l : list (graph -> graph)) (k : M (Db graph) (exit B)) g :
  exec_all l k (mkDb g []) = k (mkDb (run_all l g) []).
Proof. revert g. induction l as [|f l IH]; intros g; [done|]. apply (IH (f g)). Qed.

Lemma Reconcile_effect (d : Db graph) :
  let '(r, d') := Reconcile real4 now p d in
  ((db_tab d' = db_tab d /\ exists e, r = Err e) \/
   (reconciled real4 now p (db_tab d) (db_tab d') /\ (r = Ok (push_result p) \/ exists e, r = Err e))) /\
  (db_script d = [] -> r = Ok (push_result p)).
Proof.
  destruct (Reconcile real4 now p d) as [r d'] eqn:Hr. split.
  - apply runs_intro, runs_transaction in Hr as [[Ht Ho]|(a & w' & Hb & Hx)].
    + left. split; [done|]. destruct r as [a|e]; [|by exists e].
      destruct (Ho a eq_refl) as (t1 & Hb). apply runs_exec_all in Hb as [[? _]|[e ?]]; done.
    + right. apply runs_exec_all in Hb as [[Ha ->]|[e ?]]; [|done]. injection Ha as -> _.
      split; [apply run_all_reconciled|]. destruct Hx as [->|[e ->]]; eauto.
  - destruct d as [g sc]. simpl. intros ->. unfold Reconcile, transaction, bind in Hr. simpl in Hr.
    rewrite exec_all_calm in Hr. simpl in Hr. by injection Hr as <- _.
Qed.

(** C5: a push is applied completely or not at all, whichever of its statements or
    its commit fails: the tables are untouched and the caller sees an error, or they
    are exactly the ones the specification demands (what the pushed files owned under
    the extractor is replaced by what the push holds, the last row of a key winning,
    everything else is as it was, and the repository is marked dirty); success is
    reported only in the second case, and always when no round trip fails. *)
Theorem Reconcile_refines (d : Db graph) :
  let '(r, d') := Reconcile real4 now p d in
  ((db_tab d' = db_tab d /\ exists e, r = Err e) \/
   (reconciled real4 now p (db_tab d) (db_tab d') /\ (r = Ok (push_result p) \/ exists e, r = Err e))) /\
  (db_script d = [] -> r = Ok (push_result p)).
Proof. apply Reconcile_effect. Qed.
End Refines.

(** * Consequences of the specification *)

Section Consequences.
Context `{MapRange} (real4 : Q -> Q) (now : Z) (p : GraphPush).
Abbreviation repo := (gp_Repo p).
Abbreviation ext := (extractor_of p).


(** A push touches nothing of another repository, in any table, and no edge of
    another extractor, even one with the same ends and relation. *)
Theorem push_isolated (g g' : graph) :
  reconciled real4 now p g g' ->
  (forall k, k.1 <> repo -> g_entities g' !! k = g_entities g !! k /\ g_hyper g' !! k = g_hyper g !! k /\
     g_sem g' !! k = g_sem g !! k) /\
  (forall k : edge_key, k.1.1.1.1 <> repo \/ k.2 <> ext -> g_edges g' !! k = g_edges g !! k) /\
  (forall k : symbol_key, k.1.1.1 <> repo -> g_symbols g' !! k = g_symbols g !! k) /\
  (forall m, m.1.1 <> repo -> m ∈ g_members g' <-> m ∈ g_members g) /\
  (forall r, r <> repo -> g_state g' !! r = g_state g !! r) /\ g_comm g' = g_comm g.
Proof.
  intros []. split_and!; [| | | |intros r Hr; by rewrite rc_state0, bool_decide_false|done].
  - intros k Hk. rewrite rc_entities0, rc_hyper0, rc_sem0, !last_with_none by (intros x <-; by apply Hk).
    rewrite (bool_decide_false (k.1 = repo)) by done.
    split_and!; [|by apply surviving_none; intros; unfold hyper_owned; rewrite (bool_decide_false (k.1 = repo))|done].
    apply surviving_none; intros; unfold entity_owned. by rewrite (bool_decide_false (k.1 = repo)).
  - intros k Hk. rewrite rc_edges0, last_with_none by (intros x <-; simpl in Hk; naive_solver).
    apply surviving_none. intros f v. unfold edge_owned.
    destruct Hk as [Hk|Hk]; [by rewrite (bool_decide_false (_ = repo))|].
    by rewrite (bool_decide_false (k.2 = ext)), andb_false_r.
  - intros k Hk. rewrite rc_symbols0, last_with_none by (intros x <-; by apply Hk).
    apply surviving_none. intros f v. unfold symbol_owned. by rewrite (bool_decide_false (_ = repo)), andb_false_r.
  - intros m Hm. rewrite rc_members0. unfold old_member. split.
    + intros [[? _]|(h & _ & Hk & _)]; [done|]. destruct Hm. by rewrite Hk.
    + intros Hin. left. split; [done|]. apply existsb_false_le. intros f. unfold member_owned.
      by rewrite (bool_decide_false (_ = repo)).
Qed.

(** What an entity row holds besides the analytics columns. *)
Definition without_analytics (r : entity_row) : entity_row :=
  mkEntityRow (er_name r) (er_type r) (er_description r) (er_file_path r) (er_properties r)
    (er_line_start r) (er_line_end r) (er_source_url r) (er_author r) (er_captured_at r) (er_extractor r) None None.

(** Pushing the same graph again changes no edge, symbol, hyperedge or cached
    hash, and no entity except its analytics columns, which the next recompute
    restores. *)
Theorem push_idempotent (g g1 g2 : graph) :
  reconciled real4 now p g g1 -> reconciled real4 now p g1 g2 ->
  g_edges g2 = g_edges g1 /\ g_symbols g2 = g_symbols g1 /\ g_hyper g2 = g_hyper g1 /\ g_sem g2 = g_sem g1 /\
  without_analytics <$> g_entities g2 = without_analytics <$> g_entities g1 /\ g_state g2 = g_state g1.
Proof.
  intros [] []. split_and!; apply map_eq; intros k.
  - rewrite rc_edges1. pose proof (rc_edges0 k) as H1. destruct (last_with _ k _); [done|].
    by apply (surviving_idem _ _ (g_edges g)).
  - rewrite rc_symbols1. pose proof (rc_symbols0 k) as H1. destruct (last_with _ k _); [done|].
    by apply (surviving_idem _ _ (g_symbols g)).
  - rewrite rc_hyper1. pose proof (rc_hyper0 k) as H1. destruct (last_with _ k _); [done|].
    by apply (surviving_idem _ _ (g_hyper g)).
  - rewrite rc_sem1, rc_sem0. by destruct (if bool_decide _ then _ else _).
  - rewrite !lookup_fmap, rc_entities1. pose proof (rc_entities0 k) as H1. destruct (last_with _ k _).
    + by rewrite H1.
    + f_equal. by apply (surviving_idem _ _ (g_entities g)).
  - rewrite rc_state1, rc_state0. case_bool_decide; [|done]. subst. rewrite rc_state0. by rewrite bool_decide_true.
Qed.
End Consequences.

(** * The neighbour walk *)

Section Walk.
Context (repo relStr : string) (inward : bool) (cf : option ConfidenceFilter) (g : graph).

(** One edge of the repository that passes both filters, in the walk's direction. *)
Definition passes (x y : string) : Prop :=
  exists from to rel ext r, g_edges g !! (repo, from, to, rel, ext) = Some r /\
    relation_passes relStr rel = true /\ cf_passes cf r = true /\
    (x, y) = if inward then (to, from) else (from, to).
Lemma elem_of_hop front y :
  y ∈ hop repo relStr inward cf g front <-> exists x, x ∈ front /\ passes x y.
Proof.
  unfold hop. rewrite elem_of_list_to_set, list_elem_of_omap. split.
  - intros ([[[[[r from] to] rel] ext] row] & Hin%elem_of_map_to_list & Hs). simpl in Hs.
    destruct (bool_decide (r = repo)) eqn:Hr; [|done]. apply bool_decide_eq_true in Hr as ->. simpl in Hs.
    destruct (bool_decide (_ ∈ front)) eqn:Hf; [|done]. apply bool_decide_eq_true in Hf. simpl in Hs.
    destruct (relation_passes relStr rel) eqn:Hrel; [|done]. destruct (cf_passes cf row) eqn:Hcf; [|done].
    simpl in Hs. injection Hs as <-. exists (if inward then to else from). split; [done|].
    exists from, to, rel, ext, row. split_and!; try done. by destruct inward.
  - intros (x & Hx & from & to & rel & ext & row & Hk & Hrel & Hcf & He).
    exists ((repo, from, to, rel, ext), row). split; [by apply elem_of_map_to_list|]. simpl.
    rewrite Hrel, Hcf, (bool_decide_true (repo = repo)) by done.
    destruct inward; injection He as -> ->; by rewrite bool_decide_true.
Qed.
Lemma lookup_walk front depth i l :
  walk repo relStr inward cf g front depth !! i = Some l <->
  (i < depth)%nat /\ l = Nat.iter (S i) (hop repo relStr inward cf g) front.
Proof.
  revert front i. induction depth as [|depth IH]; intros front i; simpl; [split; [done|lia]|].
  destruct i as [|i]; simpl; [split; [by intros [= <-]; split; [lia|]|by intros [_ ->]]|].
  rewrite IH, <- (Nat.iter_succ_r (S i)). split; intros [? ->]; (split; [lia|done]).
Qed.
Lemma elem_of_iter front n y :
  y ∈ Nat.iter n (hop repo relStr inward cf g) front <-> exists x, x ∈ front /\ nsteps passes n x y.
Proof.
  revert y. induction n as [|n IH]; intros y; simpl.
  - split; [intros Hy; exists y; split; [done|constructor]|intros (x & Hx & Hn); by inversion Hn; subst].
  - rewrite elem_of_hop. split.
    + intros (x & (z & Hz & Hn)%IH & Hp). exists z. split; [done|]. by eapply nsteps_r.
    + intros (z & Hz & (x & Hn & Hp)%nsteps_inv_r). exists x. split; [apply IH; by exists z|done].
Qed.
Lemma first_depth_spec id levels d0 d :
  first_depth id levels d0 = Some d <->
  exists i l, d = d0 + Z.of_nat i /\ levels !! i = Some l /\ id ∈ l /\
    forall j l', (j < i)%nat -> levels !! j = Some l' -> id ∉ l'.
Proof.
  revert d0. induction levels as [|l levels IH]; intros d0; simpl; [split; [done|by intros (i & l & _ & ? & _)]|].
  case_bool_decide as Hl.
  - split; [intros [= <-]; exists 0%nat, l; split_and!; [lia|done|done|lia]|].
    intros ([|i] & l' & -> & Hi & Hin & Hj); [f_equal; lia|]. by destruct (Hj 0%nat l ltac:(lia) eq_refl).
  - rewrite IH. split; intros (i & l' & -> & Hi & Hin & Hj).
    + exists (S i), l'. split_and!; [lia|done|done|]. intros [|j] l'' Hji; [by intros [= <-]|]. simpl. apply Hj. lia.
    + destruct i as [|i]; [by injection Hi as ->|]. exists i, l'. split_and!; [lia|done|done|].
      intros j l'' Hji Hjl. apply (Hj (S j) l''); [lia|done].
Qed.

(** Reached within [depth] hops, and how far the nearest path is. *)
Definition nearest (id y : string) (depth d : Z) : Prop :=
  1 <= d <= depth /\ nsteps passes (Z.to_nat d) id y /\
  forall d', 1 <= d' < d -> ~ nsteps passes (Z.to_nat d') id y.
Lemma first_depth_nearest id y depth d :
  first_depth y (walk repo relStr inward cf g {[id]} (Z.to_nat depth)) 1 = Some d <-> nearest id y depth d.
Proof.
  assert (Hit : forall n, y ∈ Nat.iter n (hop repo relStr inward cf g) {[id]} <-> nsteps passes n id y).
  { intros n. rewrite elem_of_iter. split; [intros (x & ->%elem_of_singleton & ?); done|]. exists id. set_solver. }
  rewrite first_depth_spec. split.
  - intros (i & l & -> & [Hi ->]%lookup_walk & Hin%Hit & Hj). split_and!; [lia|lia| |].
    + by replace (Z.to_nat (1 + Z.of_nat i)) with (S i) by lia.
    + intros d' Hd Hn. apply (Hj (Z.to_nat (d' - 1)) (Nat.iter (Z.to_nat d') (hop repo relStr inward cf g) {[id]}));
        [lia| |by apply Hit]. apply lookup_walk. split; [lia|]. f_equal. lia.
  - intros ([H1 H2] & Hn & Hmin). exists (Z.to_nat (d - 1)), (Nat.iter (Z.to_nat d) (hop repo relStr inward cf g) {[id]}).
    split_and!; [lia| |by apply Hit|].
    + apply lookup_walk. split; [lia|]. f_equal. lia.
    + intros j l' Hj [_ ->]%lookup_walk Hy%Hit. apply (Hmin (Z.of_nat (S j))); [lia|].
      by replace (Z.to_nat (Z.of_nat (S j))) with (S j) by lia.
Qed.
Lemma elem_of_reached id depth n :
  n ∈ reached repo (walk repo relStr inward cf g {[id]} (Z.to_nat depth)) g <->
  exists y r, n = mkPathNode (entity_of y r) (pn_Depth n) /\ g_entities g !! (repo, y) = Some r /\
    nearest id y depth (pn_Depth n).
Proof.
  unfold reached. rewrite list_elem_of_omap. split.
  - intros ([[rp y] r] & Hin%elem_of_map_to_list & Hs). simpl in Hs. case_bool_decide as Hr; [|done]. subst.
    apply fmap_Some in Hs as (d & Hd & ->). exists y, r. split_and!; [done|done|]. by apply first_depth_nearest.
  - intros (y & r & Hn & Hk & Hd%first_depth_nearest). exists ((repo, y), r). split; [by apply elem_of_map_to_list|].
    simpl. rewrite bool_decide_true, Hd by done. simpl. by rewrite <- Hn.
Qed.
End Walk.

Lemma reached_NoDup repo levels g : NoDup ((fun n => ce_ID (pn_Entity n)) <$> reached repo levels g).
Proof.
  unfold reached. pose proof (NoDup_fst_map_to_list (g_entities g)) as Hnd. revert Hnd.
  induction (map_to_list (g_entities g)) as [|[[rp y] r] l IH]; [constructor|].
  rewrite fmap_cons. intros [Hy Hnd]%NoDup_cons. simpl. case_bool_decide; [subst|by apply IH].
  destruct (first_depth y levels 1) as [d|]; simpl; [|by apply IH]. constructor; [|by apply IH].
  intros (n & Hn & ([[rp' y'] r'] & Hin & Hs)%list_elem_of_omap)%list_elem_of_fmap. simpl in *.
  case_bool_decide; [|done]. subst. destruct (first_depth y' levels 1); [|done]. simpl in Hs. injection Hs as <-.
  apply Hy. by apply (list_elem_of_fmap_2 fst l (repo, y', r')).
Qed.
#[export] Instance node_le_trans : Transitive node_le.
Proof. intros a b c. unfold node_le. apply (transitivity (R:=String.le)). Qed.
#[export] Instance node_le_total : Total node_le.
Proof. intros a b. unfold node_le. apply (total String.le). Qed.

(** C13: the neighbours of an entity are exactly the stored entities a path of
    passing edges reaches within the depth, each once, at the length of its
    shortest such path, in the order of their IDs; the limit cuts that list. *)
Theorem Neighbors_spec (real4 : Q -> Q) (repo id : string) relations dir depth limit cf g :
  let nearest := nearest repo (join_with comma relations) (bool_decide (dir = "in"%string)) (bound_filter real4 cf) g in
  exists all, Neighbors real4 repo id relations dir depth limit cf (mkDb g []) = (Ok (take (Z.to_nat limit) all), mkDb g []) /\
    StronglySorted node_le all /\ NoDup ((fun n => ce_ID (pn_Entity n)) <$> all) /\
    forall n, n ∈ all <-> exists y r, n = mkPathNode (entity_of y r) (pn_Depth n) /\
      g_entities g !! (repo, y) = Some r /\ nearest id y depth (pn_Depth n).
Proof.
  intros near. eexists (merge_sort node_le (reached repo _ g)). split; [reflexivity|].
  split; [apply (StronglySorted_merge_sort node_le)|]. rewrite (merge_sort_Permutation node_le).
  split; [apply reached_NoDup|]. intros n. rewrite (merge_sort_Permutation node_le). apply elem_of_reached.
Qed.

(** The semantic cache after a push. *)
Lemma SemanticMisses_calm repo files out g :
  SemanticMisses repo files out (mkDb g []) =
    (Ok (out ++ (fs_Path <$> List.filter (fun f => bool_decide (fst <$> g_sem g !! (repo, fs_Path f) <> Some (fs_ContentSHA f))) files)),
     mkDb g []).
Proof.
  revert out. induction files as [|f files IH]; intros out; [simpl; by rewrite app_nil_r|].
  cbn [SemanticMisses List.filter]. unfold bind. simpl.
  destruct (g_sem g !! (repo, fs_Path f)) as [[sha at_]|]; simpl.
  - rewrite IH. destruct (decide (sha = fs_ContentSHA f)) as [->|Hne].
    + by rewrite !bool_decide_false by naive_solver.
    + rewrite !bool_decide_true by naive_solver. by rewrite <- app_assoc.
  - by rewrite IH, <- app_assoc.
Qed.
(** After a push, the files whose hashes it carried are not reported as misses
    for those hashes, and every other file's answer is what it was. *)
Theorem pushed_files_hit `{MapRange} real4 now p (g g' : graph) files :
  reconciled real4 now p g g' ->
  SemanticMisses (gp_Repo p) files [] (mkDb g' []) =
    (Ok (fs_Path <$> List.filter (fun f => match gp_FileSHAs p !! fs_Path f with
         | Some sha => bool_decide (sha <> fs_ContentSHA f)
         | None => bool_decide (fst <$> g_sem g !! (gp_Repo p, fs_Path f) <> Some (fs_ContentSHA f)) end) files), mkDb g' []).
Proof.
  intros []. rewrite SemanticMisses_calm. simpl. do 3 f_equal. apply filter_ext. intros f.
  rewrite rc_sem0. simpl. rewrite (bool_decide_true (gp_Repo p = gp_Repo p)) by done. destruct (gp_FileSHAs p !! fs_Path f); [|done]. simpl.
  apply bool_decide_ext. naive_solver.
Qed.

(** * Concrete pushes *)

Section Concrete.
#[local] Instance push_range : MapRange := map_to_list_range.
Definition exact (q : Q) : Q := q.
Definition no_rows : graph := mkGraphTables ∅ ∅ ∅ ∅ ∅ ∅ ∅ ∅.
Definition an_entity (id file : string) : CodeEntity := mkCodeEntity id id "func" "" file 1 2 "" "" "" ∅.
Definition an_edge (from to file : string) : CodeEdge := mkCodeEdge from to "calls" file 0%Q "" ∅.
Definition first_push : GraphPush :=
  mkPush "r" "" ["f"%string] [an_entity "a" "f"; an_entity "b" "f"] [an_edge "a" "b" "f"] [] [] {["f"%string := "sha"%string]}.
Definition pushed (p : GraphPush) (now : Z) (g : graph) : graph := run_all (reconcile_statements exact now p) g.
Definition after_first : graph := pushed first_push 10 no_rows.

Lemma push_isolated_witness :
  reconciled exact 10 first_push no_rows after_first /\
  g_state after_first !! "other"%string = g_state no_rows !! "other"%string.
Proof.
  assert (Hr : reconciled exact 10 first_push no_rows after_first) by apply run_all_reconciled.
  split; [exact Hr|]. apply (push_isolated exact 10 first_push no_rows after_first Hr). discriminate.
Defined.
Lemma push_idempotent_witness :
  reconciled exact 10 first_push no_rows after_first /\
  g_edges (pushed first_push 10 after_first) = g_edges after_first.
Proof.
  assert (Hr : reconciled exact 10 first_push no_rows after_first) by apply run_all_reconciled.
  split; [exact Hr|].
  apply (push_idempotent exact 10 first_push no_rows after_first (pushed first_push 10 after_first) Hr).
  apply run_all_reconciled.
Defined.
Lemma pushed_files_hit_witness :
  (SemanticMisses "r" [mkFileSHA "f" "sha"; mkFileSHA "f" "new"; mkFileSHA "g" "x"] [] (mkDb after_first [])).1
    = Ok ["f"; "g"]%string.
Proof.
  rewrite (pushed_files_hit exact 10 first_push no_rows after_first); [reflexivity|apply run_all_reconciled].
Defined.

(** A semantic push that names an entity of the AST stage takes its row over,
    and the AST push that drops the entity from the file then no longer deletes it:
    the entity stays in the graph, where without the semantic push it would go. *)
Theorem semantic_push_captures_entity :
  let semantic := mkPush "r" ExtractorSemantic ["f"%string] [an_entity "a" "f"] [] [] [] ∅ in
  let gone := mkPush "r" "" ["f"%string] [an_entity "b" "f"] [] [] [] ∅ in
  g_entities (pushed gone 12 after_first) !! ("r"%string, "a"%string) = None /\
  exists r, g_entities (pushed gone 12 (pushed semantic 11 after_first)) !! ("r"%string, "a"%string) = Some r /\
    er_file_path r = "f"%string /\ er_extractor r = ExtractorSemantic.
Proof. split; [reflexivity|]. eexists. split; [reflexivity|]. split; reflexivity. Qed.
End Concrete.
