(* ===== verification/CodeService.v ===== *)
(** The code-graph service ([internal/codegraph/service.go]) over the store
    interface ([internal/codegraph/store.go]): the scope check of a push, the caps
    on limits and depth, and one metric per query. *)
From S2P Require Import Prelude GoErr GoStr Db CodeGraph CodeGraphLaws.
From Stdlib Require Import QArith.
#[local] Open Scope Z_scope.

(** * Result types (types.go) *)

Record CrossRef := mkCrossRef { xr_Repo : string; xr_EntityID : string; xr_Symbol : string; xr_Lang : string }.
Record CrossRepoLinks := mkCrossLinks { xl_Consumers : list CrossRef; xl_Providers : list CrossRef }.
Record RelatedResult := mkRelated { rl_Entity : CodeEntity; rl_Relation : string; rl_Score : Q; rl_Tier : string }.
Record CommunityRow := mkCommRow { cw_Community : Z; cw_Label : string; cw_Size : Z; cw_Cohesion : Q }.
Record Bridge := mkBridge { br_Entity : CodeEntity; br_Betweenness : Q; br_Community : Z; br_NeighborCommunities : Z }.
Record EntityDetail := mkDetail { dt_Entity : CodeEntity; dt_OutEdges : list CodeEdge; dt_InEdges : list CodeEdge }.
Record EntityDegree := mkDegree { dg_Entity : CodeEntity; dg_Degree : Z }.
Record GraphStats := mkStats {
  gs_Entities : Z; gs_Edges : Z; gs_EntitiesByType : gmap string Z; gs_EdgesByRelation : gmap string Z;
  gs_EdgesByTier : gmap string Z; gs_IsolatedEntities : Z; gs_ImportCycles : Z }.
Record NeighborEntity := mkNeighbor {
  nb_ID : string; nb_Name : string; nb_Type : string; nb_FilePath : string; nb_LineStart : Z; nb_LineEnd : Z }.
Record EntityExplain := mkExplain { xp_Detail : EntityDetail; xp_Out : list NeighborEntity; xp_In : list NeighborEntity }.

Class Store (S : Type) := {
  s_Reconcile : GraphPush -> M S (result err PushResult);
  s_SearchEntities : string -> string -> string -> Z -> M S (result err (list CodeEntity));
  s_GetEntity : string -> string -> M S (result err EntityDetail);
  s_Neighbors : string -> string -> list string -> string -> Z -> Z -> ConfidenceFilter -> M S (result err (list PathNode));
  s_FileImports : string -> string -> Z -> M S (result err (list CodeEdge));
  s_CrossRepo : string -> string -> Z -> M S (result err CrossRepoLinks);
  s_ShortestPath : string -> string -> string -> list string -> Z -> M S (result err (list CodeEntity));
  s_ImportantEntities : string -> Z -> M S (result err (list EntityDegree));
  s_Stats : string -> M S (result err GraphStats);
  s_AmbiguousEdges : string -> Z -> M S (result err (list CodeEdge));
  s_EntityExplain : string -> string -> M S (result err EntityExplain);
  s_SemanticMisses : string -> list FileSHA -> M S (result err (list string));
  s_Related : string -> string -> list string -> float64 -> Z -> M S (result err (list RelatedResult));
  s_Hyperedges : string -> string -> Z -> M S (result err (list Hyperedge));
  s_Hyperedge : string -> string -> M S (result err Hyperedge);
  s_Communities : string -> Z -> M S (result err (list CommunityRow));
  s_Community : string -> Z -> Z -> M S (result err (list CodeEntity));
  s_Bridges : string -> Z -> M S (result err (list Bridge));
  s_ImportantEntitiesBy : string -> string -> Z -> M S (result err (list EntityDegree)) }.

(** * The service *)

Definition RoleProvides : string := "provides".
Definition RoleRequires : string := "requires".
Definition callRelations : list string := ["calls"]%string.
Definition dependencyRelations : list string := ["imports"; "references"; "depends_on"]%string.
Definition resourceRelations : list string :=
  ["depends_on"; "references"; "value_ref"; "includes"; "subchart"; "module_source"]%string.
Definition normalizeDir (dir : string) : string :=
  if bool_decide (ToLower dir = "in"%string) then "in"%string else "out"%string.
(** [if limit <= 0 { limit = def }; if limit > max { limit = max }]. *)
Definition clamp_limit (def max limit : Z) : Z :=
  let l := if bool_decide (limit <= 0) then def else limit in if bool_decide (l > max) then max else l.

(** The service's world: the store, and the query and upsert counters. *)
Record code_svc (S : Type) := mkCodeSvc { cs_store : S; cs_queries : gmap string Z; cs_upserts : gmap string Z }.
Arguments mkCodeSvc {S} _ _ _.
Arguments cs_store {S} _.
Arguments cs_queries {S} _.
Arguments cs_upserts {S} _.

Section CodeService.
Context {S : Type} `{Store S}.
Abbreviation W := (code_svc S).

Definition on_cstore {A} (m : M S A) : M W A := fun w =>
  let q := m (cs_store w) in (q.1, mkCodeSvc q.2 (cs_queries w) (cs_upserts w)).
Definition observeQuery {A} (op : string) (r : result err A) : M W unit :=
  modify (fun w => mkCodeSvc (cs_store w)
    (inc (String.append op (if is_ok r then "/success" else "/error")) (cs_queries w)) (cs_upserts w)).
Definition add_to (k : string) (n : Z) (m : gmap string Z) : gmap string Z := <[k := default 0 (m !! k) + n]> m.
Definition observePush (repo : string) (entities edges : Z) : M W unit :=
  modify (fun w => mkCodeSvc (cs_store w) (cs_queries w)
    (add_to (String.append "edges/" repo) edges (add_to (String.append "entities/" repo) entities (cs_upserts w)))).
Definition query {A} (op : string) (m : M S (result err A)) : M W (result err A) :=
  r <- on_cstore m ;; observeQuery op r ;; ret r.

(** The three validation loops of Push, each returning its first violation. *)
Definition invalid (text : string) : err := WrapMsg ErrInvalidScope text.
Fixpoint check_entities (files : gset string) (l : list CodeEntity) : option err :=
  match l with
  | [] => None
  | e :: l =>
      if bool_decide (ce_FilePath e = ""%string) then check_entities files l
      else if bool_decide (ce_FilePath e ∈ files) then check_entities files l
      else Some (invalid "entity file_path not in files")
  end.
Fixpoint check_edges (files : gset string) (l : list CodeEdge) : option err :=
  match l with
  | [] => None
  | e :: l => if bool_decide (cg_SrcFile e ∈ files) then check_edges files l
              else Some (invalid "edge src_file not in files")
  end.
Fixpoint check_symbols (files : gset string) (l : list SymbolRow) : option err :=
  match l with
  | [] => None
  | s :: l =>
      if negb (bool_decide (sy_SrcFile s ∈ files)) then Some (invalid "symbol src_file not in files")
      else if bool_decide (sy_Role s <> RoleProvides) && bool_decide (sy_Role s <> RoleRequires)
      then Some (invalid "symbol role must be provides|requires")
      else check_symbols files l
  end.
Definition check_push (p : GraphPush) : option err :=
  if bool_decide (gp_Repo p = ""%string) then Some (invalid "repo required")
  else match gp_Files p with
       | [] => Some (invalid "files required")
       | fs => let files := list_to_set fs in
               match check_entities files (gp_Entities p) with
               | Some e => Some e
               | None => match check_edges files (gp_Edges p) with
                         | Some e => Some e
                         | None => check_symbols files (gp_Symbols p)
                         end
               end
       end.
Definition Push (p : GraphPush) : M W (result err PushResult) :=
  match check_push p with
  | Some e => ret (Err e)
  | None =>
      try res <- on_cstore (s_Reconcile p) in
      (observePush (gp_Repo p) (pr_EntitiesUpserted res) (pr_EdgesUpserted res) ;; ret (Ok res))
  end.

Definition Search (repo q typ : string) (limit : Z) : M W (result err (list CodeEntity)) :=
  query "search" (s_SearchEntities repo q typ (clamp_limit 50 500 limit)).
Definition GetCodeEntity (repo id : string) : M W (result err EntityDetail) := query "entity" (s_GetEntity repo id).
Definition svc_Neighbors (repo id : string) (relations : list string) (dir : string) (depth limit : Z)
    (cf : ConfidenceFilter) : M W (result err (list PathNode)) :=
  query "neighbors" (s_Neighbors repo id relations (normalizeDir dir) (clampDepth depth) (clampNeighborLimit limit) cf).
Definition Callers (repo id : string) (depth : Z) (cf : ConfidenceFilter) : M W (result err (list PathNode)) :=
  svc_Neighbors repo id callRelations "in" depth 0 cf.
Definition Callees (repo id : string) (depth : Z) (cf : ConfidenceFilter) : M W (result err (list PathNode)) :=
  svc_Neighbors repo id callRelations "out" depth 0 cf.
Definition Dependents (repo id : string) (depth : Z) (cf : ConfidenceFilter) : M W (result err (list PathNode)) :=
  svc_Neighbors repo id dependencyRelations "in" depth 0 cf.
Definition Dependencies (repo id : string) (depth : Z) (cf : ConfidenceFilter) : M W (result err (list PathNode)) :=
  svc_Neighbors repo id dependencyRelations "out" depth 0 cf.
Definition ResourceGraph (repo id : string) (depth : Z) (cf : ConfidenceFilter) : M W (result err (list PathNode)) :=
  svc_Neighbors repo id resourceRelations "out" depth 0 cf.
Definition FileImports (repo path : string) (limit : Z) : M W (result err (list CodeEdge)) :=
  query "file_imports" (s_FileImports repo path limit).
Definition CrossRepo (repo id : string) (limit : Z) : M W (result err CrossRepoLinks) :=
  query "cross_repo" (s_CrossRepo repo id limit).
Definition ShortestPath (repo from to : string) (relations : list string) (depth : Z) : M W (result err (list CodeEntity)) :=
  query "shortest_path" (s_ShortestPath repo from to relations (clampDepth depth)).
Definition ImportantEntities (repo : string) (limit : Z) : M W (result err (list EntityDegree)) :=
  query "important_entities" (s_ImportantEntities repo (clamp_limit 20 200 limit)).
Definition Stats (repo : string) : M W (result err GraphStats) := query "stats" (s_Stats repo).
Definition AmbiguousEdges (repo : string) (limit : Z) : M W (result err (list CodeEdge)) :=
  query "ambiguous" (s_AmbiguousEdges repo (clamp_limit 50 500 limit)).
Definition Explain (repo id : string) : M W (result err EntityExplain) := query "entity_explain" (s_EntityExplain repo id).
Definition svc_SemanticMisses (repo : string) (files : list FileSHA) : M W (result err (list string)) :=
  query "semantic_misses" (s_SemanticMisses repo files).
Definition Related (repo id : string) (relations : list string) (minConfidence : float64) (limit : Z) : M W (result err (list RelatedResult)) :=
  query "related" (s_Related repo id relations minConfidence (clamp_limit 20 200 limit)).
Definition Hyperedges (repo entityID : string) (limit : Z) : M W (result err (list Hyperedge)) :=
  query "hyperedges" (s_Hyperedges repo entityID (clamp_limit 20 200 limit)).
Definition GetHyperedge (repo id : string) : M W (result err Hyperedge) := query "hyperedge" (s_Hyperedge repo id).
Definition Communities (repo : string) (limit : Z) : M W (result err (list CommunityRow)) :=
  query "communities" (s_Communities repo (clamp_limit 20 200 limit)).
Definition Community (repo : string) (community limit : Z) : M W (result err (list CodeEntity)) :=
  query "community" (s_Community repo community (clamp_limit 20 200 limit)).
Definition Bridges (repo : string) (limit : Z) : M W (result err (list Bridge)) :=
  query "bridges" (s_Bridges repo (clamp_limit 20 200 limit)).
Definition ImportantEntitiesBy (repo by_ : string) (limit : Z) : M W (result err (list EntityDegree)) :=
  query "important_by" (s_ImportantEntitiesBy repo by_ (clamp_limit 20 200 limit)).

(** * A push reaches the store exactly when it is in scope *)

(** Every row belongs to a declared file (an entity may have none), and symbols
    have a known role. *)
Definition in_scope (p : GraphPush) : Prop :=
  gp_Repo p <> ""%string /\ gp_Files p <> [] /\
  Forall (fun e => ce_FilePath e = ""%string \/ ce_FilePath e ∈ gp_Files p) (gp_Entities p) /\
  Forall (fun e => cg_SrcFile e ∈ gp_Files p) (gp_Edges p) /\
  Forall (fun s => sy_SrcFile s ∈ gp_Files p /\ (sy_Role s = RoleProvides \/ sy_Role s = RoleRequires)) (gp_Symbols p).

Definition refused (o : option err) : Prop := exists t, o = Some (invalid t).
Lemma check_entities_spec files (l : list CodeEntity) :
  (check_entities files l = None /\ Forall (fun e => ce_FilePath e = ""%string \/ ce_FilePath e ∈ files) l) \/
  (refused (check_entities files l) /\ ~ Forall (fun e => ce_FilePath e = ""%string \/ ce_FilePath e ∈ files) l).
Proof.
  induction l as [|e l IH]; [by left|]. simpl. rewrite Forall_cons. repeat case_bool_decide; try tauto.
  right. split; [by eexists|tauto].
Qed.
Lemma check_edges_spec files (l : list CodeEdge) :
  (check_edges files l = None /\ Forall (fun e => cg_SrcFile e ∈ files) l) \/
  (refused (check_edges files l) /\ ~ Forall (fun e => cg_SrcFile e ∈ files) l).
Proof.
  induction l as [|e l IH]; [by left|]. simpl. rewrite Forall_cons. case_bool_decide; try tauto.
  right. split; [by eexists|tauto].
Qed.
Lemma check_symbols_spec files (l : list SymbolRow) :
  let ok s := sy_SrcFile s ∈ files /\ (sy_Role s = RoleProvides \/ sy_Role s = RoleRequires) in
  (check_symbols files l = None /\ Forall ok l) \/ (refused (check_symbols files l) /\ ~ Forall ok l).
Proof.
  induction l as [|s l IH]; [by left|]. simpl in *. rewrite Forall_cons. repeat case_bool_decide; simpl; try tauto;
    right; (split; [by eexists|tauto]).
Qed.
Lemma check_push_spec p : (check_push p = None /\ in_scope p) \/ (refused (check_push p) /\ ~ in_scope p).
Proof.
  unfold check_push, in_scope. case_bool_decide; [right; split; [by eexists|tauto]|].
  destruct (gp_Files p) as [|f fs] eqn:Ef; [right; split; [by eexists|tauto]|]. 
  assert (Hne : gp_Files p <> []) by by rewrite Ef. rewrite <- Ef. clear Ef f fs.
  set (files := list_to_set (gp_Files p) : gset string).
  assert (Hin : forall x, x ∈ files <-> x ∈ gp_Files p) by (intros x; apply elem_of_list_to_set).
  destruct (check_entities_spec files (gp_Entities p)) as [[-> He]|[[t ->] He]].
  2:{ right. split; [by eexists|]. intros (_ & _ & Hx & _). apply He. eapply Forall_impl; [exact Hx|]. intros e. cbv beta. by rewrite Hin. }
  destruct (check_edges_spec files (gp_Edges p)) as [[-> Hg]|[[t ->] Hg]].
  2:{ right. split; [by eexists|]. intros (_ & _ & _ & Hx & _). apply Hg. eapply Forall_impl; [exact Hx|]. intros e. cbv beta. by rewrite Hin. }
  destruct (check_symbols_spec files (gp_Symbols p)) as [[-> Hs]|[Hr Hs]].
  - left. split_and!; try done; (eapply Forall_impl; [eassumption|]); intros x; cbv beta; by rewrite Hin.
  - right. split; [done|]. intros (_ & _ & _ & _ & Hx). apply Hs. eapply Forall_impl; [exact Hx|]. intros e. cbv beta. by rewrite Hin.
Qed.

(** A push is refused with ErrInvalidScope, without any call to the store, when
    some entity, edge or symbol is not owned by a declared file, a symbol has an
    unknown role, or the repository or the files are missing; otherwise the store
    reconciles exactly that push, its error is passed on as it is, and a success is
    counted under the repository. *)
Theorem Push_scope p (w : W) :
  let '(r, w') := Push p w in
  (in_scope p -> cs_store w' = (s_Reconcile p (cs_store w)).2 /\
     match (s_Reconcile p (cs_store w)).1 with
     | Ok res => r = Ok res /\ cs_queries w' = cs_queries w /\
         cs_upserts w' = add_to (String.append "edges/" (gp_Repo p)) (pr_EdgesUpserted res)
           (add_to (String.append "entities/" (gp_Repo p)) (pr_EntitiesUpserted res) (cs_upserts w))
     | Err e => r = Err e /\ cs_queries w' = cs_queries w /\ cs_upserts w' = cs_upserts w
     end) /\
  (~ in_scope p -> (exists e, r = Err e /\ errors_Is e ErrInvalidScope = true) /\ w' = w).
Proof.
  unfold Push. destruct (check_push_spec p) as [[-> Hs]|[[t ->] Hs]].
  - unfold bind, on_cstore. cbn [fst snd]. destruct (s_Reconcile p (cs_store w)) as [[res|e] s']; simpl;
      (split; [done|tauto]).
  - simpl. split; [tauto|]. intros _. split; [|done]. by eexists.
Qed.
End CodeService.
