(* ===== verification/CodeReads.v ===== *)
(** The read queries of the code-graph store ([internal/codegraph/pgstore.go])
    and the store as an instance of the interface the service is written against
    ([internal/codegraph/store.go]).

    A query is a function of the tables and of the order in which the server's
    scans deliver rows; [ORDER BY] is a stable sort of what the scan delivered, so
    ties keep the scan's order.  Text is compared byte-wise; [ILIKE] folds
    characters by a parameter (the locale). *)
From S2P Require Import Prelude GoErr Db CodeGraph CodeGraphLaws CodeService.
From Stdlib Require Import QArith.
#[local] Open Scope Z_scope.

Class Scan := {
  scan : forall {K V} `{Countable K}, env -> gmap K V -> list (K * V);
  scan_perm : forall {K V} `{Countable K} e (m : gmap K V), scan e m ≡ₚ map_to_list m }.
(** The order used by the closed examples. *)
Definition scan_in_order : Scan :=
  {| scan := fun K V _ _ _ m => map_to_list m; scan_perm := fun K V _ _ _ m => reflexivity _ |}.

(** * Sorting and patterns *)

Definition order_by {A} (leb : A -> A -> bool) (l : list A) : list A := merge_sort (fun a b => leb a b) l.
Definition str_leb (a b : string) : bool := bool_decide (String.le a b).
Definition str_eqb (a b : string) : bool := bool_decide (a = b).
(** [ORDER BY x DESC NULLS LAST] on float values. *)
Definition desc_nulls_last (a b : option Q) : bool :=
  match a, b with
  | _, None => true
  | None, Some _ => false
  | Some x, Some y => Qle_bool y x
  end.
Definition opt_Qeq (a b : option Q) : bool :=
  match a, b with Some x, Some y => Qeq_bool x y | None, None => true | _, _ => false end.
(** A second key decides where the first one ties. *)
Definition then_by (lt_or_eq tie second : bool) : bool := if tie then second else lt_or_eq.

(** [LIKE] with [ESCAPE '\']. *)
Definition backslash : Ascii.ascii := Ascii.ascii_of_nat 92.
Definition percent : Ascii.ascii := Ascii.ascii_of_nat 37.
Definition underscore : Ascii.ascii := Ascii.ascii_of_nat 95.
Inductive like_item := LChar (c : Ascii.ascii) | LOne | LMany.
(** [None]: the pattern ends in its escape character, which is an error. *)
Fixpoint like_parse (p : list Ascii.ascii) : option (list like_item) :=
  match p with
  | [] => Some []
  | c :: p =>
      if bool_decide (c = backslash) then
        match p with [] => None | d :: p => cons (LChar d) <$> like_parse p end
      else cons (if bool_decide (c = percent) then LMany
                 else if bool_decide (c = underscore) then LOne else LChar c) <$> like_parse p
  end.
Section Ilike.
Context (fold_char : Ascii.ascii -> Ascii.ascii).
Fixpoint like_match (p : list like_item) : list Ascii.ascii -> bool :=
  match p with
  | [] => fun s => match s with [] => true | _ => false end
  | LChar c :: p => fun s => match s with
                             | [] => false
                             | d :: s => bool_decide (fold_char d = fold_char c) && like_match p s end
  | LOne :: p => fun s => match s with [] => false | _ :: s => like_match p s end
  | LMany :: p => fix any s := like_match p s || match s with [] => false | _ :: s => any s end
  end.
Definition ilike (s p : string) : bool :=
  match like_parse (String.list_ascii_of_string p) with
  | Some p => like_match p (String.list_ascii_of_string s)
  | None => false
  end.
End Ilike.
(** [strings.ReplaceAll(s, c, \c)]. *)
Fixpoint escape_char (c : Ascii.ascii) (s : string) : string :=
  match s with
  | EmptyString => EmptyString
  | String d s => if bool_decide (d = c) then String backslash (String d (escape_char c s)) else String d (escape_char c s)
  end.
Definition escapeLike (s : string) : string :=
  escape_char underscore (escape_char percent (escape_char backslash s)).

Definition importCycleDepth : nat := 20.
Definition semanticRelations : list string :=
  ["conceptually_related_to"; "semantically_similar_to"; "rationale_for"; "shares_data_with"; "cites"]%string.
Definition ImportantByDegree : string := "degree".
Definition ImportantByBetweenness : string := "betweenness".
(** [string_to_array(s, ',')]: an empty text is an empty array. *)
Definition string_to_array (s : string) : list string :=
  if bool_decide (s = ""%string) then [] else CodeStore.split_on CodeStore.comma "" s.

Module CodeReads.
Import CodeStore.
Section Reads.
Context `{Scan} (real4 : Q -> Q) (fold_char : Ascii.ascii -> Ascii.ascii).
Abbreviation DB := (Db graph).

(** * Rows of one repository, in scan order *)

Definition entities_in (e : env) (repo : string) (g : graph) : list (string * entity_row) :=
  omap (fun kv : (string * string) * entity_row =>
    if bool_decide (kv.1.1 = repo) then Some (kv.1.2, kv.2) else None) (scan e (g_entities g)).
(** An edge with its extractor. *)
Record edge_rec := mkEdgeRec {
  ee_from : string; ee_to : string; ee_relation : string; ee_extractor : string; ee_row : edge_row }.
Definition edges_in (e : env) (repo : string) (g : graph) : list edge_rec :=
  omap (fun kv : edge_key * edge_row =>
    let '(r, from, to, rel, ext) := kv.1 in
    if bool_decide (r = repo) then Some (mkEdgeRec from to rel ext kv.2) else None) (scan e (g_edges g)).
Definition scan_entity (kr : string * entity_row) : CodeEntity := entity_of kr.1 kr.2.
Definition scan_edge (x : edge_rec) : CodeEdge :=
  mkCodeEdge (ee_from x) (ee_to x) (ee_relation x) (gr_src_file (ee_row x)) 0 "" (gr_properties (ee_row x)).
Definition scan_edge_with_confidence (x : edge_rec) : CodeEdge :=
  mkCodeEdge (ee_from x) (ee_to x) (ee_relation x) (gr_src_file (ee_row x))
    (gr_score (ee_row x)) (gr_tier (ee_row x)) (gr_properties (ee_row x)).
Definition limited {A} (limit : Z) (l : list A) : list A := take (Z.to_nat limit) l.

Definition CountEntities (repo : string) : M DB (result err Z) :=
  select (fun e g => Z.of_nat (length (entities_in e repo g))).

(** * Search *)

Definition contains_pattern (q : string) : string := String.append "%" (String.append q "%").
Definition search_matches (q typ : string) (kr : string * entity_row) : bool :=
  (str_eqb q "" || ilike fold_char (er_name kr.2) (contains_pattern q)
   || ilike fold_char (er_description kr.2) (contains_pattern q)) &&
  (str_eqb typ "" || str_eqb (er_type kr.2) typ).
Definition search_rank (q : string) (kr : string * entity_row) : Z :=
  if str_eqb q "" then 4
  else if ilike fold_char (er_name kr.2) q then 0
  else if ilike fold_char (er_name kr.2) (String.append q "%") then 1
  else if ilike fold_char (er_name kr.2) (contains_pattern q) then 2
  else 3.
Definition search_leb (q : string) (a b : string * entity_row) : bool :=
  then_by (bool_decide (search_rank q a <= search_rank q b)) (bool_decide (search_rank q a = search_rank q b))
    (str_leb (er_name a.2) (er_name b.2)).
Definition SearchEntities (repo q typ : string) (limit : Z) : M DB (result err (list CodeEntity)) :=
  let q := escapeLike q in
  select (fun e g =>
    scan_entity <$> limited limit (order_by (search_leb q)
      (List.filter (search_matches q typ) (entities_in e repo g)))).

(** * One entity *)

Definition query_edges (p : edge_rec -> bool) (repo : string) : M DB (result err (list CodeEdge)) :=
  select (fun e g => scan_edge <$> List.filter p (edges_in e repo g)).
Definition GetEntity (repo id : string) : M DB (result err EntityDetail) :=
  try row <- select (fun _ g => g_entities g !! (repo, id)) in
  match row with
  | None => ret (Err (Sentinel ErrEntityNotFound))
  | Some r =>
      try out <- query_edges (fun x => str_eqb (ee_from x) id) repo in
      (try inn <- query_edges (fun x => str_eqb (ee_to x) id) repo in
       ret (Ok (mkDetail (entity_of id r) out inn)))
  end.
Definition neighbor_of (id : string) (r : entity_row) : NeighborEntity :=
  mkNeighbor id (er_name r) (er_type r) (er_file_path r) (default 0 (er_line_start r)) (default 0 (er_line_end r)).
Definition queryNeighborEntities (repo id : string) (outbound : bool) : M DB (result err (list NeighborEntity)) :=
  select (fun e g =>
    order_by (fun a b => str_leb (nb_Name a) (nb_Name b))
      (omap (fun x =>
        if str_eqb (if outbound then ee_from x else ee_to x) id
        then let other := if outbound then ee_to x else ee_from x in
             neighbor_of other <$> g_entities g !! (repo, other)
        else None) (edges_in e repo g))).
Definition EntityExplain (repo id : string) : M DB (result err EntityExplain) :=
  try det <- GetEntity repo id in
  (try out <- queryNeighborEntities repo id true in
   (try inn <- queryNeighborEntities repo id false in
    ret (Ok (mkExplain det out inn)))).
Definition FileImports (repo path : string) (limit : Z) : M DB (result err (list CodeEdge)) :=
  select (fun e g =>
    scan_edge <$> limited limit (order_by (fun a b => str_leb (ee_from a) (ee_from b))
      (List.filter (fun x => str_eqb (gr_src_file (ee_row x)) path && str_eqb (ee_relation x) "imports")
        (edges_in e repo g)))).
Definition AmbiguousEdges (repo : string) (limit : Z) : M DB (result err (list CodeEdge)) :=
  select (fun e g =>
    scan_edge_with_confidence <$> limited limit (order_by (fun a b => Qle_bool (gr_score (ee_row a)) (gr_score (ee_row b)))
      (List.filter (fun x => str_eqb (gr_tier (ee_row x)) TierAmbiguous
                             || Qle_bool (gr_score (ee_row x)) (real4 ambiguousScoreThreshold)) (edges_in e repo g)))).

(** * Shortest path *)

(** A row of the recursive query: the node and the path to it. *)
Definition walk_row : Type := string * list string.
Definition extend (relStr to : string) (es : list edge_rec) (w : walk_row) : list walk_row :=
  if str_eqb w.1 to then []
  else omap (fun x =>
    if str_eqb (ee_from x) w.1 && relation_passes relStr (ee_relation x) && negb (bool_decide (ee_to x ∈ w.2))
    then Some (ee_to x, w.2 ++ [ee_to x]) else None) es.
(** The rows at each depth, from the given ones on. *)
Fixpoint path_rows (relStr to : string) (es : list edge_rec) (rows : list walk_row) (depth : nat) : list (list walk_row) :=
  rows :: match depth with
          | O => []
          | S n => path_rows relStr to es (mjoin (extend relStr to es <$> rows)) n
          end.
(** [WHERE id = $5 ORDER BY depth LIMIT 1]. *)
Fixpoint first_path (to : string) (levels : list (list walk_row)) (tie : nat) : option (list string) :=
  match levels with
  | [] => None
  | rows :: levels =>
      match List.filter (fun w : walk_row => str_eqb w.1 to) rows with
      | [] => first_path to levels tie
      | found => snd <$> found !! (tie mod length found)%nat
      end
  end.
Definition shortest_path_query (repo from relStr to : string) (maxDepth : Z) (e : env) (g : graph) : option string :=
  join_with bar <$> first_path to (path_rows relStr to (edges_in e repo g) [(from, [from])] (Z.to_nat maxDepth)) (ev_tie e).
(** [byID], then the chain or, with an id missing, nothing. *)
Definition fetch_by_id (repo : string) (ids : list string) (g : graph) : gmap string CodeEntity :=
  list_to_map (omap (fun id => (fun r => (id, entity_of id r)) <$> g_entities g !! (repo, id)) ids).
Definition path_entities (byID : gmap string CodeEntity) (ids : list string) : list CodeEntity :=
  default [] (mapM (fun id => byID !! id) ids).
Definition ShortestPath (repo fromID toID : string) (relations : list string) (maxDepth : Z) :
    M DB (result err (list CodeEntity)) :=
  try row <- select (shortest_path_query repo fromID (join_with comma relations) toID maxDepth) in
  match row with
  | None => ret (Ok [])
  | Some pathStr =>
      let ids := split_on bar "" pathStr in
      (try byID <- select (fun _ g => fetch_by_id repo ids g) in
       ret (Ok (path_entities byID ids)))
  end.

(** * Rankings and communities *)

Definition degree (es : list edge_rec) (id : string) : Z :=
  count (fun x => str_eqb (ee_from x) id && negb (str_eqb (ee_from x) (ee_to x))) es +
  count (fun x => str_eqb (ee_to x) id && negb (str_eqb (ee_from x) (ee_to x))) es.
Definition with_degree (es : list edge_rec) (kr : string * entity_row) : EntityDegree :=
  mkDegree (scan_entity kr) (degree es kr.1).
Definition ImportantEntities (repo : string) (limit : Z) : M DB (result err (list EntityDegree)) :=
  select (fun e g =>
    limited limit (order_by (fun a b => bool_decide (dg_Degree b <= dg_Degree a))
      (with_degree (edges_in e repo g) <$> entities_in e repo g))).
Definition by_betweenness (a b : string * entity_row) : bool :=
  then_by (desc_nulls_last (er_betweenness a.2) (er_betweenness b.2))
    (opt_Qeq (er_betweenness a.2) (er_betweenness b.2)) (str_leb a.1 b.1).
Definition ImportantEntitiesBy (repo by_ : string) (limit : Z) : M DB (result err (list EntityDegree)) :=
  if negb (str_eqb by_ ImportantByBetweenness) then ImportantEntities repo limit
  else select (fun e g =>
    with_degree (edges_in e repo g) <$> limited limit (order_by by_betweenness (entities_in e repo g))).
Definition Communities (repo : string) (limit : Z) : M DB (result err (list CommunityRow)) :=
  select (fun e g =>
    limited limit (order_by
      (fun a b => then_by (bool_decide (cw_Size b <= cw_Size a)) (bool_decide (cw_Size a = cw_Size b))
                    (bool_decide (cw_Community a <= cw_Community b)))
      (omap (fun kv : (string * Z) * community_row =>
         if bool_decide (kv.1.1 = repo)
         then Some (mkCommRow kv.1.2 (cr_label kv.2) (cr_size kv.2) (cr_cohesion kv.2)) else None)
       (scan e (g_comm g))))).
Definition Community (repo : string) (community limit : Z) : M DB (result err (list CodeEntity)) :=
  select (fun e g =>
    scan_entity <$> limited limit (order_by (fun a b => str_leb a.1 b.1)
      (List.filter (fun kr => bool_decide (er_community kr.2 = Some community)) (entities_in e repo g)))).
(** The communities an entity's neighbours belong to. *)
Definition neighbor_communities (repo : string) (es : list edge_rec) (g : graph) (id : string) : gset Z :=
  list_to_set (omap (fun x =>
    if (str_eqb (ee_from x) id || str_eqb (ee_to x) id) && negb (str_eqb (ee_from x) (ee_to x))
    then g_entities g !! (repo, if str_eqb (ee_from x) id then ee_to x else ee_from x) ≫= er_community
    else None) es).
Definition Bridges (repo : string) (limit : Z) : M DB (result err (list Bridge)) :=
  select (fun e g =>
    let es := edges_in e repo g in
    let nc := fun id => Z.of_nat (size (neighbor_communities repo es g id)) in
    (fun kr => mkBridge (scan_entity kr) (default 0%Q (er_betweenness kr.2)) (default 0 (er_community kr.2)) (nc kr.1)) <$>
      limited limit (order_by by_betweenness (List.filter (fun kr => bool_decide (nc kr.1 > 1)) (entities_in e repo g)))).

(** * Statistics *)

Definition group_count (l : list string) : gmap string Z := foldr inc ∅ l.
Definition isolated (es : list edge_rec) (id : string) : bool :=
  negb (existsb (fun x => str_eqb (ee_from x) id || str_eqb (ee_to x) id) es).
(** (start, current) at each depth, duplicates removed. *)
Definition import_edges (es : list edge_rec) : list (string * string) :=
  (fun x => (ee_from x, ee_to x)) <$> List.filter (fun x => str_eqb (ee_relation x) "imports") es.
Definition cycle_base (im : list (string * string)) : gset (string * string) :=
  list_to_set (List.filter (fun p => negb (str_eqb p.1 p.2)) im).
Definition cycle_next (im : list (string * string)) (rows : gset (string * string)) : gset (string * string) :=
  list_to_set (elements rows ≫= fun sc =>
    if str_eqb sc.2 sc.1 then []
    else (fun p => (sc.1, p.2)) <$> List.filter (fun p => str_eqb p.1 sc.2) im).
Fixpoint cycle_rows (im : list (string * string)) (rows : gset (string * string)) (n : nat) : list (gset (string * string)) :=
  rows :: match n with O => [] | S n => cycle_rows im (cycle_next im rows) n end.
Definition cycle_starts (im : list (string * string)) : gset string :=
  list_to_set (omap (fun sc : string * string => if str_eqb sc.2 sc.1 then Some sc.1 else None)
    (elements (⋃ cycle_rows im (cycle_base im) (importCycleDepth - 1)))).
Definition Stats (repo : string) : M DB (result err GraphStats) :=
  try entities <- select (fun e g => Z.of_nat (length (entities_in e repo g))) in
  (try edges <- select (fun e g => Z.of_nat (length (edges_in e repo g))) in
  (try types <- select (fun e g => group_count ((fun kr => er_type kr.2) <$> entities_in e repo g)) in
  (try relations <- select (fun e g => group_count (ee_relation <$> edges_in e repo g)) in
  (try tiers <- select (fun e g => group_count ((fun x => gr_tier (ee_row x)) <$> edges_in e repo g)) in
  (try alone <- select (fun e g => count (fun kr => isolated (edges_in e repo g) kr.1) (entities_in e repo g)) in
  (try cycles <- select (fun e g => Z.of_nat (size (cycle_starts (import_edges (edges_in e repo g))))) in
   ret (Ok (mkStats entities edges types relations tiers alone cycles)))))))).

(** * Across repositories; hyperedges; semantic neighbours *)

Definition symbols_of (e : env) (g : graph) : list (symbol_key * symbol_row) := scan e (g_symbols g).
(** Rows of [role] in other repositories for the symbols this entity has in [mine]. *)
Definition cross_refs (mine role : string) (repo id : string) (limit : Z) : M DB (result err (list CrossRef)) :=
  select (fun e g =>
    limited limit (order_by
      (fun a b => then_by (str_leb (xr_Repo a) (xr_Repo b)) (str_eqb (xr_Repo a) (xr_Repo b))
                    (str_leb (xr_EntityID a) (xr_EntityID b)))
      (symbols_of e g ≫= fun p : symbol_key * symbol_row =>
         let '(prepo, psym, prole, pent) := p.1 in
         if str_eqb prepo repo && str_eqb pent id && str_eqb prole mine
         then omap (fun q : symbol_key * symbol_row =>
           let '(qrepo, qsym, qrole, qent) := q.1 in
           if str_eqb qsym psym && str_eqb (sr_lang q.2) (sr_lang p.2) && str_eqb qrole role && negb (str_eqb qrepo repo)
           then Some (mkCrossRef qrepo qent qsym (sr_lang q.2)) else None) (symbols_of e g)
         else []))).
Definition CrossRepo (repo id : string) (limit : Z) : M DB (result err CrossRepoLinks) :=
  try consumers <- cross_refs RoleProvides RoleRequires repo id limit in
  (try providers <- cross_refs RoleRequires RoleProvides repo id limit in
   ret (Ok (mkCrossLinks consumers providers))).

Definition Related (repo id : string) (relations : list string) (minConfidence : float64) (limit : Z) :
    M DB (result err (list RelatedResult)) :=
  let rels := match relations with [] => semanticRelations | _ => relations end in
  let allowed := string_to_array (join_with comma rels) in
  select (fun e g =>
    limited limit (order_by
      (fun a b => then_by (Qle_bool (rl_Score b) (rl_Score a)) (Qeq_bool (rl_Score a) (rl_Score b))
                    (str_leb (ce_ID (rl_Entity a)) (ce_ID (rl_Entity b))))
      (omap (fun x =>
        if str_eqb (ee_from x) id && str_eqb (ee_extractor x) ExtractorSemantic
           && bool_decide (ee_relation x ∈ allowed) && score_at_least (as_real real4 minConfidence) (gr_score (ee_row x))
        then (fun r => mkRelated (entity_of (ee_to x) r) (ee_relation x) (gr_score (ee_row x)) (gr_tier (ee_row x)))
               <$> g_entities g !! (repo, ee_to x)
        else None) (edges_in e repo g)))).

Definition scan_hyperedge (id : string) (r : hyper_row) : Hyperedge :=
  mkHyperedge id (hr_label r) (hr_relation r) (hr_score r) (hr_src_file r) [] (hr_properties r).
Definition with_members (h : Hyperedge) (ms : list string) : Hyperedge :=
  mkHyperedge (hy_ID h) (hy_Label h) (hy_Relation h) (hy_ConfidenceScore h) (hy_SrcFile h) ms (hy_Properties h).
Definition hyperedgeMembers (repo id : string) : M DB (result err (list string)) :=
  select (fun _ g =>
    order_by str_leb (omap (fun m : string * string * string =>
      if bool_decide (m.1 = (repo, id)) then Some m.2 else None) (elements (g_members g)))).
Fixpoint fill_members (repo : string) (l : list Hyperedge) : M DB (result err (list Hyperedge)) :=
  match l with
  | [] => ret (Ok [])
  | h :: l =>
      try ms <- hyperedgeMembers repo (hy_ID h) in
      (try rest <- fill_members repo l in ret (Ok (with_members h ms :: rest)))
  end.
Definition Hyperedges (repo entityID : string) (limit : Z) : M DB (result err (list Hyperedge)) :=
  try out <- select (fun e g =>
    limited limit (order_by (fun a b => str_leb (hy_ID a) (hy_ID b))
      (omap (fun kv : (string * string) * hyper_row =>
        if bool_decide (kv.1.1 = repo) &&
           (str_eqb entityID "" || bool_decide ((repo, kv.1.2, entityID) ∈ g_members g))
        then Some (scan_hyperedge kv.1.2 kv.2) else None) (scan e (g_hyper g))))) in
  fill_members repo out.
Definition Hyperedge_ (repo id : string) : M DB (result err Hyperedge) :=
  try row <- select (fun _ g => g_hyper g !! (repo, id)) in
  match row with
  | None => ret (Err (Sentinel ErrEntityNotFound))
  | Some r => try ms <- hyperedgeMembers repo id in ret (Ok (with_members (scan_hyperedge id r) ms))
  end.
End Reads.

(** * The store the service runs on *)

#[export] Instance PGStore `{MapRange, Scan} (real4 : Q -> Q) (now : Z)
    (fold_char : Ascii.ascii -> Ascii.ascii) : Store (Db graph) := {
  s_Reconcile := Reconcile real4 now;
  s_SearchEntities := SearchEntities fold_char;
  s_GetEntity := GetEntity;
  s_Neighbors := Neighbors real4;
  s_FileImports := FileImports;
  s_CrossRepo := CrossRepo;
  s_ShortestPath := ShortestPath;
  s_ImportantEntities := ImportantEntities;
  s_Stats := Stats;
  s_AmbiguousEdges := AmbiguousEdges real4;
  s_EntityExplain := EntityExplain;
  s_SemanticMisses := fun repo files => SemanticMisses repo files [];
  s_Related := Related real4;
  s_Hyperedges := Hyperedges;
  s_Hyperedge := Hyperedge_;
  s_Communities := Communities;
  s_Community := Community;
  s_Bridges := Bridges;
  s_ImportantEntitiesBy := ImportantEntitiesBy }.
End CodeReads.
