(* ===== verification/CodeReadsLaws.v ===== *)
(** What the code-graph queries return: shortest paths, literal search in order of
    relevance, consistent statistics. *)
From S2P Require Import Prelude GoErr GoStr Db CodeGraph CodeGraphLaws CodeService CodeReads.
Import CodeStore CodeReads.
From Stdlib Require Import QArith.
#[local] Open Scope Z_scope.

(** * Joining and splitting texts *)

Definition chars (s : string) : list Ascii.ascii := String.list_ascii_of_string s.
Definition free_of (c : Ascii.ascii) (s : string) : Prop := c ∉ chars s.
Lemma chars_append a b : chars (String.append a b) = chars a ++ chars b.
Proof. apply list_ascii_append. Qed.
Lemma split_on_free sep s acc rest : free_of sep s ->
  split_on sep acc (String.append s (String sep rest)) = String.append acc s :: split_on sep "" rest.
Proof.
  revert acc. induction s as [|c s IH]; intros acc Hf.
  - change (String.append "" (String sep rest)) with (String sep rest). simpl.
    by rewrite bool_decide_eq_true_2, append_nil_r.
  - unfold free_of, chars in Hf. simpl in Hf. apply not_elem_of_cons in Hf as [Hc Hf].
    rewrite append_cons. simpl. rewrite bool_decide_eq_false_2 by congruence. rewrite IH by done.
    by rewrite append_assoc.
Qed.
Lemma split_on_last sep s acc : free_of sep s -> split_on sep acc s = [String.append acc s].
Proof.
  revert acc. induction s as [|c s IH]; intros acc Hf; simpl; [by rewrite append_nil_r|].
  unfold free_of, chars in Hf. simpl in Hf. apply not_elem_of_cons in Hf as [Hc Hf].
  rewrite bool_decide_eq_false_2 by congruence. rewrite IH by done. by rewrite append_assoc.
Qed.
Lemma split_join sep l : l <> [] -> Forall (free_of sep) l -> split_on sep "" (join_with sep l) = l.
Proof.
  intros Hne Hl. unfold join_with. induction l as [|s l IH]; [done|].
  apply Forall_cons in Hl as [Hs Hl]. destruct l as [|s' l]; [by apply split_on_last|].
  change (String.concat (String sep "") (s :: s' :: l))
    with (String.append s (String sep (String.concat (String sep "") (s' :: l)))).
  rewrite split_on_free by done. by rewrite IH.
Qed.

Lemma StronglySorted_weaken {A} (R R' : relation A) l :
  (forall a b, R a b -> R' a b) -> StronglySorted R l -> StronglySorted R' l.
Proof.
  intros HR. induction 1; constructor; [done|]. eapply Forall_impl; [eassumption|]. intros b. apply HR.
Qed.

(** * Rows in scan order *)

Section Rows.
Context `{Scan}.
Lemma elem_of_edges_in e repo g x :
  x ∈ edges_in e repo g <->
  g_edges g !! (repo, ee_from x, ee_to x, ee_relation x, ee_extractor x) = Some (ee_row x).
Proof.
  unfold edges_in. rewrite list_elem_of_omap. split.
  - intros ([[[[[r from] to] rel] ext] row] & Hin & Hs). rewrite scan_perm in Hin.
    apply elem_of_map_to_list in Hin. simpl in Hs. case_bool_decide; [|done]. simplify_eq. done.
  - intros Hx. destruct x as [from to rel ext row]. simpl in *. exists ((repo, from, to, rel, ext), row).
    rewrite scan_perm, elem_of_map_to_list. split; [done|]. simpl. by rewrite bool_decide_eq_true_2.
Qed.
Lemma elem_of_entities_in e repo g id r :
  (id, r) ∈ entities_in e repo g <-> g_entities g !! (repo, id) = Some r.
Proof.
  unfold entities_in. rewrite list_elem_of_omap. split.
  - intros ([[r' id'] row] & Hin & Hs). rewrite scan_perm in Hin. apply elem_of_map_to_list in Hin.
    simpl in Hs. case_bool_decide; [|done]. by simplify_eq/=.
  - intros Hx. exists ((repo, id), r). rewrite scan_perm, elem_of_map_to_list. split; [done|].
    simpl. by rewrite bool_decide_eq_true_2.
Qed.
Lemma NoDup_entities_in e repo g : NoDup (entities_in e repo g).*1.
Proof.
  unfold entities_in. assert (Hnd : NoDup (scan e (g_entities g)).*1)
    by (rewrite scan_perm; apply NoDup_fst_map_to_list).
  revert Hnd. induction (scan e (g_entities g)) as [|[[rp id] r] l IH]; [constructor|].
  rewrite fmap_cons. intros [Hid Hnd]%NoDup_cons. simpl. case_bool_decide; [subst|by apply IH].
  simpl. constructor; [|by apply IH].
  intros ([id' r'] & -> & ([[rp' id''] r''] & Hin & Hs)%list_elem_of_omap)%list_elem_of_fmap.
  simpl in Hs. case_bool_decide; [|done]. simplify_eq/=. apply Hid.
  apply list_elem_of_fmap. by eexists (_, _).
Qed.
End Rows.

(** * Shortest path *)

Section ShortestPath.
Context `{Scan} (repo from relStr to : string) (g : graph) (e : env).
#[local] Open Scope nat_scope.

(** One edge of the repository of an allowed relation. *)
Definition link (x y : string) : Prop :=
  exists rel ext r, g_edges g !! (repo, x, y, rel, ext) = Some r /\ relation_passes relStr rel = true.
Abbreviation es := (edges_in e repo g).

(** Paths without repetition that stop at the target; and without stopping. *)
Inductive stopped : nat -> string -> list string -> Prop :=
| stopped_O : stopped 0 from [from]
| stopped_S n x p y : stopped n x p -> x <> to -> link x y -> y ∉ p -> stopped (S n) y (p ++ [y]).
Inductive simple_path : nat -> string -> list string -> Prop :=
| simple_O : simple_path 0 from [from]
| simple_S n x p y : simple_path n x p -> link x y -> y ∉ p -> simple_path (S n) y (p ++ [y]).

Lemma elem_of_extend w y p :
  (y, p) ∈ extend relStr to es w <-> w.1 <> to /\ link w.1 y /\ y ∉ w.2 /\ p = w.2 ++ [y].
Proof.
  unfold extend, str_eqb. case_bool_decide as Hto; [split; [by intros ?%elem_of_nil|by intros [? _]]|].
  rewrite list_elem_of_omap. split.
  - intros (x & Hx%elem_of_edges_in & Hs). case_bool_decide as Hf; [|done]. simpl in Hs.
    destruct (relation_passes relStr (ee_relation x)) eqn:Hr; [|done]. case_bool_decide as Hn; [done|].
    simplify_eq/=. split_and!; [done| |done|done]. exists (ee_relation x), (ee_extractor x), (ee_row x).
    by rewrite <- Hf.
  - intros (_ & (rel & ext & r & Hk & Hr) & Hn & ->). exists (mkEdgeRec w.1 y rel ext r).
    rewrite elem_of_edges_in. split; [done|]. simpl.
    by rewrite bool_decide_eq_true_2, Hr, bool_decide_eq_false_2.
Qed.
Definition next_rows (rows : list walk_row) : list walk_row := mjoin (extend relStr to es <$> rows).
Lemma elem_of_rows n y p : (y, p) ∈ Nat.iter n next_rows [(from, [from])] <-> stopped n y p.
Proof.
  revert y p. induction n as [|n IH]; intros y p; simpl.
  - rewrite list_elem_of_singleton. split; [intros [= -> ->]; constructor|inversion 1; by subst].
  - unfold next_rows at 1. rewrite list_elem_of_join. split.
    + intros (l & Hy & ([x q] & -> & Hq%IH)%list_elem_of_fmap). apply elem_of_extend in Hy as (? & ? & ? & ->).
      by econstructor.
    + inversion 1 as [|? x q ? Hq]; subst. exists (extend relStr to es (x, q)).
      split; [by apply elem_of_extend|]. apply list_elem_of_fmap. exists (x, q). by rewrite IH.
Qed.
Lemma lookup_path_rows rows depth n :
  path_rows relStr to es rows depth !! n = if decide (n <= depth) then Some (Nat.iter n next_rows rows) else None.
Proof.
  revert rows n. induction depth as [|depth IH]; intros rows [|n]; simpl; try done.
  rewrite IH. repeat case_decide; try lia; [|done]. f_equal. symmetry. exact (Nat.iter_succ_r n _ next_rows rows).
Qed.
(** The query's row: the first depth with a path, and one of its paths. *)
Lemma first_path_spec levels tie :
  match first_path to levels tie with
  | Some p => exists n rows, levels !! n = Some rows /\ (to, p) ∈ rows /\
      forall m rows' q, m < n -> levels !! m = Some rows' -> (to, q) ∉ rows'
  | None => forall m rows' q, levels !! m = Some rows' -> (to, q) ∉ rows'
  end.
Proof.
  induction levels as [|rows levels IH]; [done|]. cbn [first_path].
  set (found := List.filter _ rows).
  assert (Hf : forall q, (to, q) ∈ found <-> (to, q) ∈ rows).
  { intros q. unfold found. rewrite elem_of_filter_bool. unfold str_eqb. simpl. rewrite bool_decide_eq_true_2; naive_solver. }
  assert (Hi : found <> [] -> tie mod length found < length found).
  { intros Hne. apply Nat.mod_upper_bound. by destruct found. }
  destruct found as [|w0 found'] eqn:E.
  - assert (Hrows : forall q, (to, q) ∉ rows) by (intros q Hq%Hf; by apply elem_of_nil in Hq).
    destruct (first_path to levels tie) as [p|].
    + destruct IH as (n & rows' & Hn & Hp & Hm). exists (S n), rows'. split_and!; [done|done|].
      intros [|m] rs q Hlt; simpl; [intros [= <-]; apply Hrows|]. apply Hm. lia.
    + intros [|m] rs q; simpl; [intros [= <-]; apply Hrows|apply IH].
  - rewrite <- E in *. specialize (Hi ltac:(by rewrite E)).
    match goal with |- context [found !! ?k] => destruct (found !! k) as [[x p]|] eqn:Hx end;
      [|apply lookup_ge_None in Hx; by apply Nat.lt_nge in Hi].
    simpl. assert (Hin : (x, p) ∈ found) by by eapply list_elem_of_lookup_2.
    assert (x = to) as ->. { unfold found in Hin. apply elem_of_filter_bool in Hin as [_ Hin]. by apply bool_decide_eq_true in Hin. }
    exists 0, rows. split_and!; [done|by apply Hf|lia].
Qed.

(** ** Paths *)

Lemma simple_last n x p : simple_path n x p -> x ∈ p /\ length p = S n.
Proof. destruct 1; [split; [by left|done]|]. rewrite length_app. simpl. split; [set_solver|].
  match goal with Hp : simple_path _ _ _ |- _ => revert Hp end. clear. intros Hp.
  enough (length p = S n) by lia. induction Hp; [done|]. rewrite length_app. simpl. lia.
Qed.
Lemma simple_prefix n x p y : simple_path n x p -> y ∈ p -> exists m q, m <= n /\ simple_path m y q.
Proof.
  induction 1 as [|n x p z Hp IH Hl Hz]; intros Hy.
  - apply list_elem_of_singleton in Hy as ->. exists 0, [from]. split; [lia|constructor].
  - apply elem_of_app in Hy as [Hy|Hy%list_elem_of_singleton].
    + destruct (IH Hy) as (m & q & ? & ?). exists m, q. split; [lia|done].
    + subst z. exists (S n), (p ++ [y]). split; [done|by econstructor].
Qed.
(** Cutting the loops out of a walk. *)
Lemma walk_simple n y : nsteps link n from y -> exists m p, m <= n /\ simple_path m y p.
Proof.
  revert y. induction n as [|n IH]; intros y Hn.
  - inversion Hn; subst. exists 0, [from]. split; [done|constructor].
  - apply nsteps_inv_r in Hn as (x & Hx & Hl). destruct (IH _ Hx) as (m & p & Hm & Hp).
    destruct (decide (y ∈ p)) as [Hy|Hy].
    + destruct (simple_prefix _ _ _ _ Hp Hy) as (m' & q & ? & ?). exists m', q. split; [lia|done].
    + exists (S m), (p ++ [y]). split; [lia|by econstructor].
Qed.
Lemma simple_stopped n x p : simple_path n x p -> (to ∈ p -> x = to) -> stopped n x p.
Proof.
  induction 1 as [|n x p y Hp IH Hl Hy]; intros Hto; [constructor|].
  pose proof (simple_last _ _ _ Hp) as [Hx _].
  assert (Hnp : to ∉ p). { intros Ht. rewrite <- (Hto ltac:(set_solver)) in Ht. done. }
  econstructor; [apply IH; set_solver|set_solver|done|done].
Qed.
Lemma walk_stopped n : nsteps link n from to -> exists m p, m <= n /\ stopped m to p.
Proof.
  intros (m & p & Hm & Hp)%walk_simple. exists m, p. split; [done|]. by apply simple_stopped.
Qed.
(** What a row's path is. *)
Definition follows (p : list string) : Prop :=
  forall i x y, p !! i = Some x -> p !! S i = Some y -> link x y.
Lemma follows_snoc p x y : last p = Some x -> follows p -> link x y -> follows (p ++ [y]).
Proof.
  intros Hl Hf Hxy i a b Ha Hb. apply lookup_app_Some in Hb as [Hb|[Hi Hb]].
  - rewrite lookup_app_l in Ha by (apply lookup_lt_Some in Hb; lia). by eapply Hf.
  - assert (S i = length p). { apply list_lookup_singleton_Some in Hb as [? _]. lia. }
    replace (S i - length p) with 0 in Hb by lia. simplify_eq/=.
    rewrite lookup_app_l in Ha by lia. rewrite last_lookup in Hl.
    replace (pred (length p)) with i in Hl by lia. by simplify_eq.
Qed.
Lemma stopped_path n x p : stopped n x p ->
  head p = Some from /\ last p = Some x /\ length p = S n /\ NoDup p /\ follows p.
Proof.
  induction 1 as [|n x p y Hp (Hh & Hl & Hn & Hd & Hf) Hx Hxy Hy].
  - split_and!; [done..|apply NoDup_singleton|]. intros i x y _ Hj.
    by apply list_lookup_singleton_Some in Hj as [? _].
  - split_and!.
    + destruct p; [done|]. done.
    + by rewrite last_snoc.
    + rewrite length_app. simpl. lia.
    + apply NoDup_app. split_and!; [done|set_solver|apply NoDup_singleton].
    + by eapply follows_snoc.
Qed.

(** The query's text is a shortest path of stored links, or there is none. *)
Lemma query_spec maxDepth :
  match first_path to (path_rows relStr to es [(from, [from])] maxDepth) (ev_tie e) with
  | Some p => exists n, n <= maxDepth /\ stopped n to p /\ forall m, nsteps link m from to -> n <= m
  | None => forall m, nsteps link m from to -> maxDepth < m
  end.
Proof.
  pose proof (first_path_spec (path_rows relStr to es [(from, [from])] maxDepth) (ev_tie e)) as Hq.
  destruct (first_path _ _ _) as [p|].
  - destruct Hq as (n & rows & Hn & Hp & Hmin). rewrite lookup_path_rows in Hn. case_decide; [|done].
    injection Hn as <-. exists n. split; [done|]. split; [by apply elem_of_rows|]. intros m (k & q & Hk & Hs)%walk_stopped.
    destruct (decide (n <= m)); [done|]. exfalso. apply (Hmin k (Nat.iter k next_rows [(from, [from])]) q); [lia| |by apply elem_of_rows].
    rewrite lookup_path_rows, decide_True; [done|lia].
  - intros m (k & q & Hk & Hs)%walk_stopped. destruct (decide (maxDepth < m)); [done|]. exfalso.
    apply (Hq k (Nat.iter k next_rows [(from, [from])]) q); [|by apply elem_of_rows].
    rewrite lookup_path_rows, decide_True; [done|lia].
Qed.
End ShortestPath.

Lemma lookup_fetch repo ids g id : NoDup ids -> id ∈ ids ->
  fetch_by_id repo ids g !! id = entity_of id <$> g_entities g !! (repo, id).
Proof.
  unfold fetch_by_id. induction ids as [|i ids IH]; [by intros _ ?%elem_of_nil|].
  intros [Hi Hnd]%NoDup_cons Hid.
  assert (Hno : forall x, x ∉ ids -> (list_to_map (omap (fun id => (fun r => (id, entity_of id r)) <$> g_entities g !! (repo, id)) ids)
    : gmap string CodeEntity) !! x = None).
  { intros x Hx. apply not_elem_of_list_to_map. intros ([y c] & -> & (j & Hj & Hs)%list_elem_of_omap)%list_elem_of_fmap.
    apply fmap_Some in Hs as (r & _ & [= -> ->]). done. }
  simpl. destruct (decide (id = i)) as [->|Hne].
  - destruct (g_entities g !! (repo, i)); simpl; [by rewrite lookup_insert_eq|by apply Hno].
  - assert (id ∈ ids) as Hin by (apply elem_of_cons in Hid as [?|?]; done).
    destruct (g_entities g !! (repo, i)); simpl; [rewrite lookup_insert_ne by done|]; by apply IH.
Qed.
Definition entity_at (repo : string) (g : graph) (id : string) (c : CodeEntity) : Prop :=
  exists r, g_entities g !! (repo, id) = Some r /\ c = entity_of id r.
Lemma path_entities_spec repo p g : NoDup p -> p <> [] ->
  let c := path_entities (fetch_by_id repo p g) p in
  Forall2 (entity_at repo g) p c \/ c = [] /\ exists id, id ∈ p /\ g_entities g !! (repo, id) = None.
Proof.
  intros Hnd Hne c. unfold c, path_entities. destruct (mapM _ p) as [l|] eqn:E.
  - left. apply mapM_Some_1 in E. simpl. apply Forall2_same_length_lookup. split; [by eapply Forall2_length|].
    intros i x y Hx Hy. eapply Forall2_lookup_lr in E; [|done..]. simpl in E.
    rewrite lookup_fetch in E by (done || by eapply list_elem_of_lookup_2).
    apply fmap_Some in E as (r & Hr & ->). by exists r.
  - right. split; [done|]. apply mapM_None_1 in E. apply Exists_exists in E as (x & Hx & E). exists x.
    split; [done|]. rewrite lookup_fetch in E by done. by apply fmap_None in E.
Qed.

Section ShortestPathSpec.
Context `{Scan}.
(** No ID that a path can visit contains the separator of the path text. *)
Definition bar_free (repo from : string) (g : graph) : Prop :=
  free_of bar from /\
  forall x y rel ext r, g_edges g !! (repo, x, y, rel, ext) = Some r -> free_of bar y.
Lemma stopped_bar_free repo from relStr to g n x p :
  bar_free repo from g -> stopped repo from relStr to g n x p -> Forall (free_of bar) p.
Proof.
  intros [Hf He]. induction 1 as [|n x p y Hp IH Hx (rel & ext & r & Hk & _) Hy]; [by constructor|].
  rewrite Forall_app. split; [done|]. constructor; [by eapply He|constructor].
Qed.

End ShortestPathSpec.

(** A graph with two ways from [a] to [d]: over [b], and over [c] and [x]. *)
Definition plain_entity (n : string) : entity_row := mkEntityRow n "function" "" "f.go" ∅ None None None None None "ast" None None.
Definition calls_edge : edge_row := mkEdgeRow "f.go" ∅ 1 "EXTRACTED".
Definition diamond : graph := mkGraphTables
  (list_to_map ((fun n => ("r"%string, n, plain_entity n)) <$> ["a"; "b"; "c"; "d"; "x"]%string))
  (list_to_map ((fun p : string * string => ("r"%string, p.1, p.2, "calls"%string, "ast"%string, calls_edge)) <$>
    [("a", "c"); ("c", "x"); ("x", "d"); ("a", "b"); ("b", "d"); ("d", "a")]%string))
  ∅ ∅ ∅ ∅ ∅ ∅.
Lemma diamond_bar_free : bar_free "r" "a" diamond.
Proof.
  split; [by apply (bool_decide_unpack _); vm_compute|]. intros x y rel ext r Hk.
  assert (Hall : map_Forall (fun (k : edge_key) (_ : edge_row) => free_of bar k.1.1.2) (g_edges diamond))
    by (apply (bool_decide_unpack _); vm_compute; exact I).
  apply (Hall _ _ Hk).
Qed.
Definition diamond_query := @ShortestPath scan_in_order "r" "a" "d" ["calls"]%string 5 (mkDb diamond []).
Lemma diamond_ids : match diamond_query.1 with Ok c => ce_ID <$> c | Err _ => [] end = ["a"; "b"; "d"]%string.
Proof. by vm_compute. Qed.

(** * Search *)

Section Search.
Context `{Scan} (fold_char : Ascii.ascii -> Ascii.ascii).
Definition folded (s : string) : list Ascii.ascii := fold_char <$> chars s.
Definition contains (q s : string) : Prop := exists l1 l2, folded s = l1 ++ folded q ++ l2.
Definition special (c : Ascii.ascii) : Prop := c = backslash \/ c = percent \/ c = underscore.
#[local] Instance special_dec c : Decision (special c).
Proof. unfold special. apply _. Defined.

Lemma escapeLike_cons c s :
  escapeLike (String c s) = if decide (special c) then String backslash (String c (escapeLike s)) else String c (escapeLike s).
Proof.
  unfold escapeLike, special. cbn [escape_char].
  destruct (decide (c = backslash)) as [->|H1]; [by rewrite decide_True by tauto|].
  rewrite bool_decide_eq_false_2 by done. cbn [escape_char].
  destruct (decide (c = percent)) as [->|H2]; [by rewrite decide_True by tauto|].
  rewrite bool_decide_eq_false_2 by done. cbn [escape_char].
  destruct (decide (c = underscore)) as [->|H3]; [by rewrite decide_True by tauto|].
  by rewrite bool_decide_eq_false_2, decide_False by tauto.
Qed.
(** The escaped query is a pattern of literal characters. *)
Lemma parse_escaped q rest items :
  like_parse rest = Some items -> like_parse (chars (escapeLike q) ++ rest) = Some ((LChar <$> chars q) ++ items).
Proof.
  intros Hr. induction q as [|c q IH]; [done|]. rewrite escapeLike_cons. case_decide as Hc.
  - unfold chars in *. cbn. by rewrite bool_decide_eq_true_2, IH.
  - unfold special in Hc. unfold chars in *. cbn. rewrite !bool_decide_eq_false_2 by tauto. by rewrite IH.
Qed.
Lemma match_literal q p s :
  like_match fold_char ((LChar <$> q) ++ p) s = true <->
  exists l1 l2, s = l1 ++ l2 /\ fold_char <$> l1 = fold_char <$> q /\ like_match fold_char p l2 = true.
Proof.
  revert s. induction q as [|c q IH]; intros s; simpl.
  - split; [intros Hm; by exists [], s|]. intros (l1 & l2 & -> & Hl & Hm). destruct l1; [done|done].
  - destruct s as [|d s].
    + split; [done|]. intros (l1 & l2 & He & Hl & _). destruct l1; [done|done].
    + rewrite andb_true_iff, bool_decide_eq_true, IH. split.
      * intros [Hd (l1 & l2 & -> & Hl & Hm)]. exists (d :: l1), l2. split_and!; [done| |done]. csimpl. by f_equal.
      * intros ([|d' l1] & l2 & He & Hl & Hm); [done|]. simplify_eq/=. split; [done|]. by exists l1, l2.
Qed.
Lemma match_many p s :
  like_match fold_char (LMany :: p) s = true <-> exists l1 l2, s = l1 ++ l2 /\ like_match fold_char p l2 = true.
Proof.
  induction s as [|d s IH].
  - simpl. rewrite orb_false_r. split; [intros Hm; by exists [], []|].
    intros (l1 & l2 & He & Hm). symmetry in He. by apply app_nil in He as [-> ->].
  - change (like_match fold_char (LMany :: p) (d :: s)) with
      (like_match fold_char p (d :: s) || like_match fold_char (LMany :: p) s).
    rewrite orb_true_iff, IH. split.
    + intros [Hm|(l1 & l2 & -> & Hm)]; [by exists [], (d :: s)|by exists (d :: l1), l2].
    + intros ([|d' l1] & l2 & He & Hm); simplify_eq/=; [by left|right; by exists l1, l2].
Qed.
Lemma match_end s : like_match fold_char [] s = true <-> s = [].
Proof. by destruct s. Qed.
Lemma match_many_end s : like_match fold_char [LMany] s = true.
Proof. apply match_many. exists s, []. by rewrite app_nil_r. Qed.
Lemma chars_percent : chars "%" = [percent].
Proof. done. Qed.

Lemma ilike_exact q s : ilike fold_char s (escapeLike q) = true <-> folded s = folded q.
Proof.
  unfold ilike. fold (chars s). fold (chars (escapeLike q)). rewrite <- (app_nil_r (chars (escapeLike q))).
  rewrite (parse_escaped q [] []) by done. rewrite match_literal. unfold folded. split.
  - intros (l1 & l2 & -> & Hl & ->%match_end). by rewrite app_nil_r.
  - intros He. exists (chars s), []. by rewrite app_nil_r.
Qed.
Lemma ilike_prefix q s : ilike fold_char s (String.append (escapeLike q) "%") = true <-> folded q `prefix_of` folded s.
Proof.
  unfold ilike. fold (chars s). fold (chars (String.append (escapeLike q) "%")). rewrite chars_append, chars_percent.
  rewrite (parse_escaped q [percent] [LMany]) by done. rewrite match_literal. unfold folded. split.
  - intros (l1 & l2 & -> & Hl & _). rewrite fmap_app, Hl. by eexists.
  - intros [k Hk]. apply fmap_app_inv in Hk as (l1 & l2 & Hq & _ & Hs).
    exists l1, l2. split_and!; [done|by rewrite <- Hq|apply match_many_end].
Qed.
Lemma ilike_contains q s : ilike fold_char s (contains_pattern (escapeLike q)) = true <-> contains q s.
Proof.
  unfold ilike. fold (chars s). fold (chars (contains_pattern (escapeLike q))).
  assert (Hp : like_parse (chars (contains_pattern (escapeLike q))) = Some (LMany :: (LChar <$> chars q) ++ [LMany])).
  { change (cons LMany <$> like_parse (chars (String.append (escapeLike q) "%")) = Some (LMany :: (LChar <$> chars q) ++ [LMany])).
    rewrite chars_append, chars_percent. by rewrite (parse_escaped q [percent] [LMany]). }
  rewrite Hp, match_many. unfold contains, folded. split.
  - intros (l1 & l2 & -> & (k1 & k2 & -> & Hk & _)%match_literal). rewrite !fmap_app, Hk. by eexists _, _.
  - intros (l1 & l2 & Hk). apply fmap_app_inv in Hk as (k1 & k & _ & Hk & Hs).
    symmetry in Hk. apply fmap_app_inv in Hk as (k2 & k3 & Hq & _ & ->). exists k1, (k2 ++ k3). split; [done|].
    apply match_literal. exists k2, k3. split_and!; [done|by rewrite <- Hq|apply match_many_end].
Qed.

(** ** The ranked result *)

Definition matches (q typ : string) (r : entity_row) : Prop :=
  (q = ""%string \/ contains q (er_name r) \/ contains q (er_description r)) /\
  (typ = ""%string \/ er_type r = typ).
(** Exact name, name prefix, name substring, description substring. *)
Definition relevance (q : string) (r : entity_row) (n : Z) : Prop :=
  if decide (q = ""%string) then n = 4
  else n = 0 /\ folded (er_name r) = folded q \/
       n = 1 /\ folded (er_name r) <> folded q /\ folded q `prefix_of` folded (er_name r) \/
       n = 2 /\ ~ (folded q `prefix_of` folded (er_name r)) /\ contains q (er_name r) \/
       n = 3 /\ ~ contains q (er_name r).
Lemma escapeLike_empty q : str_eqb (escapeLike q) "" = bool_decide (q = ""%string).
Proof.
  unfold str_eqb. apply bool_decide_ext. destruct q as [|c q]; [done|]. rewrite escapeLike_cons. by case_decide.
Qed.
Lemma bool_reflects (b : bool) (P : Prop) : (b = true <-> P) -> b = false -> ~ P.
Proof. intros H1 H2 H3%H1. congruence. Qed.
Lemma search_matches_spec q typ id r : search_matches fold_char (escapeLike q) typ (id, r) = true <-> matches q typ r.
Proof.
  unfold search_matches, matches. cbn [snd]. rewrite andb_true_iff, !orb_true_iff, escapeLike_empty, !ilike_contains.
  unfold str_eqb. rewrite !bool_decide_eq_true. tauto.
Qed.
Lemma search_rank_spec q id r : relevance q r (search_rank fold_char (escapeLike q) (id, r)).
Proof.
  unfold search_rank, relevance. rewrite escapeLike_empty. cbn [snd].
  destruct (decide (q = ""%string)); [by rewrite bool_decide_eq_true_2|]. rewrite bool_decide_eq_false_2 by done.
  destruct (ilike fold_char _ (escapeLike q)) eqn:E0; [left; by apply ilike_exact in E0|right].
  apply (bool_reflects _ _ (ilike_exact _ _)) in E0.
  destruct (ilike fold_char _ (String.append _ _)) eqn:E1; [left; by apply ilike_prefix in E1|right].
  apply (bool_reflects _ _ (ilike_prefix _ _)) in E1.
  destruct (ilike fold_char _ (contains_pattern _)) eqn:E2; [left; by apply ilike_contains in E2|right].
  by apply (bool_reflects _ _ (ilike_contains _ _)) in E2.
Qed.
Definition search_le (q : string) (a b : string * entity_row) : Prop :=
  search_rank fold_char q a < search_rank fold_char q b \/
  search_rank fold_char q a = search_rank fold_char q b /\ String.le (er_name a.2) (er_name b.2).
Lemma search_leb_spec q a b : search_leb fold_char q a b <-> search_le q a b.
Proof.
  unfold search_leb, search_le, then_by, str_leb.
  destruct (decide (search_rank fold_char q a = search_rank fold_char q b)) as [E|E].
  - rewrite (bool_decide_eq_true_2 (_ = _)), bool_decide_spec by done. split; [by right|intros [?|[_ ?]]; [lia|done]].
  - rewrite (bool_decide_eq_false_2 (_ = _)), bool_decide_spec by done. split; [intros; left; lia|intros [?|[? _]]; lia].
Qed.
#[local] Instance search_total q : Total (fun a b => Is_true (search_leb fold_char q a b)).
Proof.
  intros a b. rewrite !search_leb_spec. unfold search_le.
  destruct (Z.lt_total (search_rank fold_char q a) (search_rank fold_char q b)) as [?|[?|?]]; [tauto| |tauto].
  destruct (total String.le (er_name a.2) (er_name b.2)); [left; by right|right; by right].
Qed.
#[local] Instance search_trans q : Transitive (fun a b => Is_true (search_leb fold_char q a b)).
Proof.
  intros a b c. rewrite !search_leb_spec. unfold search_le. intros [?|[? ?]] [?|[? ?]]; try (left; lia).
  right. split; [lia|]. by etransitivity.
Qed.

(** C24: a search returns the entities of the repository whose name or description
    contains the query as it is written (LIKE metacharacters included, up to letter
    case) and whose type is the one asked for, most relevant first: exact name, name
    prefix, name substring, description only; then by name; cut at the limit. *)
Theorem SearchEntities_spec (repo q typ : string) limit g :
  exists all : list (string * entity_row),
    (SearchEntities fold_char repo q typ limit (mkDb g [])).1 = Ok (scan_entity <$> take (Z.to_nat limit) all) /\
    NoDup all.*1 /\
    (forall id r, (id, r) ∈ all <-> g_entities g !! (repo, id) = Some r /\ matches q typ r) /\
    StronglySorted (fun a b => exists m n, relevance q a.2 m /\ relevance q b.2 n /\
      (m < n \/ m = n /\ String.le (er_name a.2) (er_name b.2))) all.
Proof.
  eexists (order_by (search_leb fold_char (escapeLike q)) (List.filter (search_matches fold_char (escapeLike q) typ)
    (entities_in calm repo g))).
  split; [reflexivity|]. unfold order_by. split_and!.
  - rewrite merge_sort_Permutation. apply NoDup_filter_bool, NoDup_entities_in.
  - intros id r. rewrite merge_sort_Permutation, elem_of_filter_bool, search_matches_spec, elem_of_entities_in. done.
  - eapply StronglySorted_weaken; [|apply (StronglySorted_merge_sort _ _)].
    intros [i a] [j b] Hab%search_leb_spec. eexists _, _. split; [apply search_rank_spec|].
    split; [apply search_rank_spec|exact Hab].
Qed.
End Search.

(** * Statistics *)

(** [n] is the number of things that satisfy [P]. *)
Definition numbers {A} (P : A -> Prop) (n : Z) : Prop :=
  exists l, NoDup l /\ (forall x, x ∈ l <-> P x) /\ n = Z.of_nat (length l).
Lemma numbers_ext {A} (P Q : A -> Prop) n : (forall x, P x <-> Q x) -> numbers P n -> numbers Q n.
Proof. intros He (l & Hn & Hl & ->). exists l. split_and!; [done| |done]. intros x. by rewrite Hl. Qed.
Lemma count_numbers {A K} (key : A -> K) (p : A -> bool) (l : list A) :
  NoDup (key <$> l) -> numbers (fun k => exists x, x ∈ l /\ p x = true /\ key x = k) (count p l).
Proof.
  intros Hnd. exists (key <$> List.filter p l). split_and!; [by apply NoDup_filter_bool| |by rewrite length_fmap].
  intros k. rewrite list_elem_of_fmap. setoid_rewrite elem_of_filter_bool. naive_solver.
Qed.
Lemma group_count_lookup l k : default 0 (group_count l !! k) = count (fun x => str_eqb x k) l.
Proof.
  induction l as [|x l IH]; [done|]. rewrite count_cons. simpl. unfold inc, str_eqb in *.
  case_bool_decide as Hx; [subst; rewrite lookup_insert_eq; simpl; lia|].
  rewrite lookup_insert_ne by done. lia.
Qed.
Lemma count_fmap {A B} (f : A -> B) (p : B -> bool) (l : list A) : count p (f <$> l) = count (fun x => p (f x)) l.
Proof. induction l as [|x l IH]; [done|]. csimpl. by rewrite !count_cons, IH. Qed.
Lemma count_true {A} (l : list A) : count (fun _ => true) l = Z.of_nat (length l).
Proof. induction l as [|x l IH]; [done|]. rewrite count_cons, IH. simpl. lia. Qed.

Section Cycles.
Context (im : list (string * string)).
#[local] Open Scope nat_scope.
Definition imported (x y : string) : Prop := (x, y) ∈ im.
(** [k + 1] imports from [s] to [c], the first to another file, not back at [s]
    before the end. *)
Inductive round_trip (s : string) : nat -> string -> Prop :=
| rt_first c : imported s c -> s <> c -> round_trip s 0 c
| rt_next k c d : round_trip s k c -> c <> s -> imported c d -> round_trip s (S k) d.
Lemma elem_of_cycle_base s c : (s, c) ∈ cycle_base im <-> round_trip s 0 c.
Proof.
  unfold cycle_base. rewrite elem_of_list_to_set, elem_of_filter_bool, negb_true_iff. unfold str_eqb. simpl.
  rewrite bool_decide_eq_false. split; [intros [? ?]; by constructor|inversion 1; by subst].
Qed.
Lemma elem_of_cycle_next k rows s c : (forall s c, (s, c) ∈ rows <-> round_trip s k c) ->
  (s, c) ∈ cycle_next im rows <-> round_trip s (S k) c.
Proof.
  intros Hrows. unfold cycle_next. rewrite elem_of_list_to_set, list_elem_of_bind. split.
  - intros ([s' b] & Hc & Hb%elem_of_elements%Hrows). simpl in Hc. unfold str_eqb in Hc.
    case_bool_decide as Hs; [by apply elem_of_nil in Hc|].
    apply list_elem_of_fmap in Hc as ([x y] & [= -> ->] & Hxy). apply elem_of_filter_bool in Hxy as [Hxy Hx].
    apply bool_decide_eq_true in Hx. simpl in *. subst. by econstructor.
  - inversion 1 as [|? b ? Hb Hne Hi]; subst. exists (s, b). split; [|by apply elem_of_elements, Hrows].
    simpl. unfold str_eqb. rewrite bool_decide_eq_false_2 by done. apply list_elem_of_fmap. exists (b, c).
    split; [done|]. apply elem_of_filter_bool. split; [done|]. simpl. by apply bool_decide_eq_true.
Qed.
Lemma elem_of_cycle_rows k rows n s c : (forall s c, (s, c) ∈ rows <-> round_trip s k c) ->
  (s, c) ∈ ⋃ cycle_rows im rows n <-> exists m, k <= m <= k + n /\ round_trip s m c.
Proof.
  revert k rows. induction n as [|n IH]; intros k rows Hrows; simpl; rewrite elem_of_union, Hrows.
  - split; [intros [?|?%elem_of_empty]; [by exists k; split; [lia|]|done]|].
    intros (m & Hm & Hr). left. by replace k with m by lia.
  - rewrite (IH (S k)) by (intros; by apply elem_of_cycle_next). split.
    + intros [?|(m & ? & ?)]; [exists k|exists m]; split; (done || lia).
    + intros (m & Hm & Hr). destruct (decide (m = k)) as [->|]; [by left|right; exists m; split; [lia|done]].
Qed.
(** On an import cycle of two to twenty steps. *)
Definition on_cycle (s : string) : Prop :=
  exists c n, imported s c /\ s <> c /\ 1 <= n < importCycleDepth /\ nsteps imported n c s.
Lemma round_trip_walk s k c : round_trip s k c -> exists b, imported s b /\ s <> b /\ nsteps imported k b c.
Proof.
  induction 1 as [c Hi Hne|k c d _ (b & ? & ? & ?) Hne Hi]; [exists c; repeat split; [done..|constructor]|].
  exists b. split_and!; [done..|]. by eapply nsteps_r.
Qed.
Lemma walk_round_trip s b n c : imported s b -> s <> b -> nsteps imported n b c ->
  (exists k, k < n /\ round_trip s k s) \/ round_trip s n c.
Proof.
  intros Hb Hne. revert c. induction n as [|n IH]; intros c Hn; [inversion Hn; subst; right; by constructor|].
  apply nsteps_inv_r in Hn as (d & Hd & Hc). destruct (IH _ Hd) as [(k & Hk & Hr)|Hr]; [left; exists k; split; [lia|done]|].
  destruct (decide (d = s)) as [->|]; [left; exists n; split; [lia|done]|right; by econstructor].
Qed.
Lemma elem_of_cycle_starts s : s ∈ cycle_starts im <-> on_cycle s.
Proof.
  unfold cycle_starts. rewrite elem_of_list_to_set, list_elem_of_omap. unfold str_eqb. trans (exists k, k < importCycleDepth /\ round_trip s k s).
  - split.
    + intros ([s' c] & Hc%elem_of_elements & Hs). cbn [fst snd] in Hs. case_bool_decide; [|done].
      injection Hs as ->. subst c.
      apply (elem_of_cycle_rows 0) in Hc as (m & Hm & Hr); [|intros; apply elem_of_cycle_base].
      exists m. split; [unfold importCycleDepth in *; lia|done].
    + intros (k & Hk & Hr). exists (s, s). cbn [fst snd]. rewrite bool_decide_eq_true_2 by done. split; [|done].
      apply elem_of_elements, (elem_of_cycle_rows 0); [intros; apply elem_of_cycle_base|]. exists k.
      split; [unfold importCycleDepth in *; lia|done].
  - split.
    + intros (k & Hk & Hr). destruct (round_trip_walk _ _ _ Hr) as (b & Hb & Hne & Hn). exists b, k.
      split_and!; try done. destruct k; [inversion Hn; by subst|lia].
    + intros (b & n & Hb & Hne & Hn & Hw). destruct (walk_round_trip _ _ _ _ Hb Hne Hw) as [(k & ? & ?)|?];
        [exists k|exists n]; split; (done || lia).
Qed.
End Cycles.

Section StatsSpec.
Context `{Scan}.
Definition edge_rec_key (x : edge_rec) : string * string * string * string :=
  (ee_from x, ee_to x, ee_relation x, ee_extractor x).
Lemma NoDup_edges_in e repo g : NoDup (edge_rec_key <$> edges_in e repo g).
Proof.
  unfold edges_in. assert (Hnd : NoDup (scan e (g_edges g)).*1)
    by (rewrite scan_perm; apply NoDup_fst_map_to_list).
  revert Hnd. induction (scan e (g_edges g)) as [|[[[[[rp x] y] rel] ext] r] l IH]; [constructor|].
  rewrite fmap_cons. intros [Hid Hnd]%NoDup_cons. simpl. case_bool_decide; [subst|by apply IH].
  simpl. constructor; [|by apply IH].
  intros (z & Hz & ([[[[[rp' x'] y'] rel'] ext'] r'] & Hin & Hs)%list_elem_of_omap)%list_elem_of_fmap.
  simpl in Hs. case_bool_decide; [|done]. unfold edge_rec_key in Hz. simplify_eq/=. apply Hid.
  apply list_elem_of_fmap. by eexists (_, _).
Qed.
(** Stored entities and edges of the repository, by ID and by key. *)
Definition entity_with (repo : string) (g : graph) (P : entity_row -> Prop) (id : string) : Prop :=
  exists r, g_entities g !! (repo, id) = Some r /\ P r.
Definition edge_with (repo : string) (g : graph) (P : string * string * string * string -> edge_row -> Prop)
    (k : string * string * string * string) : Prop :=
  exists r, g_edges g !! (repo, k.1.1.1, k.1.1.2, k.1.2, k.2) = Some r /\ P k r.
Lemma count_entities e repo g (p : string -> entity_row -> bool) :
  numbers (fun id => exists r, g_entities g !! (repo, id) = Some r /\ p id r = true)
    (count (fun kr => p kr.1 kr.2) (entities_in e repo g)).
Proof.
  eapply numbers_ext; [|apply (count_numbers fst), NoDup_entities_in]. intros id. simpl. split.
  - intros ([i r] & Hin%elem_of_entities_in & Hp & <-). by exists r.
  - intros (r & Hr & Hp). exists (id, r). by rewrite elem_of_entities_in.
Qed.
Lemma count_edges e repo g (p : string * string * string * string -> edge_row -> bool) :
  numbers (fun k => exists r, g_edges g !! (repo, k.1.1.1, k.1.1.2, k.1.2, k.2) = Some r /\ p k r = true)
    (count (fun x => p (edge_rec_key x) (ee_row x)) (edges_in e repo g)).
Proof.
  eapply numbers_ext; [|apply (count_numbers edge_rec_key), NoDup_edges_in]. intros [[[x y] rel] ext]. simpl. split.
  - intros (z & Hin%elem_of_edges_in & Hp & Hk). exists (ee_row z). unfold edge_rec_key in *. by simplify_eq.
  - intros (r & Hr & Hp). exists (mkEdgeRec x y rel ext r). by rewrite elem_of_edges_in.
Qed.
Lemma isolated_spec e repo g id : isolated (edges_in e repo g) id = true <->
  forall x y rel ext r, g_edges g !! (repo, x, y, rel, ext) = Some r -> x <> id /\ y <> id.
Proof.
  unfold isolated, str_eqb. rewrite negb_true_iff. split.
  - intros Hn x y rel ext r Hk.
    assert (Hin : mkEdgeRec x y rel ext r ∈ edges_in e repo g) by by apply elem_of_edges_in.
    split; intros ->; (apply not_true_iff_false in Hn; apply Hn, existsb_exists; eexists;
      split; [by apply list_elem_of_In, Hin|]; simpl; rewrite (bool_decide_eq_true_2 (id = id)) by done; by rewrite ?orb_true_r).
  - intros Hall. apply not_true_iff_false. rewrite existsb_exists. intros (z & Hz & Hid).
    apply list_elem_of_In, elem_of_edges_in, Hall in Hz as [H1 H2].
    apply orb_true_iff in Hid as [Hid|Hid]; by apply bool_decide_eq_true in Hid.
Qed.

(** The import graph of a repository. *)
Definition imports (repo : string) (g : graph) (x y : string) : Prop :=
  exists ext r, g_edges g !! (repo, x, y, "imports"%string, ext) = Some r.
Lemma imported_spec e repo g x y : imported (import_edges (edges_in e repo g)) x y <-> imports repo g x y.
Proof.
  unfold imported, import_edges, imports. rewrite list_elem_of_fmap. setoid_rewrite elem_of_filter_bool. split.
  - intros (z & [= -> ->] & Hz%elem_of_edges_in & Hr%bool_decide_eq_true). rewrite Hr in Hz. by eexists _, _.
  - intros (ext & r & Hk). exists (mkEdgeRec x y "imports" ext r). rewrite elem_of_edges_in. by split_and!.
Qed.
Definition in_import_cycle (repo : string) (g : graph) (s : string) : Prop :=
  exists c n, imports repo g s c /\ s <> c /\ (1 <= n < importCycleDepth)%nat /\ nsteps (imports repo g) n c s.
Lemma nsteps_ext {A} (R R' : relation A) n x y : (forall a b, R a b <-> R' a b) -> nsteps R n x y -> nsteps R' n x y.
Proof. intros He. induction 1; econstructor; [by apply He|done]. Qed.
Lemma cycle_starts_spec e repo g :
  numbers (in_import_cycle repo g) (Z.of_nat (size (cycle_starts (import_edges (edges_in e repo g))))).
Proof.
  exists (elements (cycle_starts (import_edges (edges_in e repo g)))). split_and!; [apply NoDup_elements| |done].
  intros s. rewrite elem_of_elements, elem_of_cycle_starts. unfold on_cycle, in_import_cycle.
  split; intros (c & n & Hc & Hne & Hn & Hw); exists c, n; (split_and!; [by eapply imported_spec|done|lia|lia|]);
    (eapply nsteps_ext; [|exact Hw]); intros a b; by rewrite imported_spec.
Qed.

End StatsSpec.

(** Two files importing each other, one importing itself, one alone. *)
Definition ring : graph := mkGraphTables
  (list_to_map ((fun n => ("r"%string, n, plain_entity n)) <$> ["a"; "b"; "c"; "d"]%string))
  (list_to_map ((fun p : string * string => ("r"%string, p.1, p.2, "imports"%string, "ast"%string, calls_edge)) <$>
    [("a", "b"); ("b", "a"); ("c", "c")]%string)) ∅ ∅ ∅ ∅ ∅ ∅.
Definition ring_stats := @Stats scan_in_order "r" (mkDb ring []).
Definition ring_result : GraphStats :=
  match ring_stats.1 with Ok st => st | Err _ => mkStats 0 0 ∅ ∅ ∅ 0 0 end.
Lemma ring_numbers : gs_Entities ring_result = 4 /\ gs_Edges ring_result = 3 /\
  gs_IsolatedEntities ring_result = 1 /\ gs_ImportCycles ring_result = 2.
Proof. by vm_compute. Qed.
Lemma ring_runs : runs (@Stats scan_in_order "r") ring (Ok ring_result) ring.
Proof. exists [], []. reflexivity. Qed.
