(* ===== verification/CodeHttp.v ===== *)
(** The HTTP handlers of the code graph ([internal/httpapi/codegraph.go]): the
    checks of the query parameters, in their order, the call to the service and the
    answer.

    A request is its query parameters ([URL.Query().Get]: a missing one is empty)
    or its decoded body.  [ParseFloat] is [strconv.ParseFloat]. *)
From S2P Require Import Prelude GoErr JobStore Pool Db Enqueue Lightrag EdgeId Translate Tombstone Service LightragHttp HttpApi CodeGraph CodeGraphLaws CodeService CodeReads.
From Stdlib Require Import QArith.
#[local] Open Scope Z_scope.

(** * The service interface (service.go) *)

Class CodeGraphService (C : Type) := {
  cg_Push : GraphPush -> M C (result err PushResult);
  cg_Search : string -> string -> string -> Z -> M C (result err (list CodeEntity));
  cg_Entity : string -> string -> M C (result err EntityDetail);
  cg_Neighbors : string -> string -> list string -> string -> Z -> Z -> ConfidenceFilter -> M C (result err (list PathNode));
  cg_Callers : string -> string -> Z -> ConfidenceFilter -> M C (result err (list PathNode));
  cg_Callees : string -> string -> Z -> ConfidenceFilter -> M C (result err (list PathNode));
  cg_Dependents : string -> string -> Z -> ConfidenceFilter -> M C (result err (list PathNode));
  cg_Dependencies : string -> string -> Z -> ConfidenceFilter -> M C (result err (list PathNode));
  cg_ResourceGraph : string -> string -> Z -> ConfidenceFilter -> M C (result err (list PathNode));
  cg_FileImports : string -> string -> Z -> M C (result err (list CodeEdge));
  cg_CrossRepo : string -> string -> Z -> M C (result err CrossRepoLinks);
  cg_ShortestPath : string -> string -> string -> list string -> Z -> M C (result err (list CodeEntity));
  cg_ImportantEntities : string -> Z -> M C (result err (list EntityDegree));
  cg_Stats : string -> M C (result err GraphStats);
  cg_AmbiguousEdges : string -> Z -> M C (result err (list CodeEdge));
  cg_EntityExplain : string -> string -> M C (result err EntityExplain);
  cg_SemanticMisses : string -> list FileSHA -> M C (result err (list string));
  cg_Related : string -> string -> list string -> float64 -> Z -> M C (result err (list RelatedResult));
  cg_Hyperedges : string -> string -> Z -> M C (result err (list Hyperedge));
  cg_Hyperedge : string -> string -> M C (result err Hyperedge);
  cg_Communities : string -> Z -> M C (result err (list CommunityRow));
  cg_Community : string -> Z -> Z -> M C (result err (list CodeEntity));
  cg_Bridges : string -> Z -> M C (result err (list Bridge));
  cg_ImportantEntitiesBy : string -> string -> Z -> M C (result err (list EntityDegree)) }.
#[global] Instance Service_CodeGraphService {S} `{Store S} : CodeGraphService (code_svc S) := {
  cg_Push := Push; cg_Search := Search; cg_Entity := GetCodeEntity; cg_Neighbors := svc_Neighbors;
  cg_Callers := Callers; cg_Callees := Callees; cg_Dependents := Dependents; cg_Dependencies := Dependencies;
  cg_ResourceGraph := ResourceGraph; cg_FileImports := FileImports; cg_CrossRepo := CrossRepo;
  cg_ShortestPath := ShortestPath; cg_ImportantEntities := ImportantEntities; cg_Stats := Stats;
  cg_AmbiguousEdges := AmbiguousEdges; cg_EntityExplain := Explain; cg_SemanticMisses := svc_SemanticMisses;
  cg_Related := Related; cg_Hyperedges := Hyperedges; cg_Hyperedge := GetHyperedge; cg_Communities := Communities;
  cg_Community := Community; cg_Bridges := Bridges; cg_ImportantEntitiesBy := ImportantEntitiesBy }.

(** * Answers *)

Inductive code_payload :=
| CPush (r : PushResult) | CEntities (l : list CodeEntity) | CDetail (d : EntityDetail)
| CNodes (l : list PathNode) | CEdges (l : list CodeEdge) | CLinks (l : CrossRepoLinks)
| CPath (l : list CodeEntity) | CDegrees (l : list EntityDegree) | CRelated (l : list RelatedResult)
| CHyperedges (l : list Hyperedge) | CHyperedge (h : Hyperedge) | CMisses (l : list string)
| CCommunities (l : list CommunityRow) | CBridges (l : list Bridge) | CStats (s : GraphStats)
| CExplain (e : EntityExplain).
(** A refusal or a failure, or status 200 with a body. *)
Inductive code_answer := Failed (r : response) | Answered (p : code_payload).
Definition answer_status (a : code_answer) : Z := match a with Failed r => rs_status r | Answered _ => 200 end.

Definition maxListLimit : Z := 500.
Definition defaultListLimit : Z := 100.
Definition maxSemanticMissesFiles : Z := 1000.
Definition ValidTiers (t : string) : bool := is_one_of t [TierExtracted; TierInferred; TierAmbiguous].
Definition clampListLimit (n : Z) : Z :=
  if bool_decide (n <= 0) then defaultListLimit else if bool_decide (n > maxListLimit) then maxListLimit else n.

Section Handlers.
Context {C : Type} `{CodeGraphService C} (shown : err -> string) (ParseFloat : string -> option float64).
Abbreviation params := (gmap string string).
Definition Get (key : string) (q : params) : string := default ""%string (q !! key).
Definition bad_request (msg : string) : M C code_answer := ret (Failed (WriteError 400 msg)).
(** [res, err := call; if err != nil { mapServiceError }; WriteJSON(200, ...)]. *)
Definition respond {X} (m : M C (result err X)) (k : X -> code_payload) : M C code_answer :=
  r <- m ;; ret (match r with Ok x => Answered (k x) | Err e => Failed (mapServiceError shown e) end).

(** * Parameters: each check writes 400 and ends the handler, or goes on *)

Definition reqRepo (q : params) (k : string -> M C code_answer) : M C code_answer :=
  if bool_decide (Get "repo" q = ""%string) then bad_request "repo query parameter required" else k (Get "repo" q).
Definition reqIDParam (q : params) (k : string -> M C code_answer) : M C code_answer :=
  if bool_decide (Get "id" q = ""%string) then bad_request "id query parameter required" else k (Get "id" q).
Definition parsePosInt (key : string) (q : params) (k : Z -> M C code_answer) : M C code_answer :=
  let s := Get key q in
  if bool_decide (s = ""%string) then k 0
  else match Atoi s with
       | Some n => if bool_decide (n < 0) then bad_request (String.append key " must be a non-negative integer") else k n
       | None => bad_request (String.append key " must be a non-negative integer")
       end.
Definition depthParam := parsePosInt "depth".
Definition limitParam := parsePosInt "limit".
Definition parseMinConfidence (q : params) (k : float64 -> M C code_answer) : M C code_answer :=
  let s := Get "min_confidence" q in
  if bool_decide (s = ""%string) then k (Finite 0)
  else match ParseFloat s with
       | None => bad_request "min_confidence must be a number"
       | Some v => if float_lt v 0 || float_gt v 1
                   then bad_request "min_confidence must be between 0 and 1" else k v
       end.
Definition confidenceFilter (q : params) (k : ConfidenceFilter -> M C code_answer) : M C code_answer :=
  parseMinConfidence q (fun v =>
    let t := Get "tier" q in
    if bool_decide (t = ""%string) then k (mkCF v "")
    else if ValidTiers t then k (mkCF v t)
    else bad_request "tier must be EXTRACTED, INFERRED, or AMBIGUOUS").
(** [strings.Split(rel, ",")] of an optional parameter: absent is nil. *)
Definition relationsParam (q : params) : list string :=
  let rel := Get "relations" q in
  if bool_decide (rel = ""%string) then [] else CodeStore.split_on CodeStore.comma "" rel.

(** * Handlers *)

Definition handlePostCodeGraph (body : option GraphPush) : M C code_answer :=
  match body with
  | None => bad_request "invalid json"
  | Some p => respond (cg_Push p) CPush
  end.
Definition handleSearchCodeEntities (q : params) : M C code_answer :=
  reqRepo q (fun repo =>
  if bool_decide (Get "q" q = ""%string) then bad_request "q query parameter required"
  else limitParam q (fun limit => respond (cg_Search repo (Get "q" q) (Get "type" q) limit) CEntities)).
Definition handleGetCodeEntity (q : params) : M C code_answer :=
  reqRepo q (fun repo => reqIDParam q (fun id => respond (cg_Entity repo id) CDetail)).
Definition handleNeighbors (q : params) : M C code_answer :=
  reqRepo q (fun repo => reqIDParam q (fun id =>
  let rel := Get "relation" q in
  if bool_decide (rel = ""%string) then bad_request "relation query parameter required"
  else confidenceFilter q (fun cf =>
  let dir := Get "direction" q in
  if bool_decide (dir <> ""%string) && bool_decide (dir <> "in"%string) && bool_decide (dir <> "out"%string)
  then bad_request "direction must be in or out"
  else depthParam q (fun depth => limitParam q (fun limit =>
  respond (cg_Neighbors repo id (CodeStore.split_on CodeStore.comma "" rel) dir depth limit cf) CNodes))))).
(** The five named walks. *)
Definition handleWalk (walk : string -> string -> Z -> ConfidenceFilter -> M C (result err (list PathNode)))
    (q : params) : M C code_answer :=
  reqRepo q (fun repo => reqIDParam q (fun id => confidenceFilter q (fun cf => depthParam q (fun depth =>
  respond (walk repo id depth cf) CNodes)))).
Definition handleCallers := handleWalk cg_Callers.
Definition handleCallees := handleWalk cg_Callees.
Definition handleDependents := handleWalk cg_Dependents.
Definition handleDependencies := handleWalk cg_Dependencies.
Definition handleResourceGraph := handleWalk cg_ResourceGraph.
Definition handleFileImports (q : params) : M C code_answer :=
  reqRepo q (fun repo =>
  if bool_decide (Get "path" q = ""%string) then bad_request "path query parameter required"
  else limitParam q (fun limit => respond (cg_FileImports repo (Get "path" q) (clampListLimit limit)) CEdges)).
Definition handleCrossRepo (q : params) : M C code_answer :=
  reqRepo q (fun repo => reqIDParam q (fun id => limitParam q (fun limit =>
  respond (cg_CrossRepo repo id (clampListLimit limit)) CLinks))).
Definition handleShortestPath (q : params) : M C code_answer :=
  reqRepo q (fun repo =>
  if bool_decide (Get "from" q = ""%string) then bad_request "from query parameter required"
  else if bool_decide (Get "to" q = ""%string) then bad_request "to query parameter required"
  else parsePosInt "max_depth" q (fun maxDepth =>
  respond (cg_ShortestPath repo (Get "from" q) (Get "to" q) (relationsParam q) maxDepth) CPath)).
Definition handleImportantEntities (q : params) : M C code_answer :=
  reqRepo q (fun repo => limitParam q (fun limit =>
  let by_ := Get "by" q in
  if bool_decide (by_ = ""%string) then respond (cg_ImportantEntities repo limit) CDegrees
  else if bool_decide (by_ = ImportantByDegree) || bool_decide (by_ = ImportantByBetweenness)
  then respond (cg_ImportantEntitiesBy repo by_ limit) CDegrees
  else bad_request "by must be degree or betweenness")).
Definition handleRelated (q : params) : M C code_answer :=
  reqRepo q (fun repo => reqIDParam q (fun id => parseMinConfidence q (fun minConf => limitParam q (fun limit =>
  respond (cg_Related repo id (relationsParam q) minConf limit) CRelated)))).
Definition handleHyperedges (q : params) : M C code_answer :=
  reqRepo q (fun repo => limitParam q (fun limit => respond (cg_Hyperedges repo (Get "entity" q) limit) CHyperedges)).
Definition handleHyperedge (q : params) : M C code_answer :=
  reqRepo q (fun repo => reqIDParam q (fun id => respond (cg_Hyperedge repo id) CHyperedge)).
Definition handleSemanticMisses (body : option (string * list FileSHA)) : M C code_answer :=
  match body with
  | None => bad_request "invalid json"
  | Some (repo, files) =>
      if bool_decide (repo = ""%string) then bad_request "repo required"
      else if bool_decide (files = []) then bad_request "files must not be empty"
      else if bool_decide (Z.of_nat (length files) > maxSemanticMissesFiles)
      then bad_request "files exceeds maximum allowed count"
      else respond (cg_SemanticMisses repo files) CMisses
  end.
Definition handleCommunities (q : params) : M C code_answer :=
  reqRepo q (fun repo => limitParam q (fun limit => respond (cg_Communities repo limit) CCommunities)).
Definition handleCommunity (q : params) : M C code_answer :=
  reqRepo q (fun repo =>
  let cstr := Get "community" q in
  if bool_decide (cstr = ""%string) then bad_request "community query parameter required"
  else match Atoi cstr with
       | None => bad_request "community must be an integer"
       | Some cid => limitParam q (fun limit => respond (cg_Community repo cid limit) CEntities)
       end).
Definition handleBridges (q : params) : M C code_answer :=
  reqRepo q (fun repo => limitParam q (fun limit => respond (cg_Bridges repo limit) CBridges)).
Definition handleStats (q : params) : M C code_answer := reqRepo q (fun repo => respond (cg_Stats repo) CStats).
Definition handleAmbiguousEdges (q : params) : M C code_answer :=
  reqRepo q (fun repo => limitParam q (fun limit => respond (cg_AmbiguousEdges repo limit) CEdges)).
Definition handleEntityExplain (q : params) : M C code_answer :=
  reqRepo q (fun repo => reqIDParam q (fun id => respond (cg_EntityExplain repo id) CExplain)).
End Handlers.
