(* ===== verification/CodeHttpLaws.v ===== *)
(** The code-graph routes over the service and the Postgres store: what a push
    does, how long an answer can be, and what a NaN bound does. *)
From S2P Require Import Prelude GoErr JobStore Pool Db Enqueue Lightrag EdgeId Translate Tombstone Service LightragHttp HttpApi CodeGraph CodeGraphLaws CodeService CodeReads CodeReadsLaws CodeHttp.
From Stdlib Require Import QArith.
#[local] Open Scope Z_scope.
Import CodeStore.

(** * Answers of a handler *)

Section Answers.
Context {C : Type} `{CodeGraphService C} (shown : err -> string) (ParseFloat : string -> option float64).

Lemma respond_run {X} (m : M C (result err X)) k w :
  respond shown m k w = (match (m w).1 with Ok x => Answered (k x) | Err e => Failed (mapServiceError shown e) end, (m w).2).
Proof. done. Qed.
(** A refusal is no answer and calls nothing. *)
Lemma bad_request_run msg (w : C) : bad_request msg w = (Failed (WriteError 400 msg), w).
Proof. done. Qed.

(** [h q] either refuses without a call or goes on as one of [P]. *)
Definition guarded (h : M C code_answer) (P : M C code_answer -> Prop) : Prop :=
  P h \/ exists msg, h = bad_request msg.
Lemma reqRepo_guarded q k P : (forall r, r <> ""%string -> guarded (k r) P) -> guarded (reqRepo q k) P.
Proof. intros Hk. unfold reqRepo. case_bool_decide; [right; by eexists|by apply Hk]. Qed.
Lemma reqIDParam_guarded q k P : (forall i, i <> ""%string -> guarded (k i) P) -> guarded (reqIDParam q k) P.
Proof. intros Hk. unfold reqIDParam. case_bool_decide; [right; by eexists|by apply Hk]. Qed.
Lemma Atoi_bounded s n : Atoi s = Some n -> n < two63.
Proof.
  assert (Hr : forall z, in_range z = Some n -> n < two63)
    by (intros z; unfold in_range; case_bool_decide; intros; simplify_eq; lia).
  destruct s as [|c s]; [done|]. cbn [Atoi].
  intros E. repeat (case_match; try discriminate); eauto.
Qed.
Lemma parsePosInt_guarded key q k P : (forall n, 0 <= n < two63 -> guarded (k n) P) -> guarded (parsePosInt key q k) P.
Proof.
  intros Hk. unfold parsePosInt. case_bool_decide; [apply Hk; unfold two63; lia|].
  destruct (Atoi _) as [n|] eqn:E; [|right; by eexists]. case_bool_decide; [right; by eexists|].
  apply Hk. apply Atoi_bounded in E. lia.
Qed.
Lemma parseMinConfidence_guarded q k P :
  (forall v, float_lt v 0 = false -> float_gt v 1 = false -> guarded (k v) P) -> guarded (parseMinConfidence ParseFloat q k) P.
Proof.
  intros Hk. unfold parseMinConfidence. case_bool_decide; [by apply Hk|].
  destruct (ParseFloat _) as [v|]; [|right; by eexists].
  destruct (float_lt v 0) eqn:E1; [right; by eexists|]. destruct (float_gt v 1) eqn:E2; [right; by eexists|]. by apply Hk.
Qed.
Lemma confidenceFilter_guarded q k P : (forall cf, guarded (k cf) P) -> guarded (confidenceFilter ParseFloat q k) P.
Proof.
  intros Hk. apply parseMinConfidence_guarded. intros v _ _. cbv zeta. case_bool_decide; [apply Hk|].
  destruct (ValidTiers _); [apply Hk|right; by eexists].
Qed.
Lemma bad_guarded msg P : guarded (bad_request msg) P.
Proof. right. by eexists. Qed.
Lemma now_guarded h P : P h -> guarded h P.
Proof. by left. Qed.
End Answers.

(** Walks through the checks of a handler. *)
Ltac through_guards :=
  repeat first
    [ apply reqRepo_guarded; intros ? ?
    | apply reqIDParam_guarded; intros ? ?
    | apply parsePosInt_guarded; intros ? ?
    | apply confidenceFilter_guarded; intros ?
    | apply parseMinConfidence_guarded; intros ? ? ?
    | apply bad_guarded
    | match goal with |- guarded (if ?b then _ else _) _ => destruct b eqn:? end
    | match goal with |- guarded (match ?x with _ => _ end) _ => destruct x eqn:? end ].

(** * The length of an answer *)

Definition payload_rows (p : code_payload) : Z :=
  Z.of_nat match p with
  | CEntities l => length l
  | CPath l => length l
  | CNodes l => length l
  | CEdges l => length l
  | CLinks l => (length (xl_Consumers l) + length (xl_Providers l))%nat
  | CDegrees l => length l
  | CRelated l => length l
  | CHyperedges l => length l
  | CMisses l => length l
  | CCommunities l => length l
  | CBridges l => length l
  | _ => 0%nat
  end.

Section Bounds.
Context `{MapRange, Scan} (real4 : Q -> Q) (now : Z) (fold_char : Ascii.ascii -> Ascii.ascii).
Context (shown : err -> string) (ParseFloat : string -> option float64).
#[local] Existing Instance CodeReads.PGStore.
Abbreviation C := (code_svc (Db graph)).
#[local] Instance the_store : Store (Db graph) := CodeReads.PGStore real4 now fold_char.
Abbreviation route := (gmap string string -> M C code_answer).

(** The list routes and the most rows each can answer. *)
Definition list_routes : list (route * Z) := [
  (handleSearchCodeEntities shown, 500); (handleNeighbors shown ParseFloat, 5000);
  (handleCallers shown ParseFloat, 1000); (handleCallees shown ParseFloat, 1000);
  (handleDependents shown ParseFloat, 1000); (handleDependencies shown ParseFloat, 1000);
  (handleResourceGraph shown ParseFloat, 1000); (handleFileImports shown, 500);
  (handleCrossRepo shown, 1000); (handleImportantEntities shown, 200); (handleAmbiguousEdges shown, 500);
  (handleRelated shown ParseFloat, 200); (handleHyperedges shown, 200); (handleCommunities shown, 200);
  (handleCommunity shown, 200); (handleBridges shown, 200)].

(** A handler that ends in one service call whose result is never longer. *)
Definition short (cap : Z) (h : M C code_answer) : Prop :=
  exists X (m : M C (result err X)) k, h = respond shown m k /\
    forall w x, (m w).1 = Ok x -> payload_rows (k x) <= cap.
Lemma guarded_short cap (h : M C code_answer) w p w' :
  guarded h (short cap) -> h w = (Answered p, w') -> payload_rows p <= cap.
Proof.
  intros [(X & m & k & -> & Hm)|[msg ->]] Hr; [|by rewrite bad_request_run in Hr].
  rewrite respond_run in Hr. destruct (m w).1 as [x|e] eqn:E; [|done]. simplify_eq. by eapply Hm.
Qed.
Lemma query_ok {A} op (m : M (Db graph) (result err A)) w x : (query op m w).1 = Ok x -> (m (cs_store w)).1 = Ok x.
Proof. done. Qed.
(** What a select returns. *)
Lemma select_ok {A} (f : env -> graph -> A) d x : (select f d).1 = Ok x -> exists e, x = f e (db_tab d).
Proof.
  destruct (select f d) as [r d'] eqn:E. simpl. intros ->. apply runs_intro, runs_select in E as [_ He]. done.
Qed.
Lemma limited_length {A} limit (l : list A) : 0 <= limit -> Z.of_nat (length (CodeReads.limited limit l)) <= limit.
Proof. intros. unfold CodeReads.limited. pose proof (firstn_le_length (Z.to_nat limit) l). lia. Qed.
Lemma clamp_limit_bound def max limit : 0 <= def <= max -> 0 <= limit -> 0 <= clamp_limit def max limit <= max.
Proof. intros. unfold clamp_limit. repeat case_bool_decide; lia. Qed.
Lemma neighbor_limit_bound n : 0 <= clampNeighborLimit n <= 5000.
Proof. unfold clampNeighborLimit, defaultNeighborLimit, maxNeighborLimit. repeat case_bool_decide; lia. Qed.
Lemma list_limit_bound n : 0 <= clampListLimit n <= 500.
Proof. unfold clampListLimit, defaultListLimit, maxListLimit. repeat case_bool_decide; lia. Qed.

Lemma try_ok {S A B} (m : M S (result err A)) (k : A -> M S (result err B)) s b :
  ((try a <- m in k a) s).1 = Ok b -> exists a s1, m s = (Ok a, s1) /\ (k a s1).1 = Ok b.
Proof. unfold bind. destruct (m s) as [[a|e] s1] eqn:E; [|done]. simpl. eauto. Qed.
Lemma query_short {A} cap op (m : M (Db graph) (result err A)) k :
  (forall d x, (m d).1 = Ok x -> payload_rows (k x) <= cap) -> short cap (respond shown (query op m) k).
Proof. intros Hm. eexists _, _, _. split; [reflexivity|]. intros w x Hx%query_ok. by eapply Hm. Qed.
Lemma fill_members_length repo l d x : (CodeReads.fill_members repo l d).1 = Ok x -> length x = length l.
Proof.
  revert d x. induction l as [|h l IH]; intros d x; cbn [CodeReads.fill_members].
  - intros [= <-]. done.
  - intros (ms & d1 & _ & (rest & d2 & Hr & [= <-])%try_ok)%try_ok. cbn [length]. f_equal. apply (IH d1). by rewrite Hr.
Qed.
Lemma cross_refs_length mine role repo id limit d x : 0 <= limit ->
  (CodeReads.cross_refs mine role repo id limit d).1 = Ok x -> Z.of_nat (length x) <= limit.
Proof. intros Hl [e ->]%select_ok. by apply limited_length. Qed.

Lemma limited_le {A} limit (l : list A) cap : 0 <= limit <= cap -> Z.of_nat (length (CodeReads.limited limit l)) <= cap.
Proof. intros. pose proof (limited_length limit l). lia. Qed.
(** The bound of a clamped limit. *)
Ltac clamped := solve [ apply list_limit_bound | apply neighbor_limit_bound | apply clamp_limit_bound; lia
  | vm_compute; split; discriminate ].
(** The rows of a query that cuts what it selects at a clamped limit. *)
Ltac limited_rows Hx :=
  apply select_ok in Hx as [e ->]; unfold payload_rows; rewrite ?length_fmap; apply limited_le; clamped.
Lemma important_rows repo by_ limit d l : 0 <= limit <= 200 -> (CodeReads.ImportantEntitiesBy repo by_ limit d).1 = Ok l ->
  payload_rows (CDegrees l) <= 200.
Proof.
  intros Hl. unfold CodeReads.ImportantEntitiesBy. destruct (negb _); intros [e ->]%select_ok;
    unfold payload_rows; rewrite ?length_fmap; by apply limited_le.
Qed.
Lemma cross_rows repo id limit d l : 0 <= limit <= 500 -> (CodeReads.CrossRepo repo id limit d).1 = Ok l ->
  payload_rows (CLinks l) <= 1000.
Proof.
  intros Hl (cs & d1 & Hc & (ps & d2 & Hp & [= <-])%try_ok)%try_ok.
  apply (f_equal fst), cross_refs_length in Hc; [|lia]. apply (f_equal fst), cross_refs_length in Hp; [|lia].
  unfold payload_rows. simpl. lia.
Qed.
Lemma hyperedge_rows repo ent limit d l : 0 <= limit <= 200 -> (CodeReads.Hyperedges repo ent limit d).1 = Ok l ->
  payload_rows (CHyperedges l) <= 200.
Proof.
  intros Hl (out & d1 & Ho%(f_equal fst) & Hf%fill_members_length)%try_ok.
  apply select_ok in Ho as [e ->]. unfold payload_rows. rewrite Hf. by apply limited_le.
Qed.

(** C28: however large the limit a client asks for, no list route of the code graph
    answers more rows than its cap: 500 for a search, 5000 neighbours, 1000 for the
    named walks and for the two halves of a cross-repository answer, 200 for
    rankings, communities and hyperedges. *)
Theorem list_answers_bounded : Forall (fun hc : route * Z => forall q (w : C) p w',
  hc.1 q w = (Answered p, w') -> payload_rows p <= hc.2) list_routes.
Proof.
  unfold list_routes; repeat first [apply Forall_nil; exact I | apply Forall_cons; split]; intros q w p w'; cbn [fst snd]; apply guarded_short;
    unfold handleSearchCodeEntities, handleNeighbors, handleCallers, handleCallees, handleDependents, handleDependencies,
      handleResourceGraph, handleFileImports, handleCrossRepo, handleImportantEntities, handleAmbiguousEdges,
      handleRelated, handleHyperedges, handleCommunities, handleCommunity, handleBridges, handleWalk, depthParam, limitParam;
    cbv zeta; through_guards; left; eapply query_short; intros d x Hx.
  all: first [ eapply cross_rows, Hx; clamped | eapply hyperedge_rows, Hx; clamped
            | eapply important_rows, Hx; clamped | limited_rows Hx ].
Qed.
End Bounds.

(** * A push over HTTP *)

Section PushRoute.
Context `{MapRange, Scan} (real4 : Q -> Q) (now : Z) (fold_char : Ascii.ascii -> Ascii.ascii) (shown : err -> string).
#[local] Existing Instance CodeReads.PGStore.
#[local] Instance push_store : Store (Db graph) := CodeReads.PGStore real4 now fold_char.
Abbreviation C := (code_svc (Db graph)).
Abbreviation tables w := (db_tab (cs_store w)).

(** C15: a push that is answered 200 has been reconciled in the tables and every row of
    it belongs to a declared file; one that is out of scope is answered 400 and leaves
    the whole service as it was; a push that fails leaves the tables as they were, or
    fully reconciled when only the acknowledgement of the commit was lost. *)
Theorem code_graph_push (p : GraphPush) (w : C) :
  let '(a, w') := handlePostCodeGraph shown (Some p) w in
  (answer_status a = 200 -> in_scope p /\ a = Answered (CPush (push_result p)) /\
     reconciled real4 now p (tables w) (tables w')) /\
  (~ in_scope p -> answer_status a = 400 /\ w' = w) /\
  (answer_status a <> 200 -> tables w' = tables w \/ reconciled real4 now p (tables w) (tables w')).
Proof.
  unfold handlePostCodeGraph, respond. cbn [cg_Push Service_CodeGraphService]. unfold Push, bind, ret.
  destruct (check_push_spec p) as [[-> Hs]|[[t ->] Hs]].
  - unfold on_cstore. cbn [fst snd s_Reconcile push_store CodeReads.PGStore].
    pose proof (Reconcile_effect real4 now p (cs_store w)) as He.
    destruct (Reconcile real4 now p (cs_store w)) as [r d]. destruct He as [He _].
    assert (Hf : forall e, answer_status (Failed (mapServiceError shown e)) <> 200)
      by (intros e; apply (mapServiceError_fails shown e)).
    destruct r as [x|e]; cbn [fst snd].
    + assert (reconciled real4 now p (tables w) (db_tab d) /\ x = push_result p) as [Hr ->]
        by (destruct He as [[_ [e ?]]|[? [Hx|[e ?]]]]; try discriminate; by injection Hx as ->).
      split_and!; simpl; tauto.
    + split_and!; [|tauto|]; cbn [cs_store]; [intros Ha; by apply Hf in Ha|]. intros _. tauto.
  - simpl. split_and!; [|by intros _|]; intros; [discriminate|by left].
Qed.

(** Reading one entity back. *)
Lemma GetEntity_calm repo id r g : g_entities g !! (repo, id) = Some r ->
  CodeReads.GetEntity repo id (mkDb g []) =
    (Ok (mkDetail (entity_of id r)
       (CodeReads.scan_edge <$> List.filter (fun x => str_eqb (CodeReads.ee_from x) id) (CodeReads.edges_in calm repo g))
       (CodeReads.scan_edge <$> List.filter (fun x => str_eqb (CodeReads.ee_to x) id) (CodeReads.edges_in calm repo g))), mkDb g []).
Proof. intros Hg. unfold CodeReads.GetEntity, bind. simpl. rewrite Hg. reflexivity. Qed.

(** The parameters of an entity request. *)
Definition entity_params (repo id : string) : gmap string string := {["repo" := repo; "id" := id]}.
Lemma entity_params_repo repo id : Get "repo" (entity_params repo id) = repo.
Proof. reflexivity. Qed.
Lemma entity_params_id repo id : Get "id" (entity_params repo id) = id.
Proof. reflexivity. Qed.
(** An edge of the answer stands for a pushed one. *)
Definition shows (x e : CodeEdge) : Prop :=
  cg_From x = cg_From e /\ cg_To x = cg_To e /\ cg_Relation x = cg_Relation e.

Lemma Reconcile_calm p g : Reconcile real4 now p (mkDb g []) =
  (Ok (push_result p), mkDb (run_all (reconcile_statements real4 now p) g) []).
Proof. unfold Reconcile, transaction, bind. simpl. by rewrite exec_all_calm. Qed.
Lemma pushed_edge_row p g g' x : reconciled real4 now p g g' -> x ∈ gp_Edges p ->
  exists r, g_edges g' !! (gp_Repo p, cg_From x, cg_To x, cg_Relation x, extractor_of p) = Some r.
Proof.
  intros Hr Hx. destruct (last_with_in (key_of_edge (gp_Repo p) (extractor_of p)) _ x Hx) as (y & Hy & _).
  pose proof (rc_edges _ _ _ _ _ Hr (key_of_edge (gp_Repo p) (extractor_of p) x)) as Hk. rewrite Hy in Hk. by eexists.
Qed.

End PushRoute.

(** A file with two functions, one calling the other. *)
Definition two_functions : GraphPush := mkPush "r" "" ["f.go"]%string
  [mkCodeEntity "a" "A" "function" "" "f.go" 1 2 "" "" "" ∅; mkCodeEntity "b" "B" "function" "" "f.go" 4 9 "" "" "" ∅]
  [mkCodeEdge "a" "b" "calls" "f.go" 0 "" ∅] [] [] ∅.
Lemma two_functions_in_scope : in_scope two_functions.
Proof.
  unfold in_scope. split_and!; try discriminate; repeat constructor; try (right; by apply list_elem_of_In; left);
    by apply list_elem_of_In; left.
Qed.
Definition no_tables : graph := mkGraphTables ∅ ∅ ∅ ∅ ∅ ∅ ∅ ∅.
#[local] Instance route_range : MapRange := map_to_list_range.
#[local] Instance route_scan : Scan := scan_in_order.
#[local] Instance route_store : Store (Db graph) := CodeReads.PGStore (fun q => q) 7 (fun c => c).
Definition route_shown (e : err) : string := "error".
Definition after_push : code_svc (Db graph) :=
  (handlePostCodeGraph route_shown (Some two_functions) (mkCodeSvc (mkDb no_tables []) ∅ ∅)).2.

(** * A bound that is no number *)

Section NaNBound.
Context `{MapRange, Scan} (real4 : Q -> Q) (now : Z) (fold_char : Ascii.ascii -> Ascii.ascii) (shown : err -> string).
Context (ParseFloat : string -> option float64).
#[local] Instance nan_store : Store (Db graph) := CodeReads.PGStore real4 now fold_char.
Abbreviation C := (code_svc (Db graph)).

Lemma omap_none {A B} (f : A -> option B) l : (forall x, f x = None) -> omap f l = [].
Proof. intros Hf. induction l as [|x l IH]; [done|]. simpl. by rewrite Hf. Qed.
Lemma related_to_nan repo id rels limit d x :
  (CodeReads.Related real4 repo id rels NaN limit d).1 = Ok x -> x = [].
Proof.
  unfold CodeReads.Related. cbv zeta. intros [e ->]%select_ok. rewrite omap_none; [apply take_nil|].
  intros y. cbn [as_real score_at_least]. by rewrite andb_false_r.
Qed.
Lemma parse_nan q (k : float64 -> M C code_answer) :
  ParseFloat "NaN" = Some NaN -> Get "min_confidence" q = "NaN"%string -> parseMinConfidence ParseFloat q k = k NaN.
Proof. intros Hp Hq. unfold parseMinConfidence. rewrite Hq, Hp. reflexivity. Qed.
Lemma parse_absent q (k : float64 -> M C code_answer) :
  parseMinConfidence ParseFloat (delete "min_confidence" q) k = k (Finite 0).
Proof. unfold parseMinConfidence, Get. by rewrite lookup_delete_eq. Qed.
Lemma Get_delete key key' q : key <> key' -> Get key (delete key' q) = Get key q.
Proof. intros. unfold Get. by rewrite lookup_delete_ne. Qed.

(** [strconv.ParseFloat] reads NaN, and a NaN is neither below 0 nor above 1: the
    range check of min_confidence lets it through.  A related-entities request then
    answers nothing, whatever is stored, and a callers request without a tier is
    answered as if no bound had been given. *)
Theorem nan_confidence_passes q (w : C) :
  ParseFloat "NaN" = Some NaN -> Get "min_confidence" q = "NaN"%string ->
  (forall p w', handleRelated shown ParseFloat q w = (Answered p, w') -> p = CRelated []) /\
  (Get "tier" q = ""%string ->
   handleCallers shown ParseFloat q w = handleCallers shown ParseFloat (delete "min_confidence" q) w).
Proof.
  intros Hp Hq. split.
  - intros p w' Hr.
    assert (Hg : guarded (handleRelated (C := C) shown ParseFloat q) (fun h =>
      exists repo id rels limit, h = respond shown (query "related" (CodeReads.Related real4 repo id rels NaN limit)) CRelated)).
    { apply reqRepo_guarded. intros repo _. apply reqIDParam_guarded. intros id _. rewrite parse_nan by done.
      apply parsePosInt_guarded. intros limit _. left. eexists _, _, _, _. reflexivity. }
    destruct Hg as [(repo & id & rels & limit & Hh)|[msg Hh]]; rewrite Hh in Hr; [|discriminate].
    rewrite respond_run in Hr. destruct (query _ _ w).1 as [x|e] eqn:E; [|done]. injection Hr as <- _.
    f_equal. by eapply related_to_nan, query_ok.
  - intros Ht. unfold handleCallers, handleWalk, reqRepo, reqIDParam, confidenceFilter, depthParam, parsePosInt.
    rewrite parse_absent, parse_nan, !Get_delete by done. rewrite Ht. cbv zeta.
    repeat (case_bool_decide; [done|]). done.
Qed.
End NaNBound.
Definition reads_nan (s : string) : option float64 := if bool_decide (s = "NaN"%string) then Some NaN else None.
Definition nan_params : gmap string string := <["min_confidence" := "NaN"%string]> (entity_params "r" "b").
Definition semantic_graph : graph := mkGraphTables
  (list_to_map [(("r", "a")%string, plain_entity "A"); (("r", "b")%string, plain_entity "B")])
  (list_to_map [(("r", "b", "a", "cites", ExtractorSemantic)%string, mkEdgeRow "f.go" ∅ 1 TierExtracted)]) ∅ ∅ ∅ ∅ ∅ ∅.
Definition semantic_service : code_svc (Db graph) := mkCodeSvc (mkDb semantic_graph []) ∅ ∅.
(** Without the bound the stored neighbour is answered. *)
Lemma related_without_bound :
  match (handleRelated route_shown reads_nan (entity_params "r" "b") semantic_service).1 with
  | Answered (CRelated l) => (fun x => ce_ID (rl_Entity x)) <$> l | _ => [] end = ["a"%string].
Proof. vm_compute. reflexivity. Qed.
Lemma nan_confidence_passes_witness :
  (handleRelated route_shown reads_nan nan_params semantic_service).1 = Answered (CRelated []) /\
  handleCallers route_shown reads_nan nan_params semantic_service =
    handleCallers route_shown reads_nan (delete "min_confidence" nan_params) semantic_service.
Proof.
  destruct (nan_confidence_passes (fun q => q) 7 (fun c => c) route_shown reads_nan nan_params semantic_service
    ltac:(reflexivity) ltac:(reflexivity)) as [Hr Hc].
  split; [|apply Hc; reflexivity].
  assert (Ha : exists p, (handleRelated route_shown reads_nan nan_params semantic_service).1 = Answered p)
    by (eexists; vm_compute; reflexivity).
  destruct Ha as [p Ha], (handleRelated route_shown reads_nan nan_params semantic_service) as [a w'].
  cbn [fst] in Ha |- *. subst a. f_equal. exact (Hr p w' eq_refl).
Defined.
