(* ===== verification/Web.v ===== *)
(** The HTTP middleware ([internal/httpapi/middleware.go]) and bearer
    authentication ([internal/auth]).

    The response writer is the one of [net/http] below a stack of
    [statusRecorder]s, innermost first; a handler runs on it and on the
    application state [A] and returns or panics.  The logger of [WithLogger] is the
    log of the world. *)
From S2P Require Import Prelude GoErr GoStr JobStore Pool Db Enqueue Lightrag EdgeId Translate Tombstone Service LightragHttp HttpApi CodeGraph CodeService CodeHttp.
#[local] Open Scope Z_scope.

(** * The response writer *)

(** A piece of a body: an error envelope, a JSON document or a text. *)
Inductive chunk := Envelope (msg reqID : string) | Doc (p : payload) | CodeDoc (p : code_payload) | Text (s : string).
(** [*http.response]: the header map, what was sent of it with the status, the body. *)
Record conn := mkConn { cn_header : gmap string string; cn_sent : option (Z * gmap string string); cn_body : list chunk }.
Definition fresh_conn : conn := mkConn ∅ None [].
Definition conn_WriteHeader (code : Z) (c : conn) : conn :=
  match cn_sent c with
  | Some _ => c
  | None => mkConn (cn_header c) (Some (code, cn_header c)) (cn_body c)
  end.
Definition conn_Write (b : chunk) (c : conn) : conn :=
  let c := conn_WriteHeader 200 c in mkConn (cn_header c) (cn_sent c) (cn_body c ++ [b]).

Record statusRecorder := mkRecorder { sr_status : Z; sr_wroteHeader : bool }.
Fixpoint WriteHeader (code : Z) (rs : list statusRecorder) (c : conn) : list statusRecorder * conn :=
  match rs with
  | [] => ([], conn_WriteHeader code c)
  | r :: inner =>
      if sr_wroteHeader r then (rs, c)
      else let q := WriteHeader code inner c in (mkRecorder code true :: q.1, q.2)
  end.
(** [Write] through [n] recorders. *)
Fixpoint Write_through (n : nat) (b : chunk) (rs : list statusRecorder) (c : conn) : list statusRecorder * conn :=
  match n, rs with
  | S n, r :: _ =>
      let q := if sr_wroteHeader r then (rs, c) else WriteHeader 200 rs c in
      match q.1 with
      | r :: inner => let p := Write_through n b inner q.2 in (r :: p.1, p.2)
      | [] => q
      end
  | _, _ => (rs, conn_Write b c)
  end.
Definition Write (b : chunk) (rs : list statusRecorder) (c : conn) : list statusRecorder * conn :=
  Write_through (length rs) b rs c.

(** * The world of a request *)

Inductive log_line :=
| LogRequest (id route path method : string) (status : Z)
| LogPanic (id : string)
| LogAccepted (user : string) | LogRejected (reason : string)
| LogShed (class : string) (retryAfter : Z)
| LogNotReady (id : string).
Record Claims := mkClaims { cl_Subject : string; cl_PreferredUsername : string; cl_Issuer : string }.
Record request := mkRequest {
  rq_Method : string; rq_Path : string; rq_Header : gmap string string; rq_Query : gmap string string;
  rq_Body : string;
  rq_pattern : string; rq_urlParams : gmap string string;      (* chi's route context *)
  rq_id : string; rq_claims : option Claims }.                 (* context values *)
Definition header_of (key : string) (r : request) : string := default ""%string (rq_Header r !! key).
Definition with_id (id : string) (r : request) : request :=
  mkRequest (rq_Method r) (rq_Path r) (rq_Header r) (rq_Query r) (rq_Body r) (rq_pattern r) (rq_urlParams r) id (rq_claims r).
Definition with_claims (c : Claims) (r : request) : request :=
  mkRequest (rq_Method r) (rq_Path r) (rq_Header r) (rq_Query r) (rq_Body r) (rq_pattern r) (rq_urlParams r) (rq_id r) (Some c).

(** Prometheus: requests by route, method and status; in flight; panics; logins;
    slots of the admission limiters by class. *)
Record gauges := mkGauges {
  ga_requests : gmap (string * string * string) Z; ga_inFlight : Z; ga_panics : Z; ga_logins : gmap string Z }.
(** How a queued bulk request's wait ends. *)
Inductive queue_end := SlotFreed | TimedOut | ClientGone.
(** What the process draws from: random bytes ([None]: crypto/rand failed), the
    fallback counter, the ends of the waits. *)
Record draws := mkDraws { dw_rand : list (option (list Z)); dw_counter : Z; dw_queue : list queue_end }.
Record limits := mkLimits { li_slots : gmap string Z; li_shedSeq : gmap string Z }.
Record web (A : Type) := mkWeb {
  wb_conn : conn; wb_recs : list statusRecorder; wb_app : A; wb_log : list log_line;
  wb_gauges : gauges; wb_draws : draws; wb_limits : limits }.
Arguments mkWeb {A} _ _ _ _ _ _ _.
Arguments wb_conn {A} _.
Arguments wb_recs {A} _.
Arguments wb_app {A} _.
Arguments wb_log {A} _.
Arguments wb_gauges {A} _.
Arguments wb_draws {A} _.
Arguments wb_limits {A} _.
Inductive outcome := Returned | Panicked.

(** * Texts of the standard library *)

Definition fold_eq (a b : string) : bool := bool_decide (ToLower a = ToLower b).
(** The encodings of the characters [strings.TrimSpace] drops. *)
Definition byte (n : nat) : Ascii.ascii := Ascii.ascii_of_nat n.
Definition white_space : list (list Ascii.ascii) :=
  ((fun n => [byte n]) <$> [9; 10; 11; 12; 13; 32]%nat) ++
  [[byte 194; byte 133]; [byte 194; byte 160]; [byte 225; byte 154; byte 128];
   [byte 226; byte 128; byte 168]; [byte 226; byte 128; byte 169]; [byte 226; byte 128; byte 175];
   [byte 226; byte 129; byte 159]; [byte 227; byte 128; byte 128]] ++
  ((fun n => [byte 226; byte 128; byte n]) <$> seq 128 11).
Fixpoint strip (p l : list Ascii.ascii) : option (list Ascii.ascii) :=
  match p, l with
  | [], l => Some l
  | c :: p, d :: l => if bool_decide (c = d) then strip p l else None
  | _ :: _, [] => None
  end.
Definition strip_any (ps : list (list Ascii.ascii)) (l : list Ascii.ascii) : option (list Ascii.ascii) :=
  head (omap (fun p => strip p l) ps).
(** [n] is at least the length. *)
Fixpoint trim_front (n : nat) (ps : list (list Ascii.ascii)) (l : list Ascii.ascii) : list Ascii.ascii :=
  match n with
  | O => l
  | S n => match strip_any ps l with Some l => trim_front n ps l | None => l end
  end.
Definition trim_space (l : list Ascii.ascii) : list Ascii.ascii :=
  let l := trim_front (length l) white_space l in
  reverse (trim_front (length l) (reverse <$> white_space) (reverse l)).
Definition TrimSpace (s : string) : string :=
  String.string_of_list_ascii (trim_space (String.list_ascii_of_string s)).
(** [http.StatusText] of the codes the program sends; 499 has no text. *)
Definition StatusText (code : Z) : string :=
  match code with
  | 200 => "OK" | 201 => "Created" | 202 => "Accepted" | 204 => "No Content"
  | 400 => "Bad Request" | 401 => "Unauthorized" | 404 => "Not Found" | 405 => "Method Not Allowed"
  | 429 => "Too Many Requests" | 500 => "Internal Server Error" | 502 => "Bad Gateway"
  | 503 => "Service Unavailable" | _ => ""
  end.
Definition hex_digit (n : Z) : Ascii.ascii :=
  Ascii.ascii_of_nat (Z.to_nat (if bool_decide (n < 10) then 48 + n else 87 + n)).
(** [hex.EncodeToString]. *)
Fixpoint hex_encode (l : list Z) : string :=
  match l with
  | [] => ""
  | b :: l => String (hex_digit (b / 16)) (String (hex_digit (b mod 16)) (hex_encode l))
  end.
(** [%016x] of a uint64. *)
Definition hex16 (n : Z) : string :=
  hex_encode ((fun i => Z.shiftr n (8 * Z.of_nat i) mod 256) <$> reverse (seq 0 8)).

(** * Handlers and the writer they see *)

Section Web.
Context {A : Type}.
Abbreviation W := (web A).
Definition Handler : Type := request -> M W outcome.

Definition upd_conn (f : list statusRecorder -> conn -> list statusRecorder * conn) : M W unit :=
  modify (fun w => let q := f (wb_recs w) (wb_conn w) in
    mkWeb q.2 q.1 (wb_app w) (wb_log w) (wb_gauges w) (wb_draws w) (wb_limits w)).
Definition w_Set (key value : string) : M W unit :=
  upd_conn (fun rs c => (rs, mkConn (<[key := value]> (cn_header c)) (cn_sent c) (cn_body c))).
Definition w_WriteHeader (code : Z) : M W unit := upd_conn (WriteHeader code).
Definition w_Write (b : chunk) : M W unit := upd_conn (Write b).
Definition upd_log (l : log_line) : M W unit :=
  modify (fun w => mkWeb (wb_conn w) (wb_recs w) (wb_app w) (wb_log w ++ [l]) (wb_gauges w) (wb_draws w) (wb_limits w)).
Definition upd_gauges (f : gauges -> gauges) : M W unit :=
  modify (fun w => mkWeb (wb_conn w) (wb_recs w) (wb_app w) (wb_log w) (f (wb_gauges w)) (wb_draws w) (wb_limits w)).
Definition upd_draws (f : draws -> draws) : M W unit :=
  modify (fun w => mkWeb (wb_conn w) (wb_recs w) (wb_app w) (wb_log w) (wb_gauges w) (f (wb_draws w)) (wb_limits w)).
Definition upd_limits (f : limits -> limits) : M W unit :=
  modify (fun w => mkWeb (wb_conn w) (wb_recs w) (wb_app w) (wb_log w) (wb_gauges w) (wb_draws w) (f (wb_limits w))).
Definition upd_recs (f : list statusRecorder -> list statusRecorder) : M W unit :=
  upd_conn (fun rs c => (f rs, c)).
Definition on_app {X} (m : M A X) : M W X := fun w =>
  let q := m (wb_app w) in
  (q.1, mkWeb (wb_conn w) (wb_recs w) q.2 (wb_log w) (wb_gauges w) (wb_draws w) (wb_limits w)).

(** errors.go *)
Definition send_error (status : Z) (msg reqID : string) : M W unit :=
  w_Set "Content-Type" "application/json" ;; w_WriteHeader status ;; w_Write (Envelope msg reqID).
Definition send_json (status : Z) (b : chunk) : M W unit :=
  w_Set "Content-Type" "application/json" ;; w_WriteHeader status ;; w_Write b.
(** [http.Error]. *)
Definition http_Error (text : string) (status : Z) : M W unit :=
  w_Set "Content-Type" "text/plain; charset=utf-8" ;; w_Set "X-Content-Type-Options" "nosniff" ;;
  w_WriteHeader status ;; w_Write (Text text).

(** * Request IDs *)

Definition safe_char (c : Ascii.ascii) : bool :=
  let n := Ascii.nat_of_ascii c in
  (((48 <=? n) && (n <=? 57)) || ((65 <=? n) && (n <=? 90)) || ((97 <=? n) && (n <=? 122))
   || (n =? 46) || (n =? 95) || (n =? 45))%nat.
(** [requestIDRe]. *)
Definition requestIDRe (s : string) : bool :=
  negb (bool_decide (s = ""%string)) && forallb safe_char (String.list_ascii_of_string s).
Definition generateRequestID : M W string :=
  d <- gets (@wb_draws A) ;;
  match dw_rand d with
  | Some b :: rest => upd_draws (fun d => mkDraws rest (dw_counter d) (dw_queue d)) ;; ret (hex_encode b)
  | None :: rest | rest =>
      let n := (dw_counter d + 1) mod 2 ^ 64 in
      upd_draws (fun d => mkDraws rest n (dw_queue d)) ;; ret (hex16 n)
  end.
Definition RequestID (next : Handler) : Handler := fun r =>
  let id := header_of "X-Request-Id" r in
  id <- (if bool_decide (id = ""%string) || bool_decide (64 < Z.of_nat (String.length id)) || negb (requestIDRe id)
         then generateRequestID else ret id) ;;
  w_Set "X-Request-Id" id ;;
  next (with_id id r).

(** * Recovery, access log, metrics *)

Definition push_recorder : M W unit := upd_recs (cons (mkRecorder 200 false)).
(** The recorder of the middleware whose call returned. *)
Definition pop_recorder : M W statusRecorder :=
  sr <- gets (fun w => default (mkRecorder 200 false) (head (@wb_recs A w))) ;;
  upd_recs (fun rs => tail rs) ;; ret sr.
Definition routeLabel (r : request) : string :=
  if bool_decide (rq_pattern r = ""%string) then "unmatched" else rq_pattern r.

Definition RecoverWithLogger (next : Handler) : Handler := fun r =>
  push_recorder ;;
  o <- next r ;;
  (match o with
   | Returned => ret tt
   | Panicked =>
       upd_log (LogPanic (rq_id r)) ;;
       upd_gauges (fun g => mkGauges (ga_requests g) (ga_inFlight g) (ga_panics g + 1) (ga_logins g)) ;;
       wrote <- gets (fun w => match @wb_recs A w with sr :: _ => sr_wroteHeader sr | [] => false end) ;;
       (if (wrote : bool) then ret tt else send_error 500 "internal error" (rq_id r))
   end) ;;
  pop_recorder ;; ret Returned.
Definition AccessLog (next : Handler) : Handler := fun r =>
  push_recorder ;;
  o <- next r ;;
  sr <- pop_recorder ;;
  match o with
  | Panicked => ret Panicked
  | Returned => upd_log (LogRequest (rq_id r) (routeLabel r) (rq_Path r) (rq_Method r) (sr_status sr)) ;; ret Returned
  end.
Definition count_request (route method status : string) (g : gauges) : gauges :=
  mkGauges (<[(route, method, status) := default 0 (ga_requests g !! (route, method, status)) + 1]> (ga_requests g))
    (ga_inFlight g) (ga_panics g) (ga_logins g).
Definition in_flight (d : Z) (g : gauges) : gauges :=
  mkGauges (ga_requests g) (ga_inFlight g + d) (ga_panics g) (ga_logins g).
Definition Metrics_Middleware (next : Handler) : Handler := fun r =>
  upd_gauges (in_flight 1) ;;
  push_recorder ;;
  o <- next r ;;
  sr <- pop_recorder ;;
  (match o with
   | Panicked => ret tt
   | Returned => upd_gauges (count_request (routeLabel r) (rq_Method r) (StatusText (sr_status sr)))
   end) ;;
  upd_gauges (in_flight (-1)) ;; ret o.

(** The order of [r.Use] in [NewRouter]. *)
Definition middlewares (h : Handler) : Handler :=
  RequestID (RecoverWithLogger (AccessLog (Metrics_Middleware h))).

(** * Authentication (internal/auth) *)

Record IDToken := mkIDToken { tk_Issuer : string; tk_Subject : string }.
(** The OIDC library: [IDTokenVerifier.Verify] and [IDToken.Claims]. *)
Context (oidc_verify : string -> option IDToken) (token_claims : IDToken -> option Claims).
Definition Verify (raw : string) : option Claims :=
  match oidc_verify raw with
  | None => None
  | Some tok =>
      match token_claims tok with
      | None => None
      | Some c => if bool_decide (tk_Subject tok = ""%string) then None
                  else Some (mkClaims (tk_Subject tok) (cl_PreferredUsername c) (tk_Issuer tok))
      end
  end.
Definition bearerToken (r : request) : string * string :=
  let h := header_of "Authorization" r in
  if bool_decide (h = ""%string) then ("", "missing_token")%string
  else if (String.length h <? 7)%nat || negb (fold_eq (String.substring 0 7 h) "Bearer ")
  then ("", "invalid_scheme")%string
  else let tok := TrimSpace (String.substring 7 (String.length h - 7) h) in
       if bool_decide (tok = ""%string) then ("", "missing_token")%string else (tok, ""%string).
Definition attempt (result : string) : M W unit :=
  upd_gauges (fun g => mkGauges (ga_requests g) (ga_inFlight g) (ga_panics g) (inc result (ga_logins g))).
Definition quoted (s : string) : string := let q := String (byte 34) "" in String.append q (String.append s q).
Definition wwwAuthenticate : string := String.append "Bearer realm=" (quoted "tatara-memory").
Definition reject (reason text : string) : M W outcome :=
  attempt reason ;; upd_log (LogRejected reason) ;; w_Set "WWW-Authenticate" wwwAuthenticate ;;
  http_Error text 401 ;; ret Returned.
Definition middleware (next : Handler) : Handler := fun r =>
  let t := bearerToken r in
  if bool_decide (t.1 = ""%string) then reject t.2 "missing bearer token"
  else match Verify t.1 with
       | None => reject "invalid_token" "invalid token"
       | Some c => attempt "success" ;; upd_log (LogAccepted (cl_Subject c)) ;; next (with_claims c r)
       end.
End Web.
