(* ===== verification/MigrateStub.v ===== *)
(** The runner of [Migrate.v] at the level of the texts it sends ([pgmigrate.go]), and
    the stub database of the migration tests that tells them apart by their tags
    ([pgmigratetest/stub.go]). *)
From S2P Require Import Prelude GoErr GoStr Db Web Migrate.
#[local] Open Scope go_scope.
#[local] Open Scope Z_scope.

Module MigrateStub.

(** * database/sql over a driver with one connection *)

(** A bind argument. *)
Inductive value := VString (s : string) | VOther.
(** One connection: a query answers the single boolean of its single row. *)
Class Driver (D : Type) := {
  drv_Begin : M D (option err);
  drv_Exec : string -> list value -> M D (option err);
  drv_Query : string -> list value -> M D (result err bool);
  drv_Commit : M D (option err);
  drv_Rollback : M D (option err) }.

(** * The texts (pgmigrate.go) *)

Notation "a +++ b" := (String.append a b) (at level 60, right associativity).
Definition nl : string := String (Ascii.ascii_of_nat 10) "".
Definition AppliedCheckTag : string := StatementTag +++ "applied check".
Definition StampTag : string := StatementTag +++ "stamp".
Definition ProbeTag (name : string) : string := StatementTag +++ "baseline probe " +++ name.
Definition migrationLockTimeout : Z := 5 * Minute.
Definition migrationStatementTimeout : Z := 30 * Minute.
Definition bootstrapSQL (Tracker : string) : string :=
  StatementTag +++ "bootstrap tracker" +++ nl +++ "CREATE TABLE IF NOT EXISTS " +++ Tracker +++ " (" +++ nl +++
  "    name       TEXT PRIMARY KEY," +++ nl +++ "    applied_at TIMESTAMPTZ NOT NULL DEFAULT now()" +++ nl +++ ")".
Definition appliedSQL (Tracker : string) : string :=
  AppliedCheckTag +++ nl +++ "SELECT EXISTS (SELECT 1 FROM " +++ Tracker +++ " WHERE name = $1)".
Definition stampSQL (Tracker : string) : string :=
  StampTag +++ nl +++ "INSERT INTO " +++ Tracker +++ " (name) VALUES ($1) ON CONFLICT (name) DO NOTHING".
Definition sessionTimeoutsSQL : string :=
  StatementTag +++ "session timeouts" +++ nl +++
  "SET LOCAL lock_timeout = " +++ itoa (Z.quot migrationLockTimeout Millisecond) +++ ";" +++ nl +++
  "SET LOCAL statement_timeout = " +++ itoa (Z.quot migrationStatementTimeout Millisecond) +++ ";".
(** [Probe(name, query)]. *)
Record text_probe := mkProbe { pb_name : string; pb_query : string }.
Definition probeSQL (p : text_probe) : string := ProbeTag (pb_name p) +++ nl +++ pb_query p.

Record TextMigration := mkTextMigration {
  tm_Name : string; tm_SQL : string; tm_AlreadyApplied : option text_probe }.
Record TextRunner := mkTextRunner { tr_Tracker : string; tr_Migrations : list TextMigration }.
Definition text_Names (r : TextRunner) : list string := tm_Name <$> tr_Migrations r.
Definition HasPrefix (s p : string) : bool := String.prefix p s.
Definition starts_reserved (m : TextMigration) : bool := HasPrefix (TrimSpace (tm_SQL m)) StatementTag.

Section Run.
Context {D : Type} `{Driver D} (r : TextRunner).
(** [if err != nil { return wrap(err) }] before the deferred [tx.Rollback()]. *)
Notation "'ask' m 'as' text ;; k" :=
  (bind m (fun e => match e with Some e => drv_Rollback ;; ret (Err (Wrap text e)) | None => k end))
  (at level 100, m at next level, text at next level, k at level 200, right associativity).

Definition text_applied (name : string) : M D (result err bool) :=
  drv_Query (appliedSQL (tr_Tracker r)) [VString name].
Definition finish (m : TextMigration) (execute : bool) : M D (result err bool) :=
  ask drv_Exec (stampSQL (tr_Tracker r)) [VString (tm_Name m)] as "record"%string ;;
  e <- drv_Commit ;;
  ret (match e with Some e => Err (Wrap "commit" e) | None => Ok execute end).
Definition text_execute (m : TextMigration) (execute : bool) : M D (result err bool) :=
  if execute then (ask drv_Exec (tm_SQL m) [] as "exec"%string ;; finish m execute) else finish m execute.
Definition text_apply (m : TextMigration) (baselining : bool) : M D (result err bool) :=
  b <- drv_Begin ;;
  match b with
  | Some e => ret (Err (Wrap "begin" e))
  | None =>
      ask drv_Exec sessionTimeoutsSQL [] as "session timeouts"%string ;;
      match tm_AlreadyApplied m with
      | Some p =>
          if baselining then
            present <- drv_Query (probeSQL p) [] ;;
            match present with
            | Err e => drv_Rollback ;; ret (Err (Wrap "baseline probe" e))
            | Ok present => text_execute m (negb present)
            end
          else text_execute m true
      | None => text_execute m true
      end
  end.
Fixpoint text_migrations (ms : list TextMigration) (baselining : bool) : M D (option err) :=
  match ms with
  | [] => ret None
  | m :: ms =>
      a <- text_applied (tm_Name m) ;;
      match a with
      | Err e => ret (Some (Wrap "pgmigrate: check" e))
      | Ok true => text_migrations ms baselining
      | Ok false =>
          x <- text_apply m baselining ;;
          match x with
          | Err e => ret (Some (Wrap "pgmigrate: apply" e))
          | Ok executed => text_migrations ms (if executed then false else baselining)
          end
      end
  end.
Definition text_Run : M D (option err) :=
  if negb (safeTrackerName (tr_Tracker r)) then ret (Some (Errorf "pgmigrate: unsafe tracker table name"))
  else if existsb starts_reserved (tr_Migrations r)
  then ret (Some (Errorf "pgmigrate: migration starts with the reserved runner tag"))
  else
    e <- drv_Exec (bootstrapSQL (tr_Tracker r)) [] ;;
    match e with
    | Some e => ret (Some (Wrap "pgmigrate: create tracker" e))
    | None => text_migrations (tr_Migrations r) true
    end.
End Run.

(** * The stub (stub.go) *)

(** The [Recorder], and the open transaction of the connection with the names it will
    stamp. *)
Record Recorder := mkRecorder {
  rc_applied : gset string; rc_appliedOrder : list string;
  rc_probes : gmap string bool; rc_probedOrder : list string;
  rc_stmts : list string; rc_failOn : gmap string err; rc_tx : option (list string) }.
Definition New : Recorder := mkRecorder ∅ [] ∅ [] [] ∅ None.
Definition SetProbe (name : string) (present : bool) (c : Recorder) : Recorder :=
  mkRecorder (rc_applied c) (rc_appliedOrder c) (<[name := present]> (rc_probes c)) (rc_probedOrder c) (rc_stmts c) (rc_failOn c) (rc_tx c).
Definition FailOn (fragment : string) (e : err) (c : Recorder) : Recorder :=
  mkRecorder (rc_applied c) (rc_appliedOrder c) (rc_probes c) (rc_probedOrder c) (rc_stmts c) (<[fragment := e]> (rc_failOn c)) (rc_tx c).
Definition Reset (c : Recorder) : Recorder :=
  mkRecorder (rc_applied c) (rc_appliedOrder c) (rc_probes c) (rc_probedOrder c) [] (rc_failOn c) (rc_tx c).
Definition Statements (c : Recorder) : list string := rc_stmts c.
Definition bookkeeping (s : string) : bool := HasPrefix (TrimSpace s) StatementTag.
Definition MigrationStatements (c : Recorder) : list string := List.filter (fun s => negb (bookkeeping s)) (Statements c).
Definition Applied (c : Recorder) : list string := rc_appliedOrder c.
Definition Probed (c : Recorder) : list string := rc_probedOrder c.

(** [strings.ToUpper] on ASCII. *)
Definition upper_ascii (c : Ascii.ascii) : Ascii.ascii :=
  let n := Ascii.nat_of_ascii c in if ((97 <=? n) && (n <=? 122))%nat then Ascii.ascii_of_nat (n - 32) else c.
Fixpoint ToUpper (s : string) : string :=
  match s with EmptyString => EmptyString | String c s => String (upper_ascii c) (ToUpper s) end.
Definition transactionUnsafe : list string := ["CONCURRENTLY"; "VACUUM"; "ALTER SYSTEM"]%string.
(** [true]: the test does not fail. *)
Definition RequireTransactionSafe (sql : string) : bool :=
  forallb (fun bad => negb (Contains (ToUpper sql) bad)) transactionUnsafe.

Definition record (q : string) (c : Recorder) : Recorder :=
  mkRecorder (rc_applied c) (rc_appliedOrder c) (rc_probes c) (rc_probedOrder c) (rc_stmts c ++ [q]) (rc_failOn c) (rc_tx c).
Definition set_tx (t : option (list string)) (c : Recorder) : Recorder :=
  mkRecorder (rc_applied c) (rc_appliedOrder c) (rc_probes c) (rc_probedOrder c) (rc_stmts c) (rc_failOn c) t.
Definition isApplied (name : string) (c : Recorder) : bool := bool_decide (name ∈ rc_applied c).
Definition commit (names : list string) (c : Recorder) : Recorder :=
  foldl (fun c n =>
    if bool_decide (n ∈ rc_applied c) then c
    else mkRecorder ({[n]} ∪ rc_applied c) (rc_appliedOrder c ++ [n]) (rc_probes c) (rc_probedOrder c) (rc_stmts c) (rc_failOn c) (rc_tx c))
    c names.
Definition stringArg (args : list value) : result err string :=
  match args with
  | [VString s] => Ok s
  | [VOther] => Err (Errorf "pgmigratetest: expected a string argument")
  | _ => Err (Errorf "pgmigratetest: expected exactly one argument")
  end.
(** [strings.TrimPrefix], and [strings.SplitN(s, newline, 2)[0]]. *)
Definition TrimPrefix (s p : string) : string := if HasPrefix s p then slice_from (String.length p) s else s.
Definition first_line (s : string) : string := match Index s nl with Some i => slice_to i s | None => s end.
Definition probed_name (q : string) : string := TrimSpace (first_line (TrimPrefix q (ProbeTag ""))).
(** [None]: not a probe. *)
Definition probe (q : string) : M Recorder (option bool) := fun c =>
  let q := TrimSpace q in
  if negb (HasPrefix q (ProbeTag "")) then (None, c)
  else let name := probed_name q in
       (Some (default false (rc_probes c !! name)),
        mkRecorder (rc_applied c) (rc_appliedOrder c) (rc_probes c) (rc_probedOrder c ++ [name]) (rc_stmts c) (rc_failOn c) (rc_tx c)).

Section Stub.
(** The order in which the map of failures is ranged over, and [ctx.Err()]. *)
Context `{MapRange} (ctx : option err).
Definition errFor (q : string) (c : Recorder) : option err :=
  snd <$> List.find (fun kv => Contains q kv.1) (range (rc_failOn c)).

Definition BeginTx : M Recorder (option err) := fun c =>
  match ctx with Some e => (Some e, c) | None => (None, set_tx (Some []) c) end.
Definition ExecContext (q : string) (args : list value) : M Recorder (option err) := fun c =>
  match ctx with
  | Some e => (Some e, c)
  | None =>
      let c := record q c in
      match errFor q c with
      | Some e => (Some e, c)
      | None =>
          if HasPrefix (TrimSpace q) StampTag then
            match stringArg args with
            | Err e => (Some e, c)
            | Ok name =>
                match rc_tx c with
                | None => (Some (Errorf "pgmigratetest: tracker insert was issued outside a transaction"), c)
                | Some pending => (None, set_tx (Some (pending ++ [name])) c)
                end
            end
          else (None, c)
      end
  end.
Definition QueryContext (q : string) (args : list value) : M Recorder (result err bool) := fun c =>
  match ctx with
  | Some e => (Err e, c)
  | None =>
      let c := record q c in
      match errFor q c with
      | Some e => (Err e, c)
      | None =>
          if HasPrefix (TrimSpace q) AppliedCheckTag then
            match stringArg args with
            | Err e => (Err e, c)
            | Ok name => (Ok (isApplied name c), c)
            end
          else
            let p := probe q c in
            match p.1 with
            | Some present => (Ok present, p.2)
            | None => (Err (Errorf "pgmigratetest: unexpected query"), p.2)
            end
      end
  end.
(** The methods of the stub's transaction. *)
Definition tx_Commit : M Recorder (option err) := fun c =>
  (None, set_tx None (commit (default [] (rc_tx c)) c)).
Definition tx_Rollback : M Recorder (option err) := fun c => (None, set_tx None c).

#[export] Instance stub_driver : Driver Recorder := {
  drv_Begin := BeginTx; drv_Exec := ExecContext; drv_Query := QueryContext;
  drv_Commit := tx_Commit; drv_Rollback := tx_Rollback }.
End Stub.
End MigrateStub.
