(* ===== verification/MigrateStubLaws.v ===== *)
(** The stub of the migration tests follows the protocol of the runner: driven through
    it, the runner executes the very migrations the catalogue model executes, and a
    replay executes none. *)
From S2P Require Import Prelude GoErr GoStr Db Web Migrate MigrateLaws MigrateStub.
Import MigrateStub.
#[local] Open Scope Z_scope.

(** * Texts that survive trimming *)

Notation chars := String.list_ascii_of_string.
(** A character of no white space, not even as a byte of one. *)
Definition solid (c : Ascii.ascii) : bool := forallb (fun p => forallb (fun d => negb (bool_decide (c = d))) p) white_space.
Definition foreign (c : Ascii.ascii) (ps : list (list Ascii.ascii)) : Prop := Forall (fun p => c ∉ p) ps.
Lemma solid_foreign c : solid c = true -> foreign c white_space /\ foreign c (reverse <$> white_space).
Proof.
  unfold solid. rewrite List.forallb_forall. intros Hs. assert (Hf : foreign c white_space).
  { apply Forall_forall. intros p Hp Hc. apply list_elem_of_In in Hp. specialize (Hs p Hp). rewrite List.forallb_forall in Hs.
    apply list_elem_of_In in Hc. specialize (Hs c Hc). by rewrite bool_decide_true in Hs. }
  split; [done|]. apply Forall_fmap. eapply Forall_impl; [exact Hf|]. intros p Hp. simpl. by rewrite elem_of_reverse.
Qed.
(** Trimming stops at the first foreign character. *)
Lemma strip_before p x c y l : c ∉ p -> strip p (x ++ c :: y) = Some l -> exists x', l = x' ++ c :: y /\ x = p ++ x'.
Proof.
  revert x. induction p as [|d p IH]; intros x Hc; simpl; [intros [= <-]; by exists x|].
  apply not_elem_of_cons in Hc as [Hd Hc]. destruct x as [|e x]; simpl; case_bool_decide as He; simplify_eq; try done.
  intros Hs. destruct (IH x Hc Hs) as (x' & -> & ->). by exists x'.
Qed.
Lemma strip_any_before ps x c y l : foreign c ps -> strip_any ps (x ++ c :: y) = Some l ->
  exists x' p, l = x' ++ c :: y /\ x = p ++ x'.
Proof.
  unfold strip_any. induction 1 as [|p ps Hc _ IH]; [done|]. simpl. destruct (strip p (x ++ c :: y)) as [k|] eqn:E; [|exact IH].
  intros [= <-]. apply strip_before in E as (x' & -> & ->); [|done]. by exists x', p.
Qed.
Lemma trim_before n ps x c y : foreign c ps -> exists x' p, trim_front n ps (x ++ c :: y) = x' ++ c :: y /\ x = p ++ x'.
Proof.
  intros Hc. revert x. induction n as [|n IH]; intros x; simpl; [by exists x, []|].
  destruct (strip_any ps (x ++ c :: y)) as [l|] eqn:E; [|by exists x, []].
  apply strip_any_before in E as (x1 & p & -> & ->); [|done]. destruct (IH x1) as (x' & q & -> & ->).
  exists x', (p ++ q). by rewrite (assoc_L (++)).
Qed.
Lemma trim_space_keeps c l l' d b : c :: l = l' ++ [d] -> solid c = true -> solid d = true ->
  exists b' b'', trim_space ((c :: l) ++ b) = (c :: l) ++ b' /\ b = b' ++ b''.
Proof.
  intros Hl [Hc _]%solid_foreign [_ Hd]%solid_foreign. unfold trim_space.
  assert (Hfront : trim_front (length ((c :: l) ++ b)) white_space ((c :: l) ++ b) = (c :: l) ++ b).
  { destruct (trim_before (length ((c :: l) ++ b)) white_space [] c (l ++ b) Hc) as (x & p & Hx & Hp).
    symmetry in Hp. by apply app_eq_nil in Hp as [_ ->]. }
  rewrite Hfront, Hl. cbv zeta. rewrite reverse_app, reverse_snoc.
  destruct (trim_before (length ((l' ++ [d]) ++ b)) (reverse <$> white_space) (reverse b) d (reverse l') Hd) as (x' & q & -> & Hq).
  exists (reverse x'), (reverse q). split.
  - by rewrite reverse_app, reverse_cons, reverse_involutive.
  - by rewrite <- reverse_app, <- Hq, reverse_involutive.
Qed.

Definition first_solid (s : string) : bool := match chars s with c :: _ => solid c | [] => false end.
Definition last_solid (s : string) : bool := match reverse (chars s) with c :: _ => solid c | [] => false end.
Lemma first_solid_app a b : first_solid a = true -> first_solid (a +++ b) = true.
Proof. unfold first_solid. rewrite list_ascii_append. by destruct (chars a). Qed.
Lemma last_solid_app a b : last_solid b = true -> last_solid (a +++ b) = true.
Proof. unfold last_solid. rewrite list_ascii_append, reverse_app. by destruct (reverse (chars b)). Qed.
(** A text with solid ends is kept when trimmed; what follows it loses only its end. *)
Lemma TrimSpace_keeps a b : first_solid a = true -> last_solid a = true ->
  exists b' b'', TrimSpace (a +++ b) = a +++ b' /\ b = b' +++ b''.
Proof.
  unfold first_solid, last_solid, TrimSpace. rewrite list_ascii_append. destruct (chars a) as [|c l] eqn:Ea; [done|].
  intros Hc Hd. destruct (reverse (c :: l)) as [|d l'] eqn:Er; [done|].
  assert (Hl : c :: l = reverse l' ++ [d]) by (rewrite <- (reverse_involutive (c :: l)), Er; by rewrite reverse_cons).
  destruct (trim_space_keeps c l _ d (chars b) Hl Hc Hd) as (b' & b'' & -> & Hb).
  assert (Hof : forall s, s = String.string_of_list_ascii (chars s)) by (intros s; by rewrite String.string_of_list_ascii_of_string).
  assert (Happ : forall x y, String.string_of_list_ascii (x ++ y) = String.string_of_list_ascii x +++ String.string_of_list_ascii y).
  { induction x as [|e x IH]; intros y; [done|]. simpl. by rewrite IH, append_cons. }
  exists (String.string_of_list_ascii b'), (String.string_of_list_ascii b'').
  rewrite Happ, <- Ea, <- Hof, (Hof b), Hb, Happ. done.
Qed.

(** The names of migrations: letters, digits and underscores. *)
Definition plain (name : string) : bool := negb (bool_decide (name = ""%string)) && forallb ident_char (chars name).
Lemma ident_char_solid c : ident_char c = true -> solid c = true.
Proof. by destruct c as [[] [] [] [] [] [] [] []]. Qed.
Lemma ident_char_nl c : ident_char c = true -> c <> Ascii.ascii_of_nat 10.
Proof. by intros H ->. Qed.
Lemma plain_ends name : plain name = true -> first_solid name = true /\ last_solid name = true.
Proof.
  unfold plain, first_solid, last_solid. intros [Hne%negb_true_iff%bool_decide_eq_false Hi]%andb_true_iff.
  rewrite List.forallb_forall in Hi. split.
  - destruct name as [|c s]; [done|]. apply ident_char_solid, Hi. by left.
  - destruct (reverse (chars name)) as [|d l] eqn:Er.
    + destruct name; [done|]. simpl in Er. rewrite reverse_cons in Er. by apply app_eq_nil in Er as [_ ?].
    + apply ident_char_solid, Hi, list_elem_of_In. rewrite <- elem_of_reverse, Er. by left.
Qed.
Lemma string_split (a b : string) n s : b +++ n = String (Ascii.ascii_of_nat 10) s -> b = ""%string \/ exists b', b = nl +++ b'.
Proof. destruct b as [|c b]; [by left|]. rewrite append_cons. intros [= -> _]. right. by exists b. Qed.
Lemma first_line_plain name b : forallb ident_char (chars name) = true -> b = ""%string \/ (exists b', b = nl +++ b') ->
  first_line (name +++ b) = name.
Proof.
  intros Hi Hb. unfold first_line. induction name as [|c name IH].
  - destruct Hb as [->|[b' ->]]; [done|]. unfold nl. by destruct b'.
  - simpl in Hi. apply andb_true_iff in Hi as [Hc Hi]. specialize (IH Hi). rewrite append_cons. cbn [Index String.prefix nl].
    destruct (Ascii.ascii_dec _ c) as [<-|_]; [by apply ident_char_nl in Hc|].
    destruct (Index (name +++ b) nl) as [i|]; simpl in *; by rewrite IH.
Qed.
Lemma TrimSpace_plain name : plain name = true -> TrimSpace name = name.
Proof.
  intros [Hf Hl]%plain_ends. destruct (TrimSpace_keeps name "" Hf Hl) as (b' & b'' & He & Hb).
  destruct b'; [|done]. by rewrite !append_nil_r in He.
Qed.
Lemma prefix_app p s : HasPrefix (p +++ s) p = true.
Proof. apply prefix_occurs. by exists s. Qed.

(** * The stub, when no statement is made to fail *)

Section Stub.
Context `{MapRange}.
Notation ExecContext := (ExecContext None).
Notation QueryContext := (QueryContext None).
Definition quiet (c : Recorder) : Prop := rc_failOn c = ∅.
Lemma errFor_quiet q c : quiet c -> errFor q c = None.
Proof.
  unfold quiet, errFor. intros ->. assert (Hr : range (∅ : gmap string err) = []).
  { apply Permutation_nil. symmetry. by rewrite range_perm, map_to_list_empty. }
  by rewrite Hr.
Qed.
(** A statement of the runner is recognised by its tag. *)
Lemma prefix_long a b p : (String.length p <= String.length a)%nat -> HasPrefix (a +++ b) p = HasPrefix a p.
Proof.
  unfold HasPrefix. revert p. induction a as [|c a IH]; intros [|d p] Hl; simpl in Hl; try lia; [by destruct b|done|].
  rewrite append_cons. simpl. destruct (Ascii.ascii_dec d c); [apply IH; lia|done].
Qed.
Lemma tagged a b p : first_solid a = true -> last_solid a = true -> (String.length p <=? String.length a)%nat = true ->
  HasPrefix (TrimSpace (a +++ b)) p = HasPrefix a p.
Proof. intros Hf Hl Hp%Nat.leb_le. destruct (TrimSpace_keeps a b Hf Hl) as (b' & b'' & -> & _). by apply prefix_long. Qed.

Lemma exec_plain q args c : quiet c -> HasPrefix (TrimSpace q) StampTag = false -> ExecContext q args c = (None, record q c).
Proof. intros Hq Hs. unfold MigrateStub.ExecContext. cbv zeta. by rewrite errFor_quiet, Hs. Qed.
Lemma exec_stamp tr name c pending : quiet c -> rc_tx c = Some pending ->
  ExecContext (stampSQL tr) [VString name] c = (None, set_tx (Some (pending ++ [name])) (record (stampSQL tr) c)).
Proof.
  intros Hq Ht. unfold MigrateStub.ExecContext. cbv zeta. rewrite errFor_quiet by done. unfold stampSQL.
  rewrite tagged by reflexivity. cbn [HasPrefix]. change (HasPrefix StampTag StampTag) with true. cbn [stringArg].
  change (rc_tx (record _ c)) with (rc_tx c). by rewrite Ht.
Qed.
Lemma query_applied tr name c : quiet c ->
  QueryContext (appliedSQL tr) [VString name] c = (Ok (isApplied name c), record (appliedSQL tr) c).
Proof.
  intros Hq. unfold MigrateStub.QueryContext. cbv zeta. rewrite errFor_quiet by done. unfold appliedSQL.
  rewrite tagged by reflexivity. done.
Qed.
Definition after_probe (p : text_probe) (c : Recorder) : Recorder :=
  mkRecorder (rc_applied c) (rc_appliedOrder c) (rc_probes c) (rc_probedOrder c ++ [pb_name p]) (rc_stmts c ++ [probeSQL p]) (rc_failOn c) (rc_tx c).
Lemma trimmed_probe p : plain (pb_name p) = true ->
  exists b, TrimSpace (probeSQL p) = ProbeTag "" +++ (pb_name p +++ b) /\ (b = ""%string \/ exists b', b = nl +++ b').
Proof.
  intros Hp. destruct (plain_ends _ Hp) as [_ Hl]. unfold probeSQL.
  destruct (TrimSpace_keeps (ProbeTag (pb_name p)) (nl +++ pb_query p)) as (b & b'' & -> & Hb); [done| |].
  { unfold ProbeTag. do 2 apply last_solid_app. done. }
  exists b. split; [done|]. symmetry in Hb. by apply (string_split "" b b'' (pb_query p)).
Qed.
Lemma query_probe p c : quiet c -> plain (pb_name p) = true ->
  QueryContext (probeSQL p) [] c = (Ok (default false (rc_probes c !! pb_name p)), after_probe p c).
Proof.
  intros Hq Hp. unfold MigrateStub.QueryContext. cbv zeta. rewrite errFor_quiet by done.
  destruct (trimmed_probe p Hp) as (b & Ht & Hb). unfold probe, probed_name. rewrite Ht.
  rewrite (prefix_long (ProbeTag "") _ AppliedCheckTag) by (vm_compute; lia).
  change (HasPrefix (ProbeTag "") AppliedCheckTag) with false.
  rewrite prefix_app. cbn [negb]. cbv zeta. unfold TrimPrefix. rewrite prefix_app.
  change (slice_from _ _) with (pb_name p +++ b).
  rewrite first_line_plain, TrimSpace_plain; [done|done| |done]. by apply andb_true_iff in Hp as [_ ?].
Qed.

(** * One migration *)

Definition well_formed (m : TextMigration) : Prop :=
  starts_reserved m = false /\ match tm_AlreadyApplied m with Some p => plain (pb_name p) = true | None => True end.
(** What the stub answers to the probe of [m]; whether its SQL is executed. *)
Definition answers (probes : gmap string bool) (m : TextMigration) : bool :=
  match tm_AlreadyApplied m with Some p => default false (probes !! pb_name p) | None => false end.
Definition executes (probes : gmap string bool) (m : TextMigration) (baselining : bool) : bool :=
  negb (baselining && answers probes m).
(** The reserved tag begins with the stamp tag's own beginning. *)
Lemma not_stamp m : starts_reserved m = false -> HasPrefix (TrimSpace (tm_SQL m)) StampTag = false.
Proof.
  unfold starts_reserved. intros Hr. destruct (HasPrefix _ StampTag) eqn:E; [|done].
  apply prefix_occurs in E as [s Hs]. rewrite Hs in Hr. unfold StampTag in Hr.
  rewrite <- Hr. symmetry. apply prefix_occurs. by exists ("stamp" +++ s).
Qed.
(** Which statements count as migration statements. *)
Lemma migrations_of_app c qs : MigrationStatements (mkRecorder (rc_applied c) (rc_appliedOrder c) (rc_probes c) (rc_probedOrder c)
    (rc_stmts c ++ qs) (rc_failOn c) (rc_tx c)) = MigrationStatements c ++ List.filter (fun s => negb (bookkeeping s)) qs.
Proof. unfold MigrationStatements, Statements. simpl. apply List.filter_app. Qed.
Lemma bookkeeping_tag x y : last_solid x = true -> bookkeeping (StatementTag +++ (x +++ y)) = true.
Proof.
  intros Hx. unfold bookkeeping. rewrite <- append_assoc, tagged; [apply prefix_app|done|by apply last_solid_app|].
  apply Nat.leb_le. rewrite length_append. lia.
Qed.
Lemma bookkeeping_texts tr : bookkeeping sessionTimeoutsSQL = true /\ bookkeeping (stampSQL tr) = true /\
  bookkeeping (appliedSQL tr) = true /\ bookkeeping (bootstrapSQL tr) = true /\
  forall p, plain (pb_name p) = true -> bookkeeping (probeSQL p) = true.
Proof.
  unfold sessionTimeoutsSQL, stampSQL, appliedSQL, bootstrapSQL, probeSQL, StampTag, AppliedCheckTag, ProbeTag.
  split_and!; try (rewrite ?append_assoc; by apply bookkeeping_tag).
  intros p Hp. rewrite append_assoc. apply bookkeeping_tag. apply last_solid_app. by destruct (plain_ends _ Hp).
Qed.

Section Migration.
Context (r : TextRunner).
Definition asked (m : TextMigration) (baselining : bool) : list text_probe :=
  match tm_AlreadyApplied m with Some p => if baselining then [p] else [] | None => [] end.
Definition after_apply (m : TextMigration) (b : bool) (c : Recorder) : Recorder :=
  mkRecorder ({[tm_Name m]} ∪ rc_applied c) (rc_appliedOrder c ++ [tm_Name m]) (rc_probes c)
    (rc_probedOrder c ++ (pb_name <$> asked m b))
    (rc_stmts c ++ [sessionTimeoutsSQL] ++ (probeSQL <$> asked m b) ++
     (if executes (rc_probes c) m b then [tm_SQL m] else []) ++ [stampSQL (tr_Tracker r)])
    (rc_failOn c) None.
Notation text_apply := (text_apply (H := stub_driver None) r).
Notation text_execute := (text_execute (H := stub_driver None) r).
Lemma text_execute_spec m ex c : quiet c -> rc_tx c = Some [] -> starts_reserved m = false -> tm_Name m ∉ rc_applied c ->
  text_execute m ex c = (Ok ex,
    mkRecorder ({[tm_Name m]} ∪ rc_applied c) (rc_appliedOrder c ++ [tm_Name m]) (rc_probes c) (rc_probedOrder c)
      (rc_stmts c ++ (if ex then [tm_SQL m] else []) ++ [stampSQL (tr_Tracker r)]) (rc_failOn c) None).
Proof.
  intros Hq Ht Hr Hn. assert (Hfin : forall e c, quiet c -> rc_tx c = Some [] -> tm_Name m ∉ rc_applied c ->
    finish (H := stub_driver None) r m e c = (Ok e,
      mkRecorder ({[tm_Name m]} ∪ rc_applied c) (rc_appliedOrder c ++ [tm_Name m]) (rc_probes c) (rc_probedOrder c)
        (rc_stmts c ++ [stampSQL (tr_Tracker r)]) (rc_failOn c) None)).
  { clear c Hq Ht Hn. intros e c Hq Ht Hn. unfold finish. erewrite bind_run by (by apply exec_stamp).
    unfold bind. simpl. by rewrite bool_decide_false. }
  unfold MigrateStub.text_execute. destruct ex; [|by apply Hfin].
  erewrite bind_run by (apply exec_plain; [done|by apply not_stamp]). cbv beta iota. rewrite Hfin by done. simpl. by rewrite <- (assoc_L app).
Qed.
Lemma text_apply_spec m b c : quiet c -> well_formed m -> tm_Name m ∉ rc_applied c ->
  text_apply m b c = (Ok (executes (rc_probes c) m b), after_apply m b c).
Proof.
  intros Hq [Hr Hp] Hn. unfold MigrateStub.text_apply, after_apply, asked, executes, answers.
  erewrite bind_run by reflexivity. cbv beta iota. erewrite bind_run by (by apply exec_plain). cbv beta iota.
  destruct (tm_AlreadyApplied m) as [p|]; [destruct b|].
  - erewrite bind_run by (by apply query_probe). cbv beta iota. cbn [rc_probes record set_tx andb]. rewrite text_execute_spec by done.
    simpl. by rewrite <- !(assoc_L app).
  - rewrite text_execute_spec by done. simpl. by rewrite <- !(assoc_L app), app_nil_r.
  - rewrite text_execute_spec by done. rewrite andb_false_r. simpl. by rewrite <- !(assoc_L app), app_nil_r.
Qed.
End Migration.

(** * The whole runner *)

(** The same migrations over a schema that is the list of the bodies executed; its
    probes answer what the stub is told to. *)
Definition catalogue_of (probes : gmap string bool) (m : TextMigration) : Migration (list string) :=
  mkMigration (tm_Name m) "" (fun done_ => Ok (done_ ++ [tm_SQL m]))
    ((fun p _ => default false (probes !! pb_name p)) <$> tm_AlreadyApplied m).
Definition runner_of (probes : gmap string bool) (r : TextRunner) : Runner (list string) :=
  mkRunner (tr_Tracker r) (catalogue_of probes <$> tr_Migrations r).

Section Runner.
Context (r : TextRunner).
Notation text_migrations := (text_migrations (H := stub_driver None) r).
Notation text_Run := (text_Run (H := stub_driver None) r).
Lemma catalogue_step probes m b done_ tabs names : tabs !! tr_Tracker r = Some names ->
  apply_migration (runner_of probes r) (catalogue_of probes m) b (mkDb (mkMigTab done_ tabs) []) =
  (Ok (executes probes m b), mkDb (mkMigTab (done_ ++ if executes probes m b then [tm_SQL m] else [])
                                   (<[tr_Tracker r := {[tm_Name m]} ∪ names]> tabs)) []).
Proof.
  intros Ht. assert (He : probe_result (catalogue_of probes m) b (mkMigTab done_ tabs) = executes probes m b).
  { unfold probe_result, executes, answers, catalogue_of. simpl. by destruct (tm_AlreadyApplied m), b. }
  rewrite <- He. apply calm_apply. rewrite He. unfold apply_effect, run_body, stamp. simpl.
  destruct (executes probes m b); simpl; by rewrite Ht, ?app_nil_r.
Qed.

(** What the two runs share after the same migrations. *)
Record in_step (c c' : Recorder) (t t' : mig_tab (list string)) (ms : list TextMigration) : Prop := {
  st_quiet : quiet c' /\ rc_probes c' = rc_probes c;
  st_tracker : mt_trackers t' !! tr_Tracker r = Some (rc_applied c');
  st_applied : rc_applied c' = rc_applied c ∪ list_to_set (tm_Name <$> ms);
  st_executed : exists new, mt_schema t' = mt_schema t ++ new /\ MigrationStatements c' = MigrationStatements c ++ new;
  st_fresh : rc_probes c = ∅ -> NoDup (tm_Name <$> ms) -> (forall n, n ∈ tm_Name <$> ms -> n ∉ rc_applied c) ->
    mt_schema t' = mt_schema t ++ (tm_SQL <$> ms) /\ Applied c' = Applied c ++ (tm_Name <$> ms) }.
Lemma filter_kept tr l : List.filter (fun s => negb (bookkeeping s)) (appliedSQL tr :: l) = List.filter (fun s => negb (bookkeeping s)) l.
Proof. cbn [List.filter]. by rewrite (proj1 (proj2 (proj2 (bookkeeping_texts tr)))). Qed.
Lemma filter_one s : bookkeeping s = true -> List.filter (fun s => negb (bookkeeping s)) [s] = [].
Proof. intros Hs. cbn [List.filter]. by rewrite Hs. Qed.
Lemma checked_statements c : MigrationStatements (record (appliedSQL (tr_Tracker r)) c) = MigrationStatements c.
Proof. unfold MigrationStatements, Statements. cbn [rc_stmts record]. by rewrite List.filter_app, filter_kept, app_nil_r. Qed.
Lemma applied_statements m b c : well_formed m ->
  MigrationStatements (after_apply r m b c) = MigrationStatements c ++ if executes (rc_probes c) m b then [tm_SQL m] else [].
Proof.
  intros [Hr Hp]. unfold after_apply. change (starts_reserved m) with (bookkeeping (tm_SQL m)) in Hr.
  unfold MigrationStatements, Statements. cbn [rc_stmts]. rewrite !List.filter_app. f_equal.
  destruct (bookkeeping_texts (tr_Tracker r)) as (H1 & H2 & _ & _ & H5). rewrite (filter_one _ H1), (filter_one _ H2), app_nil_r.
  assert (Ha : List.filter (fun s => negb (bookkeeping s)) (probeSQL <$> asked m b) = []).
  { unfold asked. destruct (tm_AlreadyApplied m) as [p|]; [|done]. destruct b; [|done]. by apply filter_one, H5. }
  rewrite Ha. destruct (executes _ _ _); [|done]. cbn [List.filter]. by rewrite Hr.
Qed.
Lemma in_step_skip m c c' t t' ms : tm_Name m ∈ rc_applied c ->
  in_step (record (appliedSQL (tr_Tracker r)) c) c' t t' ms -> in_step c c' t t' (m :: ms).
Proof.
  intros Hin [Hq Ht Ha He _]. rewrite checked_statements in He. cbn [rc_applied record] in *. split; try done.
  - rewrite Ha. set_solver.
  - intros _ _ Hf. by destruct (Hf (tm_Name m) ltac:(left)).
Qed.
Lemma in_step_apply m b c c' done_ tabs t' ms : well_formed m -> tm_Name m ∉ rc_applied c ->
  let c1 := record (appliedSQL (tr_Tracker r)) c in
  in_step (after_apply r m b c1) c' (mkMigTab (done_ ++ if executes (rc_probes c) m b then [tm_SQL m] else []) tabs) t' ms ->
  forall tabs0, in_step c c' (mkMigTab done_ tabs0) t' (m :: ms).
Proof.
  intros Hw Hn c1 [Hq Ht Ha (new & Hs & Hm) Hf] tabs0. rewrite applied_statements in Hm by done. unfold c1 in *.
  rewrite checked_statements in Hm. cbn [mt_schema] in *. cbn [rc_applied rc_probes rc_appliedOrder after_apply record] in *.
  split; try done.
  - rewrite Ha. set_solver.
  - exists ((if executes (rc_probes c) m b then [tm_SQL m] else []) ++ new). by rewrite Hs, Hm, !(assoc_L (++)).
  - intros Hp Hnd Hfresh. apply NoDup_cons in Hnd as [Hx Hnd]. destruct (Hf Hp Hnd) as [Hsch Hord].
    + intros n Hin [->%elem_of_singleton|Hn']%elem_of_union; [done|]. by apply (Hfresh n); [right|].
    + assert (He : executes (rc_probes c) m b = true).
      { unfold executes, answers. rewrite Hp. destruct (tm_AlreadyApplied m); by rewrite ?lookup_empty, andb_false_r. }
      rewrite He in Hsch. unfold Applied in *. cbn [rc_appliedOrder after_apply record] in Hord.
      split; [by rewrite Hsch, <- (assoc_L (++))|by rewrite Hord, <- (assoc_L (++))].
Qed.
Lemma text_migrations_spec ms b c t : quiet c -> Forall well_formed ms ->
  mt_trackers t !! tr_Tracker r = Some (rc_applied c) ->
  exists c' t', text_migrations ms b c = (None, c') /\
    run_migrations (runner_of (rc_probes c) r) (catalogue_of (rc_probes c) <$> ms) b (mkDb t []) = (None, mkDb t' []) /\
    in_step c c' t t' ms.
Proof.
  revert b c t. induction ms as [|m ms IH]; intros b c t Hq Hw Ht.
  { exists c, t. split; [done|]. split; [done|]. split; try done; [set_solver|by exists []; rewrite !app_nil_r|by rewrite !app_nil_r]. }
  apply Forall_cons in Hw as [Hm Hw]. destruct t as [done_ tabs]. simpl in Ht.
  cbn [MigrateStub.text_migrations]. unfold text_applied. erewrite bind_run by (by apply query_applied).
  cbn [fmap list_fmap run_migrations]. erewrite (bind_run (applied _ _)) by
    (unfold applied, statement, bind, next, tracker_has; simpl; by rewrite Ht).
  unfold isApplied. destruct (decide (tm_Name m ∈ rc_applied c)) as [Hin|Hin].
  - rewrite !bool_decide_true by done. destruct (IH b (record (appliedSQL (tr_Tracker r)) c) (mkMigTab done_ tabs)) as (c' & t' & H1 & H2 & H3); [done..|].
    exists c', t'. split; [done|]. split; [done|]. by apply in_step_skip.
  - rewrite !bool_decide_false by done. erewrite bind_run by (by apply text_apply_spec).
    erewrite bind_run by (by apply catalogue_step).
    destruct (IH (if executes (rc_probes c) m b then false else b) (after_apply r m b (record (appliedSQL (tr_Tracker r)) c))
      (mkMigTab (done_ ++ if executes (rc_probes c) m b then [tm_SQL m] else [])
         (<[tr_Tracker r := {[tm_Name m]} ∪ rc_applied c]> tabs))) as (c' & t' & H1 & H2 & H3); [done|done|apply lookup_insert_eq|].
    exists c', t'. split; [exact H1|]. split; [exact H2|]. by eapply in_step_apply.
Qed.
(** Nothing is left to do: one check per migration. *)
Lemma text_migrations_replay ms b c : quiet c -> (forall m, m ∈ ms -> tm_Name m ∈ rc_applied c) ->
  text_migrations ms b c = (None, mkRecorder (rc_applied c) (rc_appliedOrder c) (rc_probes c) (rc_probedOrder c)
    (rc_stmts c ++ ((fun _ => appliedSQL (tr_Tracker r)) <$> ms)) (rc_failOn c) (rc_tx c)).
Proof.
  revert c. induction ms as [|m ms IH]; intros c Hq Ha; cbn [MigrateStub.text_migrations].
  - unfold ret. simpl. rewrite app_nil_r. by destruct c.
  - unfold text_applied. erewrite bind_run by (by apply query_applied). unfold isApplied.
    rewrite bool_decide_true by (apply Ha; left). rewrite IH; [|done|intros m' Hm; apply Ha; by right].
    simpl. by rewrite <- (assoc_L (++)).
Qed.
End Runner.

Lemma bootstrapped r c : quiet c -> safeTrackerName (tr_Tracker r) = true -> existsb starts_reserved (tr_Migrations r) = false ->
  text_Run (H := stub_driver None) r c =
  text_migrations (H := stub_driver None) r (tr_Migrations r) true (record (bootstrapSQL (tr_Tracker r)) c).
Proof.
  intros Hq Hs Hr. unfold text_Run. rewrite Hs, Hr. cbn [negb].
  erewrite bind_run by (apply exec_plain; [done|unfold bootstrapSQL; rewrite <- append_assoc, tagged; reflexivity]). done.
Qed.
Lemma bootstrap_statements tr c : MigrationStatements (record (bootstrapSQL tr) c) = MigrationStatements c.
Proof.
  unfold MigrationStatements, Statements. cbn [rc_stmts record]. rewrite List.filter_app, filter_one, app_nil_r; [done|].
  by destruct (bookkeeping_texts tr) as (_ & _ & _ & Hb & _).
Qed.
Lemma checks_only tr (ms : list TextMigration) :
  List.filter (fun s => negb (bookkeeping s)) ((fun _ => appliedSQL tr) <$> ms) = [].
Proof. induction ms as [|m ms IH]; [done|]. cbn [fmap list_fmap]. rewrite filter_kept. exact IH. Qed.
Lemma catalogue_Run probes r t names : safeTrackerName (tr_Tracker r) = true -> mt_trackers t !! tr_Tracker r = Some names ->
  Run (runner_of probes r) (mkDb t []) = run_migrations (runner_of probes r) (catalogue_of probes <$> tr_Migrations r) true (mkDb t []).
Proof.
  intros Hs Ht. unfold Run. cbn [rn_Tracker rn_Migrations runner_of]. rewrite Hs. cbn [negb].
  assert (Hr : existsb reserved_tag (catalogue_of probes <$> tr_Migrations r) = false) by (by induction (tr_Migrations r)).
  rewrite Hr. unfold exec, statement, bind, next. cbn [db_script db_tab fst snd ev_fate calm]. unfold create_tracker.
  destruct t as [s tabs]. cbn [mt_trackers mt_schema rn_Tracker runner_of] in *. rewrite Ht. cbn [default from_option]. by rewrite insert_id.
Qed.

(** The stub is faithful to the runner it tests. Driven over it, with no failure
    injected, a runner finishes and executes exactly the bodies, in order, that the
    catalogue model of the runner executes when its probes answer the same, and the
    same names end up recorded; without registered probes and over an empty tracker
    these are all the migrations in their order. A second run over what the first one
    left issues no migration statement: the tracker is bootstrapped and every name
    checked, nothing else. *)
Theorem stub_matches_catalogue r c : let Run_stub := text_Run (H := stub_driver None) r in
  quiet c -> safeTrackerName (tr_Tracker r) = true -> Forall well_formed (tr_Migrations r) ->
  let '(e, c1) := Run_stub c in
  let '(e', d) := Run (runner_of (rc_probes c) r) (mkDb (mkMigTab [] {[tr_Tracker r := rc_applied c]}) []) in
  let '(e2, c2) := Run_stub (Reset c1) in
  e = None /\ e' = None /\ e2 = None /\
  MigrationStatements c1 = MigrationStatements c ++ mt_schema (db_tab d) /\
  mt_trackers (db_tab d) !! tr_Tracker r = Some (rc_applied c1) /\
  rc_applied c1 = rc_applied c ∪ list_to_set (text_Names r) /\
  (rc_probes c = ∅ -> rc_applied c = ∅ -> NoDup (text_Names r) ->
     mt_schema (db_tab d) = tm_SQL <$> tr_Migrations r /\ Applied c1 = Applied c ++ text_Names r) /\
  MigrationStatements c2 = [] /\ rc_applied c2 = rc_applied c1 /\ Applied c2 = Applied c1 /\
  Statements c2 = bootstrapSQL (tr_Tracker r) :: ((fun _ => appliedSQL (tr_Tracker r)) <$> text_Names r).
Proof.
  intros Run_stub Hq Hs Hw. assert (Hres : existsb starts_reserved (tr_Migrations r) = false).
  { apply not_true_iff_false. intros (m & Hin & Hr)%List.existsb_exists. apply list_elem_of_In in Hin.
    rewrite Forall_forall in Hw. destruct (Hw m Hin) as [Hm _]. congruence. }
  unfold Run_stub. rewrite bootstrapped by done. set (c0 := record _ c).
  set (t0 := mkMigTab [] _). assert (Ht0 : mt_trackers t0 !! tr_Tracker r = Some (rc_applied c)) by apply lookup_singleton_eq.
  destruct (text_migrations_spec r (tr_Migrations r) true c0 t0 Hq Hw Ht0) as (c1 & t1 & -> & Hrun & [[Hq1 _] Htr Ha (new & Hsch & Hm) Hf]).
  change (rc_probes c0) with (rc_probes c) in Hrun. rewrite (catalogue_Run _ _ _ _ Hs Ht0), Hrun. cbv beta iota. rewrite bootstrapped by done.
  rewrite text_migrations_replay; [|done|intros m Hin; cbn; rewrite Ha; apply elem_of_union_r, elem_of_list_to_set, list_elem_of_fmap; by exists m].
  unfold c0 in *. rewrite bootstrap_statements in Hm. cbn [mt_schema t0 app] in Hsch. cbv beta iota zeta. cbn [db_tab]. rewrite Hsch.
  split_and!; try done.
  - intros Hp Hap Hnd. rewrite <- Hsch. apply Hf; [done|done|]. intros n _. cbn. rewrite Hap. set_solver.
  - unfold MigrationStatements, Statements. cbn [rc_stmts record Reset app]. destruct (bookkeeping_texts (tr_Tracker r)) as (_ & _ & _ & Hb & _).
    cbn [List.filter]. rewrite Hb. apply checks_only.
  - cbn [Statements rc_stmts record Reset app]. unfold text_Names. by rewrite <- list_fmap_compose.
Qed.
End Stub.

(** * A concrete replay *)

Definition two_migrations : TextRunner := mkTextRunner "ingest_schema_migrations" [
  mkTextMigration "0001_jobs" "CREATE TABLE ingest_jobs (id TEXT)" (Some (mkProbe "0001_jobs" (nl +++ "SELECT to_regclass('ingest_jobs') IS NOT NULL")));
  mkTextMigration "0002_job_item_payload" "ALTER TABLE ingest_jobs ADD COLUMN payload TEXT" None].
(** A database that has the tables of the first migration but no tracker. *)
Definition legacy : Recorder := SetProbe "0001_jobs" true New.
Lemma two_migrations_formed : Forall well_formed (tr_Migrations two_migrations).
Proof. repeat constructor; vm_compute; reflexivity. Qed.
Lemma stub_matches_catalogue_witness :
  let '(e, c1) := text_Run (H := stub_driver (H := map_to_list_range) None) two_migrations legacy in
  e = None /\ MigrationStatements c1 = ["ALTER TABLE ingest_jobs ADD COLUMN payload TEXT"%string] /\
  Applied c1 = text_Names two_migrations /\ Probed c1 = ["0001_jobs"%string].
Proof.
  pose proof (stub_matches_catalogue (H := map_to_list_range) two_migrations legacy eq_refl eq_refl two_migrations_formed) as Hs.
  destruct (text_Run two_migrations legacy) as [e c1] eqn:E. assert (He : e = None).
  { revert Hs. clear E. destruct (Run _ _) as [e' d]. destruct (text_Run _ _) as [e2 c2]. intros [He _]. exact He. }
  split; [exact He|].
  assert (Hc : (text_Run (H := stub_driver (H := map_to_list_range) None) two_migrations legacy).2 = c1) by by rewrite E.
  rewrite <- Hc. split_and!; vm_compute; reflexivity.
Defined.
