(* ===== verification/Router.v ===== *)
(** The router ([internal/httpapi/router.go]): the route table, the middleware
    around it, the admission limiters of the bulk routes and the probes.

    The matching of a path to a pattern is chi's and a parameter; so are the JSON
    decoders.  [app] is the state of the memory, ingest and code-graph services. *)
From S2P Require Import Prelude GoErr GoStr JobStore Pool Db Enqueue Lightrag EdgeId Translate Tombstone Service LightragHttp HttpApi Admission CodeGraph CodeService CodeHttp Web.
From stdpp Require Import pretty.
#[local] Open Scope go_scope.
#[local] Open Scope Z_scope.

Record RouterConfig := mkRouterConfig {
  rc_MemoriesBulk : AdmissionConfig; rc_CodeGraphBulk : AdmissionConfig;
  rc_hasIngest : bool; rc_hasCodeGraph : bool }.
Definition classMemoriesBulk : string := "memories_bulk".
Definition classCodeGraphBulk : string := "code_graph_bulk".

(** [json.Decoder] with unknown fields refused, within the body limit. *)
Class Decoders := {
  decode_Memory : string -> option Memory; decode_Query : string -> option Query;
  decode_Entity : string -> option Entity; decode_Edge : string -> option Edge;
  unmarshal_items : string -> option (list IngestItem);
  decode_Bulk : string -> option BulkMemoriesRequest;
  decode_Push : string -> option GraphPush;
  decode_Misses : string -> option (string * list FileSHA) }.
Definition limited_body {X} (max : Z) (decode : string -> option X) (body : string) : option X :=
  if bool_decide (max < Z.of_nat (String.length body)) then None else decode body.

Section Router.
Context {A I C : Type} `{MemoryService A} `{IngestService I} `{CodeGraphService C} `{Decoders}.
Context (shown : err -> string) (ParseFloat : string -> option float64).
Abbreviation app := ((A * I) * C)%type.
Abbreviation W := (web app).
Abbreviation Handler := (Web.Handler (A := app)).

(** * Endpoints *)

Definition on_memories {X} (m : M (A * I) X) : M app X := fun a => let q := m a.1 in (q.1, (q.2, a.2)).
Definition on_code {X} (m : M C X) : M app X := fun a => let q := m a.2 in (q.1, (a.1, q.2)).
(** What a handler's answer writes. *)
Definition send_response (r : request) (rs : response) : M W unit :=
  match rs_retry_after rs with Some s => w_Set "Retry-After" (itoa s) | None => ret tt end ;;
  match rs_body rs with
  | PError msg => send_error (rs_status rs) msg (rq_id r)
  | PNone => w_WriteHeader (rs_status rs)
  | p => send_json (rs_status rs) (Doc p)
  end.
Definition endpoint (h : request -> M (A * I) response) : Handler := fun r =>
  rs <- on_app (on_memories (h r)) ;; send_response r rs ;; ret Returned.
Definition code_endpoint (h : request -> M C code_answer) : Handler := fun r =>
  a <- on_app (on_code (h r)) ;;
  match a with
  | Failed rs => send_response r rs
  | Answered p => send_json 200 (CodeDoc p)
  end ;; ret Returned.
Definition urlParam (key : string) (r : request) : string := default ""%string (rq_urlParams r !! key).
Definition small {X} (decode : string -> option X) (r : request) : option X :=
  limited_body maxSmallBody decode (rq_Body r).

(** * Admission of one request, in the middle of the others *)

Section Limited.
Context (class : string) (cfg : AdmissionConfig).
Definition slots_of (l : limits) : Z := default 0 (li_slots l !! class).
Definition add_slots (d : Z) (l : limits) : limits :=
  mkLimits (<[class := slots_of l + d]> (li_slots l)) (li_shedSeq l).
Definition next_queue_end : M W queue_end :=
  d <- gets (@wb_draws app) ;;
  match dw_queue d with
  | [] => ret TimedOut
  | q :: rest => upd_draws (fun d => mkDraws (dw_rand d) (dw_counter d) rest) ;; ret q
  end.
Definition shed (r : request) : M W unit :=
  l <- gets (@wb_limits app) ;;
  let p := retryAfterSeconds cfg (default 0 (li_shedSeq l !! class)) in
  upd_limits (fun l => mkLimits (li_slots l) (<[class := p.2]> (li_shedSeq l))) ;;
  w_Set "Retry-After" (itoa p.1) ;; upd_log (LogShed class p.1) ;;
  send_error 429 "too many concurrent bulk requests, retry after backoff" (rq_id r).
(** The slot is taken, or the answer is written. *)
Definition acquire (r : request) : M W bool :=
  l <- gets (@wb_limits app) ;;
  if bool_decide (slots_of l < MaxInFlight cfg) then upd_limits (add_slots 1) ;; ret true
  else q <- next_queue_end ;;
       match q with
       | SlotFreed => ret true            (* another's slot, taken over *)
       | TimedOut => shed r ;; ret false
       | ClientGone => send_error 499 "client closed request" (rq_id r) ;; ret false
       end.
Definition Limiter_Middleware (next : Handler) : Handler :=
  if bool_decide (MaxInFlight cfg <= 0) then next
  else fun r =>
    admitted <- acquire r ;;
    if (admitted : bool) then o <- next r ;; upd_limits (add_slots (-1)) ;; ret o else ret Returned.
End Limited.

(** * The route table *)

Record route := mkRoute { ro_method : string; ro_pattern : string; ro_handler : Handler }.
Definition get (p : string) (h : Handler) : route := mkRoute "GET" p h.
Definition post (p : string) (h : Handler) : route := mkRoute "POST" p h.
Definition code_get (p : string) (h : gmap string string -> M C code_answer) : route :=
  get p (code_endpoint (fun r => h (rq_Query r))).

Definition mountV1 (cfg : RouterConfig) : list route :=
  [ post "/memories" (endpoint (fun r => handlePostMemory shown (small decode_Memory r)));
    get "/memories/{id}" (endpoint (fun r => handleGetMemory shown (urlParam "id" r)));
    mkRoute "DELETE" "/memories/{id}" (endpoint (fun r => handleDeleteMemory shown (urlParam "id" r))) ] ++
  (if rc_hasIngest cfg then
     [ post "/memories:bulk" (Limiter_Middleware classMemoriesBulk (rc_MemoriesBulk cfg)
         (endpoint (fun r => handleBulkIngest shown unmarshal_items decode_Bulk (rq_Body r))));
       get "/ingest-jobs/{id}" (endpoint (fun r => handleGetJob shown (urlParam "id" r))) ] else []) ++
  [ post "/queries" (endpoint (fun r => handlePostQuery shown (small decode_Query r)));
    post "/queries:data" (endpoint (fun r => handlePostQueryData shown (small decode_Query r)));
    post "/queries:describe" (endpoint (fun r => handlePostQueryDescribe shown (small decode_Query r)));
    get "/entities" (endpoint (fun r => handleSearchEntities shown (Get "q" (rq_Query r))));
    get "/entities/{id}" (endpoint (fun r => handleGetEntity shown (urlParam "id" r)));
    mkRoute "PATCH" "/entities/{id}" (endpoint (fun r => handlePatchEntity shown (urlParam "id" r) (small decode_Entity r)));
    get "/edges" (endpoint (fun _ => handleListEdges shown));
    post "/edges" (endpoint (fun r => handleCreateEdge shown (small decode_Edge r)));
    mkRoute "DELETE" "/edges/{id}" (endpoint (fun r => handleDeleteEdge shown (urlParam "id" r))) ] ++
  (if rc_hasCodeGraph cfg then
     [ post "/code-graph:bulk" (Limiter_Middleware classCodeGraphBulk (rc_CodeGraphBulk cfg)
         (code_endpoint (fun r => handlePostCodeGraph shown (limited_body maxBulkBody decode_Push (rq_Body r)))));
       code_get "/code/entities" (handleSearchCodeEntities shown);
       code_get "/code/entity" (handleGetCodeEntity shown);
       code_get "/code/neighbors" (handleNeighbors shown ParseFloat);
       code_get "/code/callers" (handleCallers shown ParseFloat);
       code_get "/code/callees" (handleCallees shown ParseFloat);
       code_get "/code/dependents" (handleDependents shown ParseFloat);
       code_get "/code/dependencies" (handleDependencies shown ParseFloat);
       code_get "/code/resource-graph" (handleResourceGraph shown ParseFloat);
       code_get "/code/file-imports" (handleFileImports shown);
       code_get "/code/cross-repo" (handleCrossRepo shown);
       code_get "/code-graph/path" (handleShortestPath shown);
       code_get "/code-graph/important" (handleImportantEntities shown);
       code_get "/code-graph/stats" (handleStats shown);
       code_get "/code-graph/ambiguous" (handleAmbiguousEdges shown);
       code_get "/code-graph/explain" (handleEntityExplain shown);
       code_get "/code-graph/related" (handleRelated shown ParseFloat);
       code_get "/code-graph/hyperedges" (handleHyperedges shown);
       code_get "/code-graph/hyperedge" (handleHyperedge shown);
       post "/code-graph/semantic-misses" (code_endpoint (fun r =>
         handleSemanticMisses shown (limited_body 4194304 decode_Misses (rq_Body r))));
       code_get "/code-graph/communities" (handleCommunities shown);
       code_get "/code-graph/community" (handleCommunity shown);
       code_get "/code-graph/bridges" (handleBridges shown) ] else []).

(** * NewRouter *)

(** [ReadyCheck], and [promhttp]'s answer. *)
Context (ReadyCheck : option (M app (option err))) (scrape : gauges -> string).
Definition healthz : Handler := fun _ => w_WriteHeader 200 ;; ret Returned.
Definition readyz : Handler := fun r =>
  e <- match ReadyCheck with Some c => on_app c | None => ret None end ;;
  match e with
  | Some _ => upd_log (LogNotReady (rq_id r)) ;; send_error 503 "not ready" (rq_id r) ;; ret Returned
  | None => w_WriteHeader 200 ;; ret Returned
  end.
Definition metrics_route : Handler := fun _ =>
  g <- gets (@wb_gauges app) ;; w_Write (Text (scrape g)) ;; ret Returned.
(** [cfg.Verify], if any, around the API routes alone. *)
Definition all_routes (cfg : RouterConfig) (verify : option (Handler -> Handler)) : list route :=
  [ get "/healthz" healthz; get "/readyz" readyz; mkRoute "*" "/metrics" metrics_route ] ++
  ((fun ro => mkRoute (ro_method ro) (ro_pattern ro)
                match verify with Some v => v (ro_handler ro) | None => ro_handler ro end) <$> mountV1 cfg).

(** chi's matching: the index of the route and the URL parameters; and its answer
    to a request no route matches. *)
Context (chi_match : list (string * string) -> string -> string -> option (nat * gmap string string))
  (unmatched : Handler).
Definition located (rs : list route) (r : request) : option (route * request) :=
  '(i, params) ← chi_match ((fun ro => (ro_method ro, ro_pattern ro)) <$> rs) (rq_Method r) (rq_Path r);
  ro ← rs !! i;
  Some (ro, mkRequest (rq_Method r) (rq_Path r) (rq_Header r) (rq_Query r) (rq_Body r) (ro_pattern ro) params
              (rq_id r) (rq_claims r)).
(** The route context is a shared pointer: the middleware reads the pattern the
    match found. *)
Definition ServeHTTP (cfg : RouterConfig) (verify : option (Handler -> Handler)) : Handler := fun r =>
  match located (all_routes cfg verify) r with
  | Some (ro, r) => middlewares (ro_handler ro) r
  | None => middlewares unmatched r
  end.
End Router.
Arguments route : clear implicits.
