(* ===== verification/RouterLaws.v ===== *)
(** What the middleware and the router promise for every handler: one answer per
    request, recovery from a panic, accounting, safe request IDs, and no API call
    without a verified token. *)
From S2P Require Import Prelude GoErr JobStore Pool Db Enqueue Lightrag EdgeId Translate Tombstone Service LightragHttp HttpApi Admission CodeGraph CodeService CodeHttp CodeHttpLaws Web Router.
#[local] Open Scope Z_scope.

(** * What a handler may do to its response *)

Section Writes.
Context {A : Type}.
Abbreviation W := (web A).

Definition plain_line (l : log_line) : Prop :=
  match l with LogRequest _ _ _ _ _ | LogPanic _ => False | _ => True end.
(** One action of a handler: on the writer, or on what is not the response. *)
Inductive write : W -> W -> Prop :=
| wr_set key value w : key <> "X-Request-Id"%string -> write w (w_Set key value w).2
| wr_header code w : write w (w_WriteHeader code w).2
| wr_body b w : write w (w_Write b w).2
| wr_app a w : write w (mkWeb (wb_conn w) (wb_recs w) a (wb_log w) (wb_gauges w) (wb_draws w) (wb_limits w))
| wr_log l w : plain_line l -> write w (upd_log l w).2
| wr_login r w : write w (attempt r w).2
| wr_draws d w : write w (upd_draws (fun _ => d) w).2
| wr_limits l w : write w (upd_limits (fun _ => l) w).2.
Definition writes : W -> W -> Prop := rtc write.
Definition honest (h : Handler (A := A)) : Prop := forall r w, writes w (h r w).2.

(** The recorder of a connection, and [n] of them above it. *)
Definition recorder_of (c : conn) : statusRecorder :=
  match cn_sent c with None => mkRecorder 200 false | Some s => mkRecorder s.1 true end.
Definition layered (n : nat) (w : W) : Prop := wb_recs w = replicate n (recorder_of (wb_conn w)).

Lemma WriteHeader_layers code n c :
  WriteHeader code (replicate n (recorder_of c)) c =
    (replicate n (recorder_of (conn_WriteHeader code c)), conn_WriteHeader code c).
Proof.
  destruct (cn_sent c) as [s|] eqn:E.
  - assert (Hc : conn_WriteHeader code c = c) by (unfold conn_WriteHeader; by rewrite E). rewrite Hc.
    destruct n; cbn [replicate WriteHeader]; [by rewrite Hc|]. unfold recorder_of. by rewrite E.
  - assert (Hs : cn_sent (conn_WriteHeader code c) = Some (code, cn_header c)) by (unfold conn_WriteHeader; by rewrite E).
    unfold recorder_of. rewrite E, Hs. induction n as [|n IH]; [done|]. simpl. by rewrite IH.
Qed.
Lemma conn_WriteHeader_again code code' c : conn_WriteHeader code (conn_WriteHeader code' c) = conn_WriteHeader code' c.
Proof. unfold conn_WriteHeader. destruct (cn_sent c) eqn:E; [by rewrite E|done]. Qed.
Lemma Write_layers b n c :
  Write b (replicate n (recorder_of c)) c = (replicate n (recorder_of (conn_Write b c)), conn_Write b c).
Proof.
  unfold Write. rewrite length_replicate. revert c. induction n as [|n IH]; intros c; [done|].
  assert (Hh : conn_Write b (conn_WriteHeader 200 c) = conn_Write b c)
    by (unfold conn_Write; by rewrite conn_WriteHeader_again).
  assert (Hq : (if sr_wroteHeader (recorder_of c) then (replicate (S n) (recorder_of c), c)
                else WriteHeader 200 (replicate (S n) (recorder_of c)) c) =
               (replicate (S n) (recorder_of (conn_WriteHeader 200 c)), conn_WriteHeader 200 c)).
  { rewrite WriteHeader_layers. destruct (cn_sent c) as [s|] eqn:Ec.
    - assert (Hc : conn_WriteHeader 200 c = c) by (unfold conn_WriteHeader; by rewrite Ec). rewrite Hc.
      by destruct (sr_wroteHeader _).
    - unfold recorder_of at 1. by rewrite Ec. }
  change (replicate (S n) (recorder_of c)) with (recorder_of c :: replicate n (recorder_of c)) in *.
  cbn [Write_through]. rewrite Hq. cbn [fst snd replicate]. rewrite IH, Hh. cbn [fst snd].
  by unfold conn_Write.
Qed.
(** The writer's actions below [n] recorders, as actions on the connection. *)
Definition on_conn (n : nat) (f : conn -> conn) (w : W) : W :=
  mkWeb (f (wb_conn w)) (replicate n (recorder_of (f (wb_conn w)))) (wb_app w) (wb_log w) (wb_gauges w) (wb_draws w) (wb_limits w).
Definition conn_Set (key value : string) (c : conn) : conn := mkConn (<[key := value]> (cn_header c)) (cn_sent c) (cn_body c).
Lemma w_Set_run n key value w : layered n w -> w_Set key value w = (tt, on_conn n (conn_Set key value) w).
Proof. unfold layered, w_Set, upd_conn, modify, on_conn. by intros ->. Qed.
Lemma w_WriteHeader_run n code w : layered n w -> w_WriteHeader code w = (tt, on_conn n (conn_WriteHeader code) w).
Proof. unfold layered, w_WriteHeader, upd_conn, modify, on_conn. intros ->. by rewrite WriteHeader_layers. Qed.
Lemma w_Write_run n b w : layered n w -> w_Write b w = (tt, on_conn n (conn_Write b) w).
Proof. unfold layered, w_Write, upd_conn, modify, on_conn. intros ->. by rewrite Write_layers. Qed.
Lemma layered_on_conn n f w : layered n (on_conn n f w).
Proof. done. Qed.
Lemma http_Error_run n text code w : layered n w ->
  http_Error text code w = (tt, on_conn n (fun c => conn_Write (Text text) (conn_WriteHeader code
    (conn_Set "X-Content-Type-Options" "nosniff" (conn_Set "Content-Type" "text/plain; charset=utf-8" c)))) w).
Proof.
  intros Hl. unfold http_Error.
  rewrite (bind_run _ _ _ _ _ (w_Set_run n _ _ w Hl)), (bind_run _ _ _ _ _ (w_Set_run n _ _ _ (layered_on_conn _ _ _))).
  rewrite (bind_run _ _ _ _ _ (w_WriteHeader_run n _ _ (layered_on_conn _ _ _))).
  by rewrite (w_Write_run n _ _ (layered_on_conn _ _ _)).
Qed.
(** What one action keeps, below [n] recorders. *)
Record kept (n : nat) (w w' : W) : Prop := {
  kp_layers : layered n w';
  kp_id : cn_header (wb_conn w') !! "X-Request-Id"%string = cn_header (wb_conn w) !! "X-Request-Id"%string;
  kp_requests : ga_requests (wb_gauges w') = ga_requests (wb_gauges w);
  kp_inFlight : ga_inFlight (wb_gauges w') = ga_inFlight (wb_gauges w);
  kp_panics : ga_panics (wb_gauges w') = ga_panics (wb_gauges w);
  kp_log : exists l, wb_log w' = wb_log w ++ l /\ Forall plain_line l }.
Lemma conn_WriteHeader_header code c : cn_header (conn_WriteHeader code c) = cn_header c.
Proof. unfold conn_WriteHeader. by destruct (cn_sent c). Qed.
Lemma write_kept n w w' : layered n w -> write w w' -> kept n w w'.
Proof.
  intros Hn Hw. assert (Hl : exists l, wb_log w = wb_log w ++ l /\ Forall plain_line l) by (exists []; by rewrite app_nil_r).
  destruct Hw; split; try done; unfold layered in *; simpl; rewrite ?Hn, ?WriteHeader_layers, ?Write_layers; cbn [fst snd]; try done.
  - by rewrite lookup_insert_ne.
  - by rewrite conn_WriteHeader_header.
  - unfold conn_Write. simpl. by rewrite conn_WriteHeader_header.
  - exists [l]. by split; [|constructor].
Qed.
Lemma writes_kept n w w' : layered n w -> writes w w' -> kept n w w'.
Proof.
  intros Hn Hw. induction Hw as [w|w w1 w2 Hw Hws IH].
  - split; try done. exists []. by rewrite app_nil_r.
  - destruct (write_kept n w w1 Hn Hw) as [Hn1 ? ? ? ? (l1 & ? & ?)].
    destruct (IH Hn1) as [? ? ? ? ? (l2 & ? & ?)]. split; try congruence.
    exists (l1 ++ l2). split; [rewrite app_assoc; congruence|by apply Forall_app].
Qed.
End Writes.

(** * Accounting *)

Section Accounting.
Context {A : Type}.
Abbreviation W := (web A).

(** A connection nothing was sent on yet, at the bottom of the stack. *)
Definition starting (w : W) : Prop := wb_conn w = fresh_conn /\ wb_recs w = [].
Definition sent_status (w : W) : Z := default 200 (fst <$> cn_sent (wb_conn w)).
(** Request [r], served under [id] from [w] by a handler that ended with [o] in [w2]. *)
Record accounted (w : W) (r : request) (id : string) (o : outcome) (w2 w' : W) : Prop := {
  ac_clean : wb_recs w' = [] /\ wb_app w' = wb_app w2 /\ wb_limits w' = wb_limits w2 /\
    ga_logins (wb_gauges w') = ga_logins (wb_gauges w2);
  ac_answer : match o with
    | Returned => wb_conn w' = wb_conn w2
    | Panicked => match cn_sent (wb_conn w2) with
                  | Some _ => wb_conn w' = wb_conn w2
                  | None => fst <$> cn_sent (wb_conn w') = Some 500 /\
                            cn_body (wb_conn w') = cn_body (wb_conn w2) ++ [Envelope "internal error" id] end end;
  ac_id : cn_header (wb_conn w') !! "X-Request-Id"%string = Some id;
  ac_log : exists lines, Forall plain_line lines /\ wb_log w' = wb_log w ++ lines ++ [match o with
    | Returned => LogRequest id (routeLabel r) (rq_Path r) (rq_Method r) (sent_status w2)
    | Panicked => LogPanic id end];
  ac_requests : ga_requests (wb_gauges w') = match o with
    | Returned => ga_requests (count_request (routeLabel r) (rq_Method r) (StatusText (sent_status w2)) (wb_gauges w))
    | Panicked => ga_requests (wb_gauges w) end;
  ac_inFlight : ga_inFlight (wb_gauges w') = ga_inFlight (wb_gauges w);
  ac_panics : ga_panics (wb_gauges w') = ga_panics (wb_gauges w) + match o with Returned => 0 | Panicked => 1 end }.

(** The state in which the handler is called. *)
Record entered (w : W) (id : string) (w1 : W) : Prop := {
  en_app : wb_app w1 = wb_app w /\ wb_limits w1 = wb_limits w /\ wb_log w1 = wb_log w;
  en_conn : wb_conn w1 = mkConn (<["X-Request-Id" := id]> (cn_header (wb_conn w))) (cn_sent (wb_conn w)) (cn_body (wb_conn w));
  en_gauges : wb_gauges w1 = in_flight 1 (wb_gauges w) \/ wb_gauges w1 = wb_gauges w }.
Definition issued (r : request) (w : W) (id : string) : Prop :=
  let h := header_of "X-Request-Id" r in
  if requestIDRe h && bool_decide (Z.of_nat (String.length h) <= 64) then id = h else id = (generateRequestID w).1.
Lemma generateRequestID_run (w : W) : exists d, generateRequestID w = ((generateRequestID w).1, (upd_draws (fun _ => d) w).2).
Proof. unfold generateRequestID, bind, gets. simpl. destruct (dw_rand (wb_draws w)) as [|[b|] rest]; by eexists. Qed.
Lemma RequestID_run (next : Handler) r w : exists id w1,
  RequestID next r w = next (with_id id r) w1 /\ issued r w id /\ entered w id w1 /\ wb_recs w1 = wb_recs w /\
  wb_gauges w1 = wb_gauges w.
Proof.
  unfold RequestID, issued. set (h := header_of _ _).
  assert (Hc : bool_decide (h = ""%string) || bool_decide (64 < Z.of_nat (String.length h)) || negb (requestIDRe h) =
               negb (requestIDRe h && bool_decide (Z.of_nat (String.length h) <= 64))).
  { unfold requestIDRe. repeat case_bool_decide; try lia; destruct (forallb _ _); done. }
  rewrite Hc. destruct (requestIDRe h && _); cbn [negb].
  - eexists h, _. split; [reflexivity|]. split; [done|]. by repeat split; simpl; auto.
  - destruct (generateRequestID_run w) as [d Hd]. eexists _, _. split; [unfold bind at 1; rewrite Hd; reflexivity|].
    split; [done|]. by repeat split; simpl; auto.
Qed.

(** The middleware, given what the handler below does. *)
Definition enter (w : W) : W := (push_recorder w).2.
Definition top (w : W) : statusRecorder := (pop_recorder w).1.
Definition pop (w : W) : W := (pop_recorder w).2.
Definition regauge (f : gauges -> gauges) (w : W) : W := (upd_gauges f w).2.
Definition relog (l : log_line) (w : W) : W := (upd_log l w).2.
Lemma Metrics_run (h : Handler) r w o w2 : h r (enter (regauge (in_flight 1) w)) = (o, w2) ->
  Metrics_Middleware h r w = (o, regauge (in_flight (-1)) (match o with
    | Returned => regauge (count_request (routeLabel r) (rq_Method r) (StatusText (sr_status (top w2)))) (pop w2)
    | Panicked => pop w2 end)).
Proof.
  intros Hh. unfold Metrics_Middleware.
  rewrite (bind_run (upd_gauges (in_flight 1)) _ w tt (regauge (in_flight 1) w) eq_refl),
    (bind_run push_recorder _ _ tt _ eq_refl), (bind_run _ _ _ _ _ Hh).
  rewrite (bind_run pop_recorder _ w2 (top w2) (pop w2) eq_refl). by destruct o.
Qed.
Lemma AccessLog_run (h : Handler) r w o w2 : h r (enter w) = (o, w2) ->
  AccessLog h r w = (o, match o with
    | Returned => relog (LogRequest (rq_id r) (routeLabel r) (rq_Path r) (rq_Method r) (sr_status (top w2))) (pop w2)
    | Panicked => pop w2 end).
Proof.
  intros Hh. unfold AccessLog.
  rewrite (bind_run push_recorder _ w tt (enter w) eq_refl), (bind_run _ _ _ _ _ Hh), (bind_run pop_recorder _ w2 (top w2) (pop w2) eq_refl).
  by destruct o.
Qed.
Definition one_panic (g : gauges) : gauges := mkGauges (ga_requests g) (ga_inFlight g) (ga_panics g + 1) (ga_logins g).
Lemma Recover_run (h : Handler) r w o w2 : h r (enter w) = (o, w2) ->
  RecoverWithLogger h r w = (Returned, pop match o with
    | Returned => w2
    | Panicked => let w3 := regauge one_panic (relog (LogPanic (rq_id r)) w2) in
        if match wb_recs w3 with sr :: _ => sr_wroteHeader sr | [] => false end then w3
        else (send_error 500 "internal error" (rq_id r) w3).2 end).
Proof.
  intros Hh. unfold RecoverWithLogger.
  rewrite (bind_run push_recorder _ w tt (enter w) eq_refl), (bind_run _ _ _ _ _ Hh). destruct o; [done|].
  unfold bind. simpl. by destruct (match wb_recs w2 with [] => false | sr :: _ => sr_wroteHeader sr end).
Qed.

Lemma middlewares_accounted (h : Handler) (r : request) (w : W) : honest h -> starting w ->
  exists id w0 oh w2 w', issued r w id /\ entered w id w0 /\ layered 3 w0 /\ h (with_id id r) w0 = (oh, w2) /\
    middlewares h r w = (Returned, w') /\ accounted w r id oh w2 w'.
Proof.
  intros Hh [Hc Hr].
  destruct (RequestID_run (RecoverWithLogger (AccessLog (Metrics_Middleware h))) r w) as (id & w1 & Hrun & Hi & He & Hr1 & Hg1).
  set (w0 := enter (regauge (in_flight 1) (enter (enter w1)))). destruct (h (with_id id r) w0) as [oh w2] eqn:Eh.
  assert (He0 : entered w id w0) by (destruct He; split; simpl; rewrite ?Hg1; auto).
  assert (Hl0 : layered 3 w0) by (unfold layered, recorder_of; rewrite (en_conn _ _ _ He0), Hc; simpl; by rewrite Hr1, Hr).
  assert (Hw : kept 3 w0 w2)
    by (apply writes_kept; [done|specialize (Hh (with_id id r) w0); by rewrite Eh in Hh]).
  pose proof (Recover_run _ _ _ _ _ (AccessLog_run _ _ _ _ _ (Metrics_run _ _ _ _ _ Eh))) as Hm. rewrite <- Hrun in Hm.
  eexists id, w0, oh, w2, _. split; [done|]. split; [done|]. split; [done|]. split; [done|]. split; [exact Hm|].
  clear Hrun Hm Hh Eh Hl0. destruct Hw as [Hl Hid Hq Hf Hp (lines & Hlog & Hlines)].
  destruct He0 as [(_ & _ & Hlog0) Hc0 _]. rewrite Hc0 in Hid. cbn [cn_header] in Hid. rewrite lookup_insert_eq in Hid. clear Hc0.
  destruct w2 as [c2 rs2 a2 l2 g2 d2 li2]. unfold layered in Hl. cbn [wb_recs wb_conn wb_log wb_gauges] in *. subst rs2 l2.
  rewrite Hlog0 in *. subst w0. simpl in Hq, Hf, Hp. rewrite Hg1 in *.
  unfold recorder_of. destruct oh, (cn_sent c2) as [[st hd]|] eqn:Es.
  all: split; simpl; rewrite ?Es; simpl; rewrite ?Hq, ?Hf, ?Hp; simpl; unfold sent_status; simpl; rewrite ?Es; simpl; try lia; try done.
  all: first [by rewrite lookup_insert_ne | exists lines; by rewrite <- app_assoc].
Qed.

(** C22: whatever a handler does (write nothing, once or several times, change the
    application, panic before or after writing), a request ends in one answer under
    one request ID: what the handler sent, or the 500 envelope when it panicked with
    nothing sent; a request that returned is logged and counted once with the status
    the client saw; one that panicked leaves a panic line and count, and appears
    neither in the access log nor in the request counter; the in-flight gauge comes
    back to where it was. *)
Theorem request_accounted (h : Handler) (r : request) (w : W) : honest h -> starting w ->
  exists id w0 oh w2 w', issued r w id /\ entered w id w0 /\ layered 3 w0 /\ h (with_id id r) w0 = (oh, w2) /\
    middlewares h r w = (Returned, w') /\ accounted w r id oh w2 w'.
Proof. apply middlewares_accounted. Qed.
End Accounting.

(** * Request IDs *)

Definition safe_id (s : string) : Prop :=
  s <> ""%string /\ Z.of_nat (String.length s) <= 64 /\ Forall (fun c => safe_char c = true) (String.list_ascii_of_string s).
Definition is_byte (b : Z) : Prop := 0 <= b < 256.
Lemma safe_hex_digit n : 0 <= n < 16 -> safe_char (hex_digit n) = true.
Proof.
  intros Hn. assert (Hx : forallb (fun n => safe_char (hex_digit n)) (seqZ 0 16) = true) by by vm_compute.
  rewrite forallb_forall in Hx. apply Hx. apply list_elem_of_In, elem_of_seqZ. lia.
Qed.
Lemma hex_encode_safe l : Forall is_byte l ->
  Forall (fun c => safe_char c = true) (String.list_ascii_of_string (hex_encode l)) /\
  String.length (hex_encode l) = (2 * length l)%nat.
Proof.
  induction 1 as [|b l Hb _ [IH1 IH2]]; [done|]. unfold is_byte in Hb.
  cbn [hex_encode String.list_ascii_of_string String.length length]. split; [|lia].
  constructor; [|constructor; [|done]]; apply safe_hex_digit.
  - split; [apply Z.div_pos; lia|]. apply Z.div_lt_upper_bound; lia.
  - apply Z.mod_pos_bound. lia.
Qed.
Lemma safe_hex l : Forall is_byte l -> length l = 8%nat -> safe_id (hex_encode l).
Proof.
  intros Hb Hl. destruct (hex_encode_safe l Hb) as [Hs Hn]. rewrite Hl in Hn. split; [|split; [rewrite Hn; lia|done]].
  intros E. by rewrite E in Hn.
Qed.
Lemma requestIDRe_safe s : requestIDRe s && bool_decide (Z.of_nat (String.length s) <= 64) = true <-> safe_id s.
Proof.
  unfold requestIDRe, safe_id. rewrite !andb_true_iff, negb_true_iff, bool_decide_eq_true, bool_decide_eq_false, forallb_forall.
  rewrite Forall_forall. setoid_rewrite list_elem_of_In. tauto.
Qed.

(** C40: every request carries an ID of 1 to 64 characters from [A-Za-z0-9._-],
    in the context of the handler as in the response header: the client's own when
    it is one, and otherwise 16 hexadecimal digits from 8 random bytes or, when the
    random source fails, from a counter.  So no header a client sends can break a log
    line or a response header. *)
Theorem request_id_safe {A} (next : Handler (A := A)) r (w : web A) :
  Forall (fun b => match b with Some b => length b = 8%nat /\ Forall is_byte b | None => True end) (dw_rand (wb_draws w)) ->
  exists id w1, RequestID next r w = next (with_id id r) w1 /\ safe_id id /\
    cn_header (wb_conn w1) !! "X-Request-Id"%string = Some id /\
    (safe_id (header_of "X-Request-Id" r) -> id = header_of "X-Request-Id" r).
Proof.
  intros Hd. destruct (RequestID_run next r w) as (id & w1 & -> & Hi & He & _). exists id, w1. split; [done|].
  unfold issued in Hi. rewrite (en_conn _ _ _ He). cbn [cn_header]. rewrite lookup_insert_eq, <- (requestIDRe_safe (header_of _ r)).
  destruct (requestIDRe (header_of _ r) && _) eqn:E; subst id.
  - split; [by apply requestIDRe_safe|by split].
  - split; [|by split]. unfold generateRequestID, bind, gets. cbn [fst snd].
    assert (Hc : forall n, safe_id (hex16 n)).
    { intros n. apply safe_hex; [|done]. apply Forall_fmap, Forall_true. intros i. apply Z.mod_pos_bound. lia. }
    destruct (dw_rand (wb_draws w)) as [|[b|] rest]; try apply Hc. apply Forall_cons in Hd as [[Hl Hb] _]. by apply safe_hex.
Qed.

(** * The handlers of the program are honest *)

Section Quiet.
Context {A : Type}.
Abbreviation W := (web A).
Definition quiet {X} (m : M W X) : Prop := forall w, writes w (m w).2.
Lemma quiet_bind {X Y} (m : M W X) (k : X -> M W Y) : quiet m -> (forall x, quiet (k x)) -> quiet (bind m k).
Proof. intros Hm Hk w. unfold bind. etrans; [apply Hm|apply Hk]. Qed.
Lemma quiet_ret {X} (x : X) : quiet (ret x).
Proof. intros w. reflexivity. Qed.
Lemma quiet_gets {X} (f : W -> X) : quiet (gets f).
Proof. intros w. reflexivity. Qed.
Lemma quiet_Set key value : key <> "X-Request-Id"%string -> quiet (w_Set key value).
Proof. intros Hk w. by apply rtc_once, wr_set. Qed.
Lemma quiet_WriteHeader code : quiet (w_WriteHeader code).
Proof. intros w. apply rtc_once, wr_header. Qed.
Lemma quiet_Write b : quiet (w_Write b).
Proof. intros w. apply rtc_once, wr_body. Qed.
Lemma quiet_app {X} (m : M A X) : quiet (on_app m).
Proof. intros w. apply rtc_once. unfold on_app. destruct (m (wb_app w)). apply wr_app. Qed.
Lemma quiet_log l : plain_line l -> quiet (upd_log l).
Proof. intros Hl w. by apply rtc_once, wr_log. Qed.
Lemma quiet_attempt t : quiet (attempt t).
Proof. intros w. apply rtc_once, wr_login. Qed.
Lemma quiet_draws f : quiet (upd_draws f).
Proof. intros w. apply rtc_once, (wr_draws (f (wb_draws w))). Qed.
Lemma quiet_limits f : quiet (upd_limits f).
Proof. intros w. apply rtc_once, (wr_limits (f (wb_limits w))). Qed.
End Quiet.
(** Walks through a handler's actions. *)
Ltac quietly :=
  repeat first
    [ apply quiet_bind; [|intros ?] | apply quiet_ret | apply quiet_gets | apply quiet_Set; discriminate
    | apply quiet_WriteHeader | apply quiet_Write | apply quiet_app | apply quiet_log; exact I
    | apply quiet_attempt | apply quiet_draws | apply quiet_limits | eassumption
    | match goal with
      | |- quiet (if ?b then _ else _) => destruct b
      | |- quiet (match ?x with _ => _ end) => destruct x
      end ].

Section Honest.
Context {A : Type} (oidc_verify : string -> option IDToken) (token_claims : IDToken -> option Claims).
Lemma honest_middleware (next : Handler (A := A)) : honest next -> honest (middleware oidc_verify token_claims next).
Proof.
  intros Hn r. change (quiet (middleware oidc_verify token_claims next r)). unfold middleware, reject, http_Error.
  assert (Hq : forall r, quiet (next r)) by exact Hn. quietly. apply Hq.
Qed.
End Honest.

Section Routes.
Context {A I C : Type} `{MemoryService A} `{IngestService I} `{CodeGraphService C} `{Decoders}.
Context (shown : err -> string) (ParseFloat : string -> option float64).
Abbreviation app := ((A * I) * C)%type.
Abbreviation W := (web app).
Lemma honest_endpoint h : honest (A := app) (endpoint h).
Proof. intros r. change (quiet (A := app) (endpoint h r)). unfold endpoint. quietly. Qed.
Lemma honest_code_endpoint h : honest (A := app) (code_endpoint h).
Proof.
  intros r. change (quiet (A := app) (code_endpoint h r)). unfold code_endpoint, send_json. quietly.
Qed.
Lemma honest_limiter class cfg (next : Handler (A := app)) : honest next -> honest (Limiter_Middleware class cfg next).
Proof.
  intros Hn. unfold Limiter_Middleware. destruct (bool_decide _); [done|]. intros r.
  assert (Hq : quiet (next r)) by exact (Hn r).
  match goal with |- forall w, writes w (?m w).2 => change (quiet m) end.
  unfold acquire, next_queue_end, shed, send_error. quietly.
Qed.
#[local] Hint Resolve honest_endpoint honest_code_endpoint honest_limiter : go.
Lemma honest_v1 cfg : Forall (fun ro => honest (ro_handler ro)) (mountV1 shown ParseFloat cfg).
Proof.
  unfold mountV1. rewrite !Forall_app. split_and!; try destruct (rc_hasIngest cfg); try destruct (rc_hasCodeGraph cfg);
    repeat constructor; cbn [ro_handler get post code_get]; auto with go.
Qed.
End Routes.

(** * One answer per request *)

Definition statuses : list Z := [200; 201; 202; 204; 400; 401; 404; 429; 499; 500; 502; 503].
Lemma in_statuses c : existsb (fun s => s =? c) statuses = true -> c ∈ statuses.
Proof. intros (s & Hs & ->%Z.eqb_eq)%existsb_exists. by apply list_elem_of_In. Qed.

Section Answers.
Context {A : Type}.
Abbreviation W := (web A).
Definition blank (n : nat) (w : W) : Prop :=
  layered n w /\ cn_sent (wb_conn w) = None /\ cn_body (wb_conn w) = [].
(** A status of the program and at most one document were sent. *)
Definition answered (w : W) : Prop :=
  exists code hd, cn_sent (wb_conn w) = Some (code, hd) /\ code ∈ statuses /\ (length (cn_body (wb_conn w)) <= 1)%nat.
Definition keeps_blank {X} (m : M W X) : Prop := forall n w, blank n w -> blank n (m w).2.
Definition answers {X} (m : M W X) : Prop := forall n w, blank n w -> answered (m w).2.
Definition finishes (m : M W outcome) : Prop := forall n w, blank n w -> (m w).1 = Returned /\ answered (m w).2.

Lemma blank_set key value : keeps_blank (w_Set key value).
Proof. intros n w (Hl & Hs & Hb). split; [|done]. unfold layered, recorder_of in *. simpl. by rewrite Hl, Hs. Qed.
Lemma blank_log l : keeps_blank (upd_log l).
Proof. by intros n w. Qed.
Lemma blank_gauges f : keeps_blank (upd_gauges f).
Proof. by intros n w. Qed.
Lemma blank_limits f : keeps_blank (upd_limits f).
Proof. by intros n w. Qed.
Lemma blank_draws f : keeps_blank (upd_draws f).
Proof. by intros n w. Qed.
Lemma blank_app {X} (m : M A X) : keeps_blank (on_app m).
Proof. intros n w. unfold on_app. by destruct (m (wb_app w)). Qed.
Lemma blank_gets {X} (f : W -> X) : keeps_blank (gets f).
Proof. by intros n w. Qed.
Lemma blank_ret {X} (x : X) : keeps_blank (ret x).
Proof. by intros n w. Qed.
Lemma blank_bind {X Y} (m : M W X) (k : X -> M W Y) : keeps_blank m -> (forall x, keeps_blank (k x)) -> keeps_blank (bind m k).
Proof. intros Hm Hk n w Hw. unfold bind. eapply Hk, Hm, Hw. Qed.
Lemma answers_bind {X Y} (m : M W X) (k : X -> M W Y) : keeps_blank m -> (forall x, answers (k x)) -> answers (bind m k).
Proof. intros Hm Hk n w Hw. unfold bind. eapply Hk, Hm, Hw. Qed.
Lemma finishes_bind {X} (m : M W X) (k : X -> M W outcome) : keeps_blank m -> (forall x, finishes (k x)) -> finishes (bind m k).
Proof. intros Hm Hk n w Hw. unfold bind. eapply Hk, Hm, Hw. Qed.
Lemma finishes_answer {X} (m : M W X) : answers m -> finishes (m ;; ret Returned).
Proof. intros Hm n w Hw. split; [done|]. unfold bind. by eapply Hm. Qed.
Lemma answers_status code : code ∈ statuses -> answers (w_WriteHeader code).
Proof.
  intros Hc n w (Hl & Hs & Hb). unfold layered in Hl. unfold w_WriteHeader, upd_conn, modify. simpl.
  rewrite Hl, WriteHeader_layers. unfold conn_WriteHeader. rewrite Hs. simpl. eexists code, _. split; [done|]. simpl. rewrite Hb. split; [done|simpl; lia].
Qed.
Lemma answers_text b : answers (w_Write b).
Proof.
  intros n w (Hl & Hs & Hb). unfold layered in Hl. unfold w_Write, upd_conn, modify. simpl.
  rewrite Hl, Write_layers. unfold conn_Write, conn_WriteHeader. rewrite Hs. simpl. eexists 200, _. split; [done|].
  simpl. rewrite Hb. split; [by apply in_statuses|simpl; lia].
Qed.
Lemma answers_document code b : code ∈ statuses -> answers (w_WriteHeader code ;; w_Write b).
Proof.
  intros Hc n w (Hl & Hs & Hb). unfold layered in Hl. unfold w_WriteHeader, w_Write, upd_conn, modify, bind. simpl.
  rewrite Hl, WriteHeader_layers. cbn [fst snd wb_recs wb_conn]. rewrite Write_layers.
  unfold conn_Write, conn_WriteHeader. rewrite Hs. simpl. eexists code, _. split; [done|]. simpl. rewrite Hb. split; [done|simpl; lia].
Qed.
Lemma answers_json code b : code ∈ statuses -> answers (send_json code b).
Proof. intros Hc. apply answers_bind; [apply blank_set|]. intros _. by apply answers_document. Qed.
Lemma answers_error code msg id : code ∈ statuses -> answers (send_error code msg id).
Proof. apply answers_json. Qed.
Lemma answers_http_Error text code : code ∈ statuses -> answers (http_Error text code).
Proof.
  intros Hc. apply answers_bind; [apply blank_set|]. intros _. apply answers_bind; [apply blank_set|]. intros _.
  by apply answers_document.
Qed.
End Answers.

Section Statuses.
Context {A I C : Type} `{MemoryService A} `{IngestService I} `{CodeGraphService C} `{Decoders}.
Context (shown : err -> string) (ParseFloat : string -> option float64).

(** The memory and ingest handlers answer one of the statuses. *)
Definition fair (h : M (A * I) response) : Prop := forall a, rs_status (h a).1 ∈ statuses.
Lemma fair_error e : rs_status (mapServiceError shown e) ∈ statuses.
Proof.
  destruct (mapServiceError_status shown e) as [Hs _]. apply in_statuses, existsb_exists. exists (rs_status (mapServiceError shown e)).
  split; [|apply Z.eqb_refl]. apply list_elem_of_In. revert Hs. rewrite !elem_of_cons. unfold statuses. rewrite !elem_of_cons. tauto.
Qed.
Lemma fair_ret rs : rs_status rs ∈ statuses -> fair (ret rs).
Proof. by intros Hr a. Qed.
Lemma fair_answer {X} (m : M (A * I) (result err X)) k : (forall x, rs_status (k x) ∈ statuses) -> fair (answer shown m k).
Proof. intros Hk a. unfold answer, bind. simpl. destruct (m a).1; [apply Hk|apply fair_error]. Qed.
Lemma fair_decode {X} (body : option X) (k : X -> M (A * I) response) : (forall x, fair (k x)) -> fair (decodeStrict body k).
Proof. intros Hk a. destruct body; [apply Hk|by apply in_statuses]. Qed.
Lemma fair_query body k : (forall q, fair (k q)) -> fair (validQuery body k).
Proof.
  intros Hk. apply fair_decode. intros q. repeat case_match; try apply Hk; apply fair_ret; by apply in_statuses.
Qed.
Lemma fair_insert items : fair (bulk_insert shown items).
Proof. destruct items; [by apply fair_ret, in_statuses|]. apply fair_answer. intros. by apply in_statuses. Qed.
Lemma fair_bulk body : fair (handleBulkIngest shown unmarshal_items decode_Bulk body).
Proof.
  unfold handleBulkIngest. destruct (readAllLimited body ≫= _) as [req|]; [|by apply fair_ret, in_statuses].
  assert (Hp : forall repo, fair (p <- on_memory (ms_DeleteMemoriesBySources repo (bk_ReconcileFiles req)) ;;
     match p.2 with Some e => ret (mapServiceError shown e) | None => bulk_insert shown (bk_Items req) end)).
  { intros repo a. unfold bind. destruct (on_memory _ a) as [[n [e|]] a']; [apply fair_error|apply fair_insert]. }
  destruct (bk_ReconcileFiles req); [destruct (bk_Items req); [by apply fair_ret, in_statuses|apply fair_insert]|].
  destruct (bk_Items req); (case_bool_decide; [by apply fair_ret, in_statuses|apply Hp]).
Qed.

(** So do the code-graph handlers. *)
Definition fair_code (h : M C code_answer) : Prop := forall a, answer_status (h a).1 ∈ statuses.
Lemma fair_guarded h : guarded h fair_code -> fair_code h.
Proof. intros [Hh|[msg ->]]; [done|]. intros a. by apply in_statuses. Qed.
Lemma fair_respond {X} (m : M C (result err X)) k : fair_code (respond shown m k).
Proof. intros a. rewrite respond_run. simpl. destruct (m a).1; [by apply in_statuses|apply fair_error]. Qed.
End Statuses.

(** A code-graph handler, check by check. *)
Ltac fairly := apply fair_guarded; cbv zeta; through_guards; left; apply fair_respond.

Section OneAnswer.
Context {A I C : Type} `{MemoryService A} `{IngestService I} `{CodeGraphService C} `{Decoders}.
Context (shown : err -> string) (ParseFloat : string -> option float64).
Abbreviation app := ((A * I) * C)%type.
Abbreviation W := (web app).
Lemma finishes_app {X} (m : M app X) (k : X -> M W outcome) :
  (forall a, finishes (k (m a).1)) -> finishes (bind (on_app m) k).
Proof. intros Hk n w Hw. apply (Hk (wb_app w) n). apply (blank_app m n w Hw). Qed.
Lemma answers_response r rs : rs_status rs ∈ statuses -> answers (A := app) (send_response r rs).
Proof.
  intros Hs. apply answers_bind; [destruct (rs_retry_after rs); [apply blank_set|apply blank_ret]|]. intros _.
  destruct (rs_body rs); try by apply answers_json. by apply answers_status.
Qed.
Definition finishing (h : Handler (A := app)) : Prop := forall r, finishes (h r).
Lemma finishing_endpoint h : (forall r, fair (h r)) -> finishing (endpoint h).
Proof. intros Hf r. apply finishes_app. intros a. apply finishes_answer, answers_response, (Hf r a.1). Qed.
Lemma finishing_code h : (forall r, fair_code (h r)) -> finishing (code_endpoint h).
Proof.
  intros Hf r. apply finishes_app. intros a. apply finishes_answer. specialize (Hf r a.2). simpl.
  destruct (h r a.2).1 as [rs|p]; [by apply answers_response|]. apply answers_json. by apply in_statuses.
Qed.
Lemma finishing_middleware verify claims (h : Handler (A := app)) : finishing h -> finishing (middleware verify claims h).
Proof.
  intros Hh r. unfold middleware. cbv zeta.
  assert (Hr : forall reason text, finishes (reject (A := app) reason text)).
  { intros reason text. unfold reject. apply finishes_bind; [apply blank_gauges|]. intros _.
    apply finishes_bind; [apply blank_log|]. intros _. apply finishes_bind; [apply blank_set|]. intros _.
    apply finishes_answer, answers_http_Error. by apply in_statuses. }
  case_bool_decide; [apply Hr|]. destruct (Verify _ _ _); [|apply Hr].
  apply finishes_bind; [apply blank_gauges|]. intros _. apply finishes_bind; [apply blank_log|]. intros _. apply Hh.
Qed.
(** Taking a slot leaves a blank answer, or has answered. *)
Definition admits (m : M W bool) : Prop := forall n w, blank n w ->
  ((m w).1 = true /\ blank n (m w).2) \/ ((m w).1 = false /\ answered (m w).2).
Lemma admits_bind {X} (m : M W X) (k : X -> M W bool) : keeps_blank m -> (forall x, admits (k x)) -> admits (bind m k).
Proof. intros Hm Hk n w Hw. unfold bind. eapply Hk, Hm, Hw. Qed.
Lemma admits_refuse (m : M W unit) : answers m -> admits (m ;; ret false).
Proof. intros Hm n w Hw. right. split; [done|]. unfold bind. by eapply Hm. Qed.
Lemma answers_shed class cfg r : answers (shed (A := A) (I := I) (C := C) class cfg r).
Proof.
  apply answers_bind; [apply blank_gets|]. intros l. cbv zeta. apply answers_bind; [apply blank_limits|]. intros _.
  apply answers_bind; [apply blank_set|]. intros _. apply answers_bind; [apply blank_log|]. intros _.
  by apply answers_error, in_statuses.
Qed.
Lemma admits_acquire class cfg r : admits (acquire class cfg r).
Proof.
  apply admits_bind; [apply blank_gets|]. intros l. destruct (bool_decide _).
  - apply admits_bind; [apply blank_limits|]. by left.
  - apply admits_bind.
    + apply blank_bind; [apply blank_gets|]. intros d. destruct (dw_queue d); [apply blank_ret|].
      apply blank_bind; [apply blank_draws|]. intros _. apply blank_ret.
    + intros [| |]; [by left|apply admits_refuse, answers_shed|]. by apply admits_refuse, answers_error, in_statuses.
Qed.
Lemma finishing_limiter class cfg (h : Handler (A := app)) : finishing h -> finishing (Limiter_Middleware class cfg h).
Proof.
  intros Hh. unfold Limiter_Middleware. destruct (bool_decide _); [done|]. intros r n w Hw.
  pose proof (admits_acquire class cfg r n w Hw) as Ha. destruct (acquire class cfg r w) as [b w'] eqn:E.
  rewrite (bind_run _ _ _ _ _ E). cbn [fst snd] in Ha. destruct Ha as [[-> Ha]|[-> Ha]]; [|done].
  unfold bind. destruct (Hh r n w' Ha) as [Ho Hans]. by split.
Qed.

(** Each handler of the route table. *)
Ltac fair_memory :=
  unfold handlePostMemory, handleGetMemory, handleDeleteMemory, handleGetJob, handlePostQuery, handlePostQueryData,
    handlePostQueryDescribe, handleSearchEntities, handleGetEntity, handlePatchEntity, handleListEdges,
    handleCreateEdge, handleDeleteEdge;
  repeat first [ apply fair_bulk | apply fair_query; intros ? | apply fair_decode; intros ?
               | match goal with |- fair (if ?b then _ else _) => destruct b end
               | apply fair_answer; intros ?; by apply in_statuses | apply fair_ret; by apply in_statuses ].
Ltac fair_graph :=
  unfold handlePostCodeGraph, handleSearchCodeEntities, handleGetCodeEntity, handleNeighbors, handleCallers, handleCallees,
    handleDependents, handleDependencies, handleResourceGraph, handleWalk, handleFileImports, handleCrossRepo,
    handleShortestPath, handleImportantEntities, handleStats, handleAmbiguousEdges, handleEntityExplain, handleRelated,
    handleHyperedges, handleHyperedge, handleSemanticMisses, handleCommunities, handleCommunity, handleBridges,
    depthParam, limitParam;
  fairly.
Lemma finishing_v1 cfg : Forall (fun ro => finishing (ro_handler ro)) (mountV1 shown ParseFloat cfg).
Proof.
  unfold mountV1. rewrite !Forall_app. split_and!;
    try match goal with |- context [if ?b cfg then _ else _] => destruct (b cfg) end;
    repeat (apply Forall_cons; split); try apply Forall_nil; try exact Logic.I; cbn [ro_handler get post code_get];
    try apply finishing_limiter; try (apply finishing_endpoint; intros r; fair_memory);
    try (apply finishing_code; intros r; fair_graph).
Qed.
End OneAnswer.

(** * The router *)

Section Router.
Context {A I C : Type} `{MemoryService A} `{IngestService I} `{CodeGraphService C} `{Decoders}.
Context (shown : err -> string) (ParseFloat : string -> option float64).
Abbreviation app := ((A * I) * C)%type.
Abbreviation W := (web app).
Context (ReadyCheck : option (M app (option err))) (scrape : gauges -> string).
Context (chi_match : list (string * string) -> string -> string -> option (nat * gmap string string))
  (unmatched : Handler (A := app)).
Context (oidc_verify : string -> option IDToken) (token_claims : IDToken -> option Claims).
Definition bearer : Handler (A := app) -> Handler (A := app) := middleware oidc_verify token_claims.
Abbreviation routes cfg verify := (all_routes shown ParseFloat ReadyCheck scrape cfg verify).
Abbreviation serve := (ServeHTTP shown ParseFloat ReadyCheck scrape chi_match unmatched).
Definition public : list string := ["/healthz"; "/readyz"; "/metrics"]%string.

Definition sound (h : Handler (A := app)) : Prop := honest h /\ finishing h.
Lemma sound_bearer h : sound h -> sound (bearer h).
Proof. intros [Hh Hf]. split; [by apply honest_middleware|by apply finishing_middleware]. Qed.
Lemma sound_public : Forall (fun ro => sound (ro_handler ro) /\ ro_pattern ro ∈ public)
  [get "/healthz" healthz; get "/readyz" (readyz ReadyCheck); mkRoute "*" "/metrics" (metrics_route scrape)].
Proof.
  repeat (apply Forall_cons; split); try apply Forall_nil; try exact Logic.I; cbn [ro_handler get];
    (split; [split|by apply list_elem_of_In; simpl; auto]).
  - intros r. change (quiet (A := app) (healthz r)). unfold healthz. quietly.
  - intros r. by apply finishes_answer, answers_status, in_statuses.
  - intros r. change (quiet (A := app) (readyz ReadyCheck r)). unfold readyz, send_error. quietly.
  - intros r. apply finishes_bind; [destruct ReadyCheck; [apply blank_app|apply blank_ret]|]. intros [e|].
    + apply finishes_bind; [apply blank_log|]. intros _. by apply finishes_answer, answers_error, in_statuses.
    + by apply finishes_answer, answers_status, in_statuses.
  - intros r. change (quiet (A := app) (metrics_route scrape r)). unfold metrics_route. quietly.
  - intros r. apply finishes_bind; [apply blank_gets|]. intros g. apply finishes_answer, answers_text.
Qed.
Lemma sound_v1 cfg : Forall (fun ro => sound (ro_handler ro)) (mountV1 shown ParseFloat cfg).
Proof. apply Forall_and. split; [apply honest_v1|apply finishing_v1]. Qed.
(** A located route is public, or an API route behind [verify]. *)
Lemma located_route cfg verify r ro r' : located chi_match (routes cfg verify) r = Some (ro, r') ->
  rq_pattern r' = ro_pattern ro /\ rq_Header r' = rq_Header r /\ rq_id r' = rq_id r /\
  ((sound (ro_handler ro) /\ ro_pattern ro ∈ public) \/
   exists h, mkRoute (ro_method ro) (ro_pattern ro) h ∈ mountV1 shown ParseFloat cfg /\ sound h /\
     ro_handler ro = match verify with Some v => v h | None => h end).
Proof.
  unfold located. intros ([i params] & _ & (ro' & Hro & [= <- <-])%bind_Some)%bind_Some.
  split_and!; [done..|]. apply list_elem_of_lookup_2, elem_of_app in Hro as [Hro|Hro].
  - left. pose proof sound_public as Hp. rewrite Forall_forall in Hp. by apply Hp.
  - right. apply list_elem_of_fmap in Hro as (ro & -> & Hro). exists (ro_handler ro). split; [by destruct ro|]. split; [|done].
    pose proof (sound_v1 cfg) as Hv. rewrite Forall_forall in Hv. by apply Hv.
Qed.
Lemma located_sound cfg verify r ro r' : (verify = None \/ verify = Some bearer) ->
  located chi_match (routes cfg verify) r = Some (ro, r') -> sound (ro_handler ro).
Proof.
  intros Hv (_ & _ & _ & [[Hs _]|(h & _ & Hs & ->)])%located_route; [done|].
  destruct Hv as [->| ->]; [done|by apply sound_bearer].
Qed.

(** C20: every request that matches a route, with or without authentication, gets
    exactly one answer: one of twelve statuses and at most one document, under its
    request ID, logged and counted with the status that was sent; no handler of the
    program panics. *)
Theorem one_answer_per_request cfg verify (r : request) (w : W) ro r' :
  (verify = None \/ verify = Some bearer) -> starting w ->
  located chi_match (routes cfg verify) r = Some (ro, r') ->
  exists id w', serve cfg verify r w = (Returned, w') /\ issued r w id /\ answered w' /\
    (exists lines, Forall plain_line lines /\
       wb_log w' = wb_log w ++ lines ++ [LogRequest id (routeLabel r') (rq_Path r') (rq_Method r') (sent_status w')]) /\
    ga_requests (wb_gauges w') =
      ga_requests (count_request (routeLabel r') (rq_Method r') (StatusText (sent_status w')) (wb_gauges w)) /\
    ga_inFlight (wb_gauges w') = ga_inFlight (wb_gauges w) /\ ga_panics (wb_gauges w') = ga_panics (wb_gauges w).
Proof.
  intros Hv Hw Hr. destruct (located_sound _ _ _ _ _ Hv Hr) as [Hh Hf]. pose proof (located_route _ _ _ _ _ Hr) as (_ & Hhd & _).
  destruct (middlewares_accounted (ro_handler ro) r' w Hh Hw) as (id & w0 & oh & w2 & w' & Hi & He & Hl & Hrun & Hm & Hacc).
  assert (Hb : blank 3 w0) by (destruct Hw as [Hc _]; unfold blank; by rewrite (en_conn _ _ _ He), Hc).
  destruct (Hf (with_id id r') 3%nat w0 Hb) as [Ho Ha]. rewrite Hrun in Ho, Ha. simpl in Ho, Ha. subst oh.
  destruct Hacc as [_ Hans _ Hlog Hreq Hfl Hpan]. rewrite Z.add_0_r in Hpan.
  unfold ServeHTTP, sent_status, answered in *. rewrite Hr. rewrite <- Hans in *.
  exists id, w'. split; [done|]. split; [by unfold issued, header_of in *; rewrite <- Hhd|]. done.
Qed.

(** The claims a request is admitted with. *)
Definition authorized (r : request) : option Claims :=
  let t := (bearerToken r).1 in if bool_decide (t = ""%string) then None else Verify oidc_verify token_claims t.
Definition refused_with (w : W) (q : outcome * W) : Prop :=
  exists reason hd, q.1 = Returned /\ cn_sent (wb_conn q.2) = Some (401, hd) /\
    hd !! "WWW-Authenticate"%string = Some wwwAuthenticate /\ wb_app q.2 = wb_app w /\ wb_limits q.2 = wb_limits w /\
    ga_logins (wb_gauges q.2) = inc reason (ga_logins (wb_gauges w)) /\
    reason ∈ ["missing_token"; "invalid_scheme"; "invalid_token"]%string.
Lemma reject_refuses reason text w : reason ∈ ["missing_token"; "invalid_scheme"; "invalid_token"]%string ->
  layered 3 w -> cn_sent (wb_conn w) = None -> refused_with w (reject reason text w).
Proof.
  intros Hin Hl Hs. unfold reject.
  rewrite (bind_run (attempt reason) _ w tt (attempt reason w).2 eq_refl).
  rewrite (bind_run (upd_log (LogRejected reason)) _ _ tt (relog (LogRejected reason) (attempt reason w).2) eq_refl).
  set (w1 := relog (LogRejected reason) (attempt reason w).2). assert (Hl1 : layered 3 w1) by exact Hl.
  rewrite (bind_run _ _ _ _ _ (w_Set_run 3 _ _ w1 Hl1)), (bind_run _ _ _ _ _ (http_Error_run 3 _ _ _ (layered_on_conn _ _ _))).
  exists reason. eexists. split; [done|]. simpl. unfold conn_WriteHeader. simpl. rewrite Hs. simpl. split; [reflexivity|].
  unfold conn_Set. cbn [cn_header]. by rewrite 2!lookup_insert_ne, lookup_insert_eq.
Qed.
Lemma bearerToken_reason r : (bearerToken r).1 = ""%string ->
  (bearerToken r).2 ∈ ["missing_token"; "invalid_scheme"; "invalid_token"]%string.
Proof.
  unfold bearerToken. cbv zeta. case_bool_decide; [set_solver|]. destruct (_ || _); [set_solver|].
  case_bool_decide; [set_solver|]. done.
Qed.
Lemma bearer_refuses h r w : authorized r = None -> layered 3 w -> cn_sent (wb_conn w) = None -> refused_with w (bearer h r w).
Proof.
  unfold authorized, bearer, middleware. cbv zeta. intros Ha Hl Hs. case_bool_decide as Ht.
  - apply reject_refuses; [by apply bearerToken_reason|done..].
  - rewrite Ha. apply reject_refuses; try done. set_solver.
Qed.
Lemma bearer_admits h r w c : authorized r = Some c ->
  bearer h r w = h (with_claims c r) (relog (LogAccepted (cl_Subject c)) (attempt "success" w).2).
Proof. unfold authorized, bearer, middleware. cbv zeta. intros Ha. case_bool_decide; [done|]. by rewrite Ha. Qed.

(** C17: a request for anything but the three probes reaches its handler only with a
    bearer token the OIDC verifier accepts and that names a subject, and then with
    those claims; any other is answered 401 with a challenge, changes neither the
    application nor the admission slots, and is counted under its reason. *)
Theorem no_route_without_token cfg (r : request) (w : W) ro r' :
  starting w -> located chi_match (routes cfg (Some bearer)) r = Some (ro, r') -> ro_pattern ro ∉ public ->
  match authorized r with
  | None => refused_with w (serve cfg (Some bearer) r w)
  | Some c => exists (h : Handler (A := app)) id w0 oh w2 w',
      mkRoute (ro_method ro) (ro_pattern ro) h ∈ mountV1 shown ParseFloat cfg /\ h (with_claims c (with_id id r')) w0 = (oh, w2) /\ wb_app w0 = wb_app w /\
      serve cfg (Some bearer) r w = (Returned, w') /\ wb_app w' = wb_app w2 /\ wb_conn w' = wb_conn w2 /\
      ga_logins (wb_gauges w0) = inc "success" (ga_logins (wb_gauges w))
  end.
Proof.
  intros Hw Hr Hp. destruct (located_route _ _ _ _ _ Hr) as (_ & Hhd & _ & [[_ Hin]|(h & Hmem & Hs & Hro)]); [done|].
  destruct (sound_bearer _ Hs) as [Hh Hf].
  destruct (middlewares_accounted (bearer h) r' w Hh Hw) as (id & w0 & oh & w2 & w' & Hi & He & Hl & Hrun & Hm & Hacc).
  assert (Hb : blank 3 w0) by (destruct Hw as [Hc _]; unfold blank; by rewrite (en_conn _ _ _ He), Hc).
  assert (Ha : authorized (with_id id r') = authorized r)
    by (unfold authorized, bearerToken, header_of; simpl; by rewrite Hhd).
  assert (Hg : ga_logins (wb_gauges w0) = ga_logins (wb_gauges w)) by (by destruct He as [_ _ [-> | ->]]).
  destruct (Hf (with_id id r') 3%nat w0 Hb) as [Ho _]. rewrite Hrun in Ho. simpl in Ho. subst oh.
  destruct Hacc as [(_ & Happ & Hlim & Hlog) Hans _ _ _ _ _]. destruct He as [(Ha0 & Hl0 & _) _ _].
  unfold ServeHTTP. rewrite Hr, Hro, Hm. destruct (authorized r) as [c|] eqn:Ec.
  - rewrite (bearer_admits _ _ _ c) in Hrun by done. eexists h, id, _, Returned, w2, w'. split; [done|]. split; [exact Hrun|].
    split_and!; try done. simpl. by rewrite Hg.
  - pose proof (bearer_refuses h (with_id id r') w0 Ha Hl (proj1 (proj2 Hb))) as (reason & hd & Hq). rewrite Hrun in Hq.
    exists reason, hd. cbn [fst snd] in *. rewrite Hans, Happ, Hlim, Hlog. by rewrite <- Hg, <- Ha0, <- Hl0.
Qed.
End Router.

(** * Concrete requests *)

(** A handler that panics after it began to answer. *)
Definition breaking : Handler (A := unit) := fun _ => w_Write (Text "partial") ;; ret Panicked.
Definition no_gauges : gauges := mkGauges ∅ 0 0 ∅.
Definition web_of {A} (a : A) : web A :=
  mkWeb fresh_conn [] a [] no_gauges (mkDraws [Some [0; 1; 2; 3; 4; 5; 6; 255]] 0 []) (mkLimits ∅ ∅).
Definition get_request (path : string) (hd q : gmap string string) : request := mkRequest "GET" path hd q "" "" ∅ "" None.
Lemma breaking_honest : honest breaking.
Proof. intros r. change (quiet (breaking r)). unfold breaking. quietly. Qed.
Lemma web_of_starting {A} (a : A) : starting (web_of a).
Proof. by split. Qed.
Lemma request_accounted_witness :
  exists id w', middlewares breaking (get_request "/x" ∅ ∅) (web_of tt) = (Returned, w') /\
    ga_requests (wb_gauges w') = ∅ /\ ga_panics (wb_gauges w') = 1 /\
    exists lines, Forall plain_line lines /\ wb_log w' = lines ++ [LogPanic id].
Proof.
  destruct (request_accounted breaking (get_request "/x" ∅ ∅) (web_of tt) breaking_honest (web_of_starting tt))
    as (id & w0 & oh & w2 & w' & _ & _ & _ & Hh & Hm & Hacc).
  assert (oh = Panicked) as -> by (unfold breaking, bind in Hh; by injection Hh).
  destruct Hacc as [_ _ _ Hl Hq _ Hp]. exists id, w'. split; [exact Hm|]. split; [exact Hq|]. split; [exact Hp|exact Hl].
Defined.
Lemma request_id_safe_witness :
  exists id w1, RequestID breaking (get_request "/x" {["X-Request-Id" := "bad id"]} ∅) (web_of tt) =
    breaking (with_id id (get_request "/x" {["X-Request-Id" := "bad id"]} ∅)) w1 /\ safe_id id.
Proof.
  destruct (request_id_safe breaking (get_request "/x" {["X-Request-Id" := "bad id"]} ∅) (web_of tt))
    as (id & w1 & Hr & Hs & _); [|exists id, w1; split; [exact Hr|exact Hs]].
  repeat (apply Forall_cons; split); try apply Forall_nil; try exact Logic.I. split; [reflexivity|].
  repeat (apply Forall_cons; split); try apply Forall_nil; try exact Logic.I; unfold is_byte; lia.
Defined.

Section Stack.
#[local] Existing Instances route_range route_scan route_store.
#[local] Instance no_decoders : Decoders := {
  decode_Memory := fun _ => None; decode_Query := fun _ => None; decode_Entity := fun _ => None;
  decode_Edge := fun _ => None; unmarshal_items := fun _ => None; decode_Bulk := fun _ => None;
  decode_Push := fun _ => None; decode_Misses := fun _ => None }.
#[local] Instance web_memory : MemoryService (svc net (Db tomb_table) (Db source_table)) := stack_memory background.
#[local] Instance web_ingest : IngestService (pool MemStore.t unit) := stack_ingest.
(** Literal patterns only. *)
Fixpoint find_route (l : list (string * string)) (m p : string) (i : nat) : option nat :=
  match l with
  | [] => None
  | (m', p') :: l => if bool_decide (m' = m) && bool_decide (p' = p) then Some i else find_route l m p (S i)
  end.
Definition literal_match (l : list (string * string)) (m p : string) : option (nat * gmap string string) :=
  (fun i => (i, ∅)) <$> find_route l m p 0.
Definition one_user (raw : string) : option IDToken :=
  if bool_decide (raw = "good"%string) then Some (mkIDToken "issuer" "alice") else None.
Definition same_claims (t : IDToken) : option Claims := Some (mkClaims "" "" "").
Definition budget : AdmissionConfig := mkAdmissionConfig 2 0 Second.
Definition router_config : RouterConfig := mkRouterConfig budget budget true true.
Abbreviation stack_app := ((svc net (Db tomb_table) (Db source_table) * pool MemStore.t unit) * code_svc (Db graph))%type.
Definition stack_web : web stack_app := web_of (stack [], semantic_service).
Definition teapot : Handler (A := stack_app) := fun _ => w_WriteHeader 404 ;; ret Returned.
Definition stack_routes := all_routes (A := svc net (Db tomb_table) (Db source_table)) (I := pool MemStore.t unit)
  (C := code_svc (Db graph)) route_shown reads_nan None (fun _ => ""%string) router_config (Some (bearer one_user same_claims)).
Definition stack_serve := ServeHTTP (A := svc net (Db tomb_table) (Db source_table)) (I := pool MemStore.t unit)
  (C := code_svc (Db graph)) route_shown reads_nan None (fun _ => ""%string) literal_match teapot router_config
  (Some (bearer one_user same_claims)).
Definition anonymous : request := get_request "/code/entity" ∅ (entity_params "r" "b").
Definition alice : request := get_request "/code/entity" {["Authorization" := "bearer  good "]} (entity_params "r" "b").
Lemma stack_status :
  ((fst <$> cn_sent (wb_conn (stack_serve anonymous stack_web).2)), (fst <$> cn_sent (wb_conn (stack_serve alice stack_web).2))) =
  (Some 401, Some 200).
Proof. vm_compute. reflexivity. Qed.
Lemma located_at i r params ro : literal_match ((fun ro => (ro_method ro, ro_pattern ro)) <$> stack_routes) (rq_Method r) (rq_Path r) = Some (i, params) ->
  stack_routes !! i = Some ro -> exists r', located literal_match stack_routes r = Some (ro, r').
Proof. unfold located. intros -> Hro. simpl. rewrite Hro. by eexists. Qed.
Lemma entity_route : exists ro, stack_routes !! 19%nat = Some ro /\ ro_pattern ro = "/code/entity"%string.
Proof. eexists. split; reflexivity. Qed.
Lemma entity_located r : rq_Method r = "GET"%string -> rq_Path r = "/code/entity"%string ->
  exists ro r', located literal_match stack_routes r = Some (ro, r') /\ ro_pattern ro = "/code/entity"%string.
Proof.
  intros Hm Hp. destruct entity_route as (ro & Hro & Hpat). destruct (located_at 19 r ∅ ro) as [r' Hr].
  - rewrite Hm, Hp. vm_compute. reflexivity.
  - exact Hro.
  - exists ro, r'. split; [exact Hr|exact Hpat].
Qed.
Lemma not_public ro : ro_pattern (A := svc net (Db tomb_table) (Db source_table)) (I := pool MemStore.t unit)
    (C := code_svc (Db graph)) ro = "/code/entity"%string -> ro_pattern ro ∉ public.
Proof. intros -> Hin%list_elem_of_In. by destruct Hin as [Hin|[Hin|[Hin|[]]]]. Qed.
Lemma no_route_without_token_witness :
  refused_with stack_web (stack_serve anonymous stack_web) /\
  exists w2, wb_app (stack_serve alice stack_web).2 = wb_app w2 /\ wb_conn (stack_serve alice stack_web).2 = wb_conn w2.
Proof.
  destruct (entity_located anonymous eq_refl eq_refl) as (ro & r' & Hr & Hp).
  destruct (entity_located alice eq_refl eq_refl) as (ro2 & r2 & Hr2 & Hp2). split.
  - exact (no_route_without_token route_shown reads_nan None (fun _ => ""%string) literal_match teapot one_user same_claims
      router_config anonymous stack_web ro r' (web_of_starting _) Hr (not_public _ Hp)).
  - pose proof (no_route_without_token route_shown reads_nan None (fun _ => ""%string) literal_match teapot one_user same_claims
      router_config alice stack_web ro2 r2 (web_of_starting _) Hr2 (not_public _ Hp2)) as Hw.
    assert (Ha : authorized one_user same_claims alice = Some (mkClaims "alice" "" "issuer")) by (vm_compute; reflexivity).
    rewrite Ha in Hw. destruct Hw as (h & id & w0 & oh & w2 & w' & _ & _ & _ & Hs & Happ & Hc & _).
    change (stack_serve alice stack_web = (Returned, w')) in Hs. exists w2. rewrite Hs. split; [exact Happ|exact Hc].
Defined.
Lemma one_answer_per_request_witness : answered (stack_serve alice stack_web).2.
Proof.
  destruct (entity_located alice eq_refl eq_refl) as (ro & r' & Hr & Hp).
  destruct (one_answer_per_request route_shown reads_nan None (fun _ => ""%string) literal_match teapot one_user same_claims
    router_config _ alice stack_web ro r' (or_intror eq_refl) (web_of_starting _) Hr) as (id & w' & Hs & _ & Ha & _).
  change (stack_serve alice stack_web = (Returned, w')) in Hs. rewrite Hs. exact Ha.
Defined.
End Stack.
