(* ===== verification/Startup.v ===== *)
(** The process around the services ([cmd/tatara-memory]): the configuration from
    the environment and its validation ([config.go]), the Postgres session
    parameters ([app.go]), the wait for the database, the readiness gate
    ([startup.go]) and the readiness probe ([health.go]). *)
From S2P Require Import Prelude GoErr Db Migrate LightragHttp.
From stdpp Require Import pretty.
#[local] Open Scope go_scope.
#[local] Open Scope Z_scope.

(** * Configuration *)

Definition DefaultPurgeBudget : Z := 45 * Second.
Record config := mkConfig {
  HTTPAddr : string; PGDSN : string; LightRAGBaseURL : string; OIDCIssuer : string; OIDCAudience : string;
  WorkerPoolSize : Z; IngestItemTimeout : Z; LogLevel : string; BetweennessMaxNodes : Z;
  HTTPWriteTimeout : Z; IngestCreateJobTimeout : Z; MemoryPurgeBudget : Z;
  DBMaxOpenConns : Z; DBMaxIdleConns : Z; MemoriesBulkMaxInFlight : Z; CodeGraphBulkMaxInFlight : Z;
  AdmissionWait : Z; AdmissionRetryAfter : Z;
  DBConnMaxLifetime : Z; DBConnMaxIdleTime : Z; PGStatementTimeout : Z; PGIdleInTxTimeout : Z; PGLockTimeout : Z;
  DBWaitTimeout : Z; DBWaitInterval : Z; AnalyticsMaxConcurrency : Z; AnalyticsRecomputeTimeout : Z }.

Section LoadConfig.
(** [os.LookupEnv], [time.ParseDuration], and [FlagSet.Parse], which overrides
    fields by the flags it finds. *)
Context (LookupEnv : string -> option string) (ParseDuration : string -> option Z)
  (parse_flags : list string -> config -> result err config).
Definition envOr (key def : string) : string := default def (LookupEnv key).
Definition bad_env (key : string) : err := Errorf (String.append "env " key).
Definition envIntOr (key : string) (def : Z) : result err Z :=
  match LookupEnv key with
  | None => Ok def
  | Some v => match Atoi v with Some n => Ok n | None => Err (bad_env key) end
  end.
Definition envDurationOr (key : string) (def : Z) : result err Z :=
  match LookupEnv key with
  | None => Ok def
  | Some v => match ParseDuration v with Some d => Ok d | None => Err (bad_env key) end
  end.
Notation "'let?' x := r 'in' k" := (match r with Ok x => k | Err e => Err e end)
  (at level 200, x name, r at level 100, k at level 200).
Definition loadConfig (args : list string) : result err config :=
  let? wp := envIntOr "WORKER_POOL_SIZE" 4 in
  let? itemTimeout := envDurationOr "INGEST_ITEM_TIMEOUT" (60 * Second) in
  let? betweennessMaxNodes := envIntOr "BETWEENNESS_MAX_NODES" 0 in
  let? writeTimeout := envDurationOr "HTTP_WRITE_TIMEOUT" (4 * Minute) in
  let? createJobTimeout := envDurationOr "INGEST_CREATE_JOB_TIMEOUT" (10 * Second) in
  let? purgeBudget := envDurationOr "MEMORY_PURGE_BUDGET" DefaultPurgeBudget in
  let? maxOpenConns := envIntOr "DB_MAX_OPEN_CONNS" 20 in
  let? maxIdleConns := envIntOr "DB_MAX_IDLE_CONNS" 5 in
  let? memoriesBulk := envIntOr "MEMORIES_BULK_MAX_IN_FLIGHT" 4 in
  let? codeGraphBulk := envIntOr "CODE_GRAPH_BULK_MAX_IN_FLIGHT" 2 in
  let? admissionWait := envDurationOr "ADMISSION_WAIT" (5 * Second) in
  let? admissionRetryAfter := envDurationOr "ADMISSION_RETRY_AFTER" (5 * Second) in
  let? connMaxLifetime := envDurationOr "DB_CONN_MAX_LIFETIME" (30 * Minute) in
  let? connMaxIdleTime := envDurationOr "DB_CONN_MAX_IDLE_TIME" (5 * Minute) in
  let? statementTimeout := envDurationOr "PG_STATEMENT_TIMEOUT" (5 * Minute) in
  let? idleInTxTimeout := envDurationOr "PG_IDLE_IN_TRANSACTION_TIMEOUT" (2 * Minute) in
  let? lockTimeout := envDurationOr "PG_LOCK_TIMEOUT" (30 * Second) in
  let? waitTimeout := envDurationOr "DB_WAIT_TIMEOUT" 0 in
  let? waitInterval := envDurationOr "DB_WAIT_INTERVAL" (2 * Second) in
  let? analyticsMax := envIntOr "ANALYTICS_MAX_CONCURRENCY" 2 in
  let? recomputeTimeout := envDurationOr "ANALYTICS_RECOMPUTE_TIMEOUT" (10 * Minute) in
  parse_flags args (mkConfig
    (envOr "HTTP_ADDR" ":8080") (envOr "PG_DSN" "") (envOr "LIGHTRAG_BASE_URL" "")
    (envOr "OIDC_ISSUER" "https://auth.szymonrichert.pl/realms/master") (envOr "OIDC_AUDIENCE" "tatara-memory")
    wp itemTimeout (envOr "LOG_LEVEL" "info") betweennessMaxNodes writeTimeout createJobTimeout purgeBudget
    maxOpenConns maxIdleConns memoriesBulk codeGraphBulk admissionWait admissionRetryAfter
    connMaxLifetime connMaxIdleTime statementTimeout idleInTxTimeout lockTimeout waitTimeout waitInterval
    analyticsMax recomputeTimeout).
End LoadConfig.

(** The checks in their order; the first that holds is the error. *)
Definition reserved (c : config) : Z :=
  int64 (int64 (int64 (MemoriesBulkMaxInFlight c + CodeGraphBulkMaxInFlight c) + WorkerPoolSize c)
         + AnalyticsMaxConcurrency c).
Definition checks (c : config) : list (bool * string) := [
  (bool_decide (PGDSN c = ""%string), "pg-dsn is required");
  (bool_decide (LightRAGBaseURL c = ""%string), "lightrag-base-url is required");
  (bool_decide (WorkerPoolSize c < 1), "worker-pool-size must be >= 1");
  (bool_decide (IngestItemTimeout c < 0), "ingest-item-timeout must be >= 0");
  (bool_decide (HTTPWriteTimeout c < 0), "http-write-timeout must be >= 0");
  (bool_decide (IngestCreateJobTimeout c < 0), "ingest-create-job-timeout must be >= 0");
  (bool_decide (MemoryPurgeBudget c < 0), "memory-purge-budget must be >= 0");
  (bool_decide (DBMaxOpenConns c < 1), "db-max-open-conns must be >= 1");
  (bool_decide (DBMaxIdleConns c < 0) || bool_decide (DBMaxIdleConns c > DBMaxOpenConns c),
     "db-max-idle-conns must be between 0 and db-max-open-conns");
  (bool_decide (MemoriesBulkMaxInFlight c < 0), "memories-bulk-max-in-flight must be >= 0");
  (bool_decide (CodeGraphBulkMaxInFlight c < 0), "code-graph-bulk-max-in-flight must be >= 0");
  (bool_decide (AdmissionWait c < 0), "admission-wait must be >= 0");
  (bool_decide (AdmissionRetryAfter c < 0), "admission-retry-after must be >= 0");
  (bool_decide (DBConnMaxLifetime c < 0), "db-conn-max-lifetime must be >= 0");
  (bool_decide (DBConnMaxIdleTime c < 0), "db-conn-max-idle-time must be >= 0");
  (bool_decide (PGStatementTimeout c < 0), "pg-statement-timeout must be >= 0");
  (bool_decide (PGIdleInTxTimeout c < 0), "pg-idle-in-transaction-timeout must be >= 0");
  (bool_decide (PGLockTimeout c < 0), "pg-lock-timeout must be >= 0");
  (bool_decide (DBWaitTimeout c < 0), "db-wait-timeout must be >= 0");
  (bool_decide (DBWaitInterval c <= 0), "db-wait-interval must be > 0");
  (bool_decide (AnalyticsMaxConcurrency c < 1), "analytics-max-concurrency must be >= 1");
  (bool_decide (AnalyticsRecomputeTimeout c < 0), "analytics-recompute-timeout must be >= 0");
  (bool_decide (MemoriesBulkMaxInFlight c > 0) && bool_decide (CodeGraphBulkMaxInFlight c > 0)
     && bool_decide (reserved c >= DBMaxOpenConns c), "admission budgets oversubscribe the DB pool") ]%string.
Fixpoint first_violation (l : list (bool * string)) : option err :=
  match l with
  | [] => None
  | (bad, msg) :: l => if bad then Some (Errorf msg) else first_violation l
  end.
Definition validate (c : config) : option err := first_violation (checks c).

(** * Session parameters (app.go) *)

Definition pgTimeoutMillis (d : Z) : string := pretty (Z.quot d Millisecond).
(** [if d > 0 { if _, ok := params[key]; !ok { params[key] = ... } }]. *)
Definition session_default (key : string) (d : Z) (params : gmap string string) : gmap string string :=
  if bool_decide (d > 0)
  then match params !! key with Some _ => params | None => <[key := pgTimeoutMillis d]> params end
  else params.
(** The parameters after [pgx.ParseConfig] found [params] in the DSN. *)
Definition pgConnConfig (params : gmap string string) (c : config) : gmap string string :=
  session_default "lock_timeout" (PGLockTimeout c)
    (session_default "idle_in_transaction_session_timeout" (PGIdleInTxTimeout c)
      (session_default "statement_timeout" (PGStatementTimeout c) params)).

(** * The readiness gate (startup.go) *)

Record startupGate := mkGate { sg_ready : bool; sg_attempts : Z; sg_last : option err }.
Definition record_ (e : option err) (g : startupGate) : startupGate :=
  mkGate (sg_ready g) (match e with Some _ => sg_attempts g + 1 | None => sg_attempts g end) e.
Definition markReady (g : startupGate) : startupGate := mkGate true (sg_attempts g) None.
Definition errStartupPending : err := Errorf "database startup has not completed yet".
Definition status (g : startupGate) : option err :=
  if sg_ready g then None
  else match sg_last g with
       | Some e => Some (Wrap (String.append "incomplete after " (String.append (pretty (sg_attempts g)) " failed attempt(s)")) e)
       | None => Some errStartupPending
       end.

(** [app.startup] may be nil: a test's app without a deferred start. *)
Definition startupStatus (startup : option startupGate) : option err :=
  match startup with Some g => status g | None => None end.
Definition startupReady (startup : option startupGate) : bool :=
  match startupStatus startup with None => true | Some _ => false end.

(** * The database during startup *)

(** The tables of the three packages are disjoint; their statements share one
    script of outcomes. *)
Record database := mkDatabase {
  da_ingest : mig_tab catalog; da_memory : mig_tab catalog; da_codegraph : mig_tab catalog; da_script : list env }.
(** The process: the clock, when its context is cancelled, how a tie between the
    timer and the cancellation ends, how long each attempt takes. *)
Record boot (P : Type) := mkBoot {
  bo_now : Z; bo_cancel : option Z; bo_coins : list bool; bo_durations : list N;
  bo_gate : startupGate; bo_db : database; bo_pool : P }.
Arguments mkBoot {P} _ _ _ _ _ _ _.
Arguments bo_now {P} _.
Arguments bo_cancel {P} _.
Arguments bo_coins {P} _.
Arguments bo_durations {P} _.
Arguments bo_gate {P} _.
Arguments bo_db {P} _.
Arguments bo_pool {P} _.

Definition on_ingest {X} (m : M (Db (mig_tab catalog)) X) : M database X := fun d =>
  let q := m (mkDb (da_ingest d) (da_script d)) in
  (q.1, mkDatabase (db_tab q.2) (da_memory d) (da_codegraph d) (db_script q.2)).
Definition on_memory {X} (m : M (Db (mig_tab catalog)) X) : M database X := fun d =>
  let q := m (mkDb (da_memory d) (da_script d)) in
  (q.1, mkDatabase (da_ingest d) (db_tab q.2) (da_codegraph d) (db_script q.2)).
Definition on_codegraph {X} (m : M (Db (mig_tab catalog)) X) : M database X := fun d =>
  let q := m (mkDb (da_codegraph d) (da_script d)) in
  (q.1, mkDatabase (da_ingest d) (da_memory d) (db_tab q.2) (db_script q.2)).
(** [db.PingContext]. *)
Definition ping : M database (option err) := fun d =>
  match da_script d with
  | [] => (None, d)
  | e :: es => (match ev_fate e with Fine => None | Fails x | LostAck x => Some x end,
                mkDatabase (da_ingest d) (da_memory d) (da_codegraph d) es)
  end.
Notation "'check' m 'as' text ;; k" :=
  (bind m (fun r => match r with Some x => ret (Some (Wrap text x)) | None => k end))
  (at level 100, m at next level, text at next level, k at level 200, right associativity).
Definition migrate : M database (option err) :=
  check on_ingest (Migrate "ingest" ingest_runner) as "migrate ingest schema"%string ;;
  check on_memory (Migrate "memory" memory_runner) as "migrate memory schema"%string ;;
  check on_codegraph (Migrate "codegraph" codegraph_runner) as "migrate codegraph schema"%string ;;
  ret None.

Section Boot.
(** [pool.Resume]: a failure of it is only logged. *)
Context {P : Type} (Resume : M P (result err Z)).
Abbreviation W := (boot P).
Definition on_database {X} (m : M database X) : M W X := fun w =>
  let q := m (bo_db w) in
  (q.1, mkBoot (bo_now w) (bo_cancel w) (bo_coins w) (bo_durations w) (bo_gate w) q.2 (bo_pool w)).
Definition on_pool {X} (m : M P X) : M W X := fun w =>
  let q := m (bo_pool w) in
  (q.1, mkBoot (bo_now w) (bo_cancel w) (bo_coins w) (bo_durations w) (bo_gate w) (bo_db w) q.2).
Definition on_gate (f : startupGate -> startupGate) : M W unit :=
  modify (fun w => mkBoot (bo_now w) (bo_cancel w) (bo_coins w) (bo_durations w) (f (bo_gate w)) (bo_db w) (bo_pool w)).
Definition advance (d : Z) (w : W) : W :=
  mkBoot (bo_now w + d) (bo_cancel w) (bo_coins w) (bo_durations w) (bo_gate w) (bo_db w) (bo_pool w).
(** The time an attempt takes. *)
Definition take_time : M W unit :=
  modify (fun w => mkBoot (bo_now w + match bo_durations w with d :: _ => Z.of_N d | [] => 0 end)
    (bo_cancel w) (bo_coins w) (tail (bo_durations w)) (bo_gate w) (bo_db w) (bo_pool w)).

Definition startupAttemptOnce : M W (option err) :=
  check on_database ping as "ping postgres"%string ;;
  e <- on_database migrate ;;
  match e with
  | Some e => ret (Some e)
  | None => on_pool Resume ;; ret None
  end.
Definition startupAttempt : M W (option err) :=
  e <- startupAttemptOnce ;; take_time ;; on_gate (record_ e) ;; ret e.

(** [select { case <-ctx.Done(): ...; case <-time.After(d): ... }]: [true] when the
    timer won. *)
Definition pause (d : Z) : M W bool := fun w =>
  match bo_cancel w with
  | None => (true, advance d w)
  | Some c =>
      let cancelled := Z.max c (bo_now w) in
      if bool_decide (cancelled < bo_now w + d) then (false, advance (cancelled - bo_now w) w)
      else if bool_decide (bo_now w + d < cancelled) then (true, advance d w)
      else (match bo_coins w with b :: _ => b | [] => true end,
            mkBoot (bo_now w + d) (bo_cancel w) (tail (bo_coins w)) (bo_durations w) (bo_gate w) (bo_db w) (bo_pool w))
  end.

Definition dbWaitMaxInterval : Z := 30 * Second.
Definition next_wait (wait : Z) : Z :=
  if bool_decide (wait < dbWaitMaxInterval)
  then let wait := int64 (wait * 2) in if bool_decide (wait > dbWaitMaxInterval) then dbWaitMaxInterval else wait
  else wait.
Definition this_sleep (deadline : option Z) (wait now : Z) : Z :=
  let sleep := match deadline with
               | Some d => if bool_decide (d - now < wait) then d - now else wait
               | None => wait
               end in
  if bool_decide (sleep < 0) then 0 else sleep.
(** [Some r]: the loop returned [r]; [None]: it is still running after [fuel]
    attempts. *)
Fixpoint wait_loop (fuel : nat) (deadline : option Z) (wait : Z) : M W (option (option err)) :=
  match fuel with
  | O => ret None
  | S fuel =>
      e <- startupAttempt ;;
      match e with
      | None => ret (Some None)
      | Some e =>
          now <- gets bo_now ;;
          if match deadline with Some d => bool_decide (d <= now) | None => false end
          then ret (Some (Some (Wrap "database not reachable" e)))
          else
            slept <- pause (this_sleep deadline wait now) ;;
            if (slept : bool) then wait_loop fuel deadline (next_wait wait)
            else ret (Some (Some (Sentinel Canceled)))
      end
  end.
Definition waitForDB (fuel : nat) (timeout interval : Z) : M W (option (option err)) :=
  let interval := if bool_decide (interval <= 0) then Second else interval in
  now <- gets bo_now ;;
  wait_loop fuel (if bool_decide (timeout > 0) then Some (now + timeout) else None) interval.
(** [true]: startupDone is closed. *)
Definition awaitDatabase (fuel : nat) (timeout interval : Z) : M W bool :=
  r <- waitForDB fuel timeout interval ;;
  match r with
  | None => ret false
  | Some (Some e) => on_gate (record_ (Some e)) ;; ret true
  | Some None => on_gate markReady ;; ret true
  end.

(** health.go: the readiness probe, over a database ping and LightRAG's health. *)
Definition readyzFunc (ping_db health : M W (option err)) : M W (option err) :=
  g <- gets bo_gate ;;
  match status g with
  | Some e => ret (Some (Wrap "startup" e))
  | None =>
      check ping_db as "db"%string ;;
      check health as "lightrag"%string ;;
      ret None
  end.
End Boot.
