(* ===== verification/StartupLaws.v ===== *)
(** The process comes up: it survives any finite outage of its database, is ready
    only with every schema current, keeps its budgets, and refuses a configuration
    that oversubscribes the connection pool. *)
From S2P Require Import Prelude GoErr Db Migrate MigrateLaws LightragHttp Startup.
From stdpp Require Import pretty.
#[local] Open Scope go_scope.
#[local] Open Scope Z_scope.

(** * A run uses up outcomes, never adds any *)

Section Shrinks.
Context {T : Type}.
Definition shrinks {X} (m : M (Db T) X) : Prop := forall d, (length (db_script (m d).2) <= length (db_script d))%nat.
Lemma shrinks_next : shrinks (next (T := T)).
Proof. intros [t [|e s]]; simpl; lia. Qed.
Lemma shrinks_ret {X} (x : X) : shrinks (ret x).
Proof. intros d. simpl. lia. Qed.
Lemma shrinks_bind {X Y} (m : M (Db T) X) (k : X -> M (Db T) Y) : shrinks m -> (forall x, shrinks (k x)) -> shrinks (bind m k).
Proof. intros Hm Hk d. unfold bind. specialize (Hm d). specialize (Hk (m d).1 (m d).2). lia. Qed.
Lemma shrinks_statement {X} (f : env -> T -> result err X * T) : shrinks (statement f).
Proof.
  apply shrinks_bind; [apply shrinks_next|]. intros e d. destruct (ev_fate e); simpl; try lia;
    destruct (f e (db_tab d)) as [[x|x] t]; simpl; lia.
Qed.
Lemma shrinks_transaction {X} w (body : M (Db T) (exit X)) : shrinks body -> shrinks (transaction w body).
Proof.
  intros Hb. apply shrinks_bind; [apply shrinks_next|]. intros e d. destruct (ev_fate e); simpl; try lia.
  specialize (Hb d). destruct (body d) as [[a w'|r] d1]; simpl in *; [|lia].
  pose proof (shrinks_next d1) as Hn. destruct (next d1) as [c d2]. simpl in *. destruct (ev_fate c); simpl; lia.
Qed.
Lemma shrinks_or_rollback {X Y} w (m : M (Db T) (result err X)) (k : X -> M (Db T) (exit Y)) :
  shrinks m -> (forall x, shrinks (k x)) -> shrinks (or_rollback w m k).
Proof. intros Hm Hk. apply shrinks_bind; [done|]. intros [x|e]; [apply Hk|apply shrinks_ret]. Qed.
End Shrinks.
#[export] Hint Resolve shrinks_ret shrinks_statement shrinks_or_rollback : go.

Section RunShrinks.
Context {C : Type} (r : Runner C).
Lemma shrinks_apply m b : shrinks (apply_migration r m b).
Proof.
  assert (Hrec : forall x, shrinks (record_and_commit r m x)) by (intros x; apply shrinks_or_rollback; auto with go; apply shrinks_statement).
  assert (Hexec : forall x, shrinks (execute_and_record r m x)).
  { intros [|]; [|apply Hrec]. apply shrinks_or_rollback; [apply shrinks_statement|intros _; apply Hrec]. }
  apply shrinks_transaction, shrinks_or_rollback; [apply shrinks_statement|]. intros _.
  destruct (mg_AlreadyApplied m); [destruct b|]; try apply Hexec.
  apply shrinks_or_rollback; [apply shrinks_statement|]. intros x. apply Hexec.
Qed.
Lemma shrinks_Run : shrinks (Run r).
Proof.
  unfold Run. destruct (negb _); [apply shrinks_ret|]. destruct (existsb _ _); [apply shrinks_ret|].
  apply shrinks_bind; [apply shrinks_statement|]. intros [u|e]; [|apply shrinks_ret]. generalize true.
  induction (rn_Migrations r) as [|m ms IH]; intros b; [apply shrinks_ret|].
  apply shrinks_bind; [apply shrinks_statement|]. intros [[|]|e]; [apply IH| |apply shrinks_ret].
  apply shrinks_bind; [apply shrinks_apply|]. intros [x|e]; [apply IH|apply shrinks_ret].
Qed.
Lemma shrinks_Migrate pkg : shrinks (Migrate pkg r).
Proof. apply shrinks_bind; [apply shrinks_Run|]. intros x. apply shrinks_ret. Qed.
End RunShrinks.

(** * The three schemas *)

(** What an earlier version left, and the goal. *)
Definition deployed (r : Runner catalog) (t : mig_tab catalog) : Prop :=
  exists j k, left_by_earlier r j k /\ mt_schema t = schema_at r k /\
    default ∅ (mt_trackers t !! rn_Tracker r) = list_to_set (take j (Names r)).
Definition current (r : Runner catalog) (t : mig_tab catalog) : Prop :=
  mt_schema t = schema_at r (length (rn_Migrations r)) /\ mt_trackers t !! rn_Tracker r = Some (list_to_set (Names r)).
Definition usable (r : Runner catalog) (t : mig_tab catalog) : Prop := exists j k, resumable r (schema_at r) 0 j k t.
Lemma deployed_usable r t : deployed r t -> usable r t.
Proof.
  intros (j & k & (Hr & Hjk & Hmem) & Hs & Ht). exists j, k. split; [by split|]. unfold may_run. split_and!; try lia; try done.
  destruct (package_probed r Hr) as [Hm|Hp]; [right; by apply Hmem|by left].
Qed.
Lemma accepted_packages r : r ∈ packages -> accepted r = true.
Proof.
  intros Hr. assert (Ha : forallb accepted packages = true) by by vm_compute.
  rewrite List.forallb_forall in Ha. by apply Ha, list_elem_of_In.
Qed.
Section Package.
Context (pkg : string) (r : Runner catalog) (Hr : r ∈ packages).
Lemma Migrate_usable t x t' : usable r t -> runs (Migrate pkg r) t x t' -> usable r t' /\ (x = None -> current r t').
Proof.
  intros (j & k & Hl) (x0 & Hrun & ->)%runs_map.
  destruct (runs_Run r _ 0 (packages_chain r Hr) (accepted_packages r Hr) j k t x0 t' Hl Hrun) as (j' & k' & Hl' & _ & _ & Hx).
  split; [by exists j', k'|]. destruct x0; [done|]. intros _. destruct (Hx eq_refl) as (_ & _ & Hs & Ht).
  split; [done|]. rewrite Ht. unfold stamped. by rewrite take_ge by (unfold Names; rewrite length_fmap; lia).
Qed.
Lemma Migrate_calm t : usable r t -> exists t', Migrate pkg r (mkDb t []) = (None, mkDb t' []).
Proof.
  intros (j & k & Hl). destruct (calm_Run r _ 0 (packages_chain r Hr) (accepted_packages r Hr) j k t Hl) as [t' Ht].
  exists t'. unfold Migrate, bind. by rewrite Ht.
Qed.
Lemma package_step t s : usable r t ->
  let '(x, d) := Migrate pkg r (mkDb t s) in
  usable r (db_tab d) /\ (x = None -> current r (db_tab d)) /\ (length (db_script d) <= length s)%nat /\
  (s = [] -> x = None /\ db_script d = []).
Proof.
  intros Hu. destruct (Migrate pkg r (mkDb t s)) as [x d] eqn:E. pose proof (shrinks_Migrate r pkg (mkDb t s)) as Hs.
  rewrite E in Hs. destruct (Migrate_usable t x (db_tab d) Hu) as [Hu' Hc]; [by apply (runs_intro _ (mkDb t s))|].
  split_and!; try done. intros ->. destruct (Migrate_calm t Hu) as [t' Ht]. rewrite Ht in E. by simplify_eq.
Qed.
End Package.

Definition usable_all (d : database) : Prop :=
  usable ingest_runner (da_ingest d) /\ usable memory_runner (da_memory d) /\ usable codegraph_runner (da_codegraph d).
Definition current_all (d : database) : Prop :=
  current ingest_runner (da_ingest d) /\ current memory_runner (da_memory d) /\ current codegraph_runner (da_codegraph d).
Definition deployed_all (d : database) : Prop :=
  deployed ingest_runner (da_ingest d) /\ deployed memory_runner (da_memory d) /\ deployed codegraph_runner (da_codegraph d).

(** One step of the startup on the database. *)
Definition brings (q : option err * database) (d : database) : Prop :=
  usable_all q.2 /\ (q.1 = None -> current_all q.2) /\ (length (da_script q.2) <= length (da_script d))%nat /\
  (da_script d = [] -> q.1 = None /\ da_script q.2 = []).
Lemma migrate_spec d : usable_all d -> brings (migrate d) d.
Proof.
  intros (Hi & Hm & Hc). unfold migrate, bind, ret, on_ingest, on_memory, on_codegraph, brings. cbn [fst snd].
  pose proof (package_step "ingest" ingest_runner ltac:(unfold packages; set_solver) _ (da_script d) Hi) as H1.
  destruct (Migrate "ingest" _ _) as [[x1|] [t1 s1]]; cbn [fst snd da_ingest da_memory da_codegraph da_script db_tab db_script] in *;
    destruct H1 as (Hu1 & Hc1 & Hs1 & Hf1).
  { split_and!; try done. intros E. by destruct (Hf1 E). }
  pose proof (package_step "memory" memory_runner ltac:(unfold packages; set_solver) _ s1 Hm) as H2.
  destruct (Migrate "memory" _ _) as [[x2|] [t2 s2]]; cbn [fst snd da_ingest da_memory da_codegraph da_script db_tab db_script] in *;
    destruct H2 as (Hu2 & Hc2 & Hs2 & Hf2).
  { split_and!; try done; [lia|]. intros E. destruct (Hf1 E) as [_ ->]. by destruct (Hf2 eq_refl). }
  pose proof (package_step "codegraph" codegraph_runner ltac:(unfold packages; set_solver) _ s2 Hc) as H3.
  destruct (Migrate "codegraph" _ _) as [[x3|] [t3 s3]]; cbn [fst snd da_ingest da_memory da_codegraph da_script db_tab db_script] in *;
    destruct H3 as (Hu3 & Hc3 & Hs3 & Hf3).
  - split_and!; try done; [lia|]. intros E. destruct (Hf1 E) as [_ ->]. destruct (Hf2 eq_refl) as [_ ->]. by destruct (Hf3 eq_refl).
  - split_and!; try done; [|lia|].
    + intros _. split_and!; [by apply Hc1|by apply Hc2|by apply Hc3].
    + intros E. destruct (Hf1 E) as [_ ->]. destruct (Hf2 eq_refl) as [_ ->]. by destruct (Hf3 eq_refl).
Qed.

(** * Attempts and waits *)

Section Boot.
Context {P : Type} (Resume : M P (result err Z)).
Abbreviation W := (boot P).
Abbreviation script w := (da_script (bo_db w)).
Record attempted (w w' : W) (e : option err) : Prop := {
  at_usable : usable_all (bo_db w');
  at_current : e = None -> current_all (bo_db w');
  at_script : (length (script w') <= length (script w) - 1)%nat;
  at_calm : script w = [] -> e = None;
  at_cancel : bo_cancel w' = bo_cancel w;
  at_time : bo_now w <= bo_now w';
  at_gate : bo_gate w' = record_ e (bo_gate w) }.
Lemma ping_spec d : usable_all d ->
  usable_all (ping d).2 /\ (length (da_script (ping d).2) <= length (da_script d) - 1)%nat /\ (da_script d = [] -> ping d = (None, d)).
Proof. intros Hu. unfold ping. destruct (da_script d) eqn:E; cbn [snd da_script]; rewrite ?E; (split_and!; [apply Hu..|simpl; lia|done]). Qed.
Lemma startupAttemptOnce_spec w : usable_all (bo_db w) ->
  let q := startupAttemptOnce Resume w in
  usable_all (bo_db q.2) /\ (q.1 = None -> current_all (bo_db q.2)) /\
  (length (script q.2) <= length (script w) - 1)%nat /\ (script w = [] -> q.1 = None) /\
  bo_cancel q.2 = bo_cancel w /\ bo_now q.2 = bo_now w /\ bo_gate q.2 = bo_gate w.
Proof.
  intros Hu. destruct (ping_spec (bo_db w) Hu) as (Hu1 & Hl1 & Hf1).
  unfold startupAttemptOnce, on_database, on_pool, bind. cbn [fst snd bo_db].
  destruct (ping (bo_db w)) as [[x|] d1]; cbn [fst snd] in *.
  { unfold ret. cbn [fst snd bo_db bo_cancel bo_now bo_gate]. split_and!; try done. intros E. by specialize (Hf1 E). }
  destruct (migrate_spec d1 Hu1) as (Hu2 & Hc2 & Hl2 & Hf2). cbn [fst snd bo_db]. destruct (migrate d1) as [[x|] d2]; cbn [fst snd] in *;
    unfold ret; cbn [fst snd bo_db bo_cancel bo_now bo_gate]; split_and!; try done; try apply Hu2; try (by apply Hc2); try lia.
  intros E. specialize (Hf1 E). injection Hf1 as ->. by destruct (Hf2 E).
Qed.
Lemma startupAttempt_spec w : usable_all (bo_db w) ->
  attempted w (startupAttempt Resume w).2 (startupAttempt Resume w).1.
Proof.
  intros Hu. unfold startupAttempt. pose proof (startupAttemptOnce_spec w Hu) as Hs. cbv zeta in Hs.
  destruct (startupAttemptOnce Resume w) as [e w1] eqn:E. rewrite (bind_run _ _ _ _ _ E).
  destruct Hs as (Hu1 & Hc1 & Hl1 & Hf1 & Hcan & Hnow & Hg). cbn [fst snd] in *.
  split; simpl; try done; try lia; try congruence. rewrite Hnow. destruct (bo_durations w1); lia.
Qed.
(** The clock never runs back, and only the clock and the coins move in a pause. *)
Lemma pause_spec d (w : W) : 0 <= d ->
  let q := pause d w in
  bo_db q.2 = bo_db w /\ bo_gate q.2 = bo_gate w /\ bo_cancel q.2 = bo_cancel w /\
  bo_now w <= bo_now q.2 /\ (q.1 = true -> bo_now q.2 = bo_now w + d) /\ (bo_cancel w = None -> q.1 = true).
Proof.
  intros Hd. unfold pause, advance. destruct (bo_cancel w) as [c|] eqn:E; [|simpl; split_and!; try done; lia].
  repeat case_bool_decide; simpl; split_and!; try done; lia.
Qed.
Lemma this_sleep_bounds deadline wait now : 0 < wait -> (forall d, deadline = Some d -> now < d) ->
  0 <= this_sleep deadline wait now <= wait /\
  (forall d, deadline = Some d -> this_sleep deadline wait now = Z.min (d - now) wait) /\
  (deadline = None -> this_sleep deadline wait now = wait).
Proof.
  intros Hw Hd. unfold this_sleep. destruct deadline as [d|].
  - specialize (Hd d eq_refl). repeat case_bool_decide; split_and!; intros; simplify_eq; lia.
  - case_bool_decide; split_and!; intros; simplify_eq; lia.
Qed.
Lemma next_wait_grows wait : 0 < wait -> wait <= next_wait wait.
Proof.
  intros Hw. unfold next_wait. case_bool_decide as H1; [|lia].
  rewrite int64_id by (unfold in_int64, two63, dbWaitMaxInterval, Second in *; lia). cbv zeta. case_bool_decide; lia.
Qed.

(** * The loop *)

(** What any number of rounds keeps. *)
Lemma wait_loop_safe fuel deadline wait w : usable_all (bo_db w) ->
  let q := wait_loop Resume fuel deadline wait w in
  usable_all (bo_db q.2) /\ sg_ready (bo_gate q.2) = sg_ready (bo_gate w) /\
  (q.1 = Some None -> current_all (bo_db q.2)).
Proof.
  revert wait w. induction fuel as [|fuel IH]; intros wait w Hu; [done|]. cbn [wait_loop].
  destruct (startupAttempt_spec w Hu) as [Hu1 Hc1 _ _ _ _ Hg1].
  destruct (startupAttempt Resume w) as [e w1] eqn:E. rewrite (bind_run _ _ _ _ _ E). cbn [fst snd] in *.
  assert (Hr1 : sg_ready (bo_gate w1) = sg_ready (bo_gate w)) by by rewrite Hg1.
  destruct e as [e|]; [|unfold ret; cbn [fst snd]; split_and!; try done; apply Hu1 || by intros _; apply Hc1].
  rewrite (bind_run (gets bo_now) _ w1 (bo_now w1) w1 eq_refl). destruct (match deadline with Some d => _ | None => _ end);
    [unfold ret; cbn [fst snd]; split_and!; try done; apply Hu1|].
  set (sl := this_sleep _ _ _). assert (Hsl : 0 <= sl) by (unfold sl, this_sleep; cbv zeta; case_bool_decide; lia).
  destruct (pause_spec sl w1 Hsl) as (Hd & Hg & _ & _ & _ & _).
  destruct (pause sl w1) as [b w2] eqn:Ep. rewrite (bind_run _ _ _ _ _ Ep). cbn [fst snd] in *.
  destruct b.
  - destruct (IH (next_wait wait) w2) as (? & Hr & ?); [by rewrite Hd|]. split; [done|]. split; [|done].
    rewrite Hr, Hg. done.
  - unfold ret. cbn [fst snd]. rewrite Hd, Hg. split_and!; try done; apply Hu1.
Qed.
(** Without a budget and without cancellation only success ends it, after at most
    one round per outcome left in the script and one more. *)
Lemma wait_loop_recovers n wait w : usable_all (bo_db w) -> 0 < wait -> bo_cancel w = None ->
  (length (script w) <= n)%nat -> (wait_loop Resume (S n) None wait w).1 = Some None.
Proof.
  revert wait w. induction n as [|n IH]; intros wait w Hu Hw Hc Hn; cbn [wait_loop];
    destruct (startupAttempt_spec w Hu) as [Hu1 _ Hs1 Hf1 Hc1 _ _];
    destruct (startupAttempt Resume w) as [e w1] eqn:E; rewrite (bind_run _ _ _ _ _ E); cbn [fst snd] in *.
  - rewrite Hf1 by (destruct (script w); [done|simpl in Hn; lia]). done.
  - destruct e as [e|]; [|done]. rewrite (bind_run (gets bo_now) _ w1 (bo_now w1) w1 eq_refl).
    destruct (this_sleep_bounds None wait (bo_now w1) Hw ltac:(done)) as (Hsl & _ & _).
    destruct (pause_spec (this_sleep None wait (bo_now w1)) w1 ltac:(lia)) as (Hd & _ & Hc2 & _ & _ & Hb).
    destruct (pause _ w1) as [b w2] eqn:Ep. rewrite (bind_run _ _ _ _ _ Ep). cbn [fst snd] in *.
    rewrite Hb by congruence. apply IH; rewrite ?Hd; try done; [|congruence|lia].
    pose proof (next_wait_grows wait Hw). lia.
Qed.
(** With a budget every round but the last takes at least [wait] of it. *)
Lemma wait_loop_ends n d wait w : usable_all (bo_db w) -> 0 < wait -> d - bo_now w <= Z.of_nat n * wait ->
  is_Some (wait_loop Resume (S n) (Some d) wait w).1.
Proof.
  revert wait w. induction n as [|n IH]; intros wait w Hu Hw Hn; cbn [wait_loop];
    destruct (startupAttempt_spec w Hu) as [Hu1 _ _ _ _ Ht1 _];
    destruct (startupAttempt Resume w) as [e w1] eqn:E; rewrite (bind_run _ _ _ _ _ E); cbn [fst snd] in *;
    destruct e as [e|]; try by eexists.
  all: rewrite (bind_run (gets bo_now) _ w1 (bo_now w1) w1 eq_refl); case_bool_decide as Hnow; [by eexists|].
  { lia. }
  destruct (this_sleep_bounds (Some d) wait (bo_now w1) Hw) as (Hsl & Hmin & _); [intros ? [= <-]; lia|].
  specialize (Hmin d eq_refl).
  destruct (pause_spec (this_sleep (Some d) wait (bo_now w1)) w1 ltac:(lia)) as (Hd & _ & _ & _ & Hslept & _).
  destruct (pause _ w1) as [b w2] eqn:Ep. rewrite (bind_run _ _ _ _ _ Ep). cbn [fst snd] in *.
  destruct b; [|by eexists]. pose proof (next_wait_grows wait Hw).
  apply IH; [by rewrite Hd|lia|]. rewrite (Hslept eq_refl), Hmin. nia.
Qed.
Lemma wait_loop_budget fuel deadline wait w e : usable_all (bo_db w) -> 0 < wait -> bo_cancel w = None ->
  (wait_loop Resume fuel deadline wait w).1 = Some (Some e) ->
  exists d, deadline = Some d /\ d <= bo_now (wait_loop Resume fuel deadline wait w).2.
Proof.
  revert wait w. induction fuel as [|fuel IH]; intros wait w Hu Hw Hc; [done|]; cbn [wait_loop].
  destruct (startupAttempt_spec w Hu) as [Hu1 _ _ _ Hc1 _ _].
  destruct (startupAttempt Resume w) as [x w1] eqn:E; rewrite (bind_run _ _ _ _ _ E); cbn [fst snd] in *.
  destruct x as [x|]; [|done]. rewrite (bind_run (gets bo_now) _ w1 (bo_now w1) w1 eq_refl).
  destruct deadline as [d|].
  1: case_bool_decide as Hnow; [intros _; by exists d|].
  all: set (sl := this_sleep _ _ _); assert (Hsl : 0 <= sl) by (unfold sl, this_sleep; cbv zeta; case_bool_decide; lia).
  all: destruct (pause_spec sl w1 Hsl) as (Hd & _ & Hc2 & _ & _ & Hb).
  all: destruct (pause sl w1) as [b w2] eqn:Ep; rewrite (bind_run _ _ _ _ _ Ep); cbn [fst snd] in *.
  all: rewrite Hb by congruence; pose proof (next_wait_grows wait Hw).
  all: apply IH; [by rewrite Hd|lia|congruence].
Qed.
Lemma awaitDatabase_run fuel timeout interval w : awaitDatabase Resume fuel timeout interval w =
  let q := wait_loop Resume fuel (if bool_decide (timeout > 0) then Some (bo_now w + timeout) else None)
             (if bool_decide (interval <= 0) then Second else interval) w in
  match q.1 with
  | None => (false, q.2)
  | Some (Some e) => (true, (on_gate (record_ (Some e)) q.2).2)
  | Some None => (true, (on_gate markReady q.2).2)
  end.
Proof.
  unfold awaitDatabase, waitForDB, bind, gets. cbn [fst snd].
  destruct (wait_loop _ _ _ _ w) as [[[e|]|] w']; done.
Qed.
Lemma first_interval interval : 0 < (if bool_decide (interval <= 0) then Second else interval).
Proof. case_bool_decide; unfold Second; lia. Qed.

(** C19: with the default unlimited budget, a start outlives any finite outage:
    whatever round trips fail, and however often, in pings, migrations or commits,
    the loop ends, the gate reports ready, and the three schemas are the current ones
    with every migration recorded; one more attempt than there are failing round
    trips is enough.  The database may be at any level an earlier version left. *)
Theorem startup_recovers timeout interval (w : W) :
  timeout <= 0 -> bo_cancel w = None -> deployed_all (bo_db w) ->
  let '(finished, w') := awaitDatabase Resume (S (length (script w))) timeout interval w in
  finished = true /\ status (bo_gate w') = None /\ current_all (bo_db w').
Proof.
  intros Ht Hc Hd. assert (Hu : usable_all (bo_db w)) by (destruct Hd as (? & ? & ?); split_and!; by apply deployed_usable).
  rewrite awaitDatabase_run. rewrite bool_decide_false by lia. cbv zeta.
  pose proof (wait_loop_recovers (length (script w)) _ w Hu (first_interval interval) Hc ltac:(lia)) as Hr.
  destruct (wait_loop_safe (S (length (script w))) None (if bool_decide (interval <= 0) then Second else interval) w Hu)
    as (_ & _ & Hcur).
  rewrite Hr in *. split_and!; try done; by apply Hcur.
Qed.

(** C16: the pod never reports ready with a schema missing: whenever the gate of a
    process that started unready is open, after any number of attempts, with any
    budget and any cancellation, the three schemas are current. *)
Theorem ready_means_migrated fuel timeout interval (w : W) :
  sg_ready (bo_gate w) = false -> deployed_all (bo_db w) ->
  let '(finished, w') := awaitDatabase Resume fuel timeout interval w in
  status (bo_gate w') = None -> finished = true /\ current_all (bo_db w').
Proof.
  intros Hr Hd. assert (Hu : usable_all (bo_db w)) by (destruct Hd as (? & ? & ?); split_and!; by apply deployed_usable).
  rewrite awaitDatabase_run. cbv zeta. set (dl := if bool_decide (timeout > 0) then _ else _).
  destruct (wait_loop_safe fuel dl (if bool_decide (interval <= 0) then Second else interval) w Hu) as (_ & Hrd & Hcur).
  destruct (wait_loop Resume fuel dl _ w) as [[[e|]|] w'] eqn:E; cbn [fst snd] in *; unfold status; simpl; rewrite ?Hrd, ?Hr; try done.
  - intros _. split; [done|]. by apply Hcur.
  - by destruct (sg_last _).
Qed.

(** C29: a bounded wait ends: after at most timeout / interval + 2 attempts it has
    become ready, was cancelled, or gave up, and unless it was cancelled it gives up
    only once the whole budget is spent, unready and with a reason. *)
Theorem startup_budget timeout interval (w : W) :
  0 < timeout -> 0 < interval -> deployed_all (bo_db w) ->
  let '(finished, w') := awaitDatabase Resume (S (S (Z.to_nat (timeout / interval)))) timeout interval w in
  finished = true /\
  (sg_ready (bo_gate w) = false -> bo_cancel w = None -> status (bo_gate w') <> None ->
   bo_now w + timeout <= bo_now w' /\ is_Some (sg_last (bo_gate w'))).
Proof.
  intros Ht Hi Hd. assert (Hu : usable_all (bo_db w)) by (destruct Hd as (? & ? & ?); split_and!; by apply deployed_usable).
  rewrite awaitDatabase_run. rewrite (bool_decide_true (timeout > 0)) by lia. rewrite (bool_decide_false (interval <= 0)) by lia.
  cbv zeta. set (n := S (Z.to_nat (timeout / interval))). 
  assert (Hn : bo_now w + timeout - bo_now w <= Z.of_nat n * interval).
  { unfold n. rewrite Nat2Z.inj_succ, Z2Nat.id by (apply Z.div_pos; lia). pose proof (Z.mul_succ_div_gt timeout interval Hi). lia. }
  destruct (wait_loop_ends n _ _ w Hu Hi Hn) as [r Hr]. 
  pose proof (wait_loop_budget (S n) (Some (bo_now w + timeout)) interval w) as Hb. rewrite Hr in *.
  destruct r as [e|]; (split; [done|]); simpl; [|done]. intros _ Hc _.
  destruct (Hb e Hu Hi Hc eq_refl) as (d & [= <-] & Hle). split; [done|by eexists].
Qed.
End Boot.

(** * The configuration *)

Lemma first_violation_none l : first_violation l = None <-> Forall (fun p : bool * string => p.1 = false) l.
Proof.
  induction l as [|[b m] l IH]; [done|]. simpl. rewrite Forall_cons. destruct b; [by split; [|intros [? ?]]|].
  rewrite IH. simpl. tauto.
Qed.
(** The connections that bulk requests, ingest workers and analytics can hold. *)
Definition demand (c : config) : Z :=
  MemoriesBulkMaxInFlight c + CodeGraphBulkMaxInFlight c + WorkerPoolSize c + AnalyticsMaxConcurrency c.
Lemma reserved_demand c : demand c < two63 -> 0 < MemoriesBulkMaxInFlight c -> 0 < CodeGraphBulkMaxInFlight c ->
  1 <= WorkerPoolSize c -> 1 <= AnalyticsMaxConcurrency c -> reserved c = demand c.
Proof.
  unfold demand, reserved. intros. assert (0 < two63) by (unfold two63; lia).
  rewrite (int64_id (MemoriesBulkMaxInFlight c + CodeGraphBulkMaxInFlight c)) by (unfold in_int64; lia).
  rewrite (int64_id (_ + WorkerPoolSize c)) by (unfold in_int64; lia). apply int64_id. unfold in_int64. lia.
Qed.
Definition dsn_and_url (key : string) : option string :=
  if bool_decide (key = "PG_DSN"%string) then Some "postgres://db"%string
  else if bool_decide (key = "LIGHTRAG_BASE_URL"%string) then Some "http://lightrag"%string else None.
Definition oversized : config :=
  mkConfig "" "dsn" "url" "" "" 4 0 "" 0 0 0 0 20 5 (2 ^ 62) (2 ^ 62) 0 0 0 0 0 0 0 0 1 2 0.
Definition default_load : result err config := loadConfig dsn_and_url (fun _ => None) (fun _ c => Ok c) [].
Definition default_config : config := match default_load with Ok c => c | Err _ => oversized end.
Lemma default_loaded : default_load = Ok default_config.
Proof. vm_compute. reflexivity. Qed.
Lemma default_valid : validate default_config = None /\ demand default_config = 12 /\ DBMaxOpenConns default_config = 20.
Proof. split_and!; vm_compute; reflexivity. Qed.
Lemma oversized_valid : validate oversized = None /\ DBMaxOpenConns oversized <= demand oversized.
Proof. split; vm_compute; [reflexivity|discriminate]. Qed.

(** A configuration that passes validation with both bulk budgets on leaves
    connections of the pool for reads and probes: what bulk requests, ingest workers
    and recomputations can hold at once is below the pool's size, as long as the sum
    fits an int; the defaults pass with nothing but the DSN and the LightRAG URL set.
    With budgets so large that the sum overflows, a configuration passes although the
    demand exceeds the pool. *)
Theorem validated_pool_budget :
  (forall c, validate c = None -> 0 < MemoriesBulkMaxInFlight c -> 0 < CodeGraphBulkMaxInFlight c -> demand c < two63 ->
     demand c < DBMaxOpenConns c /\ 1 <= WorkerPoolSize c /\ 1 <= AnalyticsMaxConcurrency c) /\
  (default_load = Ok default_config /\ validate default_config = None /\ demand default_config = 12 /\
     DBMaxOpenConns default_config = 20) /\
  (validate oversized = None /\ DBMaxOpenConns oversized <= demand oversized).
Proof.
  split; [|split; [exact (conj default_loaded default_valid)|exact oversized_valid]].
  intros c Hv Hm Hg Hd. apply first_violation_none in Hv. unfold checks in Hv.
  repeat (apply Forall_cons in Hv as [? Hv]). cbn [fst] in *.
  assert (Hw : 1 <= WorkerPoolSize c) by (match goal with H : bool_decide (WorkerPoolSize c < 1) = false |- _ =>
    apply bool_decide_eq_false in H; lia end).
  assert (Ha : 1 <= AnalyticsMaxConcurrency c) by (match goal with H : bool_decide (AnalyticsMaxConcurrency c < 1) = false |- _ =>
    apply bool_decide_eq_false in H; lia end).
  match goal with H : _ && bool_decide (reserved c >= _) = false |- _ => rename H into Hr end.
  rewrite !bool_decide_true in Hr by lia. simpl in Hr. apply bool_decide_eq_false in Hr.
  rewrite reserved_demand in Hr by done. lia.
Qed.

(** * Session parameters *)

Definition session_timeouts (c : config) : list (string * Z) :=
  [("statement_timeout"%string, PGStatementTimeout c); ("idle_in_transaction_session_timeout"%string, PGIdleInTxTimeout c);
   ("lock_timeout"%string, PGLockTimeout c)].
Lemma session_default_lookup key d params k : session_default key d params !! k =
  match params !! k with
  | Some v => Some v
  | None => if bool_decide (k = key) && bool_decide (0 < d) then Some (pgTimeoutMillis d) else None
  end.
Proof.
  unfold session_default. rewrite (bool_decide_ext (d > 0) (0 < d)) by lia.
  case_bool_decide as Hd; [|rewrite andb_false_r; by destruct (params !! k)]. rewrite andb_true_r.
  destruct (decide (k = key)) as [->|Hk].
  - rewrite bool_decide_true by done. destruct (params !! key) eqn:E; [done|]. by rewrite lookup_insert_eq.
  - rewrite bool_decide_false by done. destruct (params !! key); [by destruct (params !! k)|].
    rewrite lookup_insert_ne by done. by destruct (params !! k).
Qed.

(** Every connection carries the three session timeouts: a value in the DSN
    always wins, otherwise a positive one of the configuration is sent in whole
    milliseconds, and nothing else is added; so a positive timeout below a
    millisecond is sent as 0, which disables it. *)
Theorem session_parameters params (c : config) :
  (forall key v, params !! key = Some v -> pgConnConfig params c !! key = Some v) /\
  (forall key d, (key, d) ∈ session_timeouts c -> params !! key = None ->
     pgConnConfig params c !! key = if bool_decide (0 < d) then Some (pretty (Z.quot d Millisecond)) else None) /\
  (forall key, params !! key = None -> key ∉ (session_timeouts c).*1 -> pgConnConfig params c !! key = None) /\
  (forall d, 0 < d < Millisecond -> pgTimeoutMillis d = "0"%string).
Proof.
  unfold pgConnConfig. split_and!.
  - intros key v Hv. by rewrite !session_default_lookup, Hv.
  - intros key d Hin Hk. rewrite !session_default_lookup, Hk. unfold session_timeouts in Hin.
    repeat (apply elem_of_cons in Hin as [[= -> ->]|Hin]); [..|by apply elem_of_nil in Hin];
      simpl; by case_bool_decide.
  - intros key Hk Hn. rewrite !session_default_lookup, Hk. unfold session_timeouts in Hn. simpl in Hn.
    assert (Hne : key <> "statement_timeout"%string /\ key <> "idle_in_transaction_session_timeout"%string /\ key <> "lock_timeout"%string)
      by (split_and!; intros ->; apply Hn; set_solver).
    destruct Hne as (H1 & H2 & H3). by rewrite (bool_decide_false _ H1), (bool_decide_false _ H2), (bool_decide_false _ H3).
  - intros d Hd. unfold pgTimeoutMillis. by rewrite Z.quot_small by lia.
Qed.

(** * A concrete outage *)

Definition untouched : mig_tab catalog := mkMigTab no_tables ∅.
Definition down : env := mkEnv (Fails ConnectError) ∅ 0 "".
(** Two failed pings, a migration cut in the middle, a ping, then peace. *)
Definition outage : list env := [down; down; calm; calm; calm; down; down].
Definition booting (timeout : option Z) : boot unit :=
  mkBoot 0 timeout [] [1%N; 2%N] (mkGate false 0 None) (mkDatabase untouched untouched untouched outage) tt.
Definition no_jobs : M unit (result err Z) := ret (Ok 0).
Lemma untouched_deployed r : r ∈ packages -> deployed r untouched.
Proof.
  intros Hr. exists 0%nat, 0%nat. split; [split; [done|split; [lia|done]]|]. split; [reflexivity|]. simpl. by rewrite lookup_empty.
Qed.
Lemma booting_deployed t : deployed_all (bo_db (booting t)).
Proof. split_and!; apply untouched_deployed; unfold packages; set_solver. Qed.
Lemma startup_recovers_witness :
  let '(finished, w') := awaitDatabase no_jobs 8 0 (2 * Second) (booting None) in
  finished = true /\ status (bo_gate w') = None /\ current_all (bo_db w').
Proof. exact (startup_recovers no_jobs 0 (2 * Second) (booting None) ltac:(lia) eq_refl (booting_deployed None)). Defined.
Lemma ready_means_migrated_witness :
  let '(finished, w') := awaitDatabase no_jobs 8 0 (2 * Second) (booting (Some Minute)) in
  status (bo_gate w') = None -> finished = true /\ current_all (bo_db w').
Proof. exact (ready_means_migrated no_jobs 8 0 (2 * Second) (booting (Some Minute)) eq_refl (booting_deployed _)). Defined.
Lemma startup_budget_witness :
  (awaitDatabase no_jobs 4 (5 * Second) (2 * Second) (booting None)).1 = true.
Proof.
  pose proof (startup_budget no_jobs (5 * Second) (2 * Second) (booting None) ltac:(unfold Second; lia) ltac:(unfold Second; lia)
    (booting_deployed None)) as Hb.
  change (S (S (Z.to_nat (5 * Second / (2 * Second))))) with 4%nat in Hb.
  destruct (awaitDatabase no_jobs 4 (5 * Second) (2 * Second) (booting None)) as [b w']. exact (proj1 Hb).
Defined.
