(* ===== verification/Lifecycle.v ===== *)
(** The life of the process ([cmd/tatara-memory]): the layers [newAppWithDeps] opens
    and starts, in its order and with what each failure leaves behind ([app.go]), the
    orderly shutdown, and [run], which ties both to the configuration, the listener
    and the signals ([main.go], [serve.go]).  The database wait of [Startup.v] is the
    goroutine the shutdown ends. *)
From S2P Require Import Prelude GoErr Db Startup.
#[local] Open Scope go_scope.
#[local] Open Scope Z_scope.

Module Lifecycle.

(** * What the process holds *)

(** A background loop under a context of its own. *)
Inductive goroutine := NotStarted | Running | Cancelled.
#[export] Instance goroutine_eq_dec : EqDecision goroutine.
Proof. solve_decision. Defined.

(** [*sql.DB]: its session parameters and limits; [None] is the library's default. *)
Record sqlDB := mkSqlDB {
  hd_params : gmap string string; hd_maxOpen : option Z; hd_maxIdle : option Z;
  hd_maxLifetime : Z; hd_maxIdleTime : Z; hd_closed : bool }.
(** [ingest.Pool]: the number of workers, [started] and [stopped]. *)
Record pool := mkPool { po_size : Z; po_started : bool; po_stopped : bool }.
(** [http.Server]. *)
Record server := mkServer {
  sv_Addr : string; sv_ReadHeaderTimeout : Z; sv_WriteTimeout : Z; sv_listening : bool }.

Inductive event :=
| OpenedDB | StartedPool | StartedAnalytics | StartedReaper | StartedStartup | Listening
| CancelledAnalytics | CancelledReaper | CancelledStartup | WaitedStartup | ShutServer | StoppedPool | ClosedDB.
#[export] Instance event_eq_dec : EqDecision event.
Proof. solve_decision. Defined.

Record process := mkProcess {
  pr_now : Z; pr_level : Z; pr_db : option sqlDB; pr_pool : option pool; pr_server : option server;
  pr_analytics : goroutine; pr_reaper : goroutine; pr_startup : goroutine; pr_log : list event }.
Definition fresh (now : Z) : process :=
  mkProcess now 0 None None None NotStarted NotStarted NotStarted [].

Definition set_level (l : Z) : M process unit := modify (fun w =>
  mkProcess (pr_now w) l (pr_db w) (pr_pool w) (pr_server w) (pr_analytics w) (pr_reaper w) (pr_startup w) (pr_log w)).
Definition set_db (d : sqlDB) : M process unit := modify (fun w =>
  mkProcess (pr_now w) (pr_level w) (Some d) (pr_pool w) (pr_server w) (pr_analytics w) (pr_reaper w) (pr_startup w) (pr_log w)).
Definition set_pool (p : pool) : M process unit := modify (fun w =>
  mkProcess (pr_now w) (pr_level w) (pr_db w) (Some p) (pr_server w) (pr_analytics w) (pr_reaper w) (pr_startup w) (pr_log w)).
Definition set_server (s : server) : M process unit := modify (fun w =>
  mkProcess (pr_now w) (pr_level w) (pr_db w) (pr_pool w) (Some s) (pr_analytics w) (pr_reaper w) (pr_startup w) (pr_log w)).
Definition set_analytics (g : goroutine) : M process unit := modify (fun w =>
  mkProcess (pr_now w) (pr_level w) (pr_db w) (pr_pool w) (pr_server w) g (pr_reaper w) (pr_startup w) (pr_log w)).
Definition set_reaper (g : goroutine) : M process unit := modify (fun w =>
  mkProcess (pr_now w) (pr_level w) (pr_db w) (pr_pool w) (pr_server w) (pr_analytics w) g (pr_startup w) (pr_log w)).
Definition set_startup (g : goroutine) : M process unit := modify (fun w =>
  mkProcess (pr_now w) (pr_level w) (pr_db w) (pr_pool w) (pr_server w) (pr_analytics w) (pr_reaper w) g (pr_log w)).
(** The clock never runs back. *)
Definition until (t : Z) : M process unit := modify (fun w =>
  mkProcess (Z.max (pr_now w) t) (pr_level w) (pr_db w) (pr_pool w) (pr_server w) (pr_analytics w) (pr_reaper w) (pr_startup w) (pr_log w)).
Definition emit (e : event) : M process unit := modify (fun w =>
  mkProcess (pr_now w) (pr_level w) (pr_db w) (pr_pool w) (pr_server w) (pr_analytics w) (pr_reaper w) (pr_startup w) (pr_log w ++ [e])).

(** * Authentication settings (internal/auth) *)

Record auth_Config := mkAuthConfig { ac_Issuer : string; ac_Audience : string }.
Definition Validate (c : auth_Config) : option err :=
  if bool_decide (ac_Issuer c = ""%string) then Some (Errorf "auth: issuer is required")
  else if bool_decide (ac_Audience c = ""%string) then Some (Errorf "auth: audience is required")
  else None.

(** * The fields of an [app] *)

(** Which of the pointers, channels and cancel functions are not nil. *)
Record app := mkApp {
  ap_db : bool; ap_pool : bool; ap_server : bool;
  ap_reaperCancel : bool; ap_analyticsCancel : bool; ap_startupDone : bool; ap_startupCancel : bool }.

(** * The outside *)

(** How [srv.Serve] ends. *)
Inductive serve_end := ErrServerClosed | ServeFailed (e : err).
(** What the process waits on after it serves. *)
Inductive stop_cause := Signal | ServeEnds (e : serve_end).

Record outside := mkOutside {
  ou_ParseConfig : string -> option (gmap string string);  (* pgx.ParseConfig *)
  ou_NewProvider : string -> option err;                   (* OIDC discovery *)
  ou_Listen : string -> option err;                        (* net.Listen *)
  ou_stop : stop_cause; ou_stop_at : Z;                    (* which case of run's select, and when *)
  ou_idle_at : option Z;                                   (* when the last request is answered *)
  ou_workers_done_at : option Z;                           (* when the pool's workers have returned *)
  ou_close_takes : N; ou_Close : option err }.             (* sql.DB.Close *)

(** [errors.Join] of the collected errors: the list itself, nil when empty. *)
Definition errs := list err.

Section Process.
Context (o : outside).
(** The database wait of this process: [startup_boot] is its state when it starts. *)
Context {P : Type} (Resume : M P (result err Z)) (startup_fuel : nat) (startup_boot : boot P).
Abbreviation W := process.

(** ** Start (newAppWithDeps) *)

(** [slog.Level]: Debug -4, Info 0, Warn 4, Error 8. *)
Definition buildObs (cfg : config) : M W unit :=
  set_level (if bool_decide (LogLevel cfg = "debug"%string) then -4
             else if bool_decide (LogLevel cfg = "warn"%string) then 4
             else if bool_decide (LogLevel cfg = "error"%string) then 8 else 0).

Definition openDB (dsn : string) (cfg : config) : M W (result err sqlDB) :=
  match ou_ParseConfig o dsn with
  | None => ret (Err (Errorf "parse pg dsn"))
  | Some params =>
      let d := mkSqlDB (pgConnConfig params cfg) None None 0 0 false in
      set_db d ;; emit OpenedDB ;; ret (Ok d)
  end.
Definition SetMaxOpenConns (n : Z) (d : sqlDB) : sqlDB :=
  mkSqlDB (hd_params d) (Some n) (hd_maxIdle d) (hd_maxLifetime d) (hd_maxIdleTime d) (hd_closed d).
Definition SetMaxIdleConns (n : Z) (d : sqlDB) : sqlDB :=
  mkSqlDB (hd_params d) (hd_maxOpen d) (Some n) (hd_maxLifetime d) (hd_maxIdleTime d) (hd_closed d).
Definition SetConnTimes (life idle : Z) (d : sqlDB) : sqlDB :=
  mkSqlDB (hd_params d) (hd_maxOpen d) (hd_maxIdle d) life idle (hd_closed d).

(** [lightrag.NewHTTPClient]. *)
Definition NewHTTPClient (BaseURL : string) : result err unit :=
  if bool_decide (BaseURL = ""%string) then Err (Errorf "lightrag: BaseURL is required") else Ok tt.
Definition newPool (size : Z) : pool := mkPool (if bool_decide (size < 1) then 1 else size) false false.
Definition Start (p : pool) : pool := if po_started p then p else mkPool (po_size p) true (po_stopped p).
Definition NewVerifier (c : auth_Config) : option err :=
  match Validate c with
  | Some e => Some e
  | None => match ou_NewProvider o (ac_Issuer c) with Some e => Some (Wrap "auth: discover issuer" e) | None => None end
  end.

Definition newAppWithDeps (cfg : config) : M W (result err app) :=
  buildObs cfg ;;
  try d <- openDB (PGDSN cfg) cfg in
  (let d := if bool_decide (DBMaxOpenConns cfg > 0) then SetMaxOpenConns (DBMaxOpenConns cfg) d else d in
   let d := if bool_decide (DBMaxIdleConns cfg > 0) then SetMaxIdleConns (DBMaxIdleConns cfg) d else d in
   set_db (SetConnTimes (DBConnMaxLifetime cfg) (DBConnMaxIdleTime cfg) d) ;;
   match NewHTTPClient (LightRAGBaseURL cfg) with
   | Err e => ret (Err e)
   | Ok _ =>
       set_pool (Start (newPool (WorkerPoolSize cfg))) ;; emit StartedPool ;;
       set_analytics Running ;; emit StartedAnalytics ;;
       match NewVerifier (mkAuthConfig (OIDCIssuer cfg) (OIDCAudience cfg)) with
       | Some e => set_analytics Cancelled ;; emit CancelledAnalytics ;; ret (Err e)
       | None =>
           set_reaper Running ;; emit StartedReaper ;;
           set_server (mkServer (HTTPAddr cfg) (10 * Second) (HTTPWriteTimeout cfg) false) ;;
           set_startup Running ;; emit StartedStartup ;;
           ret (Ok (mkApp true true true true true true true))
       end
   end).

(** ** Shutdown *)

(** When the goroutine of [awaitDatabase] closes [startupDone], its context being
    cancelled at [c]; [None]: not within [startup_fuel] attempts. *)
Definition cancel_at (c : Z) (b : boot P) : boot P :=
  mkBoot (bo_now b) (Some c) (bo_coins b) (bo_durations b) (bo_gate b) (bo_db b) (bo_pool b).
Definition startup_done_at (cfg : config) (c : Z) : option Z :=
  let '(finished, b) := awaitDatabase Resume startup_fuel (DBWaitTimeout cfg) (DBWaitInterval cfg) (cancel_at c startup_boot) in
  if finished then Some (bo_now b) else None.

(** [select { case <-event: case <-ctx.Done(): }]. *)
Definition wait_for (event : option Z) (deadline : Z) : M W unit :=
  until (match event with Some t => Z.min t deadline | None => deadline end).
(** [server.Shutdown]: the listeners close at once; an error when the deadline passes
    with requests still running. *)
Definition Shutdown (deadline : Z) : M W (option err) :=
  w <- gets id ;;
  match pr_server w with Some s => set_server (mkServer (sv_Addr s) (sv_ReadHeaderTimeout s) (sv_WriteTimeout s) false) | None => ret tt end ;;
  wait_for (ou_idle_at o) deadline ;; emit ShutServer ;;
  ret (match ou_idle_at o with
       | Some t => if bool_decide (t <= Z.max (pr_now w) deadline) then None else Some (Sentinel DeadlineExceeded)
       | None => Some (Sentinel DeadlineExceeded)
       end).
(** [pool.Stop]; [false]: it never returns, a worker does not end. *)
Definition Stop : M W bool :=
  w <- gets id ;;
  match pr_pool w with
  | None => ret true
  | Some p =>
      if negb (po_started p) || po_stopped p then ret true
      else set_pool (mkPool (po_size p) (po_started p) true) ;;
           match ou_workers_done_at o with
           | Some t => until t ;; emit StoppedPool ;; ret true
           | None => ret false
           end
  end.
Definition Close : M W (option err) :=
  w <- gets id ;;
  match pr_db w with
  | None => ret None
  | Some d =>
      set_db (mkSqlDB (hd_params d) (hd_maxOpen d) (hd_maxIdle d) (hd_maxLifetime d) (hd_maxIdleTime d) true) ;;
      until (pr_now w + Z.of_N (ou_close_takes o)) ;; emit ClosedDB ;; ret (ou_Close o)
  end.
Definition when (b : bool) (m : M W unit) : M W unit := if b then m else ret tt.

(** [ctx] is the deadline of the caller's context. [None]: it never returns. *)
Definition shutdown (cfg : config) (a : app) (ctx : option Z) : M W (option errs) :=
  now <- gets pr_now ;;
  let deadline := match ctx with Some c => Z.min c (now + 30 * Second) | None => now + 30 * Second end in
  when (ap_analyticsCancel a) (set_analytics Cancelled ;; emit CancelledAnalytics) ;;
  when (ap_reaperCancel a) (set_reaper Cancelled ;; emit CancelledReaper) ;;
  when (ap_startupCancel a) (set_startup Cancelled ;; emit CancelledStartup) ;;
  when (ap_startupDone a) (wait_for (startup_done_at cfg now) deadline ;; emit WaitedStartup) ;;
  e1 <- (if ap_server a then Shutdown deadline else ret None) ;;
  stopped <- (if ap_pool a then Stop else ret true) ;;
  if (stopped : bool) then
    e2 <- (if ap_db a then Close else ret None) ;;
    ret (Some (match e1 with Some e => [Wrap "server shutdown" e] | None => [] end ++
               match e2 with Some e => [Wrap "db close" e] | None => [] end))
  else ret None.

(** ** The process (main.go) *)

(** [serve]: [ErrServerClosed] is swallowed. *)
Definition serve (e : serve_end) : errs := match e with ErrServerClosed => [] | ServeFailed e => [e] end.
Definition newListener (addr : string) : M W (option err) :=
  match ou_Listen o addr with
  | Some e => ret (Some e)
  | None =>
      w <- gets id ;;
      match pr_server w with
      | Some s => set_server (mkServer (sv_Addr s) (sv_ReadHeaderTimeout s) (sv_WriteTimeout s) true)
      | None => ret tt
      end ;; emit Listening ;; ret None
  end.

Definition run_config (cfg : config) : M W (option errs) :=
  match validate cfg with
  | Some e => ret (Some [e])
  | None =>
      r <- newAppWithDeps cfg ;;
      match r with
      | Err e => ret (Some [e])
      | Ok a =>
          l <- newListener (HTTPAddr cfg) ;;
          match l with
          | Some e => ret (Some [e])
          | None =>
              until (ou_stop_at o) ;;
              match ou_stop o with
              | ServeEnds e => d <- shutdown cfg a None ;; ret (match d with Some _ => Some (serve e) | None => None end)
              | Signal => shutdown cfg a None
              end
          end
      end
  end.
Definition run (LookupEnv : string -> option string) (ParseDuration : string -> option Z)
    (parse_flags : list string -> config -> result err config) (args : list string) : M W (option errs) :=
  match loadConfig LookupEnv ParseDuration parse_flags args with
  | Err e => ret (Some [e])
  | Ok cfg => run_config cfg
  end.
End Process.

(** [main]: any error becomes the exit status 1. *)
Definition exit_status (es : errs) : Z := match es with [] => 0 | _ => 1 end.
End Lifecycle.
