(* ===== verification/LifecycleLaws.v ===== *)
(** A process that served releases everything it opened, the database last; a start
    that fails says so, and leaves exactly what its failure reached. *)
From S2P Require Import Prelude GoErr Db Startup StartupLaws Lifecycle.
Import Lifecycle.
#[local] Open Scope Z_scope.

(** No request is accepted, no loop runs, no worker, and the database is closed. *)
Record released (w : process) : Prop := {
  rl_db : exists d, pr_db w = Some d /\ hd_closed d = true;
  rl_pool : exists p, pr_pool w = Some p /\ po_stopped p = true;
  rl_server : exists s, pr_server w = Some s /\ sv_listening s = false;
  rl_loops : pr_analytics w = Cancelled /\ pr_reaper w = Cancelled /\ pr_startup w = Cancelled }.
Record live (w : process) : Prop := {
  lv_db : exists d, pr_db w = Some d /\ hd_closed d = false;
  lv_pool : exists p, pr_pool w = Some p /\ po_started p = true /\ po_stopped p = false;
  lv_server : exists s, pr_server w = Some s }.
Definition whole_app : app := mkApp true true true true true true true.
Definition closing : list event :=
  [CancelledAnalytics; CancelledReaper; CancelledStartup; WaitedStartup; ShutServer; StoppedPool; ClosedDB].
Definition starting : list event := [OpenedDB; StartedPool; StartedAnalytics; StartedReaper; StartedStartup].

(** The listener was opened. *)
Definition served (w : process) : bool := existsb (fun e => bool_decide (e = Listening)) (pr_log w).

Section Laws.
Context (o : outside) {P : Type} (Resume : M P (result err Z)) (startup_fuel : nat) (startup_boot : boot P).
Notation shutdown := (shutdown o Resume startup_fuel startup_boot).
Notation run_config := (run_config o Resume startup_fuel startup_boot).
Notation run := (run o Resume startup_fuel startup_boot).

(** The requests were answered by the deadline and the database closed cleanly. *)
Definition clean (now : Z) : Prop :=
  (exists t, ou_idle_at o = Some t /\ t <= now + 30 * Second) /\ ou_Close o = None.
Lemma shutdown_spec cfg w : live w ->
  let '(r, w') := shutdown cfg whole_app None w in
  match ou_workers_done_at o with
  | None => r = None /\ pr_db w' = pr_db w
  | Some t => exists es, r = Some es /\ (es = [] <-> clean (pr_now w)) /\ released w' /\
      pr_log w' = pr_log w ++ closing /\
      pr_now w' <= Z.max (pr_now w + 30 * Second) t + Z.of_N (ou_close_takes o)
  end.
Proof.
  intros [(d & Hd & _) (p & Hp & Hst & Hsp) (s & Hs)]. unfold Lifecycle.shutdown, Shutdown, Stop, Close, wait_for, whole_app.
  go_simpl. rewrite Hs. simpl. rewrite Hp. simpl. rewrite Hst, Hsp. simpl.
  destruct (ou_workers_done_at o) as [t|]; [|done]. simpl. rewrite Hd. simpl.
  assert (0 <= 30 * Second) by (unfold Second; lia). unfold Second in *.
  set (x := match startup_done_at _ _ _ _ _ with Some _ => _ | None => _ end).
  assert (Hx : x <= pr_now w + 30 * 1000000000) by (subst x; destruct (startup_done_at _ _ _ _ _); lia).
  eexists. split; [done|]. split_and!.
  - unfold clean, Second. destruct (ou_idle_at o) as [i|]; [case_bool_decide as Hi|]; destruct (ou_Close o); simpl;
      (split; [intros Hc; simplify_eq|intros [(i' & ? & ?) ?]; simplify_eq; try done; lia]).
    split; [exists i; split; [done|lia]|done].
  - split; simpl; [by eexists|by eexists|by eexists|done].
  - by rewrite <- !List.app_assoc.
  - destruct (ou_idle_at o); lia.
Qed.

Lemma newAppWithDeps_spec cfg now : validate cfg = None ->
  let '(r, w) := newAppWithDeps o cfg (fresh now) in
  pr_now w = now /\
  match r with
  | Ok a => a = whole_app /\ live w /\ pr_log w = starting /\ po_size <$> pr_pool w = Some (WorkerPoolSize cfg) /\
      pr_db w ≫= hd_maxOpen = Some (DBMaxOpenConns cfg)
  | Err _ => pr_log w = [] \/ pr_log w = [OpenedDB; StartedPool; StartedAnalytics; CancelledAnalytics]
  end.
Proof.
  intros Hv. apply first_violation_none in Hv. unfold checks in Hv. repeat (apply Forall_cons in Hv as [? Hv]). cbn [fst] in *.
  unfold newAppWithDeps, buildObs, openDB. go_simpl. destruct (ou_ParseConfig o (PGDSN cfg)) as [params|]; simpl; [|by auto].
  simpl. unfold NewHTTPClient. match goal with H : bool_decide (LightRAGBaseURL cfg = _) = false |- _ => rewrite H end.
  unfold newPool. match goal with H : bool_decide (WorkerPoolSize cfg < 1) = false |- _ => rewrite H end.
  match goal with H : bool_decide (DBMaxOpenConns cfg < 1) = false |- _ => apply bool_decide_eq_false in H end.
  rewrite (bool_decide_true (DBMaxOpenConns cfg > 0)) by lia.
  destruct (NewVerifier _ _); simpl; [by auto|]. generalize (pgConnConfig params cfg). intros ps.
  split; [done|]. split; [done|]. split.
  - split; simpl; [destruct (bool_decide (DBMaxIdleConns cfg > 0))| |]; by eexists.
  - split; [done|]. split; [done|]. by destruct (bool_decide (DBMaxIdleConns cfg > 0)).
Qed.

Lemma run_config_spec cfg now :
  let '(r, w) := run_config cfg (fresh now) in
  let stopping := Z.max now (ou_stop_at o) in
  match r with
  | None => ou_workers_done_at o = None /\ exists d, pr_db w = Some d /\ hd_closed d = false
  | Some es =>
      if served w
      then released w /\ pr_log w = starting ++ [Listening] ++ closing /\
           (ou_stop o = Signal -> es = [] <-> clean stopping) /\
           exists t, ou_workers_done_at o = Some t /\
             pr_now w <= Z.max (stopping + 30 * Second) t + Z.of_N (ou_close_takes o)
      else es <> [] /\ pr_now w = now /\
           pr_log w ∈ [[]; [OpenedDB; StartedPool; StartedAnalytics; CancelledAnalytics]; starting]
  end.
Proof.
  unfold Lifecycle.run_config. destruct (validate cfg) eqn:Hv.
  { split_and!; [done..|]. set_solver. }
  pose proof (newAppWithDeps_spec cfg now Hv) as Ha. run_goal. destruct r as [a|e]; unfold ret; cbv zeta.
  2:{ destruct Ha as [Hn [Hl|Hl]]; unfold served; rewrite Hl; (split_and!; [done..|set_solver]). }
  destruct Ha as (Hn & -> & Hlive & Hl & _). unfold newListener. destruct (ou_Listen o (HTTPAddr cfg)) as [e|].
  { unfold served. go_simpl. rewrite Hl. split_and!; [done..|set_solver]. }
  destruct Hlive as [(d & Hd & Hopen) (p & Hp & Hpool) (s & Hs)]. go_simpl. rewrite Hs. simpl.
  set (w1 := mkProcess (Z.max _ _) _ _ _ _ _ _ _ _).
  pose proof (shutdown_spec cfg w1 ltac:(split; simpl; eauto)) as Hd1.
  destruct (Lifecycle.shutdown o Resume startup_fuel startup_boot cfg whole_app None w1) as [r w'] eqn:Hrun.
  assert (Hnow : pr_now w1 = Z.max (pr_now w) (ou_stop_at o)) by done. assert (Hlog : pr_log w1 = starting ++ [Listening]) by (simpl; by rewrite Hl).
  assert (Hdb1 : pr_db w1 = Some d) by done. clearbody w1. rewrite Hnow, Hlog in Hd1.
  destruct (ou_workers_done_at o) as [t|] eqn:Ht.
  - destruct Hd1 as (es & -> & Hes & Hrel & Hlg & Htime).
    destruct (ou_stop o) eqn:Hst; simpl; rewrite Hrun; simpl; unfold served; rewrite Hlg; (split_and!; [done|done|done|by eexists]).
  - destruct Hd1 as [-> Hdb]. destruct (ou_stop o); simpl; rewrite Hrun; simpl; (split; [done|]; exists d; by rewrite Hdb).
Qed.

(** C31: what one run of the process leaves behind, whatever the environment, the
    flags, the database, the identity provider and the network do. If the listener was
    opened, then the run ends only through the orderly shutdown: the loops are
    cancelled and the wait for the database ended, then requests drain, then the
    workers finish their jobs, and only then the database is closed; nothing is left
    running, it takes at most 30 seconds beyond the workers' last job and the closing
    of the database, and after a signal it reports success exactly when the requests
    drained in time and the database closed. A run that never served reports an error,
    with nothing opened, or stopped at the identity provider or at the listener. Only a
    job that never ends keeps a run from returning, with the database open under it. *)
Theorem run_releases LookupEnv ParseDuration parse_flags args now :
  let '(r, w) := run LookupEnv ParseDuration parse_flags args (fresh now) in
  let stopping := Z.max now (ou_stop_at o) in
  match r with
  | None => ou_workers_done_at o = None /\ exists d, pr_db w = Some d /\ hd_closed d = false
  | Some es =>
      if served w
      then released w /\ pr_log w = starting ++ [Listening] ++ closing /\
           (ou_stop o = Signal -> es = [] <-> clean stopping) /\
           exists t, ou_workers_done_at o = Some t /\
             pr_now w <= Z.max (stopping + 30 * Second) t + Z.of_N (ou_close_takes o)
      else es <> [] /\ pr_now w = now /\
           pr_log w ∈ [[]; [OpenedDB; StartedPool; StartedAnalytics; CancelledAnalytics]; starting]
  end.
Proof.
  unfold Lifecycle.run. destruct (loadConfig _ _ _ _) as [cfg|e]; [apply run_config_spec|].
  split_and!; [done..|]. set_solver.
Qed.
End Laws.

(** * Concrete runs *)

Definition all_down (now : Z) : boot unit :=
  mkBoot now None [] [] (mkGate false 0 None) (mkDatabase untouched untouched untouched (replicate 50 down)) tt.
Definition outside_of (provider : option err) (done_at : option Z) : outside :=
  mkOutside (fun _ => Some ∅) (fun _ => provider) (fun _ => None) Signal (20 * Second)
    (Some (21 * Second)) done_at 1000000000 None.
Definition default_run (o : outside) : option errs * process :=
  run o no_jobs 10 (all_down 0) dsn_and_url (fun _ => None) (fun _ c => Ok c) [] (fresh 0).
(** A signal 20 seconds into an outage of Postgres: the wait sleeping from the 14th to
    the 30th second ends at once, a request until the 21st and a job until the 22nd
    second finish, and the database closes. *)
Example run_releases_during_outage : let q := default_run (outside_of None (Some (22 * Second))) in
  (q.1, pr_now q.2, pr_log q.2) = (Some [], 23 * Second, starting ++ [Listening] ++ closing).
Proof. vm_compute. reflexivity. Qed.
(** An item that never ends: the 30 seconds do not cap the stop of the pool. *)
Example stop_waits_for_the_job : (default_run (outside_of None None)).1 = None.
Proof. vm_compute. reflexivity. Qed.
(** OIDC discovery fails: the analytics loop is cancelled, the workers run on over an
    open database while the error is returned. *)
Example discovery_failure : let q := default_run (outside_of (Some NetError) None) in
  (q.1, pr_log q.2, po_stopped <$> pr_pool q.2, hd_closed <$> pr_db q.2)
  = (Some [Wrap "auth: discover issuer" NetError], [OpenedDB; StartedPool; StartedAnalytics; CancelledAnalytics],
     Some false, Some false).
Proof. vm_compute. reflexivity. Qed.
