(* ===== verification/Eval.v ===== *)
(** The evaluation of memory retrieval ([eval/loader.go], [eval/scoring.go],
    [eval/client.go], [cmd/eval/main.go]): golden cases and seed corpus, the scores
    of a case, and the run that ends in the pass or fail of a CI job.

    The arithmetic of scores is a class with two instances: exact rationals, and the
    binary64 numbers of the code as the Standard Library specifies them.  The server
    under evaluation, JSON and the file system are parameters; a file is its outcome
    of reading and, inside, of decoding. *)
From S2P Require Import Prelude GoErr GoStr JobStore LightragHttp Translate CodeService Web HttpApi.
From Stdlib Require Import QArith SpecFloat.
#[local] Open Scope Z_scope.

(** * Numbers *)

Class Num (F : Type) := {
  of_int : Z -> F; fadd : F -> F -> F; fmul : F -> F -> F; fdiv : F -> F -> F;
  feqb : F -> F -> bool; fltb : F -> F -> bool; fleb : F -> F -> bool }.
#[global] Instance exact : Num Q := {
  of_int := inject_Z; fadd := Qplus; fmul := Qmult; fdiv := Qdiv; feqb := Qeq_bool;
  fltb := fun x y => negb (Qle_bool y x); fleb := Qle_bool }.
#[global] Instance binary64 : Num spec_float := {
  of_int := fun z => binary_normalize 53 1024 z 0 false;
  fadd := SFadd 53 1024; fmul := SFmul 53 1024; fdiv := SFdiv 53 1024; feqb := SFeqb;
  fltb := SFltb; fleb := SFleb }.

(** * Scoring a list of results against expected entries

    The two evaluations share the shape; [hit r e] says that the result [r]
    satisfies the expected entry [e]. *)

Definition topK {R} (k : Z) (l : list R) : list R :=
  if bool_decide (0 <= k) && bool_decide (k < Z.of_nat (length l)) then take (Z.to_nat k) l else l.
Section Scoring.
Context {R F : Type} `{Num F} (hit : R -> string -> bool).
Definition any_hits (rs : list R) (expected : string) : bool := existsb (fun r => hit r expected) rs.
Definition satisfies (expected : list string) (r : R) : bool := existsb (hit r) expected.
Definition hits_in (expected : list string) (window : list R) : Z := count (any_hits window) expected.
Definition fraction (a b : Z) : F := if bool_decide (b = 0) then of_int 0 else fdiv (of_int a) (of_int b).
Definition recall_of (expected : list string) (window : list R) : F :=
  fraction (hits_in expected window) (Z.of_nat (length expected)).
(** [i]: the index of the first result of the list. *)
Fixpoint reciprocal_rank (i : Z) (expected : list string) (rs : list R) : F :=
  match rs with
  | [] => of_int 0
  | r :: rs => if satisfies expected r then fdiv (of_int 1) (of_int (i + 1))
               else reciprocal_rank (i + 1) expected rs
  end.
End Scoring.
(** [for _, s := range scores { sum += f(s) }], from 0. *)
Definition fsum {F X} `{Num F} (f : X -> F) (l : list X) : F := foldl (fun acc x => fadd acc (f x)) (of_int 0) l.
Definition mean {F X} `{Num F} (f : X -> F) (l : list X) : F := fdiv (fsum f l) (of_int (Z.of_nat (length l))).

(** * Directories of JSON files *)

(** What reading a file and decoding its text come to. *)
Record file (A : Type) := mkFile { fi_name : string; fi_data : result err (option A) }.
Arguments mkFile {A} _ _.
Arguments fi_name {A} _.
Arguments fi_data {A} _.
Definition blank (s : string) : bool := bool_decide (TrimSpace s = ""%string).
(** Appends the entries of the files, refusing a key met before. *)
Fixpoint add_all {A} (key : A -> string) (l : list A) (seen : gset string) (all : list A) :
    result err (gset string * list A) :=
  match l with
  | [] => Ok (seen, all)
  | x :: l => if bool_decide (key x ∈ seen) then Err (Errorf "eval: duplicate (across files)")
              else add_all key l ({[key x]} ∪ seen) (all ++ [x])
  end.
Fixpoint load_files {A B} (key : B -> string) (parse : option A -> result err (list B)) (fs : list (file A))
    (seen : gset string) (all : list B) : result err (list B) :=
  match fs with
  | [] => Ok all
  | f :: fs =>
      match fi_data f with
      | Err e => Err (Wrap "eval: read" e)
      | Ok data =>
          match parse data with
          | Err e => Err (Wrap "eval" e)
          | Ok cases =>
              match add_all key cases seen all with
              | Err e => Err e
              | Ok (seen, all) => load_files key parse fs seen all
              end
          end
      end
  end.
Definition load_dir {A B} (key : B -> string) (parse : option A -> result err (list B)) (glob : result err (list (file A))) :
    result err (list B) :=
  match glob with
  | Err e => Err (Wrap "eval: glob" e)
  | Ok [] => Err (Errorf "eval: no files")
  | Ok fs => load_files key parse fs ∅ []
  end.

(** * Golden cases and seed items (eval/loader.go) *)

Module Eval.

Record GoldenCase := mkGolden {
  gc_Name : string; gc_Query : string; gc_Mode : string; gc_TopK : Z; gc_Expected : list string }.
Definition validate (c : GoldenCase) : option err :=
  if blank (gc_Name c) then Some (Errorf "golden case missing name")
  else if blank (gc_Query c) then Some (Errorf "golden case missing query")
  else if negb (Valid (gc_Mode c)) then Some (Errorf "golden case invalid mode")
  else if bool_decide (gc_TopK c < 0) then Some (Errorf "golden case top_k must be non-negative")
  else if bool_decide (gc_Expected c = []) then Some (Errorf "golden case missing expected")
  else if existsb blank (gc_Expected c) then Some (Errorf "golden case has a blank expected entry")
  else None.
Definition normalize (c : GoldenCase) : GoldenCase :=
  let k := if bool_decide (gc_TopK c = 0) then defaultTopK else gc_TopK c in
  mkGolden (gc_Name c) (gc_Query c) (gc_Mode c) (if bool_decide (k > maxTopK) then maxTopK else k) (gc_Expected c).
Fixpoint parse_cases (seen : gset string) (l : list GoldenCase) : result err (list GoldenCase) :=
  match l with
  | [] => Ok []
  | c :: l =>
      match validate c with
      | Some e => Err e
      | None =>
          if bool_decide (gc_Name c ∈ seen) then Err (Errorf "duplicate golden case name")
          else match parse_cases ({[gc_Name c]} ∪ seen) l with
               | Err e => Err e
               | Ok l => Ok (normalize c :: l)
               end
      end
  end.
Definition parseGolden (data : option (list GoldenCase)) : result err (list GoldenCase) :=
  match data with None => Err (Errorf "parse golden") | Some cases => parse_cases ∅ cases end.
Definition loadGolden (glob : result err (list (file (list GoldenCase)))) : result err (list GoldenCase) :=
  load_dir gc_Name parseGolden glob.

Fixpoint check_items (seen : gset string) (l : list IngestItem) : option err :=
  match l with
  | [] => None
  | it :: l =>
      if blank (it_IdempotencyKey it) then Some (Errorf "seed item missing idempotency_key")
      else if blank (it_Text it) then Some (Errorf "seed item missing text")
      else if bool_decide (it_IdempotencyKey it ∈ seen) then Some (Errorf "duplicate seed key")
      else check_items ({[it_IdempotencyKey it]} ∪ seen) l
  end.
Definition parseSeed (data : option (list IngestItem)) : result err (list IngestItem) :=
  match data with
  | None => Err (Errorf "parse seed")
  | Some items => match check_items ∅ items with Some e => Err e | None => Ok items end
  end.
Definition loadSeed (glob : result err (list (file (list IngestItem)))) : result err (list IngestItem) :=
  load_dir it_IdempotencyKey parseSeed glob.

(** * Scores (eval/scoring.go) *)

Definition containsFold (haystack needle : string) : bool := Contains (ToLower haystack) (ToLower needle).
Definition MatchHits (m : QueryMatch) (expected : string) : bool :=
  containsFold (qm_Text m) expected || containsFold (qm_ID m) expected.
(** [sort.SliceStable] by descending score. *)
Fixpoint insert_desc (m : QueryMatch) (l : list QueryMatch) : list QueryMatch :=
  match l with
  | [] => [m]
  | x :: l => if Qle_bool (qm_Score x) (qm_Score m) then m :: x :: l else x :: insert_desc m l
  end.
Definition byScoreDesc (l : list QueryMatch) : list QueryMatch := foldr insert_desc [] l.

Section Scores.
Context {F : Type} `{Num F}.
Record Score := mkScore {
  sc_Name : string; sc_Mode : string; sc_K : Z; sc_Hits : Z; sc_Expected : Z; sc_RecallAtK : F; sc_MRR : F }.
Record Summary := mkSummary { su_Cases : Z; su_MeanRecallAtK : F; su_MeanMRR : F }.
Definition RecallAtK (c : GoldenCase) (matches : list QueryMatch) (k : Z) : F :=
  if bool_decide (gc_Expected c = []) then of_int 0
  else recall_of MatchHits (gc_Expected c) (topK k (byScoreDesc matches)).
Definition MRR (c : GoldenCase) (matches : list QueryMatch) : F :=
  reciprocal_rank MatchHits 0 (gc_Expected c) (byScoreDesc matches).
Definition ScoreCase (c : GoldenCase) (matches : list QueryMatch) (k : Z) : Score :=
  let ranked := byScoreDesc matches in
  let window := topK k ranked in
  mkScore (gc_Name c) (gc_Mode c) k (hits_in MatchHits (gc_Expected c) window) (Z.of_nat (length (gc_Expected c)))
    (recall_of MatchHits (gc_Expected c) window) (reciprocal_rank MatchHits 0 (gc_Expected c) ranked).
Definition Summarize (scores : list Score) : Summary :=
  match scores with
  | [] => mkSummary 0 (of_int 0) (of_int 0)
  | _ => mkSummary (Z.of_nat (length scores)) (mean sc_RecallAtK scores) (mean sc_MRR scores)
  end.
End Scores.
Arguments Score F : clear implicits.
Arguments Summary F : clear implicits.

(** * The client (eval/client.go) *)

(** The deployment under evaluation and the process around the run: requests (method,
    URL, headers, body; a failure to read the answer is one of the request), the
    clock, a wait that the context may cut short ([false]), the metrics file, the
    push receiver (its failures are only logged). *)
Class Remote (W : Type) := {
  http_Do : string -> string -> gmap string string -> option string -> M W (result err (Z * string));
  clock : W -> Z;
  time_After : Z -> M W bool;
  WriteFile : string -> M W (option err);
  Post : string -> string -> M W unit;       (* what it comes to is only logged *)
  env_HOSTNAME : M W string; os_Hostname : M W string }.
(** JSON and URL escaping. *)
Class Codec := {
  marshal_items : list IngestItem -> string; marshal_query : Query -> string;
  unmarshal_job : string -> option IngestJob; unmarshal_result : string -> option QueryResult;
  PathEscape : string -> string; QueryEscape : string -> string }.

(** A gauge in the text-exposition format of Prometheus. *)
Definition line (parts : list string) : string := String.append (String.concat "" parts) (String (Ascii.ascii_of_nat 10) "").
Definition gauge (name help labels value : string) : string :=
  String.concat "" [line ["# HELP "; name; " "; help]; line ["# TYPE "; name; " gauge"]; line [name; labels; " "; value]]%string.
Definition k_label (k : Z) : string := String.concat "" ["{k="; quoted (itoa k); "}"]%string.
Definition evalPushJob : string := "memory-eval".
(** [url.Values.Encode] sorts the keys. *)
Definition buildPushURL `{Codec} (base runID job pod : string) : string :=
  let q := String.append (String.append "job=" (QueryEscape job))
             (String.append (if bool_decide (pod <> ""%string) then String.append "&pod=" (QueryEscape pod) else ""%string)
                (String.append "&run_id=" (QueryEscape runID))) in
  String.append base (String.append (if Contains base "?" then "&" else "?") q).
Definition hostname {W} `{Remote W} : M W string :=
  h <- env_HOSTNAME ;; if bool_decide (h <> ""%string) then ret h else os_Hostname.

Fixpoint drop_slashes (l : list Ascii.ascii) : list Ascii.ascii :=
  match l with
  | c :: l' => if bool_decide (c = Ascii.ascii_of_nat 47) then drop_slashes l' else l
  | [] => []
  end.
(** [strings.TrimRight(s, "/")]. *)
Definition TrimRightSlash (s : string) : string :=
  String.string_of_list_ascii (reverse (drop_slashes (reverse (String.list_ascii_of_string s)))).

Record ClientConfig := mkClient { cl_baseURL : string; cl_token : string; cl_pollInterval : Z; cl_jobTimeout : Z }.
Definition NewClient (baseURL token : string) (pollInterval jobTimeout : Z) : result err ClientConfig :=
  if blank baseURL then Err (Errorf "eval: base url required")
  else Ok (mkClient (TrimRightSlash baseURL) token
             (if bool_decide (pollInterval <= 0) then 2 * Second else pollInterval)
             (if bool_decide (jobTimeout <= 0) then 5 * Minute else jobTimeout)).

Section Client.
Context {W : Type} `{Remote W, Codec} (c : ClientConfig).
Definition maxRespBody : Z := 8388608.
Definition LimitReader (body : string) : string :=
  if bool_decide (Z.of_nat (String.length body) <= maxRespBody) then body
  else String.substring 0 (Z.to_nat maxRespBody) body.
Definition headers (has_body : bool) : gmap string string :=
  let h : gmap string string := {["Accept" := "application/json"]} in
  let h := if bool_decide (cl_token c = ""%string) then h
           else <["Authorization" := String.append "Bearer " (cl_token c)]> h in
  if has_body then <["Content-Type" := "application/json"]> h else h.
Definition doJSON {X} (method p : string) (body : option string) (decode : string -> option X) : M W (result err X) :=
  r <- http_Do method (String.append (cl_baseURL c) p) (headers (bool_decide (is_Some body))) body ;;
  ret (match r with
       | Err e => Err (Wrap "eval" e)
       | Ok (status, text) =>
           if bool_decide (status < 200) || bool_decide (status >= 300) then Err (Errorf "eval: status")
           else match decode (LimitReader text) with
                | None => Err (Errorf "eval: decode")
                | Some x => Ok x
                end
       end).
Definition BulkIngest (items : list IngestItem) : M W (result err string) :=
  if bool_decide (items = []) then ret (Err (Errorf "eval: no seed items to ingest"))
  else
    try job <- doJSON "POST" "/memories:bulk" (Some (marshal_items items)) unmarshal_job in
    ret (if bool_decide (j_ID job = ""%string) then Err (Errorf "eval: bulk ingest returned empty job id")
         else Ok (j_ID job)).
(** [None]: still polling after [fuel] requests. *)
Fixpoint wait_job (fuel : nat) (deadline : Z) (id : string) : M W (option (result err IngestJob)) :=
  match fuel with
  | O => ret None
  | S fuel =>
      r <- doJSON "GET" (String.append "/ingest-jobs/" (PathEscape id)) None unmarshal_job ;;
      match r with
      | Err e => ret (Some (Err e))
      | Ok job =>
          if Terminal (j_Status job) then ret (Some (Ok job))
          else
            now <- gets clock ;;
            if bool_decide (now > deadline) then ret (Some (Err (Errorf "eval: job not terminal within")))
            else
              woke <- time_After (cl_pollInterval c) ;;
              if (woke : bool) then wait_job fuel deadline id else ret (Some (Err (Sentinel Canceled)))
      end
  end.
Definition WaitJob (fuel : nat) (id : string) : M W (option (result err IngestJob)) :=
  now <- gets clock ;; wait_job fuel (now + cl_jobTimeout c) id.
Definition client_Query (q : Query) : M W (result err QueryResult) :=
  doJSON "POST" "/queries:data" (Some (marshal_query q)) unmarshal_result.
End Client.

(** * The run (cmd/eval/main.go) *)

Section Run.
Context {W F : Type} `{Remote W, Codec, Num F}.
Record config := mkConfig {
  co_baseURL : string; co_token : string; co_recallFloor : F; co_k : Z; co_metricsFile : string;
  co_pushURL : string; co_runID : string; co_goldenDir : string; co_seedDir : string; co_jobTimeout : Z }.
Definition check_config (c : config) : option err :=
  if blank (co_baseURL c) then Some (Errorf "base-url is required")
  else if fltb (co_recallFloor c) (of_int 0) || fltb (of_int 1) (co_recallFloor c)
  then Some (Errorf "recall-floor must be in [0,1]")
  else if bool_decide (co_k c < 1) then Some (Errorf "k must be >= 1")
  else None.
(** [os.Getenv], [strconv.ParseFloat], [time.ParseDuration], and [FlagSet.Parse],
    which overrides fields by the flags it finds.  A value that does not parse is
    ignored. *)
Definition envDefault (getenv : string -> string) (key def : string) : string :=
  if bool_decide (getenv key = ""%string) then def else getenv key.
Definition env_parsed {X} (getenv : string -> string) (parse : string -> option X) (key : string) (def : X) : X :=
  if bool_decide (getenv key = ""%string) then def else default def (parse (getenv key)).
Definition parseConfig (getenv : string -> string) (ParseFloat : string -> option F) (ParseDuration : string -> option Z)
    (parse_flags : list string -> config -> result err config) (args : list string) : result err config :=
  let def := mkConfig (getenv "MEMORY_BASE_URL") (getenv "MEMORY_TOKEN")
    (env_parsed getenv ParseFloat "EVAL_RECALL_FLOOR" (fdiv (of_int 7) (of_int 10)))
    (env_parsed getenv Atoi "EVAL_K" 10) (getenv "EVAL_METRICS_FILE") (getenv "EVAL_PUSH_URL")
    (envDefault getenv "EVAL_RUN_ID" "memory-eval") (getenv "EVAL_GOLDEN_DIR") (getenv "EVAL_SEED_DIR")
    (env_parsed getenv ParseDuration "EVAL_JOB_TIMEOUT" (5 * Minute)) in
  match parse_flags args def with
  | Err e => Err e
  | Ok cfg => match check_config cfg with Some e => Err e | None => Ok cfg end
  end.
(** [fmt.Sprintf] of a number with the verb g. *)
Context (format_g : F -> string).
Definition buildExposition (sum : Summary F) (k : Z) (floor : F) (pass : bool) : string :=
  String.concat "" [
    gauge "memory_eval_recall_at_k" "Mean recall@k over the golden set." (k_label k) (format_g (su_MeanRecallAtK sum));
    gauge "memory_eval_mrr" "Mean reciprocal rank over the golden set." "" (format_g (su_MeanMRR sum));
    gauge "memory_eval_cases" "Number of golden cases evaluated." "" (itoa (su_Cases sum));
    gauge "memory_eval_recall_floor" "Configured pass/fail floor for recall@k." "" (format_g floor);
    gauge "memory_eval_pass" "1 when mean recall@k met the floor, else 0." "" (if pass then "1" else "0")]%string.
Definition pushAggregateMetrics (cfg : config) (exposition : string) : M W unit :=
  pod <- hostname ;; Post (buildPushURL (co_pushURL cfg) (co_runID cfg) evalPushJob pod) exposition.

(** The query of a case. *)
Definition case_query (c : GoldenCase) : Query := mkQuery (gc_Mode c) (gc_Query c) (gc_TopK c).
Fixpoint score_cases (cl : ClientConfig) (k : Z) (cases : list GoldenCase) : M W (result err (list (Score F))) :=
  match cases with
  | [] => ret (Ok [])
  | c :: cases =>
      r <- client_Query cl (case_query c) ;;
      match r with
      | Err e => ret (Err (Wrap "query case" e))
      | Ok matches =>
          try rest <- score_cases cl k cases in ret (Ok (ScoreCase c matches k :: rest))
      end
  end.
(** [nil], or why the run failed. *)
Definition report (cfg : config) (scores : list (Score F)) : M W (option err) :=
  let sum := Summarize scores in
  let pass := fleb (co_recallFloor cfg) (su_MeanRecallAtK sum) in
  let exposition := buildExposition sum (co_k cfg) (co_recallFloor cfg) pass in
  written <- (if bool_decide (co_metricsFile cfg = ""%string) then ret None else WriteFile exposition) ;;
  match written with
  | Some e => ret (Some (Wrap "write metrics file" e))
  | None =>
      (if bool_decide (co_pushURL cfg = ""%string) then ret tt else pushAggregateMetrics cfg exposition) ;;
      ret (if pass then None else Some (Errorf "aggregate recall below floor"))
  end.
Definition run_eval (fuel : nat) (cfg : config) (golden : result err (list GoldenCase))
    (seed : result err (list IngestItem)) : M W (option (option err)) :=
  match golden with
  | Err e => ret (Some (Some e))
  | Ok golden =>
  match seed with
  | Err e => ret (Some (Some e))
  | Ok seed =>
  match NewClient (co_baseURL cfg) (co_token cfg) 0 (co_jobTimeout cfg) with
  | Err e => ret (Some (Some e))
  | Ok cl =>
      id <- BulkIngest cl seed ;;
      match id with
      | Err e => ret (Some (Some (Wrap "seed ingest" e)))
      | Ok id =>
          w <- WaitJob cl fuel id ;;
          match w with
          | None => ret None
          | Some (Err e) => ret (Some (Some (Wrap "seed ingest wait" e)))
          | Some (Ok job) =>
              if bool_decide (j_Status job = JobStatusFailed) then ret (Some (Some (Errorf "seed ingest job failed")))
              else
                scores <- score_cases cl (co_k cfg) golden ;;
                match scores with
                | Err e => ret (Some (Some e))
                | Ok scores => e <- report cfg scores ;; ret (Some e)
                end
          end
      end
  end end end.
End Run.
Arguments config F : clear implicits.
End Eval.
