(* ===== verification/EvalLaws.v ===== *)
(** The memory evaluation: what a score says, what a loaded case and corpus
    satisfy, when the wait for the ingest job ends, and what a passing run shows. *)
From S2P Require Import Prelude GoErr GoStr JobStore Translate CodeService Web HttpApi Enqueue Eval.
From Stdlib Require Import QArith SpecFloat.
#[local] Open Scope Z_scope.
Import Eval.

(** * Counting hits *)

Section ScoringLaws.
Context {R F : Type} `{Num F} (hit : R -> string -> bool).

Lemma any_hits_spec rs e : any_hits hit rs e = true <-> exists r, r ∈ rs /\ hit r e = true.
Proof.
  unfold any_hits. rewrite existsb_exists. split; intros (r & Hr & He); exists r; (split; [|done]); by apply list_elem_of_In.
Qed.
Lemma any_hits_mono rs rs' e : (forall r, r ∈ rs -> r ∈ rs') -> any_hits hit rs e = true -> any_hits hit rs' e = true.
Proof. rewrite !any_hits_spec. intros Hs (r & Hr & He). eauto. Qed.
Lemma satisfies_spec expected r : satisfies hit expected r = true <-> exists e, e ∈ expected /\ hit r e = true.
Proof.
  unfold satisfies. rewrite existsb_exists. split; intros (e & Hr & He); exists e; (split; [|done]); by apply list_elem_of_In.
Qed.
Lemma hits_bounds expected rs : 0 <= hits_in hit expected rs <= Z.of_nat (length expected).
Proof. unfold hits_in. auto with go. Qed.
Lemma hits_all expected rs :
  hits_in hit expected rs = Z.of_nat (length expected) <-> forall e, e ∈ expected -> exists r, r ∈ rs /\ hit r e = true.
Proof.
  unfold hits_in. split.
  - intros Hc%count_all. rewrite List.Forall_forall in Hc. intros e He. apply any_hits_spec, Hc. by apply list_elem_of_In.
  - intros Ha. unfold count. rewrite (filter_all _ expected); [done|]. rewrite List.Forall_forall. intros e He.
    apply any_hits_spec, Ha. by apply list_elem_of_In.
Qed.
Lemma hits_none expected rs :
  hits_in hit expected rs = 0 <-> forall e r, e ∈ expected -> r ∈ rs -> hit r e = false.
Proof.
  unfold hits_in. split.
  - intros Hc%count_zero. rewrite List.Forall_forall in Hc. intros e r He Hr. apply not_true_is_false. intros Hh.
    assert (any_hits hit rs e = true) by (apply any_hits_spec; eauto).
    assert (any_hits hit rs e = false) by (apply Hc; by apply list_elem_of_In). congruence.
  - intros Ha. apply count_none. intros e He. apply not_true_is_false. intros (r & Hr & Hh)%any_hits_spec.
    rewrite (Ha e r) in Hh; done.
Qed.
Lemma hits_mono expected rs rs' : (forall r, r ∈ rs -> r ∈ rs') -> hits_in hit expected rs <= hits_in hit expected rs'.
Proof.
  intros Hs. unfold hits_in. induction expected as [|e l IH]; [done|]. rewrite !count_cons.
  destruct (any_hits hit rs e) eqn:E; [rewrite (any_hits_mono _ _ _ Hs E); lia|].
  destruct (any_hits hit rs' e); lia.
Qed.

Lemma topK_prefix (k : Z) (l : list R) : topK k l `prefix_of` l.
Proof. unfold topK. case_match; [apply prefix_take|done]. Qed.
Lemma topK_all (k : Z) (l : list R) : ~ (0 <= k < Z.of_nat (length l)) -> topK k l = l.
Proof. intros Hk. unfold topK. repeat case_bool_decide; simpl; [lia|done..]. Qed.
Lemma topK_elem (k : Z) (l : list R) r :
  r ∈ topK k l <-> exists i, l !! i = Some r /\ (0 <= k -> Z.of_nat i < k).
Proof.
  unfold topK. repeat case_bool_decide; simpl.
  1: { rewrite list_elem_of_lookup. split; intros [i Hi]; exists i.
       - apply lookup_take_Some in Hi as [Hi ?]. split; [done|lia].
       - apply lookup_take_Some. destruct Hi. split; [done|lia]. }
  all: rewrite list_elem_of_lookup; split; intros [i Hi]; exists i; try (by destruct Hi); split; try done;
    intros; apply lookup_lt_Some in Hi; lia.
Qed.
Lemma topK_mono (k k' : Z) (l : list R) r : (k' < 0 \/ 0 <= k <= k') -> r ∈ topK k l -> r ∈ topK k' l.
Proof. rewrite !topK_elem. intros Hk (i & Hi & ?). exists i. split; [done|lia]. Qed.

(** The first result that satisfies an entry decides the reciprocal rank. *)
Lemma reciprocal_rank_spec i expected rs :
  (exists n r, rs !! n = Some r /\ satisfies hit expected r = true /\
     (forall m r', (m < n)%nat -> rs !! m = Some r' -> satisfies hit expected r' = false) /\
     reciprocal_rank hit i expected rs = fdiv (of_int 1) (of_int (i + Z.of_nat n + 1))) \/
  (Forall (fun r => satisfies hit expected r = false) rs /\ reciprocal_rank hit i expected rs = of_int 0).
Proof.
  revert i. induction rs as [|r rs IH]; intros i; [right; by repeat constructor|]. cbn [reciprocal_rank].
  destruct (satisfies hit expected r) eqn:E.
  { left. exists 0%nat, r. repeat split; [done|intros; lia|]. by rewrite Z.add_0_r. }
  destruct (IH (i + 1)) as [(n & r' & Hn & Hs & Hb & Hr)|[Hn Hr]]; [left|right; split; [by constructor|done]].
  exists (S n), r'. repeat split; [done|done| |].
  - intros [|m] r2 Hm Hl; simplify_eq/=; [done|]. apply (Hb m r2); [lia|done].
  - rewrite Hr. do 2 f_equal. lia.
Qed.
End ScoringLaws.

(** Exact arithmetic: a fraction of hits lies between 0 and 1, and is 1 exactly when
    all are hit. *)
Section Exact.
Local Open Scope Q_scope.
Lemma fraction_unit (a b : Z) : (0 <= a <= b)%Z -> 0 <= fraction (F := Q) a b <= 1.
Proof.
  intros Hab. unfold fraction. case_bool_decide; [split; discriminate|]. cbn [fdiv of_int exact].
  assert (0 < inject_Z b) by (unfold Qlt; simpl; lia).
  split; [apply Qle_shift_div_l|apply Qle_shift_div_r]; try done.
  - unfold Qle; simpl; lia.
  - unfold Qle; simpl; destruct b; lia.
Qed.
Lemma fraction_one (a b : Z) : b <> 0%Z -> fraction (F := Q) a b == 1 <-> a = b.
Proof.
  intros Hb. unfold fraction. rewrite bool_decide_eq_false_2 by done. cbn [fdiv of_int exact].
  assert (Hn : ~ inject_Z b == 0) by (unfold Qeq; simpl; lia). split.
  - intros Hd. assert (He : inject_Z a == inject_Z b).
    { rewrite <-(Qmult_div_r (inject_Z a) (inject_Z b) Hn), Hd. ring. }
    unfold Qeq in He; simpl in He. lia.
  - intros ->. unfold Qdiv. by apply Qmult_inv_r.
Qed.
Lemma mean_unit {X} (f : X -> Q) (l : list X) :
  l <> [] -> (forall x, x ∈ l -> 0 <= f x <= 1) -> 0 <= mean f l <= 1.
Proof.
  intros Hl Hf. unfold mean, fsum. cbn [fdiv of_int exact fadd].
  assert (Hs : forall l acc, (forall x, x ∈ l -> 0 <= f x <= 1) ->
    acc <= foldl (fun a x => a + f x) acc l <= acc + inject_Z (Z.of_nat (length l))).
  { clear. induction l as [|x l IH]; intros acc Hf; simpl foldl.
    - split; [apply Qle_refl|]. simpl. rewrite Qplus_0_r. apply Qle_refl.
    - destruct (IH (acc + f x) ltac:(intros; apply Hf; by right)) as [H1 H2].
      destruct (Hf x ltac:(by left)) as [H3 H4]. split.
      + eapply Qle_trans; [|exact H1]. rewrite <-(Qplus_0_r acc) at 1. by apply Qplus_le_r.
      + eapply Qle_trans; [exact H2|]. simpl length. rewrite Nat2Z.inj_succ, <-Z.add_1_l, inject_Z_plus, Qplus_assoc.
        apply Qplus_le_l. by apply Qplus_le_r. }
  assert (0 < inject_Z (Z.of_nat (length l))) by (destruct l; [done|]; unfold Qlt; simpl; lia).
  destruct (Hs l (inject_Z 0) Hf) as [H1 H2].
  split; [apply Qle_shift_div_l|apply Qle_shift_div_r]; try done.
  rewrite Qmult_1_l. eapply Qle_trans; [exact H2|]. change (inject_Z 0) with 0. rewrite Qplus_0_l. apply Qle_refl.
Qed.
End Exact.

(** * Ranking by score *)

Definition by_score (a b : QueryMatch) : Prop := (qm_Score b <= qm_Score a)%Q.
Definition scored (q : Q) (m : QueryMatch) : bool := Qeq_bool (qm_Score m) q.
Lemma insert_desc_perm m l : insert_desc m l ≡ₚ m :: l.
Proof. induction l as [|x l IH]; simpl; [done|]. case_match; [done|]. rewrite IH. apply Permutation_swap. Qed.
Lemma byScoreDesc_perm l : byScoreDesc l ≡ₚ l.
Proof. induction l as [|x l IH]; simpl; [done|]. by rewrite insert_desc_perm, IH. Qed.
Lemma insert_desc_sorted m l : StronglySorted by_score l -> StronglySorted by_score (insert_desc m l).
Proof.
  induction l as [|x l IH]; simpl; intros Hs; [by repeat constructor|]. apply StronglySorted_inv in Hs as [Hs Hf].
  destruct (Qle_bool _ _) eqn:E.
  - apply Qle_bool_iff in E. constructor; [by constructor|]. constructor; [done|].
    eapply Forall_impl; [exact Hf|]. intros y Hy. unfold by_score in *. by eapply Qle_trans.
  - assert (Hx : by_score x m).
    { unfold by_score. apply Qlt_le_weak, Qnot_le_lt. intros Hle%Qle_bool_iff. congruence. }
    constructor; [auto|]. rewrite insert_desc_perm. by constructor.
Qed.
Lemma byScoreDesc_sorted l : StronglySorted by_score (byScoreDesc l).
Proof. induction l as [|x l IH]; simpl; [constructor|by apply insert_desc_sorted]. Qed.
(** Stability: among matches of one score the order is that of arrival. *)
Lemma insert_desc_stable q m l :
  List.filter (scored q) (insert_desc m l) = List.filter (scored q) (m :: l).
Proof.
  induction l as [|x l IH]; [done|]. simpl insert_desc. destruct (Qle_bool _ _) eqn:E; [done|].
  simpl in *. rewrite IH. destruct (scored q m) eqn:E1, (scored q x) eqn:E2; try done. exfalso.
  unfold scored in *. apply Qeq_bool_iff in E1, E2.
  assert (Hle : (qm_Score x <= qm_Score m)%Q) by (rewrite E1, E2; apply Qle_refl).
  apply Qle_bool_iff in Hle. congruence.
Qed.
Lemma byScoreDesc_stable q l : List.filter (scored q) (byScoreDesc l) = List.filter (scored q) l.
Proof.
  induction l as [|x l IH]; [done|]. unfold byScoreDesc in *. simpl foldr. rewrite insert_desc_stable. simpl. by rewrite IH.
Qed.
(** A list already in descending order is left as it is: the answers of
    [/queries:data], whose scores fall with the rank. *)
Lemma byScoreDesc_id l : StronglySorted by_score l -> byScoreDesc l = l.
Proof.
  induction 1 as [|x l Hs IH Hf]; [done|]. unfold byScoreDesc in *. simpl. rewrite IH.
  destruct l as [|y l]; [done|]. simpl. apply Forall_inv in Hf. unfold by_score in Hf. apply Qle_bool_iff in Hf. by rewrite Hf.
Qed.
Lemma rank_score_antitone i j : (i <= j)%nat -> (rank_score j <= rank_score i)%Q.
Proof. intros. unfold rank_score, Qle. simpl. lia. Qed.
Lemma chunks_sorted chunks : StronglySorted by_score (queryResultFromChunks chunks).
Proof.
  unfold queryResultFromChunks. generalize 0%nat as n.
  enough (forall n, StronglySorted by_score (imap (fun i ch => mkMatch
     (if bool_decide (ch_chunkID ch = ""%string) then ch_referenceID ch else ch_chunkID ch)
     (rank_score (n + i)) (ch_text ch)) chunks)) by (intros _; exact (H 0%nat)).
  induction chunks as [|ch l IH]; intros n; [constructor|]. simpl. constructor.
  - specialize (IH (S n)). erewrite imap_ext; [exact IH|]. intros i x _. simpl. by rewrite Nat.add_succ_r.
  - apply Forall_lookup. intros i m. rewrite list_lookup_imap. intros (x & ? & ->)%fmap_Some.
    apply rank_score_antitone. lia.
Qed.

(** * Hits *)

(** The relevance oracle: up to letter case, the entry occurs in the text or the ID. *)
Definition relevant (m : QueryMatch) (e : string) : Prop :=
  occurs (ToLower e) (ToLower (qm_Text m)) \/ occurs (ToLower e) (ToLower (qm_ID m)).
Lemma MatchHits_spec m e : MatchHits m e = true <-> relevant m e.
Proof. unfold MatchHits, containsFold, relevant. by rewrite orb_true_iff, !Contains_spec. Qed.
Lemma MatchHits_false m e : MatchHits m e = false <-> ~ relevant m e.
Proof. rewrite <-MatchHits_spec. by destruct (MatchHits m e). Qed.
Lemma irrelevant_to expected m :
  satisfies MatchHits expected m = false <-> forall e, e ∈ expected -> ~ relevant m e.
Proof.
  split.
  - intros Hs e He Hr. assert (satisfies MatchHits expected m = true); [|congruence].
    apply satisfies_spec. exists e. by rewrite MatchHits_spec.
  - intros Hn. apply not_true_is_false. intros (e & He & Hm)%satisfies_spec. apply MatchHits_spec in Hm. by apply (Hn e).
Qed.

(** What an answer is ranked by: its matches, in descending order of score, those of
    one score in the order they arrived. *)
Record ranking_of (matches ranked : list QueryMatch) : Prop := {
  rk_perm : ranked ≡ₚ matches;
  rk_sorted : StronglySorted by_score ranked;
  rk_stable q : List.filter (scored q) ranked = List.filter (scored q) matches }.

Section CaseScore.
Context {F : Type} `{Num F}.

(** The score of a case depends on nothing but the ranking of the matches: all
    expected entries are hit exactly when each occurs in the text or the ID of one of
    the first k, none when none does; recall is hits over entries, the same number
    the separate function computes, and grows with the cutoff; the reciprocal rank is
    that of the first match that any entry occurs in, 0 without one.  The structured
    answers of the service come ranked already. *)
Theorem ScoreCase_spec (c : GoldenCase) (matches : list QueryMatch) (k : Z) :
  gc_Expected c <> [] ->
  exists ranked, ranking_of matches ranked /\
  let s := ScoreCase (F := F) c matches k in
  let found i e := exists n m, ranked !! n = Some m /\ (0 <= i -> Z.of_nat n < i) /\ relevant m e in
  (0 <= sc_Hits s <= sc_Expected s) /\
  (sc_Hits s = sc_Expected s <-> forall e, e ∈ gc_Expected c -> found k e) /\
  (sc_Hits s = 0 <-> forall e, e ∈ gc_Expected c -> ~ found k e) /\
  sc_RecallAtK s = fdiv (of_int (sc_Hits s)) (of_int (Z.of_nat (length (gc_Expected c)))) /\
  sc_RecallAtK s = RecallAtK c matches k /\ sc_MRR s = MRR c matches /\
  (forall k', k' < 0 \/ 0 <= k <= k' -> sc_Hits s <= sc_Hits (ScoreCase (F := F) c matches k')) /\
  ((exists n m e, ranked !! n = Some m /\ e ∈ gc_Expected c /\ relevant m e /\
      (forall i m' e', (i < n)%nat -> ranked !! i = Some m' -> e' ∈ gc_Expected c -> ~ relevant m' e') /\
      sc_MRR s = fdiv (of_int 1) (of_int (Z.of_nat n + 1))) \/
   ((forall m e, m ∈ matches -> e ∈ gc_Expected c -> ~ relevant m e) /\ sc_MRR s = of_int 0)) /\
  (forall chunks, matches = queryResultFromChunks chunks -> ranked = matches).
Proof.
  intros Hne. exists (byScoreDesc matches). split.
  { split; [apply byScoreDesc_perm|apply byScoreDesc_sorted|intros; apply byScoreDesc_stable]. }
  assert (Hfound : forall i e,
    (exists m, m ∈ topK i (byScoreDesc matches) /\ MatchHits m e = true) <->
    exists n m, byScoreDesc matches !! n = Some m /\ (0 <= i -> Z.of_nat n < i) /\ relevant m e).
  { intros i e. setoid_rewrite topK_elem. setoid_rewrite MatchHits_spec. naive_solver. }
  cbv zeta. cbn [ScoreCase sc_Hits sc_Expected sc_RecallAtK sc_MRR].
  split; [apply hits_bounds|]. split; [rewrite hits_all; by setoid_rewrite Hfound|]. split.
  { rewrite hits_none. setoid_rewrite <-Hfound. split.
    - intros Hn e He (m & Hm & Hh). by rewrite Hn in Hh.
    - intros Hn e m He Hm. apply not_true_is_false. intros Hh. apply (Hn e He). eauto. }
  split; [unfold recall_of, fraction; rewrite bool_decide_eq_false_2; [done|destruct (gc_Expected c); done]|].
  split; [unfold RecallAtK; by rewrite bool_decide_eq_false_2|]. split; [done|].
  split; [intros k' Hk; apply hits_mono; intros m; by apply topK_mono|]. split.
  - destruct (reciprocal_rank_spec MatchHits 0 (gc_Expected c) (byScoreDesc matches))
      as [(n & m & Hn & (e & He & Hm)%satisfies_spec & Hb & ->)|[Hn ->]]; [left|right].
    + exists n, m, e. rewrite <-MatchHits_spec. repeat split; [done..|].
      intros i m' e' Hi Hm'. by apply irrelevant_to, (Hb i).
    + split; [|done]. intros m e Hm. apply irrelevant_to. rewrite Forall_forall in Hn. apply Hn.
      by rewrite byScoreDesc_perm.
  - intros chunks ->. apply byScoreDesc_id, chunks_sorted.
Qed.
End CaseScore.

Definition diver : GoldenCase := mkGolden "kafka" "what streams events?" "hybrid" 10 ["Kafka"; "mem-7"]%string.
Definition answers : list QueryMatch := [
  mkMatch "mem-3" (1 # 3) "PostgreSQL stores jobs"; mkMatch "MEM-7" (1 # 3) "";
  mkMatch "mem-1" 1 "NATS"; mkMatch "mem-2" (1 # 2) "apache kafka streams"].
(** Ranked NATS, kafka, PostgreSQL, MEM-7: one of two entries in the first three. *)
Lemma ScoreCase_spec_witness :
  exists ranked, ranking_of answers ranked /\
  let s := ScoreCase (F := Q) diver answers 3 in
  sc_Hits s = 1 /\ sc_RecallAtK s = RecallAtK diver answers 3 /\ (sc_RecallAtK s == 1 # 2)%Q /\ (sc_MRR s == 1 # 2)%Q.
Proof.
  destruct (ScoreCase_spec (F := Q) diver answers 3 ltac:(discriminate)) as (ranked & Hr & _ & _ & _ & _ & He & _).
  exists ranked. split; [exact Hr|]. split; [vm_compute; reflexivity|]. split; [exact He|].
  split; vm_compute; reflexivity.
Defined.

(** In exact arithmetic every score and every mean lies between 0 and 1. *)
Lemma exact_scores (c : GoldenCase) matches k :
  let s := ScoreCase (F := Q) c matches k in
  (0 <= sc_RecallAtK s <= 1)%Q /\ (0 <= sc_MRR s <= 1)%Q /\
  (gc_Expected c <> [] -> (sc_RecallAtK s == 1)%Q <-> sc_Hits s = sc_Expected s).
Proof.
  cbv zeta. cbn [ScoreCase sc_RecallAtK sc_MRR sc_Hits sc_Expected]. split; [apply fraction_unit, hits_bounds|]. split.
  - destruct (reciprocal_rank_spec (F := Q) MatchHits 0 (gc_Expected c) (byScoreDesc matches))
      as [(n & m & _ & _ & _ & ->)|[_ ->]]; [|split; discriminate].
    pose proof (fraction_unit 1 (0 + Z.of_nat n + 1) ltac:(lia)) as Hu. unfold fraction in Hu.
    rewrite bool_decide_eq_false_2 in Hu by lia. exact Hu.
  - intros Hne. apply fraction_one. destruct (gc_Expected c); done.
Qed.
Lemma exact_summary (scores : list (Score Q)) :
  (forall s, s ∈ scores -> (0 <= sc_RecallAtK s <= 1)%Q /\ (0 <= sc_MRR s <= 1)%Q) ->
  (0 <= su_MeanRecallAtK (Summarize scores) <= 1)%Q /\ (0 <= su_MeanMRR (Summarize scores) <= 1)%Q.
Proof.
  intros Hs. destruct scores as [|s l]; [split; split; discriminate|].
  split; apply mean_unit; try done; intros x Hx; by apply Hs.
Qed.

(** The floating-point mean loses what the exact one keeps: three cases that each
    reach the default floor of 0.7 do not reach it together. *)
Lemma mean_below_its_scores :
  let s : spec_float := fdiv (of_int 7) (of_int 10) in
  fleb s (mean (fun x => x) [s; s; s]) = false /\
  let s : Q := fdiv (of_int 7) (of_int 10) in fleb s (mean (fun x => x) [s; s; s]) = true.
Proof. split; vm_compute; reflexivity. Qed.

(** * What a loaded file satisfies *)

Section LoadDir.
Context {A B : Type} (key : B -> string) (parse : option A -> result err (list B)).
Context (P : B -> Prop) (Hparse : forall d l, parse d = Ok l -> Forall P l).

Lemma add_all_spec l seen all seen' all' :
  add_all key l seen all = Ok (seen', all') ->
  all' = all ++ l /\ (NoDup (key <$> all) -> (forall k, k ∈ seen <-> k ∈ key <$> all) ->
    NoDup (key <$> all') /\ (forall k, k ∈ seen' <-> k ∈ key <$> all')).
Proof.
  revert seen all. induction l as [|x l IH]; intros seen all; simpl.
  { intros [= <- <-]. rewrite app_nil_r. auto. }
  case_bool_decide as Hx; [done|]. intros (-> & Hd)%IH. split; [by rewrite <-app_assoc|].
  intros Hn Hs. apply Hd.
  - rewrite fmap_app. apply NoDup_app. split; [done|]. split; [|by repeat constructor; intros ?%elem_of_nil].
    intros k Hk ->%list_elem_of_singleton. by apply Hx, Hs.
  - intros k. rewrite fmap_app, elem_of_app, elem_of_union, <-Hs. simpl. rewrite list_elem_of_singleton. set_solver.
Qed.
Lemma load_files_spec fs seen all l :
  load_files key parse fs seen all = Ok l -> Forall P all -> NoDup (key <$> all) ->
  (forall k, k ∈ seen <-> k ∈ key <$> all) -> Forall P l /\ NoDup (key <$> l).
Proof.
  revert seen all. induction fs as [|f fs IH]; intros seen all; simpl; [by intros [= <-]|].
  destruct (fi_data f) as [d|]; [|done]. destruct (parse d) as [cases|] eqn:Ep; [|done].
  destruct (add_all key cases seen all) as [[seen' all']|] eqn:Ea; [|done].
  apply add_all_spec in Ea as [-> Hd]. intros Hl Ha Hn Hs. destruct (Hd Hn Hs).
  eapply IH; [exact Hl| |done..]. apply Forall_app. split; [done|]. by eapply Hparse.
Qed.
Lemma load_dir_spec glob l : load_dir key parse glob = Ok l -> Forall P l /\ NoDup (key <$> l).
Proof.
  unfold load_dir. destruct glob as [[|f fs]|]; [done| |done]. intros Hl. eapply load_files_spec; [exact Hl|..].
  - constructor.
  - constructor.
  - intros k. simpl. set_solver.
Qed.
End LoadDir.

(** * Loaded cases and seeds against the service *)

Lemma blank_empty : blank "" = true.
Proof. reflexivity. Qed.
Lemma not_blank s : blank s = false -> s <> ""%string.
Proof. by intros Hb ->. Qed.

Lemma validate_spec c : validate c = None ->
  blank (gc_Name c) = false /\ blank (gc_Query c) = false /\ Valid (gc_Mode c) = true /\ 0 <= gc_TopK c /\
  gc_Expected c <> [] /\ Forall (fun e => blank e = false) (gc_Expected c).
Proof.
  unfold validate. destruct (blank (gc_Name c)); [done|]. destruct (blank (gc_Query c)); [done|].
  destruct (Valid (gc_Mode c)); [|done]. cbn [negb]. repeat case_bool_decide; try done.
  destruct (existsb blank _) eqn:E; [done|]. intros _. repeat split; [lia|done|].
  apply Forall_forall. intros e He. apply not_true_is_false. intros Hb.
  assert (existsb blank (gc_Expected c) = true); [|congruence].
  apply existsb_exists. exists e. split; [by apply list_elem_of_In|done].
Qed.
Lemma normalize_bounds c : 0 <= gc_TopK c -> 1 <= gc_TopK (normalize c) <= maxTopK.
Proof. unfold normalize, defaultTopK, maxTopK. cbn [gc_TopK]. repeat case_bool_decide; lia. Qed.
Lemma normalize_valid c : validate c = None -> validate (normalize c) = None.
Proof.
  intros Hv. pose proof (validate_spec c Hv) as (Hn & Hq & Hm & Hk & He & Hb). pose proof (normalize_bounds c Hk).
  unfold validate. cbn [normalize gc_Name gc_Query gc_Mode gc_Expected] in *. rewrite Hn, Hq, Hm. cbn [negb].
  rewrite !bool_decide_eq_false_2; [|done|lia]. destruct (existsb blank _) eqn:E; [|done].
  apply existsb_exists in E as (e & He'%list_elem_of_In & Hbe). rewrite Forall_forall in Hb. specialize (Hb e He'). congruence.
Qed.
(** A loaded case: well-formed, its cutoff within the bounds of the endpoint. *)
Definition good_case (c : GoldenCase) : Prop := validate c = None /\ 1 <= gc_TopK c <= maxTopK.
Lemma parse_cases_good seen l cs : parse_cases seen l = Ok cs -> Forall good_case cs.
Proof.
  revert seen cs. induction l as [|c l IH]; intros seen cs; simpl; [by intros [= <-]|].
  destruct (validate c) eqn:Ev; [done|]. case_bool_decide; [done|].
  destruct (parse_cases _ l) as [l'|] eqn:El; [|done]. intros [= <-]. constructor; [|by eapply IH].
  split; [by apply normalize_valid|]. by apply normalize_bounds, (validate_spec c).
Qed.
Lemma parseGolden_good d cs : parseGolden d = Ok cs -> Forall good_case cs.
Proof. destruct d; [apply parse_cases_good|done]. Qed.
Definition good_item (it : IngestItem) : Prop := blank (it_IdempotencyKey it) = false /\ blank (it_Text it) = false.
Lemma parseSeed_good d items : parseSeed d = Ok items -> Forall good_item items.
Proof.
  destruct d as [l|]; [|done]. simpl. destruct (check_items ∅ l) eqn:E; [done|]. intros [= <-].
  revert E. generalize (∅ : gset string). induction l as [|it l IH]; intros seen; simpl; [constructor|].
  destruct (blank (it_IdempotencyKey it)) eqn:E1; [done|]. destruct (blank (it_Text it)) eqn:E2; [done|].
  case_bool_decide; [done|]. intros Hl. constructor; [done|by eapply IH].
Qed.
Lemma fill_keys_id rand n l : Forall (fun it => it_IdempotencyKey it <> ""%string) l -> fill_keys rand n l = (l, n).
Proof.
  induction 1 as [|it l Hk _ IH]; [done|]. simpl. rewrite bool_decide_eq_false_2 by done. by rewrite IH.
Qed.
Lemma no_duplicate seen l : NoDup (it_IdempotencyKey <$> l) ->
  (forall it, it ∈ l -> it_IdempotencyKey it ∉ seen) -> has_duplicate seen l = false.
Proof.
  revert seen. induction l as [|it l IH]; intros seen Hn Hs; [done|]. apply NoDup_cons in Hn as [Hi Hn]. simpl.
  rewrite bool_decide_eq_false_2 by (apply Hs; by left). apply IH; [done|].
  intros x Hx [Hk%elem_of_singleton|Hk]%elem_of_union.
  - apply Hi. rewrite <-Hk. apply list_elem_of_fmap. eauto.
  - apply (Hs x); [by right|done].
Qed.

Section Accepted.
Context {A I : Type} `{MemoryService A} `{IngestService I} (shown : err -> string).
Context {S U : Type} `{JobStore S} (rand : nat -> string) (cfg : Pool.PoolConfig) (now : Z).

(** What loads is never refused by the service it is meant for.  The cases have
    distinct names and the query of each passes the checks of the endpoint and
    reaches the service with the case's own mode, text and cutoff; the items of the
    corpus have distinct keys of their own, so enqueueing them draws no key, finds no
    duplicate and goes straight to the store. *)
Theorem loaded_set_accepted golden seed cases items :
  loadGolden golden = Ok cases -> loadSeed seed = Ok items ->
  NoDup (gc_Name <$> cases) /\
  (forall c (w : A * I), c ∈ cases ->
     handlePostQueryData shown (Some (case_query c)) w =
     answer shown (on_memory (ms_QueryData (case_query c))) (fun r => WriteJSON 200 (PQuery r)) w) /\
  NoDup (it_IdempotencyKey <$> items) /\
  (items <> [] -> forall p : Pool.pool S U,
     Enqueue rand cfg now items p =
     (try _ <- Pool.on_store (CreateJob now (new_job rand now 0 items) items) in
      (Pool.Notify cfg (newJobID rand 0) ;; ret (Ok (new_job rand now 0 items)))) p).
Proof.
  intros Hg Hs. apply (load_dir_spec _ _ _ parseGolden_good) in Hg as [Hg Hgn].
  apply (load_dir_spec _ _ _ parseSeed_good) in Hs as [Hs Hsn]. rewrite Forall_forall in Hg.
  split; [done|]. split; [|split; [done|]].
  - intros c w (Hv & Hk)%Hg. apply validate_spec in Hv as (_ & Hq%not_blank & Hm & _).
    unfold handlePostQueryData, validQuery, decodeStrict, case_query. cbn [q_Mode q_Text]. rewrite Hm. cbn [negb].
    rewrite bool_decide_eq_false_2 by done. unfold clampTopK. cbn [q_TopK q_Mode q_Text].
    rewrite bool_decide_eq_false_2 by lia. rewrite (bool_decide_eq_false_2 (gc_TopK c = 0)) by lia.
    by rewrite bool_decide_eq_false_2 by lia.
  - intros Hne p. unfold Enqueue. destruct items as [|it l]; [done|]. unfold submit_batch.
    rewrite fill_keys_id by (eapply Forall_impl; [exact Hs|]; intros x [Hx _]; by apply not_blank).
    cbn [fst snd]. rewrite no_duplicate; [done|done|]. intros x _. apply not_elem_of_empty.
Qed.
End Accepted.
Section AcceptedWitness.
#[local] Instance eval_memory : MemoryService (Service.svc LightragHttp.net (Db.Db Tombstone.tomb_table) (Db.Db Tombstone.source_table)) :=
  stack_memory LightragHttp.background.
#[local] Instance eval_ingest : IngestService (Pool.pool MemStore.t unit) := stack_ingest.
Definition one_file {A} (l : list A) : result err (list (file (list A))) := Ok [mkFile "golden/memories.json" (Ok (Some l))].
Definition seed_items : list IngestItem := [mkItem "k1" "NATS" ∅ ""; mkItem "k2" "apache kafka streams" ∅ ""].
Lemma loaded_set_accepted_witness :
  loadGolden (one_file [mkGolden "n" "q" "local" 0 ["kafka"]; diver])
    = Ok [mkGolden "n" "q" "local" 10 ["kafka"]; diver]%string /\
  NoDup (it_IdempotencyKey <$> seed_items) /\
  (handlePostQueryData no_text (Some (case_query diver)) (stack [])).1 =
  (answer no_text (on_memory (ms_QueryData (case_query diver))) (fun r => WriteJSON 200 (PQuery r)) (stack [])).1.
Proof.
  assert (Hl : loadGolden (one_file [mkGolden "n" "q" "local" 0 ["kafka"]; diver])
    = Ok [mkGolden "n" "q" "local" 10 ["kafka"]; diver]%string) by (vm_compute; reflexivity).
  assert (Hs : loadSeed (one_file seed_items) = Ok seed_items) by (vm_compute; reflexivity).
  destruct (loaded_set_accepted (I := Pool.pool MemStore.t unit) no_text (S := MemStore.t) (U := unit) (H1 := @MemStore_JobStore map_to_list_range) counter_rand (Pool.newPool 1 1 0) 0 _ _ _ _ Hl Hs)
    as (_ & Hq & Hn & _).
  split; [exact Hl|]. split; [exact Hn|]. rewrite (Hq diver (stack [])); [reflexivity|right; left].
Defined.
End AcceptedWitness.

(** * The wait for the ingest job, and the run *)

(** Requests and metrics do not turn the clock back, and a wait that is not cut short
    lasts at least as long as asked. *)
Class RemoteLaws (W : Type) `{Remote W} := {
  request_time m u h b w : clock w <= clock (http_Do m u h b w).2;
  wait_time d w : 0 <= d -> (time_After d w).1 = true -> clock w + d <= clock (time_After d w).2 }.

Section RunLaws.
Context {W F : Type} `{RemoteLaws W, Codec, Num F}.

Lemma doJSON_time c {X} method p body (decode : string -> option X) w :
  clock w <= clock (doJSON c method p body decode w).2.
Proof.
  unfold doJSON, bind, ret. cbn zeta. simpl.
  match goal with |- context [http_Do ?m ?u ?h ?b w] => pose proof (request_time m u h b w) as Ht; destruct (http_Do m u h b w) end.
  exact Ht.
Qed.
Lemma wait_job_ends c fuel deadline id w : 0 < cl_pollInterval c ->
  deadline - clock w < Z.of_nat fuel * cl_pollInterval c -> is_Some (wait_job c (S fuel) deadline id w).1.
Proof.
  intros Hp. revert w. induction fuel as [|fuel IH]; intros w Hf; cbn [wait_job].
  all: pose proof (doJSON_time c "GET" (String.append "/ingest-jobs/" (PathEscape id)) None unmarshal_job w) as Ht.
  all: run_goal; cbn [snd] in Ht; destruct r as [job|e]; [|by eexists].
  all: destruct (Terminal (j_Status job)); [by eexists|]; unfold gets; unfold bind at 1; cbn [fst snd].
  all: case_bool_decide; [by eexists|].
  { lia. }
  pose proof (wait_time (cl_pollInterval c) w0 ltac:(lia)) as Hw. run_goal. cbn [fst snd] in Hw.
  destruct r; [|by eexists]. apply IH. specialize (Hw eq_refl). lia.
Qed.

Lemma NewClient_spec base token poll timeout c :
  NewClient base token poll timeout = Ok c -> blank base = false /\ 0 < cl_pollInterval c /\ 0 < cl_jobTimeout c.
Proof.
  unfold NewClient. destruct (blank base); [done|]. intros [= <-]. cbn [cl_pollInterval cl_jobTimeout].
  unfold Minute, Second. repeat case_bool_decide; lia.
Qed.
Context (format_g : F -> string).

(** [m] returned [a] at [w] and left [w']. *)
Lemma score_cases_spec cl k cases w scores w' :
  score_cases cl k cases w = (Ok scores, w') ->
  Forall2 (fun c s => exists u v matches, client_Query cl (case_query c) u = (Ok matches, v) /\ s = ScoreCase (F := F) c matches k)
    cases scores.
Proof.
  revert w scores w'. induction cases as [|c cases IH]; intros w scores w'; cbn [score_cases]; [by intros [= <- <-]|].
  intros Hr. run in Hr. destruct r as [matches|e]; [|done]. run in Hr. destruct r as [rest|e]; [|done].
  injection Hr as <- <-. constructor; [by eexists _, _, _|]. by eapply IH.
Qed.
Lemma report_passes cfg scores w w' :
  report format_g cfg scores w = (None, w') -> fleb (co_recallFloor cfg) (su_MeanRecallAtK (Summarize scores)) = true.
Proof.
  unfold report. cbv zeta. intros Hr. run in Hr. destruct r; [done|]. run in Hr. unfold ret in Hr.
  destruct (fleb _ _); [done|discriminate].
Qed.

(** How far a run with fuel [fuel] came: it is over, and when it passed ... *)
Definition passed (cfg : config F) (golden : result err (list GoldenCase)) (seed : result err (list IngestItem)) : Prop :=
  exists cases items cl job scores,
    golden = Ok cases /\ seed = Ok items /\ items <> [] /\
    NewClient (co_baseURL cfg) (co_token cfg) 0 (co_jobTimeout cfg) = Ok cl /\
    (exists u v text, doJSON cl "GET" (String.append "/ingest-jobs/" (PathEscape text)) None unmarshal_job u = (Ok job, v)) /\
    Terminal (j_Status job) = true /\ j_Status job <> JobStatusFailed /\
    Forall2 (fun c s => exists u v matches, client_Query cl (case_query c) u = (Ok matches, v) /\ s = ScoreCase c matches (co_k cfg))
      cases scores /\
    fleb (co_recallFloor cfg) (su_MeanRecallAtK (Summarize scores)) = true.
Lemma wait_job_job c fuel deadline id w job w' :
  wait_job c fuel deadline id w = (Some (Ok job), w') ->
  Terminal (j_Status job) = true /\
  exists u v, doJSON c "GET" (String.append "/ingest-jobs/" (PathEscape id)) None unmarshal_job u = (Ok job, v).
Proof.
  revert w. induction fuel as [|fuel IH]; intros w; cbn [wait_job]; [done|]. intros Hr. run in Hr.
  destruct r as [j|e]; [|done]. destruct (Terminal (j_Status j)) eqn:Et.
  { injection Hr as -> ->. split; [done|]. by eexists _, _. }
  unfold gets in Hr. unfold bind at 1 in Hr. cbn [fst snd] in Hr. case_bool_decide; [done|]. run in Hr.
  destruct r; [|done]. by eapply IH.
Qed.
Lemma BulkIngest_items cl items w id w' : BulkIngest cl items w = (Ok id, w') -> items <> [].
Proof. unfold BulkIngest. case_bool_decide; [done|]. done. Qed.

(** An evaluation ends: the wait for the ingest job polls at most once per two
    seconds of its timeout, and twice more, whatever the server does.  One that passes
    has ingested a corpus that was not empty to a job that ended and did not fail, has
    an answer for every golden case, scored as it is ranked, and a mean recall that
    reaches the floor. *)
Theorem evaluation_gates (cfg : config F) golden seed (w : W) :
  let timeout := if bool_decide (co_jobTimeout cfg <= 0) then 5 * Minute else co_jobTimeout cfg in
  exists r, (run_eval format_g (S (S (Z.to_nat (timeout / (2 * Second))))) cfg golden seed w).1 = Some r /\
    (r = None -> passed cfg golden seed).
Proof.
  cbv zeta. unfold run_eval.
  destruct golden as [cases|e]; [|by eexists]. destruct seed as [items|e]; [|by eexists].
  destruct (NewClient _ _ _ _) as [cl|e] eqn:Ec; [|by eexists].
  run_goal. destruct r as [id|e]; [|by eexists].
  assert (Hcl : cl_pollInterval cl = 2 * Second /\
     cl_jobTimeout cl = if bool_decide (co_jobTimeout cfg <= 0) then 5 * Minute else co_jobTimeout cfg).
  { revert Ec. unfold NewClient. destruct (blank _); [done|]. by intros [= <-]. }
  destruct Hcl as [Hp Ht]. rewrite <-Ht, <-Hp. apply NewClient_spec in Ec as Hc. destruct Hc as (_ & Hp0 & Ht0).
  run_goal. rename E0 into Ew. unfold WaitJob, gets in Ew. unfold bind at 1 in Ew. cbn [fst snd] in Ew.
  destruct r as [[job|e]|].
  2: { by eexists. }
  2: { exfalso. pose proof (wait_job_ends cl (S (Z.to_nat (cl_jobTimeout cl / cl_pollInterval cl)))
         (clock w0 + cl_jobTimeout cl) id w0 Hp0) as He.
       rewrite Ew in He. cbn [fst] in He. enough (is_Some (None (A := result err IngestJob))) as [? ?] by done. apply He.
       pose proof (Z.mod_pos_bound (cl_jobTimeout cl) (cl_pollInterval cl) Hp0).
       pose proof (Z.div_mod (cl_jobTimeout cl) (cl_pollInterval cl) ltac:(lia)).
       pose proof (Z.div_pos (cl_jobTimeout cl) (cl_pollInterval cl) ltac:(lia) Hp0). nia. }
  clear Ht. case_bool_decide as Hf; [by eexists|]. run_goal. destruct r as [scores|e]; [|by eexists].
  run_goal. exists r. split; [done|]. intros ->. apply wait_job_job in Ew as (Hterm & u & v & Hj).
  exists cases, items, cl, job, scores. repeat split; try done.
  - by eapply BulkIngest_items.
  - by exists u, v, id.
  - by eapply score_cases_spec.
  - by eapply report_passes.
Qed.
End RunLaws.

(** A scripted server; the job is done at its second poll. *)
Record scripted := mkScripted { si_clock : Z; si_replies : list (result err (Z * string)) }.
#[local] Instance scripted_remote : Remote scripted := {
  http_Do := fun _ _ _ _ w => match si_replies w with
                              | [] => (Err NetError, w)
                              | r :: rs => (r, mkScripted (si_clock w + Second) rs) end;
  clock := si_clock;
  time_After := fun d w => (true, mkScripted (si_clock w + d) (si_replies w));
  WriteFile := fun _ => ret None;
  Post := fun _ _ => ret tt; env_HOSTNAME := ret "runner-1"%string; os_Hostname := ret ""%string }.
#[local] Instance scripted_laws : RemoteLaws scripted.
Proof.
  split.
  - intros m u h b [now [|r rs]]; cbn; unfold Second; lia.
  - intros d [now rs] _ _. cbn. lia.
Qed.
Definition reads_job (s : string) : option IngestJob :=
  if bool_decide (s = "queued"%string) then Some (mkJob "j" JobStatusQueued 2 0 0 [] 0 0)
  else if bool_decide (s = "partial"%string) then Some (mkJob "j" JobStatusPartial 2 1 1 [] 0 0) else None.
#[local] Instance scripted_codec : Codec := {
  marshal_items := fun _ => ""%string; marshal_query := q_Text; unmarshal_job := reads_job;
  unmarshal_result := fun s => if bool_decide (s = "answers"%string) then Some answers else None;
  PathEscape := fun s => s; QueryEscape := fun s => s }.
Definition ci : config Q :=
  mkConfig (F := Q) "http://memory/" "token" (1 # 2)%Q 3 "" "" "memory-eval" "" "" 0.
Definition server : scripted := mkScripted 0
  [Ok (202, "queued"%string); Ok (200, "queued"%string); Ok (200, "partial"%string); Ok (200, "answers"%string)].
Lemma evaluation_gates_witness : exists r,
  (run_eval (fun _ => ""%string) 152 ci (Ok [diver]) (Ok seed_items) server).1 = Some r /\
  r = None /\ passed ci (Ok [diver]) (Ok seed_items).
Proof.
  destruct (evaluation_gates (F := Q) (fun _ => ""%string) ci (Ok [diver]) (Ok seed_items) server) as (r & Hr & Hp).
  change (S (S (Z.to_nat ((if bool_decide (co_jobTimeout ci <= 0) then 5 * Minute else co_jobTimeout ci) / (2 * Second)))))
    with 152%nat in Hr.
  assert (He : r = None).
  { assert (Hv : (run_eval (fun _ => ""%string) 152 ci (Ok [diver]) (Ok seed_items) server).1 = Some None)
      by (vm_compute; reflexivity).
    congruence. }
  exists r. split; [exact Hr|]. split; [exact He|exact (Hp He)].
Defined.
