(* ===== verification/CodeEval.v ===== *)
(** The evaluation of code-graph retrieval ([eval/codegraph/loader.go],
    [eval/codegraph/scoring.go], [eval/codegraph/client.go],
    [cmd/codegraph-eval/main.go]): the fixture graph, the golden cases and the
    requests they stand for, ranked and set scores, and the run.

    Requests go through [CodeApi]; a body is the value its JSON encodes.  The
    instance [served_api] is the modelled service behind its handlers, so that what a
    case asks for over HTTP can be compared with the operation it names. *)
From S2P Require Import Prelude GoErr GoStr LightragHttp HttpApi CodeGraph CodeService CodeHttp Web Router Eval.
From Stdlib Require Import QArith.
#[local] Open Scope Z_scope.

Module CodeEval.

(** * Golden cases (eval/codegraph/loader.go) *)

Record GoldenCase := mkGolden {
  gc_Name : string; gc_Kind : string; gc_ID : string; gc_Q : string; gc_Type : string; gc_Relation : string;
  gc_Direction : string; gc_Depth : Z; gc_Path : string; gc_From : string; gc_To : string; gc_MaxDepth : Z;
  gc_Expected : list string }.
Inductive Mode := ModeRanked | ModeSet.
Definition case_mode (c : GoldenCase) : Mode :=
  if bool_decide (gc_Kind c = "search"%string) || bool_decide (gc_Kind c = "path"%string) then ModeRanked else ModeSet.
(** The five walks that take an ID and a depth, and their routes. *)
Definition walk_paths : list (string * string) :=
  [("callers", "/code/callers"); ("callees", "/code/callees"); ("dependents", "/code/dependents");
   ("dependencies", "/code/dependencies"); ("resource-graph", "/code/resource-graph")]%string.
Definition validKinds : list string :=
  ["search"; "entity"; "neighbors"; "file-imports"; "path"]%string ++ walk_paths.*1.
Definition missing (field : string) : option err := Some (Errorf (String.append "golden case missing " field)).
Definition validateArgs (c : GoldenCase) : option err :=
  let kind := gc_Kind c in
  if bool_decide (kind = "search"%string) then (if blank (gc_Q c) then missing "q" else None)
  else if bool_decide (kind = "entity"%string) || bool_decide (kind ∈ walk_paths.*1)
  then (if blank (gc_ID c) then missing "id" else None)
  else if bool_decide (kind = "neighbors"%string)
  then (if blank (gc_ID c) then missing "id" else if blank (gc_Relation c) then missing "relation" else None)
  else if bool_decide (kind = "file-imports"%string) then (if blank (gc_Path c) then missing "path" else None)
  else if bool_decide (kind = "path"%string)
  then (if blank (gc_From c) then missing "from" else if blank (gc_To c) then missing "to" else None)
  else None.
Definition validate (c : GoldenCase) : option err :=
  let dir := gc_Direction c in
  if blank (gc_Name c) then missing "name"
  else if negb (bool_decide (gc_Kind c ∈ validKinds)) then Some (Errorf "golden case invalid kind")
  else if bool_decide (gc_Expected c = []) then missing "expected"
  else if existsb blank (gc_Expected c) then Some (Errorf "golden case has a blank expected entry")
  else if bool_decide (gc_Depth c < 0) || bool_decide (gc_MaxDepth c < 0)
  then Some (Errorf "golden case depth must be non-negative")
  else if bool_decide (dir <> ""%string) && bool_decide (dir <> "in"%string) && bool_decide (dir <> "out"%string)
  then Some (Errorf "golden case direction must be in or out")
  else validateArgs c.
Fixpoint parse_cases (seen : gset string) (l : list GoldenCase) : option err :=
  match l with
  | [] => None
  | c :: l =>
      match validate c with
      | Some e => Some e
      | None => if bool_decide (gc_Name c ∈ seen) then Some (Errorf "duplicate golden case name")
                else parse_cases ({[gc_Name c]} ∪ seen) l
      end
  end.
Definition parseGolden (data : option (list GoldenCase)) : result err (list GoldenCase) :=
  match data with
  | None => Err (Errorf "parse golden")
  | Some cases => match parse_cases ∅ cases with Some e => Err e | None => Ok cases end
  end.
Definition loadGolden (glob : result err (list (file (list GoldenCase)))) : result err (list GoldenCase) :=
  load_dir gc_Name parseGolden glob.

(** * The fixture graph *)

Definition no_push : GraphPush := mkPush "" "" [] [] [] [] [] ∅.
Fixpoint merge_entities (l : list CodeEntity) (seen : gset string) (all : list CodeEntity) :
    result err (gset string * list CodeEntity) :=
  match l with
  | [] => Ok (seen, all)
  | e :: l =>
      if bool_decide (ce_ID e = ""%string) then Err (Errorf "cgeval: entity missing id")
      else if bool_decide (ce_ID e ∈ seen) then Err (Errorf "cgeval: duplicate entity id")
      else merge_entities l ({[ce_ID e]} ∪ seen) (all ++ [e])
  end.
(** Files not seen before, entities, edges; the other fields are dropped. *)
Fixpoint merge_files (fs : list (file GraphPush)) (seen : gset string) (merged : GraphPush) : result err GraphPush :=
  match fs with
  | [] => Ok merged
  | f :: fs =>
      match fi_data f with
      | Err e => Err (Wrap "cgeval: read" e)
      | Ok None => Err (Errorf "cgeval: parse seed")
      | Ok (Some p) =>
          match merge_entities (gp_Entities p) seen (gp_Entities merged) with
          | Err e => Err e
          | Ok (seen, entities) =>
              merge_files fs seen
                (mkPush "" "" (gp_Files merged ++ dedup_by id (list_to_set (gp_Files merged)) (gp_Files p))
                   entities (gp_Edges merged ++ gp_Edges p) [] [] ∅)
          end
      end
  end.
Definition validateSeedScope (p : GraphPush) : option err :=
  let files : gset string := list_to_set (gp_Files p) in
  if bool_decide (gp_Files p = []) then Some (Errorf "cgeval: seed has no files")
  else if bool_decide (gp_Entities p = []) then Some (Errorf "cgeval: seed has no entities")
  else if existsb (fun e => negb (bool_decide (ce_FilePath e = ""%string)) && negb (bool_decide (ce_FilePath e ∈ files))) (gp_Entities p)
  then Some (Errorf "cgeval: entity file_path not in files")
  else if existsb (fun e => negb (bool_decide (cg_SrcFile e ∈ files))) (gp_Edges p)
  then Some (Errorf "cgeval: edge src_file not in files")
  else None.
Definition loadSeed (glob : result err (list (file GraphPush))) : result err GraphPush :=
  match glob with
  | Err e => Err (Wrap "cgeval: glob seed" e)
  | Ok [] => Err (Errorf "cgeval: no seed files")
  | Ok fs =>
      match merge_files fs ∅ no_push with
      | Err e => Err e
      | Ok merged => match validateSeedScope merged with Some e => Err e | None => Ok merged end
      end
  end.

(** * Scores (eval/codegraph/scoring.go) *)

Record Result := mkResult { rs_Key : string; rs_Name : string }.
Definition hit (r : Result) (expected : string) : bool :=
  fold_eq (rs_Key r) expected || (negb (bool_decide (rs_Name r = ""%string)) && fold_eq (rs_Name r) expected).
Definition dedupe (results : list Result) : list Result := dedup_by rs_Key ∅ results.
Definition relevantCount (expected : list string) (results : list Result) : Z := count (satisfies hit expected) results.

Section Scores.
Context {F : Type} `{Num F}.
Record Score := mkScore {
  sc_Name : string; sc_Kind : string; sc_Mode : Mode; sc_K : Z; sc_Expected : Z; sc_Returned : Z; sc_Relevant : Z;
  sc_Hits : Z; sc_RecallAtK : F; sc_MRR : F; sc_Precision : F; sc_F1 : F }.
Record Summary := mkSummary {
  su_Cases : Z; su_MeanRecallAtK : F; su_MeanMRR : F; su_MeanPrecision : F; su_MeanF1 : F }.
Definition f1 (precision recall : F) : F :=
  if feqb (fadd precision recall) (of_int 0) then of_int 0
  else fdiv (fmul (fmul (of_int 2) precision) recall) (fadd precision recall).
Definition RecallAtK (expected : list string) (results : list Result) (k : Z) : F :=
  recall_of hit expected (topK k results).
Definition MRR (expected : list string) (results : list Result) : F := reciprocal_rank hit 0 expected results.
Definition Precision (expected : list string) (results : list Result) : F :=
  fraction (relevantCount expected results) (Z.of_nat (length results)).
Definition ScoreCase (c : GoldenCase) (results : list Result) (k : Z) : Score :=
  let mode := case_mode c in
  let results := match mode with ModeSet => dedupe results | ModeRanked => results end in
  let n := Z.of_nat (length results) in
  let k := match mode with ModeSet => n | ModeRanked => k end in
  let window := topK k results in
  let recall := recall_of hit (gc_Expected c) window in
  let precision := fraction (relevantCount (gc_Expected c) results) n in
  mkScore (gc_Name c) (gc_Kind c) mode k (Z.of_nat (length (gc_Expected c))) n
    (relevantCount (gc_Expected c) results) (hits_in hit (gc_Expected c) window) recall
    (reciprocal_rank hit 0 (gc_Expected c) results) precision (f1 precision recall).
Definition Summarize (scores : list Score) : Summary :=
  match scores with
  | [] => mkSummary 0 (of_int 0) (of_int 0) (of_int 0) (of_int 0)
  | _ => mkSummary (Z.of_nat (length scores)) (mean sc_RecallAtK scores) (mean sc_MRR scores)
           (mean sc_Precision scores) (mean sc_F1 scores)
  end.
End Scores.
Arguments Score F : clear implicits.
Arguments Summary F : clear implicits.

(** * The client (eval/codegraph/client.go) *)

(** A request: method, path, query, body; [Err]: it did not come through. *)
Class CodeApi (C : Type) := {
  send : string -> string -> gmap string string -> option GraphPush -> M C (result err code_answer) }.
Record ClientConfig := mkClient { cl_baseURL : string; cl_repo : string; cl_token : string }.
Definition NewClient (baseURL repo token : string) : result err ClientConfig :=
  if blank baseURL then Err (Errorf "cgeval: base url required")
  else if blank repo then Err (Errorf "cgeval: repo required")
  else Ok (mkClient (Eval.TrimRightSlash baseURL) repo token).

Section Client.
Context {C : Type} `{CodeApi C} (repo : string).
Abbreviation params := (gmap string string).
(** [do]: anything but 2xx is an error; decoding reads the fields it knows. *)
Definition do_ {X} (method p : string) (q : params) (body : option GraphPush) (decode : code_payload -> X) :
    M C (result err X) :=
  r <- send method p q body ;;
  ret (match r with
       | Err e => Err (Wrap "cgeval" e)
       | Ok (Failed rs) => Err (Errorf "cgeval: status")
       | Ok (Answered payload) => Ok (decode payload)
       end).
Definition with_repo (p : GraphPush) : GraphPush :=
  mkPush repo (gp_Extractor p) (gp_Files p) (gp_Entities p) (gp_Edges p) (gp_Symbols p) (gp_Hyperedges p) (gp_FileSHAs p).
Definition client_Push (p : GraphPush) : M C (result err PushResult) :=
  do_ "POST" "/code-graph:bulk" ∅ (Some (with_repo p)) (fun d => match d with CPush r => r | _ => mkPushResult "" 0 0 0 end).

Definition baseQuery : params := {["repo" := repo]}.
Definition positive (key : string) (n : Z) (q : params) : params :=
  if bool_decide (n > 0) then <[key := itoa n]> q else q.
Definition optional (key v : string) (q : params) : params :=
  if bool_decide (v = ""%string) then q else <[key := v]> q.
Definition idDepthQuery (c : GoldenCase) : params := positive "depth" (gc_Depth c) (<["id" := gc_ID c]> baseQuery).
Definition neighborQuery (c : GoldenCase) : params :=
  optional "direction" (gc_Direction c) (<["relation" := gc_Relation c]> (idDepthQuery c)).

Definition entityResults (es : list CodeEntity) : list Result := (fun e => mkResult (ce_ID e) (ce_Name e)) <$> es.
Definition search (c : GoldenCase) : M C (result err (list Result)) :=
  do_ "GET" "/code/entities" (optional "type" (gc_Type c) (<["q" := gc_Q c]> baseQuery)) None
    (fun d => match d with CEntities l => entityResults l | _ => [] end).
Definition detail_results (d : EntityDetail) : list Result :=
  mkResult (ce_ID (dt_Entity d)) (ce_Name (dt_Entity d))
  :: ((fun e => mkResult (cg_To e) "") <$> dt_OutEdges d) ++ ((fun e => mkResult (cg_From e) "") <$> dt_InEdges d).
Definition entity (c : GoldenCase) : M C (result err (list Result)) :=
  do_ "GET" "/code/entity" (<["id" := gc_ID c]> baseQuery) None
    (fun d => match d with CDetail d => detail_results d | _ => [mkResult "" ""] end).
Definition node_results (l : list PathNode) : list Result := entityResults (pn_Entity <$> l).
Definition nodes (p : string) (q : params) : M C (result err (list Result)) :=
  do_ "GET" p q None (fun d => match d with CNodes l => node_results l | _ => [] end).
Definition edge_results (l : list CodeEdge) : list Result :=
  (fun e => mkResult (String.append (cg_From e) (String.append "->" (cg_To e))) "") <$> l.
Definition fileImports (c : GoldenCase) : M C (result err (list Result)) :=
  do_ "GET" "/code/file-imports" (<["path" := gc_Path c]> baseQuery) None
    (fun d => match d with CEdges l => edge_results l | _ => [] end).
Definition path (c : GoldenCase) : M C (result err (list Result)) :=
  do_ "GET" "/code-graph/path"
    (positive "max_depth" (gc_MaxDepth c) (optional "relations" (gc_Relation c)
      (<["to" := gc_To c]> (<["from" := gc_From c]> baseQuery)))) None
    (fun d => match d with CPath l => entityResults l | _ => [] end).
Definition Run (c : GoldenCase) : M C (result err (list Result)) :=
  let kind := gc_Kind c in
  if bool_decide (kind = "search"%string) then search c
  else if bool_decide (kind = "entity"%string) then entity c
  else if bool_decide (kind = "neighbors"%string) then nodes "/code/neighbors" (neighborQuery c)
  else if bool_decide (kind = "file-imports"%string) then fileImports c
  else if bool_decide (kind = "path"%string) then path c
  else match list_find (fun kp => kp.1 = kind) walk_paths with
       | Some (_, (_, p)) => nodes p (idDepthQuery c)
       | None => ret (Err (Errorf "cgeval: unknown case kind"))
       end.
End Client.

(** * The run (cmd/codegraph-eval/main.go) *)

(** What the run asks of its process: writing the metrics file. *)
Class Process (C : Type) := { writeMetricsFile : string -> M C (option err) }.
Section Run.
Context {C F : Type} `{CodeApi C, Process C, Num F}.
Record config := mkConfig {
  co_baseURL : string; co_token : string; co_repo : string; co_recallFloor : F; co_k : Z;
  co_goldenDir : string; co_seedDir : string; co_metricsFile : string }.
Definition defaultRepo : string := "eval/codegraph-fixture".
Definition check_config (c : config) : option err :=
  if blank (co_baseURL c) then Some (Errorf "base-url is required")
  else if blank (co_repo c) then Some (Errorf "repo must not be empty")
  else if fltb (co_recallFloor c) (of_int 0) || fltb (of_int 1) (co_recallFloor c)
  then Some (Errorf "recall-floor must be in [0,1]")
  else if bool_decide (co_k c < 1) then Some (Errorf "k must be >= 1")
  else None.
(** [os.Getenv], [strconv.ParseFloat] and [FlagSet.Parse], as in [Eval.parseConfig]. *)
Definition parseConfig (getenv : string -> string) (ParseFloat : string -> option F)
    (parse_flags : list string -> config -> result err config) (args : list string) : result err config :=
  let def := mkConfig (getenv "MEMORY_BASE_URL") (getenv "MEMORY_TOKEN")
    (Eval.envDefault getenv "CODEGRAPH_EVAL_REPO" defaultRepo)
    (Eval.env_parsed getenv ParseFloat "EVAL_RECALL_FLOOR" (fdiv (of_int 7) (of_int 10)))
    (Eval.env_parsed getenv Atoi "EVAL_K" 10) (getenv "EVAL_GOLDEN_DIR") (getenv "EVAL_SEED_DIR")
    (getenv "EVAL_METRICS_FILE") in
  match parse_flags args def with
  | Err e => Err e
  | Ok cfg => match check_config cfg with Some e => Err e | None => Ok cfg end
  end.
(** [fmt.Sprintf] of a number with the verb g. *)
Context (format_g : F -> string).
(** The text [writeMetricsFile] writes. *)
Definition exposition (sum : Summary F) (k : Z) (floor : F) : string :=
  String.concat "" [
    Eval.gauge "codegraph_eval_recall_at_k" "Mean recall@k over the golden set." (Eval.k_label k) (format_g (su_MeanRecallAtK sum));
    Eval.gauge "codegraph_eval_mrr" "Mean reciprocal rank over the golden set." "" (format_g (su_MeanMRR sum));
    Eval.gauge "codegraph_eval_precision" "Mean set precision over the golden set." "" (format_g (su_MeanPrecision sum));
    Eval.gauge "codegraph_eval_f1" "Mean set F1 over the golden set." "" (format_g (su_MeanF1 sum));
    Eval.gauge "codegraph_eval_cases" "Number of golden cases evaluated." "" (itoa (su_Cases sum));
    Eval.gauge "codegraph_eval_recall_floor" "Configured pass/fail floor for recall@k." "" (format_g floor)]%string.

Fixpoint score_cases (repo : string) (k : Z) (cases : list GoldenCase) : M C (result err (list (Score F))) :=
  match cases with
  | [] => ret (Ok [])
  | c :: cases =>
      r <- Run repo c ;;
      match r with
      | Err e => ret (Err (Wrap "case" e))
      | Ok results =>
          try rest <- score_cases repo k cases in ret (Ok (ScoreCase c results k :: rest))
      end
  end.
Definition report (cfg : config) (scores : list (Score F)) : M C (option err) :=
  let sum := Summarize scores in
  let pass := fleb (co_recallFloor cfg) (su_MeanRecallAtK sum) in
  written <- (if bool_decide (co_metricsFile cfg = ""%string) then ret None
              else writeMetricsFile (exposition sum (co_k cfg) (co_recallFloor cfg))) ;;
  ret (match written with
       | Some e => Some (Wrap "write metrics file" e)
       | None => if pass then None else Some (Errorf "aggregate recall below floor")
       end).
Definition run_eval (cfg : config) (golden : result err (list GoldenCase)) (seed : result err GraphPush) : M C (option err) :=
  match golden with
  | Err e => ret (Some e)
  | Ok golden =>
  match seed with
  | Err e => ret (Some e)
  | Ok seed =>
  match NewClient (co_baseURL cfg) (co_repo cfg) (co_token cfg) with
  | Err e => ret (Some e)
  | Ok cl =>
      p <- client_Push (cl_repo cl) seed ;;
      match p with
      | Err e => ret (Some (Wrap "fixture push" e))
      | Ok _ =>
          scores <- score_cases (cl_repo cl) (co_k cfg) golden ;;
          match scores with
          | Err e => ret (Some e)
          | Ok scores => report cfg scores
          end
      end
  end end end.
End Run.
Arguments config F : clear implicits.

(** * The service behind its handlers *)

Section Served.
Context {C : Type} `{CodeGraphService C} (shown : err -> string) (ParseFloat : string -> option float64).
(** The routes of [Router.mountV1] the client uses. *)
Definition served_routes : list (string * (gmap string string -> M C code_answer)) := [
  ("/code/entities", handleSearchCodeEntities shown); ("/code/entity", handleGetCodeEntity shown);
  ("/code/neighbors", handleNeighbors shown ParseFloat); ("/code/callers", handleCallers shown ParseFloat);
  ("/code/callees", handleCallees shown ParseFloat); ("/code/dependents", handleDependents shown ParseFloat);
  ("/code/dependencies", handleDependencies shown ParseFloat);
  ("/code/resource-graph", handleResourceGraph shown ParseFloat);
  ("/code/file-imports", handleFileImports shown); ("/code-graph/path", handleShortestPath shown)]%string.
Definition served_answer (p : string) (q : gmap string string) (body : option GraphPush) : M C code_answer :=
  if bool_decide (p = "/code-graph:bulk"%string) then handlePostCodeGraph shown body
  else match list_find (fun ph => ph.1 = p) served_routes with
       | Some (_, (_, h)) => h q
       | None => ret (Failed (WriteError 404 "not found"))
       end.
Definition served_api : CodeApi C := {| send := fun _ p q body => a <- served_answer p q body ;; ret (Ok a) |}.
End Served.
End CodeEval.
