(* ===== verification/CodeEvalLaws.v ===== *)
(** The code-graph evaluation: what a case asks for over HTTP is the operation it
    names, a fixture that loads is in scope, set scores do not depend on the order of
    an answer, and what a passing run shows. *)
From S2P Require Import Prelude GoErr GoStr Db LightragHttp HttpApi CodeGraph CodeService CodeReads CodeHttp CodeHttpLaws Web Router Eval EvalLaws CodeEval.
From stdpp Require Import pretty.
From Stdlib Require Import QArith Psatz.
#[local] Open Scope Z_scope.
Import CodeEval.

(** * Numbers as query parameters *)

Lemma digit_char (d : N) : (d < 10)%N -> digit (pretty_N_char d) = Some (Z.of_N d).
Proof.
  intros Hd. rewrite <-(N2Nat.id d). assert (Hn : (N.to_nat d < 10)%nat) by lia. revert Hn. generalize (N.to_nat d) as n.
  intros n Hn. do 10 (destruct n as [|n]; [reflexivity|]). lia.
Qed.
Lemma digits_pretty_go x s : digits 0 (pretty_N_go x s) = digits (Z.of_N x) s.
Proof.
  revert s. induction (N.lt_wf_0 x) as [x _ IH]; intros s. destruct (decide (x = 0)%N) as [->|Hx]; [by rewrite pretty_N_go_0|].
  rewrite pretty_N_go_step by lia. rewrite IH by (apply N.div_lt; lia). cbn [digits].
  rewrite digit_char by (apply N.mod_lt; lia). f_equal.
  pose proof (N.div_mod x 10 ltac:(lia)) as Hm. rewrite N2Z.inj_div, N2Z.inj_mod.
  pose proof (Z.div_mod (Z.of_N x) 10 ltac:(lia)). lia.
Qed.
Lemma digits_pretty n : 0 <= n -> digits 0 (pretty n) = Some n.
Proof.
  intros Hn. destruct n as [|p|p]; [reflexivity| |lia]. change (pretty (Z.pos p)) with (pretty (N.pos p)).
  unfold pretty, pretty_N. case_decide; [done|]. by rewrite digits_pretty_go.
Qed.
Lemma Atoi_digits s n : digits 0 s = Some n -> s <> ""%string -> Atoi s = in_range n.
Proof.
  intros Hd Hs. destruct s as [|c s]; [done|]. unfold Atoi.
  case_bool_decide as Hm; [subst c; vm_compute in Hd; discriminate|].
  case_bool_decide as Hp; [subst c; vm_compute in Hd; discriminate|]. by rewrite Hd.
Qed.
Lemma Atoi_itoa n : 0 <= n < two63 -> Atoi (itoa n) = Some n.
Proof.
  intros Hn. unfold itoa. rewrite (Atoi_digits _ n); [|apply digits_pretty; lia|].
  - unfold in_range. rewrite bool_decide_eq_true_2; [done|]. unfold two63 in *. lia.
  - intros He. pose proof (digits_pretty n ltac:(lia)) as Hd. rewrite He in Hd. injection Hd as <-. by vm_compute in He.
Qed.

(** * The requests of a case *)

Section Requests.
Context {C : Type} `{CodeGraphService C} (shown : err -> string) (ParseFloat : string -> option float64) (repo : string).
#[local] Instance the_api : CodeApi C := served_api shown ParseFloat.

(** The operation of the service a case names, with its own arguments, and what of
    its answer is scored. *)
Definition results_of {X} (k : X -> list Result) (m : M C (result err X)) : M C (result err (list Result)) :=
  try x <- m in ret (Ok (k x)).
Definition unfiltered : ConfidenceFilter := mkCF (Finite 0) "".
Definition split_relations (s : string) : list string :=
  if bool_decide (s = ""%string) then [] else CodeStore.split_on CodeStore.comma "" s.
Definition ask (c : GoldenCase) : M C (result err (list Result)) :=
  let kind := gc_Kind c in
  if bool_decide (kind = "search"%string) then results_of entityResults (cg_Search repo (gc_Q c) (gc_Type c) 0)
  else if bool_decide (kind = "entity"%string) then results_of detail_results (cg_Entity repo (gc_ID c))
  else if bool_decide (kind = "neighbors"%string)
  then results_of node_results
         (cg_Neighbors repo (gc_ID c) (split_relations (gc_Relation c)) (gc_Direction c) (gc_Depth c) 0 unfiltered)
  else if bool_decide (kind = "file-imports"%string)
  then results_of edge_results (cg_FileImports repo (gc_Path c) defaultListLimit)
  else if bool_decide (kind = "path"%string)
  then results_of entityResults
         (cg_ShortestPath repo (gc_From c) (gc_To c) (split_relations (gc_Relation c)) (gc_MaxDepth c))
  else if bool_decide (kind = "callers"%string) then results_of node_results (cg_Callers repo (gc_ID c) (gc_Depth c) unfiltered)
  else if bool_decide (kind = "callees"%string) then results_of node_results (cg_Callees repo (gc_ID c) (gc_Depth c) unfiltered)
  else if bool_decide (kind = "dependents"%string)
  then results_of node_results (cg_Dependents repo (gc_ID c) (gc_Depth c) unfiltered)
  else if bool_decide (kind = "dependencies"%string)
  then results_of node_results (cg_Dependencies repo (gc_ID c) (gc_Depth c) unfiltered)
  else results_of node_results (cg_ResourceGraph repo (gc_ID c) (gc_Depth c) unfiltered).

(** A parameter map as the requests build it. *)
Lemma Get_insert key v (q : gmap string string) : Get key (<[key := v]> q) = v.
Proof. unfold Get. by rewrite lookup_insert_eq. Qed.
Lemma Get_insert_ne key key' v (q : gmap string string) : key' <> key -> Get key (<[key' := v]> q) = Get key q.
Proof. intros. unfold Get. by rewrite lookup_insert_ne. Qed.
Lemma Get_optional key v q : Get key q = ""%string -> Get key (optional key v q) = v.
Proof. intros Hq. unfold optional. case_bool_decide as Hv; [by rewrite Hv|apply Get_insert]. Qed.
Lemma Get_optional_ne key key' v q : key' <> key -> Get key (optional key' v q) = Get key q.
Proof. intros. unfold optional. case_bool_decide; [done|by apply Get_insert_ne]. Qed.
Lemma Get_positive_ne key key' n q : key' <> key -> Get key (positive key' n q) = Get key q.
Proof. intros. unfold positive. case_bool_decide; [by apply Get_insert_ne|done]. Qed.
Lemma Get_base_ne key : key <> "repo"%string -> Get key (baseQuery repo) = ""%string.
Proof. intros. unfold Get, baseQuery. by rewrite lookup_singleton_ne. Qed.
Lemma Get_base : Get "repo" (baseQuery repo) = repo.
Proof. unfold Get, baseQuery. by rewrite lookup_singleton_eq. Qed.
Lemma Get_positive key n q : Get key q = ""%string ->
  Get key (positive key n q) = if bool_decide (n > 0) then itoa n else ""%string.
Proof. intros Hq. unfold positive. case_bool_decide; [apply Get_insert|done]. Qed.
Lemma parsePosInt_given key n q (k : Z -> M C code_answer) : 0 <= n < two63 ->
  Get key q = (if bool_decide (n > 0) then itoa n else ""%string) -> parsePosInt key q k = k n.
Proof.
  intros Hn Hq. unfold parsePosInt. rewrite Hq. destruct (bool_decide_reflect (n > 0)).
  - rewrite Atoi_itoa by done. rewrite bool_decide_eq_false_2; [by rewrite bool_decide_eq_false_2 by lia|].
    intros He. pose proof (Atoi_itoa n Hn) as Ha. by rewrite He in Ha.
  - rewrite bool_decide_eq_true_2 by done. f_equal. lia.
Qed.
Lemma parsePosInt_absent key q (k : Z -> M C code_answer) : Get key q = ""%string -> parsePosInt key q k = k 0.
Proof. intros Hq. unfold parsePosInt. by rewrite Hq, bool_decide_eq_true_2. Qed.
Lemma confidenceFilter_absent q (k : ConfidenceFilter -> M C code_answer) :
  Get "min_confidence" q = ""%string -> Get "tier" q = ""%string -> confidenceFilter ParseFloat q k = k unfiltered.
Proof.
  intros Hm Ht. unfold confidenceFilter, parseMinConfidence. by rewrite Hm, Ht, !bool_decide_eq_true_2.
Qed.
Lemma reqRepo_present q (k : string -> M C code_answer) : Get "repo" q <> ""%string -> reqRepo q k = k (Get "repo" q).
Proof. intros Hq. unfold reqRepo. by rewrite bool_decide_eq_false_2. Qed.
Lemma reqIDParam_present q (k : string -> M C code_answer) : Get "id" q <> ""%string -> reqIDParam q k = k (Get "id" q).
Proof. intros Hq. unfold reqIDParam. by rewrite bool_decide_eq_false_2. Qed.

(** How the client reports an answer. *)
Definition as_reported (q : result err (list Result) * C) : result err (list Result) * C :=
  (match q.1 with Ok r => Ok r | Err _ => Err (Errorf "cgeval: status") end, q.2).
Lemma do_respond {X} p q (m : M C (result err X)) kk decode k w :
  served_answer shown ParseFloat p q None = respond shown m kk -> (forall x, decode (kk x) = k x) ->
  do_ "GET" p q None decode w = as_reported (results_of k m w).
Proof.
  intros Hs Hk. unfold do_, send, the_api, served_api, as_reported, results_of, bind, ret. rewrite Hs.
  unfold respond, bind, ret. destruct (m w) as [[x|e] w']; cbn [fst snd]; [by rewrite Hk|done].
Qed.
End Requests.

#[local] Hint Rewrite @Get_insert @Get_base : get.
#[local] Hint Rewrite @Get_insert_ne @Get_optional_ne @Get_positive_ne @Get_base_ne using discriminate : get.
(** Reads every parameter the handler asks for, and passes the checks. *)
Ltac read_params :=
  repeat first
    [ progress autorewrite with get
    | rewrite Get_optional by (by autorewrite with get)
    | rewrite reqRepo_present by (by autorewrite with get)
    | rewrite reqIDParam_present by (by autorewrite with get)
    | rewrite confidenceFilter_absent by (by autorewrite with get)
    | rewrite parsePosInt_absent by (by autorewrite with get)
    | rewrite bool_decide_eq_false_2 by (by autorewrite with get) ].

Section ValidCase.
Context {C : Type} `{CodeGraphService C} (shown : err -> string) (ParseFloat : string -> option float64) (repo : string).
#[local] Instance the_api' : CodeApi C := served_api shown ParseFloat.
Abbreviation served := (served_answer shown ParseFloat).

(** What a validated case satisfies. *)
Record good_case (c : GoldenCase) : Prop := {
  gd_kind : gc_Kind c ∈ validKinds;
  gd_depth : 0 <= gc_Depth c; gd_max_depth : 0 <= gc_MaxDepth c;
  gd_direction : gc_Direction c = ""%string \/ gc_Direction c = "in"%string \/ gc_Direction c = "out"%string;
  gd_expected : gc_Expected c <> [];
  gd_args : validateArgs c = None }.
Lemma validate_good c : validate c = None -> good_case c.
Proof.
  unfold validate. cbv zeta. destruct (blank (gc_Name c)); [done|].
  destruct (bool_decide_reflect (gc_Kind c ∈ validKinds)); [|done]. cbn [negb].
  case_bool_decide; [done|]. destruct (existsb blank _); [done|].
  destruct (bool_decide_reflect (gc_Depth c < 0)), (bool_decide_reflect (gc_MaxDepth c < 0)); try done. cbn [orb].
  destruct (bool_decide_reflect (gc_Direction c <> ""%string)) as [|?%dec_stable];
    destruct (bool_decide_reflect (gc_Direction c <> "in"%string)) as [|?%dec_stable];
    destruct (bool_decide_reflect (gc_Direction c <> "out"%string)) as [|?%dec_stable]; try done;
    cbn [andb]; intros Ha; split; auto; lia.
Qed.

Ltac by_kind Hk Ha :=
  rewrite Hk in Ha;
  repeat match type of Ha with context [bool_decide ?P] =>
    let v := eval vm_compute in (bool_decide P) in change (bool_decide P) with v in Ha end; cbn [orb andb] in Ha;
  repeat match type of Ha with (if ?b then _ else _) = _ => destruct b eqn:?; [done|] end;
  repeat match goal with Hb : blank _ = false |- _ => apply not_blank in Hb end; auto.
Lemma search_args c : good_case c -> gc_Kind c = "search"%string -> gc_Q c <> ""%string.
Proof. intros [_ _ _ _ _ Ha] Hk. unfold validateArgs in Ha. cbv zeta in Ha. by_kind Hk Ha. Qed.
Lemma neighbors_args c : good_case c -> gc_Kind c = "neighbors"%string -> gc_ID c <> ""%string /\ gc_Relation c <> ""%string.
Proof. intros [_ _ _ _ _ Ha] Hk. unfold validateArgs in Ha. cbv zeta in Ha. by_kind Hk Ha. Qed.
Lemma imports_args c : good_case c -> gc_Kind c = "file-imports"%string -> gc_Path c <> ""%string.
Proof. intros [_ _ _ _ _ Ha] Hk. unfold validateArgs in Ha. cbv zeta in Ha. by_kind Hk Ha. Qed.
Lemma path_args c : good_case c -> gc_Kind c = "path"%string -> gc_From c <> ""%string /\ gc_To c <> ""%string.
Proof. intros [_ _ _ _ _ Ha] Hk. unfold validateArgs in Ha. cbv zeta in Ha. by_kind Hk Ha. Qed.
Lemma id_args c : good_case c -> gc_Kind c ∈ "entity"%string :: walk_paths.*1 -> gc_ID c <> ""%string.
Proof.
  intros [_ _ _ _ _ Ha] Hk. unfold validateArgs in Ha. cbv zeta in Ha. apply elem_of_cons in Hk as [Hk|Hk]; [by_kind Hk Ha|].
  assert (Hs : gc_Kind c <> "search"%string) by (by intros He; rewrite He in Hk; apply (bool_decide_pack _) in Hk).
  rewrite bool_decide_eq_false_2, (bool_decide_eq_true_2 (gc_Kind c ∈ _)), orb_true_r in Ha by done.
  destruct (blank (gc_ID c)) eqn:Hb; [done|by apply not_blank].
Qed.

Context (c : GoldenCase) (Hrepo : repo <> ""%string) (Hgood : good_case c).
Context (Hdepth : gc_Depth c < two63) (Hmax : gc_MaxDepth c < two63).

Lemma search_served : gc_Kind c = "search"%string ->
  served "/code/entities" (optional "type" (gc_Type c) (<["q" := gc_Q c]> (baseQuery repo))) None
  = respond shown (cg_Search repo (gc_Q c) (gc_Type c) 0) CEntities.
Proof.
  intros Hk. pose proof (search_args c Hgood Hk). change (served "/code/entities" ?q None) with (handleSearchCodeEntities shown q).
  unfold handleSearchCodeEntities, limitParam. read_params. done.
Qed.
Lemma entity_served : gc_Kind c = "entity"%string ->
  served "/code/entity" (<["id" := gc_ID c]> (baseQuery repo)) None = respond shown (cg_Entity repo (gc_ID c)) CDetail.
Proof.
  intros Hk. assert (gc_ID c <> ""%string) by (apply id_args; [done|rewrite Hk; left]).
  change (served "/code/entity" ?q None) with (handleGetCodeEntity shown q).
  unfold handleGetCodeEntity. read_params. done.
Qed.
Lemma neighbors_served : gc_Kind c = "neighbors"%string ->
  served "/code/neighbors" (neighborQuery repo c) None
  = respond shown (cg_Neighbors repo (gc_ID c) (split_relations (gc_Relation c)) (gc_Direction c) (gc_Depth c) 0 unfiltered) CNodes.
Proof.
  intros Hk. destruct (neighbors_args c Hgood Hk) as [Hi Hr]. pose proof (gd_direction c Hgood) as Hd.
  pose proof (gd_depth c Hgood).
  change (served "/code/neighbors" ?q None) with (handleNeighbors shown ParseFloat q).
  unfold handleNeighbors, neighborQuery, idDepthQuery, limitParam, depthParam, split_relations. read_params.
  rewrite (parsePosInt_given "depth" (gc_Depth c)) by first [lia | autorewrite with get; by rewrite Get_positive by (by autorewrite with get)].
  read_params. by destruct Hd as [->|[->| ->]].
Qed.
Lemma imports_served : gc_Kind c = "file-imports"%string ->
  served "/code/file-imports" (<["path" := gc_Path c]> (baseQuery repo)) None
  = respond shown (cg_FileImports repo (gc_Path c) defaultListLimit) CEdges.
Proof.
  intros Hk. pose proof (imports_args c Hgood Hk). change (served "/code/file-imports" ?q None) with (handleFileImports shown q).
  unfold handleFileImports, limitParam. read_params. done.
Qed.
Lemma path_served : gc_Kind c = "path"%string ->
  served "/code-graph/path" (positive "max_depth" (gc_MaxDepth c) (optional "relations" (gc_Relation c)
      (<["to" := gc_To c]> (<["from" := gc_From c]> (baseQuery repo))))) None
  = respond shown (cg_ShortestPath repo (gc_From c) (gc_To c) (split_relations (gc_Relation c)) (gc_MaxDepth c)) CPath.
Proof.
  intros Hk. destruct (path_args c Hgood Hk) as [Hf Ht]. pose proof (gd_max_depth c Hgood).
  change (served "/code-graph/path" ?q None) with (handleShortestPath shown q).
  unfold handleShortestPath, relationsParam, split_relations. read_params.
  rewrite (parsePosInt_given "max_depth" (gc_MaxDepth c)) by first [lia | by rewrite Get_positive by (by autorewrite with get)].
  done.
Qed.
Lemma walk_served (walk : string -> string -> Z -> ConfidenceFilter -> M C (result err (list PathNode))) :
  gc_ID c <> ""%string ->
  handleWalk shown ParseFloat walk (idDepthQuery repo c) = respond shown (walk repo (gc_ID c) (gc_Depth c) unfiltered) CNodes.
Proof.
  intros Hi. pose proof (gd_depth c Hgood). unfold handleWalk, idDepthQuery, depthParam. read_params.
  rewrite (parsePosInt_given "depth" (gc_Depth c)) by first [lia | by rewrite Get_positive by (by autorewrite with get)].
  done.
Qed.
Ltac compute_kind :=
  repeat match goal with |- context [bool_decide ?P] =>
    let v := eval vm_compute in (bool_decide P) in change (bool_decide P) with v end;
  repeat match goal with |- context [list_find ?P walk_paths] =>
    let v := eval vm_compute in (list_find P walk_paths) in change (list_find P walk_paths) with v end; cbv iota.
Lemma Run_served w : Run repo c w = as_reported (ask repo c w).
Proof.
  pose proof (gd_kind c Hgood) as Hk. unfold validKinds, walk_paths in Hk. cbn [app fmap list_fmap fst] in Hk.
  unfold Run, ask. cbv zeta. rewrite !elem_of_cons in Hk.
  destruct Hk as [Hk|[Hk|[Hk|[Hk|[Hk|[Hk|[Hk|[Hk|[Hk|[Hk|Hk]]]]]]]]]]; [..|by apply elem_of_nil in Hk].
  all: rewrite Hk; compute_kind.
  6-10: eapply do_respond; [apply walk_served, id_args; [done|rewrite Hk; by apply (bool_decide_unpack _)]|done].
  - eapply do_respond; [by apply search_served|done].
  - eapply do_respond; [by apply entity_served|done].
  - eapply do_respond; [by apply neighbors_served|done].
  - eapply do_respond; [by apply imports_served|done].
  - eapply do_respond; [by apply path_served|done].
Qed.
End ValidCase.

Section Cases.
Context {C : Type} `{CodeGraphService C} (shown : err -> string) (ParseFloat : string -> option float64) (repo : string).
#[local] Instance cases_api : CodeApi C := served_api shown ParseFloat.

Lemma code_cases_good seen l : parse_cases seen l = None -> Forall good_case l.
Proof.
  revert seen. induction l as [|c l IH]; intros seen; simpl; [constructor|].
  destruct (validate c) eqn:E; [done|]. case_bool_decide; [done|]. intros Hl. constructor; [by apply validate_good|by eapply IH].
Qed.
Lemma code_golden_good d cs : parseGolden d = Ok cs -> Forall good_case cs.
Proof.
  destruct d as [l|]; [|done]. simpl. destruct (parse_cases ∅ l) eqn:E; [done|]. intros [= <-]. by eapply code_cases_good.
Qed.
(** Depths are machine integers. *)
Definition machine_case (c : GoldenCase) : Prop := in_int64 (gc_Depth c) /\ in_int64 (gc_MaxDepth c).

End Cases.

(** * The fixture *)

(** The merged fixture: distinct files, distinct named entities, nothing else. *)
Record merged_ok (seen : gset string) (p : GraphPush) : Prop := {
  mo_files : NoDup (gp_Files p);
  mo_ids : NoDup (ce_ID <$> gp_Entities p);
  mo_seen i : i ∈ seen <-> i ∈ ce_ID <$> gp_Entities p;
  mo_named : Forall (fun e => ce_ID e <> ""%string) (gp_Entities p);
  mo_rest : gp_Symbols p = [] /\ gp_Hyperedges p = [] /\ gp_FileSHAs p = ∅ /\ gp_Extractor p = ""%string }.
Lemma merge_entities_spec l seen all seen' all' :
  merge_entities l seen all = Ok (seen', all') -> NoDup (ce_ID <$> all) -> (forall i, i ∈ seen <-> i ∈ ce_ID <$> all) ->
  Forall (fun e => ce_ID e <> ""%string) all ->
  NoDup (ce_ID <$> all') /\ (forall i, i ∈ seen' <-> i ∈ ce_ID <$> all') /\ Forall (fun e => ce_ID e <> ""%string) all'.
Proof.
  revert seen all. induction l as [|e l IH]; intros seen all; simpl; [by intros [= <- <-]|].
  case_bool_decide as He; [done|]. case_bool_decide as Hs; [done|]. intros Hm Hn Hin Hf. apply IH in Hm; [done|..].
  - rewrite fmap_app. apply NoDup_app. split; [done|]. split; [|by apply NoDup_singleton].
    intros i Hi ->%list_elem_of_singleton. by apply Hs, Hin.
  - intros i. rewrite fmap_app, elem_of_app, elem_of_union, <-Hin. simpl. rewrite list_elem_of_singleton. set_solver.
  - apply Forall_app. split; [done|by repeat constructor].
Qed.
Lemma merge_files_spec fs seen m p : merge_files fs seen m = Ok p -> merged_ok seen m -> exists seen', merged_ok seen' p.
Proof.
  revert seen m. induction fs as [|f fs IH]; intros seen m; cbn [merge_files]; [intros [= <-]; by exists seen|].
  destruct (fi_data f) as [[d|]|]; [|done..]. destruct (merge_entities _ _ _) as [[seen' es]|] eqn:Em; [|done].
  intros Hm [Hf Hi Hs Hn Hr]. apply merge_entities_spec in Em as (Hi' & Hs' & Hn'); [|done..].
  eapply IH; [exact Hm|]. split; cbn; try done. apply NoDup_app. split; [done|]. split.
  - intros x Hx Hd. apply dedup_by_keys_fresh in Hd as [Hd _]. apply Hd. by apply elem_of_list_to_set.
  - pose proof (dedup_by_NoDup id (list_to_set (gp_Files m)) (gp_Files d)) as Hd. by rewrite list_fmap_id in Hd.
Qed.
Lemma no_push_ok : merged_ok ∅ no_push.
Proof. split; [constructor|constructor|set_solver|constructor|done]. Qed.

(** [validateSeedScope] is the service's own scope check. *)
Lemma existsb_false {A} (f : A -> bool) l : existsb f l = false <-> Forall (fun x => f x = false) l.
Proof.
  induction l as [|x l IH]; simpl; [split; [constructor|done]|]. by rewrite orb_false_iff, IH, Forall_cons.
Qed.
Lemma validateSeedScope_spec repo p : repo <> ""%string -> gp_Symbols p = [] ->
  validateSeedScope p = None <-> in_scope (with_repo repo p) /\ gp_Entities p <> [].
Proof.
  intros Hr Hs. unfold validateSeedScope, in_scope. cbn [with_repo gp_Repo gp_Files gp_Entities gp_Edges gp_Symbols].
  rewrite Hs. case_bool_decide as Hf; [naive_solver|]. case_bool_decide as He; [naive_solver|].
  set (bad_entity := fun e : CodeEntity => _ && _). set (bad_edge := fun e : CodeEdge => negb _).
  assert (H1 : existsb bad_entity (gp_Entities p) = false <->
    Forall (fun e => ce_FilePath e = ""%string \/ ce_FilePath e ∈ gp_Files p) (gp_Entities p)).
  { rewrite existsb_false. apply Forall_iff. intros e. unfold bad_entity.
    by rewrite andb_false_iff, !negb_false_iff, !bool_decide_eq_true, elem_of_list_to_set. }
  assert (H2 : existsb bad_edge (gp_Edges p) = false <-> Forall (fun e => cg_SrcFile e ∈ gp_Files p) (gp_Edges p)).
  { rewrite existsb_false. apply Forall_iff. intros e. unfold bad_edge.
    by rewrite negb_false_iff, bool_decide_eq_true, elem_of_list_to_set. }
  destruct (existsb bad_entity _); [naive_solver|]. destruct (existsb bad_edge _); [naive_solver|].
  split; [|done]. intros _. repeat split; try done; [by apply H1|by apply H2].
Qed.

Section Fixture.
Context {S : Type} `{Store S} (shown : err -> string) (ParseFloat : string -> option float64) (repo : string).
#[local] Instance fixture_api : CodeApi (code_svc S) := served_api shown ParseFloat.

Lemma loadSeed_spec glob p : loadSeed glob = Ok p ->
  NoDup (gp_Files p) /\ NoDup (ce_ID <$> gp_Entities p) /\ gp_Symbols p = [] /\ gp_Hyperedges p = [] /\
  gp_FileSHAs p = ∅ /\ (repo <> ""%string -> in_scope (with_repo repo p)).
Proof.
  intros Hl. unfold loadSeed in Hl. destruct glob as [[|f fs]|]; [done| |done].
  destruct (merge_files _ _ _) as [m|] eqn:Em; [|done]. destruct (validateSeedScope m) eqn:Ev; [done|]. injection Hl as <-.
  apply merge_files_spec in Em as (seen & [Hf Hi _ _ (Hs & Hh & Hx & _)]); [|apply no_push_ok].
  do 5 (split; [done|]). intros Hr. by apply (validateSeedScope_spec repo) in Ev as [Hsc _].
Qed.
Lemma client_Push_reconciles glob p (w : code_svc S) :
  repo <> ""%string -> loadSeed glob = Ok p ->
  let '(r, w') := client_Push repo p w in
  let '(r', s') := s_Reconcile (with_repo repo p) (cs_store w) in
  cs_store w' = s' /\ r = match r' with Ok res => Ok res | Err _ => Err (Errorf "cgeval: status") end.
Proof.
  intros Hr (_ & _ & _ & _ & _ & Hsc)%loadSeed_spec. specialize (Hsc Hr).
  unfold client_Push, do_, send, fixture_api, served_api, served_answer. rewrite bool_decide_eq_true_2 by done.
  unfold handlePostCodeGraph, respond, cg_Push, Service_CodeGraphService, Push.
  destruct (check_push_spec (with_repo repo p)) as [[-> _]|[_ Hn]]; [|done].
  unfold bind, ret, on_cstore. cbn [fst snd].
  destruct (s_Reconcile (with_repo repo p) (cs_store w)) as [[res|e] s']; by split.
Qed.

(** A fixture that loads is never refused as out of scope: its merged push has
    distinct files and distinct named entities, passes the scope check of the service
    under any repository, and pushing it over HTTP runs exactly the reconciliation of
    the store, whose failure is the only one the client can report.  (Symbols,
    hyperedges and hashes of the files are dropped by the merge.) *)
Theorem fixture_accepted glob p (w : code_svc S) :
  repo <> ""%string -> loadSeed glob = Ok p ->
  in_scope (with_repo repo p) /\ NoDup (gp_Files p) /\ NoDup (ce_ID <$> gp_Entities p) /\
  gp_Symbols p = [] /\ gp_Hyperedges p = [] /\ gp_FileSHAs p = ∅ /\
  let '(r, w') := client_Push repo p w in
  let '(r', s') := s_Reconcile (with_repo repo p) (cs_store w) in
  cs_store w' = s' /\ r = match r' with Ok res => Ok res | Err _ => Err (Errorf "cgeval: status") end.
Proof.
  intros Hr Hl. pose proof (client_Push_reconciles glob p w Hr Hl). apply loadSeed_spec in Hl as (? & ? & ? & ? & ? & Hsc).
  split; [by apply Hsc|]. by do 5 (split; [done|]).
Qed.
End Fixture.

(** * Set scores *)

Lemma count_perm {A} (f : A -> bool) l l' : l ≡ₚ l' -> count f l = count f l'.
Proof. induction 1; rewrite ?count_cons in *; lia. Qed.
(** One name per key: what the walks of the service return. *)
Definition names_agree (l : list Result) : Prop := forall r r', r ∈ l -> r' ∈ l -> rs_Key r = rs_Key r' -> r = r'.
Lemma dedupe_in l r : names_agree l -> r ∈ dedupe l <-> r ∈ l.
Proof.
  intros Ha. split; [apply (dedup_by_keys_fresh rs_Key ∅ l r)|]. intros Hr.
  destruct (dedup_by_complete rs_Key ∅ l r Hr) as [?%elem_of_empty|(r' & Hk & Hr')%list_elem_of_fmap]; [done|].
  pose proof (dedup_by_keys_fresh rs_Key ∅ l r' Hr') as [_ Hl]. by rewrite (Ha r r' Hr Hl Hk).
Qed.
Lemma dedupe_perm l l' : names_agree l -> l ≡ₚ l' -> dedupe l ≡ₚ dedupe l'.
Proof.
  intros Ha Hp. assert (Ha' : names_agree l') by (intros r r' Hr Hr'; apply Ha; by rewrite Hp).
  apply NoDup_Permutation; [apply (NoDup_fmap_1 rs_Key), dedup_by_NoDup..|]. intros r. by rewrite !dedupe_in, Hp.
Qed.
Lemma hits_perm expected l l' : l ≡ₚ l' -> hits_in hit expected l = hits_in hit expected l'.
Proof.
  intros Hp. apply Z.le_antisymm; apply hits_mono; intros r; by rewrite Hp.
Qed.

Section SetScores.
Context {F : Type} `{Num F}.
(** The score of a traversal does not depend on the order in which the service
    lists its answer, nor on duplicates: whatever permutation comes back, counts,
    recall, precision and F1 are the same, and the window is the whole set. *)
Theorem set_score_order_free c k l l' :
  case_mode c = ModeSet -> names_agree l -> l ≡ₚ l' ->
  let s := ScoreCase (F := F) c l k in
  let s' := ScoreCase (F := F) c l' k in
  sc_K s = sc_Returned s /\ sc_K s' = sc_K s /\ sc_Relevant s' = sc_Relevant s /\ sc_Hits s' = sc_Hits s /\
  sc_RecallAtK s' = sc_RecallAtK s /\ sc_Precision s' = sc_Precision s /\ sc_F1 s' = sc_F1 s /\
  (sc_Hits s = sc_Expected s <-> forall e, e ∈ gc_Expected c -> exists r, r ∈ l /\ hit r e = true) /\
  (sc_Relevant s = sc_Returned s <-> forall r, r ∈ l -> exists e, e ∈ gc_Expected c /\ hit r e = true).
Proof.
  intros Hm Ha Hp. pose proof (dedupe_perm l l' Ha Hp) as Hd. unfold ScoreCase. rewrite Hm. cbv zeta.
  cbn [sc_K sc_Returned sc_Relevant sc_Hits sc_RecallAtK sc_Precision sc_F1 sc_Expected].
  assert (Ht : forall d : list Result, topK (Z.of_nat (length d)) d = d) by (intros d; apply topK_all; lia).
  rewrite !Ht. assert (Hn : length (dedupe l') = length (dedupe l)) by by rewrite Hd.
  assert (Hr : relevantCount (gc_Expected c) (dedupe l') = relevantCount (gc_Expected c) (dedupe l))
    by (apply count_perm; by rewrite Hd).
  assert (Hh : hits_in hit (gc_Expected c) (dedupe l') = hits_in hit (gc_Expected c) (dedupe l))
    by (apply hits_perm; by rewrite Hd).
  unfold recall_of. rewrite Hn, Hr, Hh. do 7 (split; [done|]). split.
  - rewrite hits_all. by setoid_rewrite (dedupe_in l _ Ha).
  - unfold relevantCount. split.
    + intros Hc%count_all r Hin. rewrite List.Forall_forall in Hc. apply satisfies_spec, Hc, list_elem_of_In. by apply dedupe_in.
    + intros Hall. unfold count. rewrite (filter_all _ (dedupe l)); [done|]. rewrite List.Forall_forall.
      intros r Hin%list_elem_of_In. by apply satisfies_spec, Hall, dedupe_in.
Qed.
End SetScores.

(** Exactly computed, F1 lies between precision and recall. *)
Lemma f1_between (p r : Q) : (0 <= p <= 1 -> 0 <= r <= 1 -> 0 <= f1 p r <= 1 /\ (p <= r -> p <= f1 p r <= r))%Q.
Proof.
  intros [Hp0 Hp1] [Hr0 Hr1]. unfold f1. cbn [feqb of_int fadd fmul fdiv exact].
  destruct (Qeq_bool (p + r) (inject_Z 0)) eqn:E.
  - apply Qeq_bool_iff in E. change (inject_Z 0) with 0%Q in *.
    assert (Hz : (r == 0)%Q).
    { apply Qle_antisym; [|done]. rewrite <-E. rewrite <-(Qplus_0_l r) at 1. by apply Qplus_le_l. }
    split; [split; discriminate|]. intros Hle. split; [by rewrite <-Hz|done].
  - assert (Hpos : (0 < p + r)%Q).
    { apply Qle_lteq in Hp0, Hr0. assert (Hnz : ~ (p + r == 0)%Q) by (intros Hz; apply Qeq_bool_iff in Hz; change (inject_Z 0) with 0%Q in E; congruence).
      apply Qnot_le_lt. intros Hle. apply Hnz. apply Qle_antisym; [done|].
      rewrite <-(Qplus_0_r 0). apply Qplus_le_compat; apply Qle_lteq; done. }
    change (inject_Z 2) with 2%Q.
    assert (H1 : (0 <= 2 * p * r)%Q) by (apply Qmult_le_0_compat; [apply Qmult_le_0_compat|]; done).
    split; [split|].
    + apply Qle_shift_div_l; [done|]. by rewrite Qmult_0_l.
    + apply Qle_shift_div_r; [done|]. rewrite Qmult_1_l. nra.
    + intros Hle. split; [apply Qle_shift_div_l|apply Qle_shift_div_r]; try done; nra.
Qed.

(** * The run *)

Section Run.
Context {S F : Type} `{Store S, Process (code_svc S), Num F}.
Context (shown : err -> string) (ParseFloat : string -> option float64) (format_g : F -> string).
#[local] Instance run_api : CodeApi (code_svc S) := served_api shown ParseFloat.

Lemma NewClient_repo base repo token cl :
  NewClient base repo token = Ok cl -> cl_repo cl = repo /\ repo <> ""%string.
Proof.
  unfold NewClient. destruct (blank base); [done|]. destruct (blank repo) eqn:Hb; [done|]. intros [= <-].
  split; [done|by apply not_blank].
Qed.
Lemma score_cases_asked repo k cases w scores w' :
  repo <> ""%string -> Forall (fun c => good_case c /\ machine_case c) cases ->
  score_cases (F := F) repo k cases w = (Ok scores, w') ->
  Forall2 (fun c s => exists u v rs, ask repo c u = (Ok rs, v) /\ s = ScoreCase (F := F) c rs k) cases scores.
Proof.
  intros Hr Hc. revert w scores w'. induction Hc as [|c cases [Hg [Hd Hm]] Hc IH]; intros w scores w'; cbn [score_cases];
    [by intros [= <- <-]|].
  unfold bind at 1, run_api. rewrite Run_served by (try apply Hd; try apply Hm; done).
  destruct (ask repo c w) as [[rs|e] v] eqn:Ea; cbn [as_reported fst snd]; [|done].
  intros Hs. run in Hs. destruct r as [rest|e]; [|done]. injection Hs as <- <-.
  constructor; [by exists w, v, rs|]. by eapply IH.
Qed.
Lemma report_floor cfg scores w w' :
  report format_g cfg scores w = (None, w') -> fleb (co_recallFloor cfg) (su_MeanRecallAtK (Summarize scores)) = true.
Proof.
  unfold report. cbv zeta. intros Hr. run in Hr. destruct r; [done|]. unfold ret in Hr.
  destruct (fleb _ _); [done|discriminate].
Qed.

(** What a passing run shows.  When the evaluation of a fixture and golden cases
    that loaded ends without an error, the fixture was reconciled by the store under
    the configured repository, every case was scored, in order, on the answer of the
    very operation it names, and the mean recall reaches the floor. *)
Theorem code_evaluation_passes (cfg : config F) golden seed (w w' : code_svc S) :
  (forall cases, loadGolden golden = Ok cases -> Forall machine_case cases) ->
  run_eval format_g cfg (loadGolden golden) (loadSeed seed) w = (None, w') ->
  exists cases p res s' scores,
    loadGolden golden = Ok cases /\ loadSeed seed = Ok p /\
    s_Reconcile (with_repo (co_repo cfg) p) (cs_store w) = (Ok res, s') /\
    Forall2 (fun c s => exists u v rs, ask (co_repo cfg) c u = (Ok rs, v) /\ s = ScoreCase (F := F) c rs (co_k cfg))
      cases scores /\
    fleb (co_recallFloor cfg) (su_MeanRecallAtK (Summarize scores)) = true.
Proof.
  intros Hm. unfold run_eval. destruct (loadGolden golden) as [cases|e] eqn:Eg; [|done].
  destruct (loadSeed seed) as [p|e] eqn:Es; [|done].
  destruct (NewClient _ _ _) as [cl|e] eqn:Ec; [|done]. apply NewClient_repo in Ec as [-> Hr].
  intros Hrun. unfold bind at 1 in Hrun.
  pose proof (client_Push_reconciles shown ParseFloat (co_repo cfg) seed p w Hr Es) as Hpush.
  change (fixture_api shown ParseFloat) with run_api in Hpush.
  destruct (client_Push (co_repo cfg) p w) as [r w1].
  destruct (s_Reconcile _ _) as [r' s'] eqn:Er. destruct Hpush as [_ ->].
  destruct r' as [res|e]; cbn [fst snd] in Hrun; [|done]. run in Hrun. destruct r as [scores|e]; [|done].
  exists cases, p, res, s', scores. repeat split; try done; [|by eapply report_floor].
  eapply score_cases_asked; [done| |done]. apply (load_dir_spec _ _ _ code_golden_good) in Eg as [Hg _].
  apply Forall_and. split; [done|by apply Hm].
Qed.
End Run.

(** * The routes the client uses are the ones the router mounts *)

Section Mounted.
Context {A I C : Type} `{MemoryService A, IngestService I, CodeGraphService C, Decoders}.
Context (shown : err -> string) (ParseFloat : string -> option float64).
Lemma served_routes_mounted cfg p (h : gmap string string -> M C code_answer) :
  rc_hasCodeGraph cfg = true -> (p, h) ∈ served_routes shown ParseFloat ->
  code_get p h ∈ mountV1 (A := A) (I := I) shown ParseFloat cfg.
Proof.
  intros Hg Hp. unfold mountV1. rewrite Hg. rewrite !elem_of_app. right. right. right.
  unfold served_routes in Hp. rewrite !elem_of_cons in Hp.
  repeat (destruct Hp as [[= -> ->]|Hp]; [rewrite !elem_of_cons; tauto|]). by apply elem_of_nil in Hp.
Qed.
End Mounted.

(** * A fixture, its cases and a service *)

#[local] Existing Instances route_range route_scan route_store.
(** The service behind its handlers. *)
#[local] Instance fixture_served : CodeApi (code_svc (Db graph)) := served_api route_shown reads_nan.
#[local] Instance no_files : Process (code_svc (Db graph)) := { writeMetricsFile := fun _ => ret None }.
Definition empty_service : code_svc (Db graph) := mkCodeSvc (mkDb CodeHttpLaws.no_tables []) ∅ ∅.
Definition fixture_files : result err (list (file GraphPush)) := Ok [mkFile "seed.json" (Ok (Some two_functions))].
Definition fixture : GraphPush :=
  mkPush "" "" (gp_Files two_functions) (gp_Entities two_functions) (gp_Edges two_functions) [] [] ∅.
Definition who_calls_b : GoldenCase := mkGolden "who-calls-b" "callers" "b" "" "" "" "" 2 "" "" "" 0 ["a"%string].
Definition neighbors_of_a : GoldenCase :=
  mkGolden "neighbors-of-a" "neighbors" "a" "" "" "calls" "out" 1 "" "" "" 0 ["B"; "c"]%string.
Definition golden_files : result err (list (file (list GoldenCase))) :=
  Ok [mkFile "golden.json" (Ok (Some [who_calls_b; neighbors_of_a]))].
Definition fixture_config : config Q := mkConfig (F := Q) "http://memory" "token" "r" (7 # 10)%Q 10 "" "" "".

Lemma fixture_machine cases : loadGolden golden_files = Ok cases -> Forall machine_case cases.
Proof.
  intros H. assert (Hc : loadGolden golden_files = Ok [who_calls_b; neighbors_of_a]) by (vm_compute; reflexivity).
  rewrite Hc in H. injection H as <-.
  repeat (apply List.Forall_cons; [split; split; vm_compute; congruence|]). apply List.Forall_nil.
Qed.
Lemma fixture_accepted_witness :
  in_scope (with_repo "r" fixture) /\ (client_Push "r" fixture empty_service).1 = Ok (mkPushResult "r" 1 2 1).
Proof.
  destruct (fixture_accepted route_shown reads_nan "r" fixture_files fixture empty_service
    ltac:(discriminate) ltac:(vm_compute; reflexivity)) as (Hs & _).
  split; [exact Hs|]. vm_compute. reflexivity.
Defined.
Definition fixture_service : code_svc (Db graph) := (client_Push "r" fixture empty_service).2.
(** Recall is 1 for the first case and 1/2 for the second: their mean, 3/4, passes. *)
Definition fixture_run : option err * code_svc (Db graph) :=
  run_eval (fun _ => ""%string) fixture_config (loadGolden golden_files) (loadSeed fixture_files) empty_service.
Lemma code_evaluation_passes_witness : exists cases scores,
  loadGolden golden_files = Ok cases /\ length scores = length cases /\
  fleb (7 # 10)%Q (su_MeanRecallAtK (F := Q) (Summarize scores)) = true.
Proof.
  assert (Hr : fixture_run = (None, fixture_run.2)) by (vm_compute; reflexivity).
  destruct (code_evaluation_passes route_shown reads_nan (fun _ => ""%string) fixture_config golden_files fixture_files
    empty_service fixture_run.2 fixture_machine Hr) as (cases & p & res & s' & scores & Hg & _ & _ & Hs & Hf).
  exists cases, scores. split; [exact Hg|]. split; [symmetry; exact (Forall2_length _ _ _ Hs)|exact Hf].
Defined.
Lemma set_score_order_free_witness :
  let one := [mkResult "a" "A"; mkResult "b" "B"; mkResult "a" "A"] in
  let other := [mkResult "b" "B"; mkResult "a" "A"; mkResult "a" "A"] in
  sc_Returned (ScoreCase (F := Q) who_calls_b one 10) = 2 /\
  sc_F1 (ScoreCase (F := Q) who_calls_b other 10) = sc_F1 (ScoreCase (F := Q) who_calls_b one 10).
Proof.
  cbv zeta. split; [vm_compute; reflexivity|].
  apply (set_score_order_free (F := Q) who_calls_b 10); [vm_compute; reflexivity| |constructor].
  intros r r' Hr Hr'. rewrite !elem_of_cons in Hr, Hr'.
  destruct Hr as [->|[->|[->|Hr]]]; [..|by apply elem_of_nil in Hr];
    (destruct Hr' as [->|[->|[->|Hr']]]; [..|by apply elem_of_nil in Hr']); intros Hk; try reflexivity; discriminate Hk.
Defined.
