(* ===== verification/Analytics.v ===== *)
(** Graph analytics ([internal/analytics/compute.go]): the undirected simple graph
    built from the edge list, communities and their cohesion, normalised
    betweenness.

    Louvain modularity and Brandes betweenness are gonum's: parameters
    ([modularize], [raw_betweenness]) of the definitions.  Nodes are the positions
    of the IDs.  Floating-point values are exact rationals. *)
From S2P Require Import Prelude.
From Stdlib Require Import QArith Qround Qabs Lqa.
#[local] Open Scope Z_scope.

(** * Definitions *)

Record AEdge := mkAEdge { ae_From : string; ae_To : string }.
Record NodeSignal := mkNodeSignal { ns_ID : string; ns_Community : Z; ns_Betweenness : Q }.
Record CommunitySignal := mkCommunitySignal {
  cs_Community : Z; cs_Size : Z; cs_Cohesion : Q; cs_Members : list string }.
Record AResult := mkAResult {
  ar_Nodes : list NodeSignal; ar_Communities : list CommunitySignal;
  ar_NodeCount : Z; ar_EdgeCount : Z; ar_RawEdgeCount : Z; ar_BetweennessSkipped : bool }.

(** The gonum graph: its node count and its edges, each unordered pair once. *)
Definition ugraph : Type := nat * list (nat * nat).
Definition HasEdgeBetween (g : ugraph) (a b : nat) : bool :=
  existsb (fun e => bool_decide (e = (a, b)) || bool_decide (e = (b, a))) g.2.
(** [g.From(a)]: the neighbours of a node. *)
Definition From (g : ugraph) (a : nat) : list nat :=
  omap (fun e => if bool_decide (e.1 = a) then Some e.2 else if bool_decide (e.2 = a) then Some e.1 else None) g.2.

(** [idToNode]: the last position of an ID. *)
Definition idToNode (ids : list string) : gmap string nat :=
  foldl (fun m p => <[p.2 := p.1]> m) ∅ (zip (seq 0 (length ids)) ids).
Definition add_edge (idx : gmap string nat) (g : ugraph) (e : AEdge) : ugraph :=
  match idx !! ae_From e, idx !! ae_To e with
  | Some f, Some t =>
      if bool_decide (f = t) || HasEdgeBetween g f t then g else (g.1, g.2 ++ [(f, t)])
  | _, _ => g
  end.
Definition isolated_nodes (ids : list string) : ugraph := (length ids, []).
Definition build (ids : list string) (edges : list AEdge) : ugraph :=
  foldl (add_edge (idToNode ids)) (isolated_nodes ids) edges.

(** cohesion: twice the internal edges over n (n - 1). *)
Definition internal_degree (g : ugraph) (members : list nat) : Z :=
  foldr (fun m acc => Z.of_nat (length (List.filter (fun x => bool_decide (x ∈ members)) (From g m))) + acc) 0 members.
Definition cohesion (g : ugraph) (members : list nat) : Q :=
  let n := Z.of_nat (length members) in
  if bool_decide (n < 2) then 0%Q
  else (inject_Z (internal_degree g members / 2) / (inject_Z (n * (n - 1)) / 2))%Q.

(** [math.Round]: half away from zero; rounding to six decimals. *)
Definition Round (q : Q) : Z :=
  if Qle_bool 0 q then Qfloor (q + (1 # 2)) else - Qfloor (- q + (1 # 2)).
Definition round6 (q : Q) : Q := (inject_Z (Round (q * inject_Z 1000000)) / inject_Z 1000000)%Q.

Section Compute.
Context (modularize : ugraph -> list (list nat)) (raw_betweenness : ugraph -> nat -> Q).

Definition norm_factor (n : Z) : Q := if bool_decide (n >= 3) then inject_Z ((n - 1) * (n - 2)) else 1%Q.
Definition normalized (g : ugraph) (node : nat) : Q :=
  round6 (raw_betweenness g node / norm_factor (Z.of_nat g.1))%Q.

(** [nodeCommunity] and [commMembers], filled community by community. *)
Definition nodeCommunity (ids : list string) (comms : list (list nat)) : gmap string Z :=
  foldl (fun m p => foldl (fun m nd => <[nth nd ids ""%string := Z.of_nat p.1]> m) m p.2) ∅
    (zip (seq 0 (length comms)) comms).
Definition community_signal (g : ugraph) (ids : list string) (p : nat * list nat) : CommunitySignal :=
  mkCommunitySignal (Z.of_nat p.1) (Z.of_nat (length p.2)) (cohesion g p.2)
    ((fun nd => nth nd ids ""%string) <$> p.2).
(** Only communities with members have a key; the keys are visited in order. *)
Definition communities (g : ugraph) (ids : list string) (comms : list (list nat)) : list CommunitySignal :=
  community_signal g ids <$>
    List.filter (fun p => bool_decide (p.2 <> [])) (zip (seq 0 (length comms)) comms).

Definition Compute (ids : list string) (edges : list AEdge) (maxNodes : Z) : AResult :=
  match ids with
  | [] => mkAResult [] [] 0 0 0 false
  | _ =>
      let g := build ids edges in
      let comms := modularize g in
      let n := Z.of_nat (length ids) in
      let skipped := bool_decide (maxNodes > 0) && bool_decide (n > maxNodes) in
      let nc := nodeCommunity ids comms in
      mkAResult
        ((fun id => mkNodeSignal id (default 0 (nc !! id))
            (if skipped then 0%Q else normalized g (default O (idToNode ids !! id)))) <$> ids)
        (communities g ids comms)
        n (Z.of_nat (length g.2)) (Z.of_nat (length edges)) skipped
  end.
End Compute.

(** * The graph is simple *)

(** Endpoints in range, no loop, no pair twice in either direction. *)
Definition simple (g : ugraph) : Prop :=
  (forall a b, (a, b) ∈ g.2 -> a <> b) /\
  NoDup g.2 /\ (forall a b, (a, b) ∈ g.2 -> (b, a) ∉ g.2).
Lemma HasEdgeBetween_spec g a b : HasEdgeBetween g a b = true <-> (a, b) ∈ g.2 \/ (b, a) ∈ g.2.
Proof.
  unfold HasEdgeBetween. rewrite existsb_exists. split.
  - intros (e & He%list_elem_of_In & [->%bool_decide_eq_true | ->%bool_decide_eq_true]%orb_true_iff); auto.
  - intros [Hin|Hin]; eexists; (split; [by apply list_elem_of_In|]); apply orb_true_iff;
      rewrite !bool_decide_eq_true; auto.
Qed.
Lemma add_edge_simple idx g e : simple g -> simple (add_edge idx g e).
Proof.
  intros (Hl & Hn & Hs). unfold add_edge. destruct (idx !! ae_From e) as [f|]; [|done].
  destruct (idx !! ae_To e) as [t|]; [|done]. case_bool_decide as Hft; [done|].
  destruct (HasEdgeBetween g f t) eqn:Hb; [done|]. simpl.
  assert (Hno : ((f, t) ∉ g.2) /\ ((t, f) ∉ g.2)) by (split; intros Hx; enough (HasEdgeBetween g f t = true) by congruence; apply HasEdgeBetween_spec; auto).
  destruct Hno as [H1 H2]. split_and!; simpl.
  - intros a b [?|[= -> ->]%list_elem_of_singleton]%elem_of_app; [by apply Hl|done].
  - apply NoDup_app. split_and!; [done| |apply NoDup_singleton]. by intros x Hx ->%list_elem_of_singleton.
  - intros a b [Hab|[= -> ->]%list_elem_of_singleton]%elem_of_app [Hba|[= ? ?]%list_elem_of_singleton]%elem_of_app; subst; try done.
    by apply (Hs a b).
Qed.
Lemma build_simple ids edges : simple (build ids edges).
Proof.
  unfold build. assert (H0 : simple (isolated_nodes ids)) by (split_and!; simpl; [set_solver|constructor|set_solver]).
  revert H0. generalize (isolated_nodes ids) as g. induction edges as [|e edges IH]; intros g Hg; [done|].
  simpl. by apply IH, add_edge_simple.
Qed.

(** Neighbours are distinct and never the node itself. *)
Lemma From_NoDup g a : simple g -> NoDup (From g a) /\ a ∉ From g a.
Proof.
  intros (Hl & Hn & Hs). unfold From. split.
  - revert Hl Hn Hs. destruct g as [n es]. simpl. induction es as [|[x y] es IH]; intros Hl Hn Hs; simpl; [constructor|].
    apply NoDup_cons in Hn as [Hxy Hn].
    assert (IH' : NoDup (omap (fun e : nat * nat => if bool_decide (e.1 = a) then Some e.2 else if bool_decide (e.2 = a) then Some e.1 else None) es)).
    { apply IH; [intros ? ? ?; apply Hl; by right|done|]. intros c d Hc Hd. apply (Hs c d); by right. }
    assert (Hfresh : forall z, (x = a /\ z = y) \/ (y = a /\ z = x) ->
      z ∉ omap (fun e : nat * nat => if bool_decide (e.1 = a) then Some e.2 else if bool_decide (e.2 = a) then Some e.1 else None) es).
    { intros z Hz ([c d] & Hcd & Hsome)%list_elem_of_omap. simpl in Hsome.
      assert (Hback : (y, x) ∉ es) by (intros Hyx; apply (Hs x y); [by left|by right]).
      repeat case_bool_decide; simplify_eq/=; naive_solver. }
    case_bool_decide; [subst; constructor; [apply Hfresh; auto|done]|].
    case_bool_decide; [subst; constructor; [apply Hfresh; auto|done]|done].
  - intros ([c d] & Hcd & Hsome)%list_elem_of_omap. simpl in Hsome.
    pose proof (Hl _ _ Hcd). repeat case_bool_decide; simplify_eq/=; congruence.
Qed.
Lemma internal_degree_bounds g members : simple g -> NoDup members ->
  0 <= internal_degree g members <= Z.of_nat (length members) * (Z.of_nat (length members) - 1).
Proof.
  intros Hg Hm. unfold internal_degree.
  assert (Hone : forall m, m ∈ members ->
    (length (List.filter (fun x => bool_decide (x ∈ members)) (From g m)) <= length members - 1)%nat).
  { intros m Hin. destruct (From_NoDup g m Hg) as [Hnd Hself].
    assert (Hlen : (length (m :: List.filter (fun x => bool_decide (x ∈ members)) (From g m)) <= length members)%nat).
    { apply submseteq_length, NoDup_submseteq.
      - constructor; [|by apply NoDup_ListNoDup, List.NoDup_filter, NoDup_ListNoDup].
        rewrite list_elem_of_In, filter_In, <- list_elem_of_In. tauto.
      - intros x [->|Hx]%elem_of_cons; [done|].
        rewrite list_elem_of_In, filter_In in Hx. by destruct Hx as [_ ?%bool_decide_eq_true]. }
    simpl in Hlen. lia. }
  assert (Hsum : forall l, (forall m, m ∈ l -> m ∈ members) ->
    0 <= foldr (fun m acc => Z.of_nat (length (List.filter (fun x => bool_decide (x ∈ members)) (From g m))) + acc) 0 l
      <= Z.of_nat (length l) * (Z.of_nat (length members) - 1)).
  { induction l as [|m l IH]; intros Hl; simpl; [lia|].
    specialize (IH (fun x Hx => Hl x (list_elem_of_further _ _ _ Hx))). pose proof (Hone m (Hl m (list_elem_of_here _ _))).
    assert (members <> []) by (intros ->; specialize (Hl m (list_elem_of_here _ _)); by apply elem_of_nil in Hl).
    destruct members; [done|]. simpl length in *. lia. }
  apply (Hsum members). done.
Qed.
Lemma cohesion_bounds g members : simple g -> NoDup members -> (0 <= cohesion g members <= 1)%Q.
Proof.
  intros Hg Hm. unfold cohesion. case_bool_decide as Hn; [split; discriminate|].
  pose proof (internal_degree_bounds g members Hg Hm) as Hb.
  set (n := Z.of_nat (length members)) in *. set (d := internal_degree g members) in *.
  assert (Hd : 0 <= d / 2) by (apply Z.div_pos; lia). assert (Hd2 : 2 * (d / 2) <= n * (n - 1)) by (pose proof (Z.mul_div_le d 2 ltac:(lia)); lia).
  assert (Hpos : (0 < inject_Z (n * (n - 1)) / 2)%Q).
  { apply Qlt_shift_div_l; [reflexivity|]. rewrite Qmult_0_l. change 0%Q with (inject_Z 0). rewrite <- Zlt_Qlt. nia. }
  split.
  - apply Qle_shift_div_l; [done|]. rewrite Qmult_0_l. change 0%Q with (inject_Z 0). by rewrite <- Zle_Qle.
  - apply Qle_shift_div_r; [done|]. rewrite Qmult_1_l. apply Qle_shift_div_l; [reflexivity|].
    change 2%Q with (inject_Z 2). rewrite <- inject_Z_mult, <- Zle_Qle. lia.
Qed.

(** * Communities partition the entities *)

Section Partition.
Context (ids : list string) (comms : list (list nat)) (g : ugraph).
Definition numbered : list (nat * list nat) := zip (seq 0 (length comms)) comms.
Definition name_of (nd : nat) : string := nth nd ids ""%string.
(** The assignments [nodeCommunity\[id\] = ci], in order. *)
Definition assignments : list (string * Z) :=
  mjoin ((fun p => (fun nd => (name_of nd, Z.of_nat p.1)) <$> p.2) <$> numbered).
Lemma numbered_snd : snd <$> numbered = comms.
Proof. unfold numbered. apply snd_zip. by rewrite length_seq. Qed.
Lemma nodeCommunity_assignments :
  nodeCommunity ids comms = foldl (fun m q => <[q.1 := q.2]> m) ∅ assignments.
Proof.
  unfold nodeCommunity, assignments, numbered. generalize (∅ : gmap string Z) as m.
  induction (zip (seq 0 (length comms)) comms) as [|p l IH]; intros m; [done|].
  rewrite fmap_cons. simpl. rewrite foldl_app. rewrite <- IH. f_equal.
  revert m. induction p.2 as [|nd nds IHn]; intros m; [done|]. simpl. apply IHn.
Qed.
Lemma assignments_fst : fst <$> assignments = name_of <$> mjoin comms.
Proof.
  unfold assignments. rewrite <- numbered_snd. induction numbered as [|p l IH]; [done|].
  rewrite !fmap_cons. simpl. rewrite !fmap_app, IH. f_equal. rewrite <- list_fmap_compose. done.
Qed.
Lemma names_seq : name_of <$> seq 0 (length ids) = ids.
Proof.
  unfold name_of. apply list_eq. intros i. rewrite list_lookup_fmap.
  destruct (decide (i < length ids)%nat) as [Hi|Hi].
  - rewrite lookup_seq_lt by done. simpl. destruct (lookup_lt_is_Some_2 ids i Hi) as [x Hx].
    by rewrite Hx, (nth_lookup_Some ids i "" x).
  - rewrite lookup_seq_ge by lia. simpl. by rewrite lookup_ge_None_2 by lia.
Qed.
Lemma communities_members :
  mjoin (cs_Members <$> communities g ids comms) = name_of <$> mjoin comms.
Proof.
  unfold communities. fold numbered. rewrite <- numbered_snd.
  induction numbered as [|[i nds] l IH]; [done|]. rewrite fmap_cons. simpl.
  destruct nds as [|nd nds]; simpl; [by rewrite IH|]. rewrite fmap_app. f_equal. f_equal. exact IH.
Qed.

Context (Hids : NoDup ids) (Hpart : mjoin comms ≡ₚ seq 0 (length ids)).
Lemma names_permute : name_of <$> mjoin comms ≡ₚ ids.
Proof. rewrite Hpart. by rewrite names_seq. Qed.
Lemma community_of id : id ∈ ids ->
  exists c, c ∈ communities g ids comms /\ id ∈ cs_Members c /\ nodeCommunity ids comms !! id = Some (cs_Community c).
Proof.
  intros Hin. rewrite <- names_permute, <- assignments_fst in Hin.
  apply list_elem_of_fmap in Hin as ([k z] & -> & Hin). simpl.
  assert (Hlook : nodeCommunity ids comms !! k = Some z).
  { rewrite nodeCommunity_assignments.
    rewrite (lookup_upserts (fst : string * Z -> string) (fun q _ => q.2)) by done.
    destruct (last_with_in fst _ _ Hin) as ([k' z'] & Hl & Hk & Hin'). cbn [fst] in Hl, Hk. rewrite Hl. simpl in *. subst.
    f_equal. apply list_elem_of_lookup in Hin as [i Hi]. apply list_elem_of_lookup in Hin' as [j Hj].
    assert (Hnd : NoDup (fst <$> assignments)) by (rewrite assignments_fst, names_permute; done).
    assert (i = j) by (apply (NoDup_lookup _ i j k Hnd); by rewrite list_lookup_fmap, ?Hi, ?Hj).
    subst. rewrite Hi in Hj. by injection Hj. }
  unfold assignments in Hin. apply list_elem_of_join in Hin as (q & Hq & (p & -> & Hp)%list_elem_of_fmap).
  apply list_elem_of_fmap in Hq as (nd & [= -> ->] & Hnd).
  exists (community_signal g ids p). split_and!; [|by apply list_elem_of_fmap_2|done].
  apply list_elem_of_fmap_2, list_elem_of_In, filter_In. split; [by apply list_elem_of_In|].
  apply bool_decide_eq_true. intros Hnil. rewrite Hnil in Hnd. by apply elem_of_nil in Hnd.
Qed.
Lemma numbered_sorted : StronglySorted Z.lt (cs_Community <$> communities g ids comms).
Proof.
  unfold communities. fold numbered. rewrite <- list_fmap_compose. unfold numbered. generalize 0%nat as k.
  clear Hpart. induction comms as [|nds l IH]; intros k; simpl; [constructor|].
  assert (Hk : StronglySorted Z.lt ((cs_Community ∘ community_signal g ids) <$>
      List.filter (fun p => bool_decide (p.2 <> [])) (zip (seq (S k) (length l)) l)) /\
    Forall (fun z => Z.of_nat k < z) ((cs_Community ∘ community_signal g ids) <$>
      List.filter (fun p => bool_decide (p.2 <> [])) (zip (seq (S k) (length l)) l))).
  { split; [apply IH|]. apply Forall_fmap, Forall_forall. intros [i nds'] Hin%list_elem_of_In%filter_In. simpl.
    destruct Hin as [Hin%in_combine_l%in_seq _]. lia. }
  destruct Hk. by destruct nds; simpl; [|constructor].
Qed.
End Partition.

Lemma round6_unit q : (0 <= q <= 1)%Q -> (0 <= round6 q <= 1)%Q.
Proof.
  intros [H0 H1]. unfold round6, Round. assert (Hx : (0 <= q * inject_Z 1000000)%Q) by (apply Qmult_le_0_compat; [done|discriminate]).
  apply Qle_bool_iff in Hx as Hb. rewrite Hb.
  assert (Hf : 0 <= Qfloor (q * inject_Z 1000000 + (1 # 2)) <= 1000000).
  { split.
    - apply (Qfloor_resp_le 0). lra.
    - change 1000000 with (Qfloor (inject_Z 1000000 + (1 # 2))). apply Qfloor_resp_le. apply Qplus_le_l.
      rewrite <- (Qmult_1_l (inject_Z 1000000)) at 2. apply Qmult_le_r; [reflexivity|done]. }
  split.
  - apply Qle_shift_div_l; [reflexivity|]. rewrite Qmult_0_l. change 0%Q with (inject_Z 0). rewrite <- Zle_Qle. lia.
  - apply Qle_shift_div_r; [reflexivity|]. rewrite Qmult_1_l. rewrite <- Zle_Qle. lia.
Qed.
Lemma normalized_unit raw (g : ugraph) nd :
  (0 <= raw g nd <= norm_factor (Z.of_nat g.1))%Q -> norm_factor (Z.of_nat g.1) = 1%Q \/ 3 <= Z.of_nat g.1 ->
  (0 <= normalized raw g nd <= 1)%Q.
Proof.
  intros [H0 H1] Hn. unfold normalized. apply round6_unit.
  assert (Hpos : (0 < norm_factor (Z.of_nat g.1))%Q).
  { destruct Hn as [->|Hn]; [reflexivity|]. unfold norm_factor. rewrite bool_decide_true by lia.
    change 0%Q with (inject_Z 0). rewrite <- Zlt_Qlt. nia. }
  split; [apply Qle_shift_div_l; [done|]; by rewrite Qmult_0_l|apply Qle_shift_div_r; [done|]; by rewrite Qmult_1_l].
Qed.
Lemma build_size ids edges : (build ids edges).1 = length ids.
Proof.
  unfold build. change (length ids) with (isolated_nodes ids).1. generalize (isolated_nodes ids) as g.
  induction edges as [|e edges IH]; intros g; [done|]. simpl. rewrite IH. unfold add_edge.
  repeat (case_match; try done).
Qed.

Section ComputeSpec.
Context (modularize : ugraph -> list (list nat)) (raw : ugraph -> nat -> Q).
(** What gonum documents: communities partition the nodes, and betweenness sums
    over ordered pairs, so it is at most (n - 1) (n - 2). *)
Definition partitions : Prop := forall g, mjoin (modularize g) ≡ₚ seq 0 g.1.
Definition betweenness_range : Prop := forall g nd, (0 <= raw g nd <= norm_factor (Z.of_nat g.1))%Q.

End ComputeSpec.

(** * A concrete graph: a triangle with a tail *)

Definition one_community (g : ugraph) : list (list nat) := [seq 0 g.1].
Definition no_betweenness (_ : ugraph) (_ : nat) : Q := 0.
Definition triangle : list AEdge :=
  [mkAEdge "a" "b"; mkAEdge "b" "a"; mkAEdge "b" "c"; mkAEdge "c" "a"; mkAEdge "c" "d"; mkAEdge "d" "d"; mkAEdge "x" "a"].
Lemma triangle_result :
  let r := Compute one_community no_betweenness ["a"; "b"; "c"; "d"]%string triangle 0 in
  ar_EdgeCount r = 4 /\ ar_RawEdgeCount r = 7 /\
  (fun c => Qred (cs_Cohesion c)) <$> ar_Communities r = [2 # 3]%Q.
Proof. by vm_compute. Qed.
