(* ===== verification/AnalyticsWorker.v ===== *)
(** The analytics worker ([internal/codegraph/worker.go]) over the analytics store
    ([internal/codegraph/analytics_store.go]): debounced recomputation of dirty
    repositories, one run per repository and a bounded number of runs, while
    pushes keep arriving.

    A run is split at its database round trips, and its steps interleave with the
    scanning loop, with other runs and with pushes.  LLM labels are what the
    labeler happens to answer. *)
From S2P Require Import Prelude GoErr Db CodeGraph CodeGraphLaws Analytics.
Import CodeStore.
From Stdlib Require Import QArith.
#[local] Open Scope Z_scope.

(** * The store's queries *)

Definition DirtyRepo (debounce now : Z) (row : state_row) : bool :=
  st_dirty row && match st_reconciled_at row with
                  | Some t => bool_decide (t < now - debounce * Second)
                  | None => false end.
Definition DirtyRepos (debounce now : Z) (g : graph) : list string :=
  fst <$> List.filter (fun kv => DirtyRepo debounce now kv.2) (map_to_list (g_state g)).

(** The snapshot; [None] is the missing row.  [COALESCE] makes NULL a value equal
    to itself only. *)
Definition read_snapshot (repo : string) (g : graph) : option (option Z) :=
  st_reconciled_at <$> g_state g !! repo.
Definition loadEntityIDs (repo : string) (g : graph) : list string :=
  merge_sort String.le (snd <$> elements (filter (fun k => k.1 = repo) (dom (g_entities g)))).
Definition loadNames (repo : string) (g : graph) (id : string) : string :=
  match g_entities g !! (repo, id) with Some r => er_name r | None => "" end.
Definition ast_edges (repo : string) (g : graph) : gmap edge_key edge_row :=
  filter (fun kv => kv.1.1.1.1.1 = repo /\ kv.1.2 = ExtractorAST) (g_edges g).
Definition loadEdgePairs (repo : string) (g : graph) : list AEdge :=
  (fun kv : edge_key * edge_row => mkAEdge kv.1.1.1.1.2 kv.1.1.1.2) <$> map_to_list (ast_edges repo g).

(** labelCommunity: the labeler's non-empty answer, or the first member's name. *)
Definition labelCommunity (answer : option string) (names : string -> string) (c : CommunitySignal) : string :=
  match answer with
  | Some l => if bool_decide (l <> ""%string) then l
              else default ""%string (List.find (fun n => bool_decide (n <> ""%string)) (names <$> cs_Members c))
  | None => default ""%string (List.find (fun n => bool_decide (n <> ""%string)) (names <$> cs_Members c))
  end.

Section Recompute.
Context (modularize : ugraph -> list (list nat)) (raw : ugraph -> nat -> Q) (real4 : Q -> Q) (maxNodes : Z).

Definition set_signal (skipped : bool) (n : NodeSignal) (r : entity_row) : entity_row :=
  mkEntityRow (er_name r) (er_type r) (er_description r) (er_file_path r) (er_properties r)
    (er_line_start r) (er_line_end r) (er_source_url r) (er_author r) (er_captured_at r) (er_extractor r)
    (Some (ns_Community n)) (if skipped then er_betweenness r else Some (ns_Betweenness n)).
(** [UPDATE code_entities ... FROM unnest(...)]. *)
Definition signal_of (res : AResult) (id : string) : option NodeSignal :=
  List.find (fun n => bool_decide (ns_ID n = id)) (ar_Nodes res).
Definition update_signals (repo : string) (res : AResult) : graph -> graph :=
  set_entities (map_imap (fun k r => Some
    (if bool_decide (k.1 = repo)
     then match signal_of res k.2 with Some n => set_signal (ar_BetweennessSkipped res) n r | None => r end
     else r))).
Definition insert_community (repo : string) (cl : CommunitySignal * string) : graph -> graph :=
  set_comm (fun m => <[(repo, cs_Community cl.1) :=
    mkCommunityRow cl.2 (real4 (cs_Cohesion cl.1)) (cs_Size cl.1)]> m).
(** [UPDATE repo_analytics_state ... WHERE repo AND reconciled_at = snapshot]. *)
Definition clear_dirty (repo : string) (now : Z) (snapshot : option Z) : graph -> graph :=
  set_state (fun m => match m !! repo with
    | Some row => if bool_decide (st_reconciled_at row = snapshot)
                  then <[repo := mkStateRow false (st_reconciled_at row) (Some now)]> m else m
    | None => m end).
Definition write_statements (repo : string) (now : Z) (snapshot : option Z) (res : AResult)
    (labels : list string) : list (graph -> graph) :=
  (match ar_Nodes res with [] => [] | _ => [update_signals repo res] end) ++
  [set_comm (delete_where (fun k _ => bool_decide (k.1 = repo)))] ++
  (insert_community repo <$> zip (ar_Communities res) labels) ++
  [clear_dirty repo now snapshot].

(** A run between two of its round trips. *)
Inductive rphase :=
| RStart
| RSnap (snapshot : option Z)
| RIds (snapshot : option Z) (ids : list string) (names : string -> string)
| RLoaded (snapshot : option Z) (ids : list string) (names : string -> string) (edges : list AEdge)
| RReturn                                  (* RecomputeAnalytics returned *)
| RReleased.                               (* the claim is gone, the slot is not *)

(** One round trip of RecomputeAnalytics.  Rows come in any order; the transaction
    is applied as a whole, or not at all, or applied with its answer lost. *)
Inductive run_step (repo : string) : graph -> rphase -> graph -> rphase -> Prop :=
| run_snapshot g s : read_snapshot repo g = Some s -> run_step repo g RStart g (RSnap s)
| run_ids g s : run_step repo g (RSnap s) g (RIds s (loadEntityIDs repo g) (loadNames repo g))
| run_edges g s ids names es : es ≡ₚ loadEdgePairs repo g -> run_step repo g (RIds s ids names) g (RLoaded s ids names es)
| run_write g s ids names es now answers :
    let res := Compute modularize raw ids es maxNodes in
    length answers = length (ar_Communities res) ->
    run_step repo g (RLoaded s ids names es)
      (run_all (write_statements repo now s res
         (zip_with (fun a c => labelCommunity a names c) answers (ar_Communities res))) g) RReturn
| run_error g ph : ph <> RReturn -> ph <> RReleased -> run_step repo g ph g RReturn.

(** * The worker *)

(** The Run goroutine: between ticks, going through the dirty repositories, or
    blocked on the semaphore with a claim. *)
Inductive scan := Idle | Scanning (todo : list string) | Acquiring (repo : string) (todo : list string) | Stopped.
Record worker := mkWorker {
  w_graph : graph; w_scan : scan; w_inflight : gset string;
  w_runs : list (string * rphase);       (* one semaphore slot each *)
  w_stamps : gset Z }.                   (* transaction times of the pushes so far *)
Context (cap debounce : Z).

Inductive worker_step `{MapRange} : worker -> worker -> Prop :=
| w_tick g inf runs st now l : l ≡ₚ DirtyRepos debounce now g ->
    worker_step (mkWorker g Idle inf runs st) (mkWorker g (Scanning l) inf runs st)
| w_tick_done g inf runs st :
    worker_step (mkWorker g (Scanning []) inf runs st) (mkWorker g Idle inf runs st)
| w_skip g r l inf runs st : r ∈ inf ->
    worker_step (mkWorker g (Scanning (r :: l)) inf runs st) (mkWorker g (Scanning l) inf runs st)
| w_claim g r l inf runs st : r ∉ inf ->
    worker_step (mkWorker g (Scanning (r :: l)) inf runs st) (mkWorker g (Acquiring r l) ({[r]} ∪ inf) runs st)
| w_spawn g r l inf runs st : Z.of_nat (length runs) < cap ->
    worker_step (mkWorker g (Acquiring r l) inf runs st) (mkWorker g (Scanning l) inf (runs ++ [(r, RStart)]) st)
| w_cancel g r l inf runs st :
    worker_step (mkWorker g (Acquiring r l) inf runs st) (mkWorker g Stopped (inf ∖ {[r]}) runs st)
| w_shutdown g sc inf runs st : sc = Idle ->
    worker_step (mkWorker g sc inf runs st) (mkWorker g Stopped inf runs st)
| w_run g sc inf runs st i r ph g' ph' : runs !! i = Some (r, ph) -> run_step r g ph g' ph' ->
    worker_step (mkWorker g sc inf runs st) (mkWorker g' sc inf (<[i := (r, ph')]> runs) st)
| w_unclaim g sc inf runs st i r : runs !! i = Some (r, RReturn) ->
    worker_step (mkWorker g sc inf runs st) (mkWorker g sc (inf ∖ {[r]}) (<[i := (r, RReleased)]> runs) st)
| w_release g sc inf runs st i r : runs !! i = Some (r, RReleased) ->
    worker_step (mkWorker g sc inf runs st) (mkWorker g sc inf (delete i runs) st)
| w_push g sc inf runs st p now g' : now ∉ st -> reconciled real4 now p g g' ->
    worker_step (mkWorker g sc inf runs st) (mkWorker g' sc inf runs ({[now]} ∪ st)).

(** The stored analytics of a repository are those of its stored graph. *)
Definition current (repo : string) (g : graph) : Prop :=
  exists es, es ≡ₚ loadEdgePairs repo g /\
  let res := Compute modularize raw (loadEntityIDs repo g) es maxNodes in
  (forall id row, g_entities g !! (repo, id) = Some row -> exists n, signal_of res id = Some n /\
     er_community row = Some (ns_Community n) /\
     (ar_BetweennessSkipped res = false -> er_betweenness row = Some (ns_Betweenness n))) /\
  (forall c, (fun r => (cr_size r, cr_cohesion r)) <$> g_comm g !! (repo, c) =
     (fun s => (cs_Size s, real4 (cs_Cohesion s))) <$> last_with cs_Community c (ar_Communities res)).
End Recompute.

(** * What the queries depend on *)

Lemma elem_of_loadEntityIDs repo g id : id ∈ loadEntityIDs repo g <-> is_Some (g_entities g !! (repo, id)).
Proof.
  unfold loadEntityIDs. rewrite (merge_sort_Permutation String.le), list_elem_of_fmap. split.
  - intros ([r i] & -> & [Hr Hd]%elem_of_elements%elem_of_filter). simpl in *. subst. by apply elem_of_dom.
  - intros Hs. exists (repo, id). split; [done|]. apply elem_of_elements, elem_of_filter.
    split; [done|]. by apply elem_of_dom.
Qed.
Lemma loadEntityIDs_NoDup repo g : NoDup (loadEntityIDs repo g).
Proof.
  unfold loadEntityIDs. rewrite (merge_sort_Permutation String.le). apply NoDup_fmap_2_strong; [|apply NoDup_elements].
  intros [r1 i1] [r2 i2] [Hr1 _]%elem_of_elements%elem_of_filter [Hr2 _]%elem_of_elements%elem_of_filter He.
  simpl in *. by subst.
Qed.
Lemma loadEntityIDs_ext repo g g' :
  (forall id, is_Some (g_entities g !! (repo, id)) <-> is_Some (g_entities g' !! (repo, id))) ->
  loadEntityIDs repo g = loadEntityIDs repo g'.
Proof.
  intros He. apply (StronglySorted_unique String.le); [apply (StronglySorted_merge_sort String.le)..|].
  apply NoDup_Permutation; [apply loadEntityIDs_NoDup..|]. intros id. by rewrite !elem_of_loadEntityIDs.
Qed.
Lemma loadEdgePairs_ext repo g g' :
  (forall k : edge_key, k.1.1.1.1 = repo -> g_edges g !! k = g_edges g' !! k) -> loadEdgePairs repo g = loadEdgePairs repo g'.
Proof.
  intros He. unfold loadEdgePairs. do 2 f_equal. unfold ast_edges. apply map_eq. intros k.
  rewrite !map_lookup_filter. destruct (decide (k.1.1.1.1 = repo)) as [Hr|Hr]; [by rewrite He|].
  destruct (g_edges g !! k), (g_edges g' !! k); simpl; rewrite ?option_guard_False; naive_solver.
Qed.

(** Two graphs that agree on a repository. *)
Definition agree (repo : string) (g g' : graph) : Prop :=
  (forall id, g_entities g !! (repo, id) = g_entities g' !! (repo, id)) /\
  (forall k : edge_key, k.1.1.1.1 = repo -> g_edges g !! k = g_edges g' !! k) /\
  (forall c, g_comm g !! (repo, c) = g_comm g' !! (repo, c)) /\
  g_state g !! repo = g_state g' !! repo.
Lemma agree_loads repo g g' : agree repo g g' ->
  loadEntityIDs repo g = loadEntityIDs repo g' /\ loadEdgePairs repo g = loadEdgePairs repo g' /\
  read_snapshot repo g = read_snapshot repo g'.
Proof.
  intros (He & Hg & _ & Hs). split_and!.
  - apply loadEntityIDs_ext. intros id. by rewrite He.
  - by apply loadEdgePairs_ext.
  - unfold read_snapshot. by rewrite Hs.
Qed.

Section Proofs.
Context (modularize : ugraph -> list (list nat)) (raw : ugraph -> nat -> Q) (real4 : Q -> Q) (maxNodes : Z).
Abbreviation current := (current modularize raw real4 maxNodes).
Abbreviation Compute := (Compute modularize raw).

Lemma agree_current repo g g' : agree repo g g' -> current repo g -> current repo g'.
Proof.
  intros Ha (es & Hes & Hent & Hc). pose proof (agree_loads _ _ _ Ha) as (Hi & He & _).
  destruct Ha as (Hg & _ & Hcm & _). exists es. rewrite <- He, <- Hi. split; [done|]. split.
  - intros id row Hr. rewrite <- Hg in Hr. by apply Hent.
  - intros c. by rewrite <- Hcm.
Qed.
Lemma push_agrees `{MapRange} now p g g' repo :
  reconciled real4 now p g g' -> repo <> gp_Repo p -> agree repo g g'.
Proof.
  intros Hr Hne. pose proof Hr as []. split_and!.
  - intros id. rewrite rc_entities, last_with_none by (intros x [= ? ?]; congruence).
    symmetry. apply surviving_none. intros. unfold entity_owned. simpl. by rewrite bool_decide_false.
  - intros k Hk. rewrite rc_edges, last_with_none by (intros x <-; simpl in Hk; congruence).
    symmetry. apply surviving_none. intros. unfold edge_owned. rewrite Hk. by rewrite bool_decide_false.
  - intros c. by rewrite rc_comm.
  - rewrite rc_state. by rewrite bool_decide_false.
Qed.

(** ** The write of a run *)

Section Write.
Context (repo : string) (now : Z) (s : option Z) (res : AResult) (labels : list string).
Abbreviation written g := (run_all (write_statements real4 repo now s res labels) g).

Lemma written_edges g : g_edges (written g) = g_edges g.
Proof.
  unfold write_statements. rewrite !run_all_app. change (run_all [?f] ?g) with (f g). simpl.
  rewrite (run_same g_edges) by done. simpl. by destruct (ar_Nodes res).
Qed.
Lemma written_entities g : g_entities (written g) =
  match ar_Nodes res with [] => g_entities g | _ => g_entities (update_signals repo res g) end.
Proof.
  unfold write_statements. rewrite !run_all_app. change (run_all [?f] ?g) with (f g). simpl.
  rewrite (run_same g_entities) by done. simpl. by destruct (ar_Nodes res).
Qed.
Lemma written_entity g k : g_entities (written g) !! k =
  (fun r => if bool_decide (k.1 = repo)
            then match signal_of res k.2 with Some n => set_signal (ar_BetweennessSkipped res) n r | None => r end
            else r) <$> g_entities g !! k.
Proof.
  rewrite written_entities. destruct (ar_Nodes res) as [|n l] eqn:E.
  - unfold signal_of. rewrite E. simpl. destruct (g_entities g !! k); simpl; [|done]. by case_bool_decide.
  - simpl. rewrite map_lookup_imap. by destruct (g_entities g !! k).
Qed.
Lemma written_comm g k : g_comm (written g) !! k =
  match last_with (fun cl : CommunitySignal * string => (repo, cs_Community cl.1)) k (zip (ar_Communities res) labels) with
  | Some cl => Some (mkCommunityRow cl.2 (real4 (cs_Cohesion cl.1)) (cs_Size cl.1))
  | None => if bool_decide (k.1 = repo) then None else g_comm g !! k
  end.
Proof.
  unfold write_statements. rewrite !run_all_app. change (run_all [?f] ?g) with (f g). simpl.
  rewrite (run_field g_comm (fun m cl => <[(repo, cs_Community cl.1) :=
    mkCommunityRow cl.2 (real4 (cs_Cohesion cl.1)) (cs_Size cl.1)]> m)) by done.
  rewrite (lookup_upserts (fun cl : CommunitySignal * string => (repo, cs_Community cl.1))
    (fun cl _ => mkCommunityRow cl.2 (real4 (cs_Cohesion cl.1)) (cs_Size cl.1))) by done.
  destruct (last_with _ k _); [done|]. simpl. rewrite lookup_delete_where.
  replace (g_comm (run_all _ g)) with (g_comm g) by (by destruct (ar_Nodes res)).
  case_bool_decide; by destruct (g_comm g !! k).
Qed.
Lemma written_state g r : g_state (written g) !! r =
  (fun row => if bool_decide (r = repo /\ st_reconciled_at row = s)
              then mkStateRow false (st_reconciled_at row) (Some now) else row) <$> g_state g !! r.
Proof.
  unfold write_statements. rewrite !run_all_app. change (run_all [?f] ?g) with (f g).
  set (g1 := run_all (insert_community real4 repo <$> _) _).
  assert (Hg : g_state g1 = g_state g) by (unfold g1; rewrite (run_same g_state) by done; by destruct (ar_Nodes res)).
  simpl. rewrite Hg. destruct (g_state g !! repo) as [row|] eqn:E.
  - destruct (decide (r = repo)) as [->|Hne]; case_bool_decide as Hs; rewrite ?lookup_insert_eq, ?lookup_insert_ne, ?E by done; simpl.
    + by rewrite bool_decide_true.
    + by rewrite bool_decide_false by naive_solver.
    + destruct (g_state g !! r); simpl; [|done]. by rewrite bool_decide_false by naive_solver.
    + destruct (g_state g !! r); simpl; [|done]. by rewrite bool_decide_false by naive_solver.
  - destruct (decide (r = repo)) as [->|Hne]; [by rewrite E|].
    destruct (g_state g !! r); simpl; [|done]. by rewrite bool_decide_false by naive_solver.
Qed.
Lemma written_agrees g r : r <> repo -> agree r g (written g).
Proof.
  intros Hr. split_and!.
  - intros id. rewrite written_entity. simpl. rewrite bool_decide_false by done. by destruct (_ !! _).
  - intros k _. by rewrite written_edges.
  - intros c. rewrite written_comm, last_with_none by (intros x [= ? _]; congruence). simpl. by rewrite bool_decide_false.
  - rewrite written_state. destruct (g_state g !! r); simpl; [|done]. by rewrite bool_decide_false by naive_solver.
Qed.
End Write.

Lemma last_with_fmap {K X Y} `{EqDecision K} (f : X -> Y) (key : Y -> K) k (l : list X) :
  last_with key k (f <$> l) = f <$> last_with (fun x => key (f x)) k l.
Proof.
  induction l as [|x l IH]; [done|]. rewrite fmap_cons, !last_with_cons, IH.
  destruct (last_with (fun x => key (f x)) k l); simpl; [done|]. by case_bool_decide.
Qed.
Lemma signal_of_loaded ids es id : id ∈ ids -> exists n, signal_of (Compute ids es maxNodes) id = Some n.
Proof.
  intros Hin. unfold signal_of. destruct (List.find _ _) as [n|] eqn:E; [by exists n|]. exfalso.
  destruct ids as [|i0 ids0]; [by apply elem_of_nil in Hin|].
  unfold Analytics.Compute in E. cbn [ar_Nodes] in E.
  match type of E with List.find _ (?f <$> ?l) = None =>
    pose proof (find_none _ _ E (f id) (proj1 (list_elem_of_In _ _) (list_elem_of_fmap_2 f l id Hin))) as Hn end.
  cbn [ns_ID] in Hn. by rewrite bool_decide_true in Hn.
Qed.
(** Analytics computed from what the tables hold make them current. *)
Lemma written_current repo now s es labels g :
  let res := Compute (loadEntityIDs repo g) es maxNodes in
  es ≡ₚ loadEdgePairs repo g -> length labels = length (ar_Communities res) ->
  current repo (run_all (write_statements real4 repo now s res labels) g).
Proof.
  intros res Hes Hlen. set (g' := run_all _ g).
  assert (Hid : loadEntityIDs repo g' = loadEntityIDs repo g).
  { apply loadEntityIDs_ext. intros id. unfold g'. rewrite written_entity. by rewrite fmap_is_Some. }
  assert (Hed : loadEdgePairs repo g' = loadEdgePairs repo g).
  { apply loadEdgePairs_ext. intros k _. unfold g'. by rewrite written_edges. }
  exists es. rewrite Hid, Hed. fold res. split; [done|]. split.
  - intros id row Hr. unfold g' in Hr. rewrite written_entity in Hr. simpl in Hr.
    rewrite bool_decide_true in Hr by done. destruct (g_entities g !! (repo, id)) as [r|] eqn:Er; [|done].
    simpl in Hr. injection Hr as <-.
    destruct (signal_of_loaded (loadEntityIDs repo g) es id) as [n Hn]; [by apply elem_of_loadEntityIDs; rewrite Er|].
    fold res in Hn. exists n. split; [done|]. rewrite Hn. simpl. split; [done|]. by intros ->.
  - intros c. unfold g'. rewrite written_comm.
    rewrite <- (fst_zip (ar_Communities res) labels) at 2 by lia. rewrite last_with_fmap.
    assert (Hk : last_with (fun cl : CommunitySignal * string => (repo, cs_Community cl.1)) (repo, c) (zip (ar_Communities res) labels)
      = last_with (fun cl : CommunitySignal * string => cs_Community cl.1) c (zip (ar_Communities res) labels)).
    { unfold last_with. f_equal. apply filter_ext. intros cl. apply bool_decide_ext. naive_solver. }
    rewrite Hk. destruct (last_with _ c _); simpl; [done|]. by rewrite bool_decide_true.
Qed.

(** ** The invariant *)

Context (cap debounce : Z) `{MapRange}.
Abbreviation worker_step := (worker_step modularize raw real4 maxNodes cap debounce).
Abbreviation run_step := (run_step modularize raw real4 maxNodes).

Definition holding (p : string * rphase) : bool := match p.2 with RReleased => false | _ => true end.
Definition claimed_runs (runs : list (string * rphase)) : list string := fst <$> List.filter holding runs.
(** The repositories with a claim: the one waiting for a slot and those of the runs. *)
Definition active (w : worker) : list string :=
  match w_scan w with Acquiring r _ => [r] | _ => [] end ++ claimed_runs (w_runs w).

(** A snapshot is the repository's current stamp, or the repository is dirty. *)
Definition snap_ok (g : graph) (st : gset Z) (r : string) (s : option Z) : Prop :=
  (forall t, s = Some t -> t ∈ st) /\
  exists row, g_state g !! r = Some row /\ (st_reconciled_at row = s \/ st_dirty row = true).
Definition run_ok (g : graph) (st : gset Z) (r : string) (ph : rphase) : Prop :=
  match ph with
  | RSnap s => snap_ok g st r s
  | RIds s ids _ => snap_ok g st r s /\ (read_snapshot r g = Some s -> ids = loadEntityIDs r g)
  | RLoaded s ids _ es => snap_ok g st r s /\
      (read_snapshot r g = Some s -> ids = loadEntityIDs r g /\ es ≡ₚ loadEdgePairs r g)
  | _ => True
  end.
Record worker_inv (w : worker) : Prop := {
  wi_active : NoDup (active w);
  wi_inflight r : r ∈ w_inflight w <-> r ∈ active w;
  wi_cap : Z.of_nat (length (w_runs w)) <= Z.max cap 0;
  wi_stamps r row t : g_state (w_graph w) !! r = Some row -> st_reconciled_at row = Some t -> t ∈ w_stamps w;
  wi_runs i r ph : w_runs w !! i = Some (r, ph) -> run_ok (w_graph w) (w_stamps w) r ph;
  wi_clean r row : g_state (w_graph w) !! r = Some row -> st_dirty row = false -> current r (w_graph w) }.

Lemma run_ok_agree g g' st st' r ph : agree r g g' -> st ⊆ st' -> run_ok g st r ph -> run_ok g' st' r ph.
Proof.
  intros Ha Hst. pose proof (agree_loads _ _ _ Ha) as (Hi & He & Hr). destruct Ha as (_ & _ & _ & Hs).
  assert (Hsnap : forall s, snap_ok g st r s -> snap_ok g' st' r s).
  { intros s [Ht (row & Hrow & Hd)]. split; [intros t Hx; by apply Hst, Ht|]. exists row. by rewrite <- Hs. }
  destruct ph; simpl; rewrite <- ?Hi, <- ?He, <- ?Hr; naive_solver.
Qed.
(** A push to its own repository outdates every snapshot taken before it. *)
Lemma run_ok_pushed g g' st now r ph row :
  now ∉ st -> g_state g' !! r = Some row -> st_dirty row = true -> st_reconciled_at row = Some now ->
  run_ok g st r ph -> run_ok g' ({[now]} ∪ st) r ph.
Proof.
  intros Hnow Hrow Hd Hat. assert (Hsnap : forall s, snap_ok g st r s ->
    snap_ok g' ({[now]} ∪ st) r s /\ read_snapshot r g' <> Some s).
  { intros s [Ht _]. split; [split; [intros t Hx; apply elem_of_union_r, Ht, Hx|exists row; auto]|].
    unfold read_snapshot. rewrite Hrow. simpl. intros [= Heq]. rewrite Hat in Heq. by apply Hnow, Ht. }
  destruct ph; simpl; try done; intros Hok.
  - by apply Hsnap.
  - destruct Hok as [Hs%Hsnap _]. destruct Hs. by split.
  - destruct Hok as [Hs%Hsnap _]. destruct Hs. by split.
Qed.

Lemma claimed_insert runs i r ph ph' : runs !! i = Some (r, ph) ->
  holding (r, ph) = holding (r, ph') -> claimed_runs (<[i := (r, ph')]> runs) = claimed_runs runs.
Proof.
  intros Hi Hh. unfold claimed_runs. rewrite insert_take_drop by (by eapply lookup_lt_Some).
  rewrite <- (take_drop_middle runs i (r, ph)) at 3 by done.
  rewrite !List.filter_app, !fmap_app. f_equal. simpl. rewrite Hh. by destruct (holding (r, ph')).
Qed.
Lemma claimed_unclaim runs i r : runs !! i = Some (r, RReturn) ->
  claimed_runs runs ≡ₚ r :: claimed_runs (<[i := (r, RReleased)]> runs).
Proof.
  intros Hi. unfold claimed_runs. rewrite insert_take_drop by (by eapply lookup_lt_Some).
  rewrite <- (take_drop_middle runs i (r, RReturn)) at 1 by done.
  rewrite !List.filter_app, !fmap_app. simpl. by rewrite Permutation_middle.
Qed.
Lemma claimed_release runs i r : runs !! i = Some (r, RReleased) -> claimed_runs (delete i runs) = claimed_runs runs.
Proof.
  intros Hi. unfold claimed_runs. rewrite delete_take_drop.
  rewrite <- (take_drop_middle runs i (r, RReleased)) at 3 by done.
  by rewrite !List.filter_app, !fmap_app.
Qed.
Lemma claimed_lookup runs i r ph : runs !! i = Some (r, ph) -> ph <> RReleased -> r ∈ claimed_runs runs.
Proof.
  intros Hi Hp. apply (list_elem_of_fmap_2 fst _ (r, ph)), list_elem_of_In, filter_In.
  split; [by apply list_elem_of_In, (list_elem_of_lookup_2 _ i)|]. by destruct ph.
Qed.
(** One run at a time per repository. *)
Lemma single_flight runs i j r ph ph' :
  NoDup (claimed_runs runs) -> runs !! i = Some (r, ph) -> runs !! j = Some (r, ph') ->
  ph <> RReleased -> ph' <> RReleased -> i = j.
Proof.
  intros Hnd Hi Hj Hp Hp'. destruct (decide (i = j)) as [|Hne]; [done|]. exfalso.
  assert (Hdel : r ∈ claimed_runs (<[i := (r, RReleased)]> runs))
    by (apply (claimed_lookup _ j _ ph'); [by rewrite list_lookup_insert_ne|done]).
  assert (Hperm : claimed_runs (<[i := (r, RReturn)]> runs) = claimed_runs runs)
    by (apply (claimed_insert _ _ _ ph); [done|by destruct ph]).
  rewrite <- Hperm in Hnd. pose proof (claimed_unclaim (<[i := (r, RReturn)]> runs) i r) as Hx.
  rewrite list_insert_insert_eq in Hx. rewrite Hx in Hnd; [by apply NoDup_cons in Hnd as [? _]|].
  apply list_lookup_insert_eq. by eapply lookup_lt_Some.
Qed.

(** A step of the scanning goroutine touches neither the tables nor a phase. *)
Lemma scan_inv g sc inf runs st sc' inf' runs' :
  worker_inv (mkWorker g sc inf runs st) ->
  NoDup (active (mkWorker g sc' inf' runs' st)) ->
  (forall r, r ∈ inf' <-> r ∈ active (mkWorker g sc' inf' runs' st)) ->
  Z.of_nat (length runs') <= Z.max cap 0 ->
  (forall i r ph, runs' !! i = Some (r, ph) -> run_ok g st r ph) ->
  worker_inv (mkWorker g sc' inf' runs' st).
Proof. intros [] ? ? ? ?. by split. Qed.

Lemma run_step_ok g st r ph g' ph' :
  (forall row t, g_state g !! r = Some row -> st_reconciled_at row = Some t -> t ∈ st) ->
  run_ok g st r ph -> run_step r g ph g' ph' -> g' = g -> run_ok g st r ph'.
Proof.
  intros Hst Hok Hs. destruct Hs as [g s Hsnap|g s|g s ids names es Hes|g s ids names es now answers|g ph]; intros Hg; simpl in *; try done.
  - unfold read_snapshot in Hsnap. destruct (g_state g !! r) as [row|] eqn:Hrow; [|done]. simpl in Hsnap.
    injection Hsnap as <-. split; [intros t Ht; by apply (Hst row)|]. exists row. auto.
  - destruct Hok as [Hsn Hids]. split; [done|]. intros Hr. split; [by apply Hids|done].
Qed.
(** The tables before and after a round trip of a run. *)
Lemma run_step_graph r g ph g' ph' : run_step r g ph g' ph' ->
  g' = g \/ exists s ids names es now labels, ph = RLoaded s ids names es /\ ph' = RReturn /\
    length labels = length (ar_Communities (Compute ids es maxNodes)) /\
    g' = run_all (write_statements real4 r now s (Compute ids es maxNodes) labels) g.
Proof.
  intros Hs. destruct Hs as [| | |g s ids names es now answers res Hlen|]; auto. right.
  eexists _, _, _, _, _, _. split; [done|]. split; [done|]. split; [|reflexivity].
  rewrite length_zip_with, Hlen. apply Nat.min_id.
Qed.
Lemma run_inv g sc inf runs st i r ph g' ph' :
  worker_inv (mkWorker g sc inf runs st) -> runs !! i = Some (r, ph) -> run_step r g ph g' ph' ->
  worker_inv (mkWorker g' sc inf (<[i := (r, ph')]> runs) st).
Proof.
  intros [Ha Hinf Hcap Hst Hruns Hclean] Hi Hs. simpl in *.
  assert (Hhold : holding (r, ph) = true /\ holding (r, ph') = true) by (destruct Hs; split; try done; by destruct ph).
  assert (Hact : claimed_runs (<[i := (r, ph')]> runs) = claimed_runs runs)
    by (apply (claimed_insert _ _ _ ph); [done|by destruct Hhold as [-> ->]]).
  assert (Hnd : NoDup (claimed_runs runs)) by (unfold active in Ha; simpl in Ha; by apply NoDup_app in Ha as (_ & _ & Ha)).
  assert (Hother : forall j r' ph0, j <> i -> runs !! j = Some (r', ph0) -> ph0 <> RReleased -> r' <> r).
  { intros j r' ph0 Hne Hj Hp ->. apply Hne, (single_flight runs j i r ph0 ph); try done. destruct Hhold as [Hh _]. intros ->. discriminate Hh. }
  assert (Hrest : NoDup (active (mkWorker g' sc inf (<[i := (r, ph')]> runs) st)) /\
    (forall x, x ∈ inf <-> x ∈ active (mkWorker g' sc inf (<[i := (r, ph')]> runs) st)) /\
    Z.of_nat (length (<[i := (r, ph')]> runs)) <= Z.max cap 0).
  { unfold active in *. simpl in *. rewrite Hact, length_insert. auto. }
  destruct Hrest as (R1 & R2 & R3).
  destruct (run_step_graph _ _ _ _ _ Hs) as [->|(s & ids & names & es & now & labels & -> & -> & Hlen & ->)].
  - split; simpl; try done. intros j r' ph0 Hj. destruct (decide (j = i)) as [->|Hne].
    + rewrite list_lookup_insert_eq in Hj by (by eapply lookup_lt_Some). injection Hj as <- <-.
      eapply run_step_ok; [intros row t; apply Hst|by eapply Hruns|exact Hs|done].
    + rewrite list_lookup_insert_ne in Hj by done. by eapply Hruns.
  - destruct (Hruns i r _ Hi) as [[Hsst (row0 & Hrow0 & Hd0)] Hload].
    split; simpl; try done.
    + intros r' row t Hr' Ht. rewrite written_state in Hr'. destruct (g_state g !! r') as [row'|] eqn:E; [|done].
      simpl in Hr'. injection Hr' as <-. apply (Hst r' row' t E). by case_bool_decide.
    + intros j r' ph0 Hj. destruct (decide (j = i)) as [->|Hne].
      * rewrite list_lookup_insert_eq in Hj by (by eapply lookup_lt_Some). by injection Hj as <- <-.
      * rewrite list_lookup_insert_ne in Hj by done. destruct (holding (r', ph0)) eqn:Hh0; [|by destruct ph0].
        apply (run_ok_agree g _ st); [apply written_agrees|done|by eapply Hruns].
        eapply Hother; [exact Hne|exact Hj|]. intros ->. discriminate Hh0.
    + intros r' row Hr' Hd. destruct (decide (r' = r)) as [->|Hne].
      * rewrite written_state in Hr'. rewrite Hrow0 in Hr'. simpl in Hr'. injection Hr' as <-.
        case_bool_decide as Hsame.
        -- destruct Hsame as [_ Hsame]. destruct Hload as [-> Hes]; [unfold read_snapshot; by rewrite Hrow0, <- Hsame|].
           by apply written_current.
        -- destruct Hd0; [naive_solver|congruence].
      * pose proof (written_agrees r now s (Compute ids es maxNodes) labels g r' Hne) as Hag.
        apply (agree_current _ _ _ Hag), (Hclean r' row); [|done]. destruct Hag as (_ & _ & _ & ->). done.
Qed.
Lemma push_inv g sc inf runs st p now g' :
  worker_inv (mkWorker g sc inf runs st) -> now ∉ st -> reconciled real4 now p g g' ->
  worker_inv (mkWorker g' sc inf runs ({[now]} ∪ st)).
Proof.
  intros [Ha Hinf Hcap Hst Hruns Hclean] Hnow Hr. simpl in *. pose proof Hr as [_ _ _ _ _ _ _ Hstate].
  pose proof (Hstate (gp_Repo p)) as Hrow. rewrite bool_decide_true in Hrow by done.
  split; simpl; try done.
  - intros r row t Hr' Ht. rewrite Hstate in Hr'. case_bool_decide; [simplify_eq; set_solver|].
    apply elem_of_union_r. by eapply Hst.
  - intros i r ph Hi. destruct (decide (r = gp_Repo p)) as [->|Hne].
    + eapply run_ok_pushed; [exact Hnow|exact Hrow|done|done|by eapply Hruns].
    + apply (run_ok_agree g _ st); [by eapply push_agrees|set_solver|by eapply Hruns].
  - intros r row Hr' Hd. destruct (decide (r = gp_Repo p)) as [->|Hne]; [rewrite Hrow in Hr'; by simplify_eq|].
    pose proof (push_agrees _ _ _ _ _ Hr Hne) as Hag. apply (agree_current _ _ _ Hag), (Hclean r row); [|done].
    destruct Hag as (_ & _ & _ & ->). done.
Qed.
Lemma worker_step_inv w w' : worker_inv w -> worker_step w w' -> worker_inv w'.
Proof.
  intros Hi Hs. pose proof Hi as [Ha Hinf Hcap _ Hruns _].
  destruct Hs as [g inf runs st now l Hl|g inf runs st|g r l inf runs st Hr|g r l inf runs st Hr|g r l inf runs st Hr
    |g r l inf runs st|g sc inf runs st Hsc|g sc inf runs st i r ph g' ph' Hl Hs|g sc inf runs st i r Hl|g sc inf runs st i r Hl
    |g sc inf runs st p now g' Hn Hp]; unfold active in *; simpl in *.
  - by apply (scan_inv _ _ _ _ _ _ _ _ Hi).
  - by apply (scan_inv _ _ _ _ _ _ _ _ Hi).
  - by apply (scan_inv _ _ _ _ _ _ _ _ Hi).
  - apply (scan_inv _ _ _ _ _ _ _ _ Hi); unfold active; simpl; try done.
    + constructor; [by rewrite <- Hinf|done].
    + intros x. rewrite elem_of_union, elem_of_singleton, elem_of_cons, Hinf. done.
  - assert (Hperm : claimed_runs (runs ++ [(r, RStart)]) ≡ₚ r :: claimed_runs runs).
    { unfold claimed_runs. rewrite List.filter_app, fmap_app. simpl. by rewrite Permutation_app_comm. }
    apply (scan_inv _ _ _ _ _ _ _ _ Hi); unfold active; simpl.
    + by rewrite Hperm.
    + intros x. by rewrite Hperm, Hinf.
    + rewrite length_app. simpl. lia.
    + intros i x ph [?|[_ Hx]]%lookup_app_Some; [by eapply Hruns|].
      apply list_elem_of_lookup_2, list_elem_of_singleton in Hx. by simplify_eq.
  - apply NoDup_cons in Ha as [Hnr Ha]. apply (scan_inv _ _ _ _ _ _ _ _ Hi); unfold active; simpl; try done.
    intros x. rewrite elem_of_difference, elem_of_singleton, Hinf, elem_of_cons. split; [naive_solver|].
    intros Hx. split; [by right|]. by intros ->.
  - subst. by apply (scan_inv _ _ _ _ _ _ _ _ Hi).
  - by eapply run_inv.
  - pose proof (claimed_unclaim _ _ _ Hl) as Hperm. rewrite Hperm in Ha.
    set (pre := match sc with Acquiring x _ => [x] | _ => [] end) in *.
    assert (Hmid : pre ++ r :: claimed_runs (<[i:=(r, RReleased)]> runs) ≡ₚ r :: pre ++ claimed_runs (<[i:=(r, RReleased)]> runs))
      by by rewrite Permutation_middle.
    rewrite Hmid in Ha. apply NoDup_cons in Ha as [Hnr Ha].
    apply (scan_inv _ _ _ _ _ _ _ _ Hi); unfold active; simpl; fold pre; try done.
    + intros x. rewrite elem_of_difference, elem_of_singleton, Hinf, Hperm, Hmid, elem_of_cons. split; [naive_solver|].
      intros Hx. split; [by right|]. by intros ->.
    + by rewrite length_insert.
    + intros j x ph Hj. destruct (decide (j = i)) as [->|Hne].
      * rewrite list_lookup_insert_eq in Hj by (by eapply lookup_lt_Some). by injection Hj as <- <-.
      * rewrite list_lookup_insert_ne in Hj by done. by eapply Hruns.
  - apply (scan_inv _ _ _ _ _ _ _ _ Hi); unfold active; simpl; rewrite ?(claimed_release _ _ _ Hl); try done.
    + rewrite length_delete by (by eexists). lia.
    + intros j x ph Hj. apply list_elem_of_lookup_2 in Hj. apply list_elem_of_delete_inv, list_elem_of_lookup in Hj as [k Hk].
      by eapply Hruns.
  - by eapply push_inv.
Qed.

(** C4: whatever pushes commit between the round trips of a run, and whichever of
    its round trips fail or lose their answer, a repository that is marked clean has
    the communities, community numbers and betweenness of the graph that is stored
    now; a repository is recomputed by at most one run at a time and no more than
    the configured number of runs exist.  (Every push has a transaction time of its
    own.) *)
Theorem analytics_never_stale g st w :
  (forall r row t, g_state g !! r = Some row -> st_reconciled_at row = Some t -> t ∈ st) ->
  (forall r row, g_state g !! r = Some row -> st_dirty row = false -> current r g) ->
  rtc worker_step (mkWorker g Idle ∅ [] st) w ->
  (forall r row, g_state (w_graph w) !! r = Some row -> st_dirty row = false -> current r (w_graph w)) /\
  NoDup (active w) /\ Z.of_nat (length (w_runs w)) <= Z.max cap 0.
Proof.
  intros Hst Hclean Hr.
  assert (H0 : worker_inv (mkWorker g Idle ∅ [] st)) by (split; simpl; try done; [constructor|set_solver|lia]).
  assert (Hi : worker_inv w).
  { revert H0. induction Hr as [|a b c Hs _ IH]; [done|]. intros Ha. by apply IH, (worker_step_inv a). }
  destruct Hi. auto.
Qed.
End Proofs.

(** * A concrete run *)

Section ConcreteRun.
#[local] Instance worker_range : MapRange := map_to_list_range.
Abbreviation cstep := (worker_step one_community no_betweenness exact 5000 2 60).
Definition pushed_graph : graph := after_first.
Definition loaded_ids : list string := loadEntityIDs "r" pushed_graph.
Definition loaded_edges : list AEdge := loadEdgePairs "r" pushed_graph.
Definition computed : AResult := Compute one_community no_betweenness loaded_ids loaded_edges 5000.
Definition chosen_labels : list string :=
  zip_with (fun a c => labelCommunity a (loadNames "r" pushed_graph) c) [None] (ar_Communities computed).
Definition final_graph : graph :=
  run_all (write_statements exact "r" 200 (Some 10) computed chosen_labels) pushed_graph.
Definition final_worker : worker := mkWorker final_graph (Scanning []) {["r"%string]} [("r"%string, RReturn)] {[10]}.
Lemma final_worker_reachable : rtc cstep (mkWorker no_rows Idle ∅ [] ∅) final_worker.
Proof.
  eapply rtc_l; [apply w_push with (p := first_push) (now := 10) (g' := pushed_graph); [set_solver|apply run_all_reconciled]|].
  rewrite union_empty_r_L.
  eapply rtc_l; [apply w_tick with (now := 100 * Second) (l := ["r"%string]); vm_compute; reflexivity|].
  eapply rtc_l; [apply w_claim; set_solver|]. rewrite union_empty_r_L.
  eapply rtc_l; [apply w_spawn; by vm_compute|]. simpl.
  eapply rtc_l; [eapply w_run with (i := 0%nat); [reflexivity|]; apply run_snapshot with (s := Some 10); vm_compute; reflexivity|].
  eapply rtc_l; [eapply w_run with (i := 0%nat); [reflexivity|]; apply run_ids|].
  eapply rtc_l; [eapply w_run with (i := 0%nat); [reflexivity|]; apply run_edges with (es := loaded_edges); reflexivity|].
  eapply rtc_l; [eapply w_run with (i := 0%nat); [reflexivity|];
    apply run_write with (now := 200) (answers := [None]); vm_compute; reflexivity|].
  apply rtc_refl.
Qed.
Lemma analytics_never_stale_witness :
  g_state final_graph !! "r"%string = Some (mkStateRow false (Some 10) (Some 200)) /\
  current one_community no_betweenness exact 5000 "r" final_graph.
Proof.
  assert (Hs : g_state final_graph !! "r"%string = Some (mkStateRow false (Some 10) (Some 200))) by (vm_compute; reflexivity).
  split; [exact Hs|].
  apply (analytics_never_stale one_community no_betweenness exact 5000 2 60 no_rows ∅ final_worker)
    with (row := mkStateRow false (Some 10) (Some 200));
    [intros r row t Hr; discriminate Hr|intros r row Hr; discriminate Hr|exact final_worker_reachable|exact Hs|reflexivity].
Defined.
End ConcreteRun.
