(* ===== verification/Label.v ===== *)
(** The labels of communities: the call to a language model behind [CommunityLabeler]
    ([internal/codegraph/openai.go]) and what is stored when it fails. *)
From S2P Require Import Prelude GoErr GoStr Web Analytics AnalyticsWorker.
#[local] Open Scope Z_scope.

Module Label.

(** * The client *)

Record OpenAILabeler := mkLabeler { la_apiKey : string; la_model : string; la_baseURL : string }.
Definition or_default (v def : string) : string := if bool_decide (v = ""%string) then def else v.
(** [Getenv] answers the empty string for an unset variable. *)
Definition NewOpenAILabelerFromEnv (Getenv : string -> string) : option OpenAILabeler :=
  let key := Getenv "OPENAI_API_KEY"%string in
  if bool_decide (key = ""%string) then None
  else Some (mkLabeler key (or_default (Getenv "SEMANTIC_MODEL"%string) "gpt-4o-mini")
               (or_default (Getenv "OPENAI_BASE_URL"%string) "https://api.openai.com/v1")).

Record chatMsg := mkMsg { cm_Role : string; cm_Content : string }.
Record chatReq := mkReq { cq_Model : string; cq_Messages : list chatMsg }.
(** The messages of the choices. *)
Record chatResp := mkResp { cr_Choices : list chatMsg }.
Record post := mkPost { po_url : string; po_Authorization : string; po_body : chatReq }.
(** One round trip: no response, or a status and a body that decodes or does not. *)
Inductive reply := NoReply (e : err) | Reply (status : Z) (body : result err chatResp).

(** The first and the last byte are double quotes. *)
Definition quote : Ascii.ascii := Ascii.ascii_of_nat 34.
Definition is_quote (c : option Ascii.ascii) : bool := bool_decide (c = Some quote).
Definition stripLabel (s : string) : string :=
  let n := String.length s in
  if (2 <=? n)%nat && is_quote (String.get 0 s) && is_quote (String.get (n - 1) s)
  then slice_from 1 (slice_to (n - 1) s) else s.

(** [%v] of a slice of strings. *)
Definition format_names (names : list string) : string :=
  String.append "[" (String.append (String.concat " " names) "]").
Definition prompt (names : list string) : string :=
  String.append "Name this code module in 2-4 words from these symbol names: "
    (String.append (format_names names) ". Reply with only the label.").

(** [NewRequest]: [http.NewRequestWithContext] with a POST, refusing some URLs.
    [Do]: the model's answer. *)
Definition Label (NewRequest : string -> option err) (Do : post -> reply) (l : OpenAILabeler) (memberNames : list string) : result err string :=
  let url := String.append (la_baseURL l) "/chat/completions" in
  match NewRequest url with
  | Some e => Err e
  | None =>
      match Do (mkPost url (String.append "Bearer " (la_apiKey l)) (mkReq (la_model l) [mkMsg "user" (prompt memberNames)])) with
      | NoReply e => Err e
      | Reply status body =>
          if bool_decide (status <> 200) then Err (Errorf "openai label: status")
          else match body with
               | Err e => Err e
               | Ok cr => match cr_Choices cr with
                          | [] => Err (Errorf "openai label: empty choices")
                          | m :: _ => Ok (stripLabel (TrimSpace (cm_Content m)))
                          end
               end
      end
  end.

(** The label stored for a community: [labelCommunity] over this client. *)
Definition community_label (NewRequest : string -> option err) (Do : post -> reply) (l : option OpenAILabeler)
    (names : string -> string) (c : CommunitySignal) : string :=
  let answer := match l with
                | Some l => match Label NewRequest Do l (names <$> cs_Members c) with Ok s => Some s | Err _ => None end
                | None => None
                end in
  labelCommunity answer names c.

(** * What is stored *)

Lemma get_append a c : String.get (String.length a) (String.append a (String c "")) = Some c.
Proof. induction a as [|d a IH]; [done|]. rewrite append_cons. exact IH. Qed.
(** A text in quotes loses exactly them; any other text is kept. *)
Lemma stripLabel_quoted s : stripLabel (String quote (String.append s (String quote ""))) = s.
Proof.
  unfold stripLabel. cbn [String.length]. rewrite length_append. cbn [String.length String.get].
  replace (S (String.length s + 1) - 1)%nat with (S (String.length s)) by lia. cbn [String.get]. rewrite get_append.
  rewrite (proj2 (Nat.leb_le 2 (S (String.length s + 1)))) by lia. cbn. apply slice_to_app.
Qed.
Lemma stripLabel_kept s : String.get 0 s <> Some quote \/ String.get (String.length s - 1) s <> Some quote -> stripLabel s = s.
Proof.
  intros H. unfold stripLabel, is_quote. rewrite <- andb_assoc.
  destruct H as [H|H]; rewrite (bool_decide_false _ H); by rewrite ?andb_false_r, ?andb_false_l.
Qed.
Lemma stripLabel_lone_quote : stripLabel (String quote "") = String quote "".
Proof. done. Qed.

Lemma find_named names c : (exists id, id ∈ cs_Members c /\ names id <> ""%string) ->
  default ""%string (List.find (fun n => bool_decide (n <> ""%string)) (names <$> cs_Members c)) <> ""%string.
Proof.
  intros (id & Hin & Hn). destruct (List.find _ _) as [n|] eqn:E; simpl.
  - apply List.find_some in E as [_ E]. by apply bool_decide_eq_true in E.
  - pose proof (List.find_none _ _ E (names id)) as Hf. simpl in Hf. rewrite bool_decide_true in Hf by done.
    enough (true = false) by done. apply Hf. apply list_elem_of_In, list_elem_of_fmap. by exists id.
Qed.
(** Whatever the environment configures and the model answers, a community with a
    named member is stored under a name. *)
Theorem community_is_named NewRequest Do l names c : (exists id, id ∈ cs_Members c /\ names id <> ""%string) ->
  community_label NewRequest Do l names c <> ""%string.
Proof.
  intros Hn. unfold community_label, labelCommunity. destruct (match l with Some _ => _ | None => None end) as [s|];
    [case_bool_decide; [done|]|]; by apply find_named.
Qed.
(** An answer that counts is trimmed, then stripped of one pair of quotes. *)
Lemma label_of_answer NewRequest Do key model base names s rest :
  NewRequest (String.append base "/chat/completions") = None ->
  Do (mkPost (String.append base "/chat/completions") (String.append "Bearer " key) (mkReq model [mkMsg "user" (prompt names)]))
    = Reply 200 (Ok (mkResp (mkMsg "assistant" s :: rest))) ->
  Label NewRequest Do (mkLabeler key model base) names = Ok (stripLabel (TrimSpace s)).
Proof. intros Hn Hd. unfold Label. cbn [la_baseURL la_apiKey la_model]. by rewrite Hn, Hd. Qed.
(** Without a key there is no request. *)
Lemma no_key_no_labeler Getenv : Getenv "OPENAI_API_KEY"%string = ""%string -> NewOpenAILabelerFromEnv Getenv = None.
Proof. intros Hk. unfold NewOpenAILabelerFromEnv. by rewrite bool_decide_true. Qed.
End Label.
