(* ===== verification/Metrics.v ===== *)
(** The counters the program registers at zero ([service.go], [lightrag/metrics.go],
    [ingest/metrics.go], [reaper.go], [codegraph/metrics.go]): what each family starts
    with, and that no operation ever counts under another label, so that a series that
    stays at zero is told from one that does not exist. *)
From S2P Require Import Prelude GoErr Lightrag LightragHttp EdgeId Translate Tombstone Service JobStore Pool Reaper CodeGraph CodeReads CodeService.
#[local] Open Scope string_scope.

(** * Families of series *)

(** A world with a family of counters. *)
Class Counters (W : Type) := counters : W -> gmap string Z.
(** [WithLabelValues] for every combination: the family at zero. *)
Definition registered (labels : list string) : gmap string Z := list_to_map ((fun l => (l, 0%Z)) <$> labels).
Definition by_result (ops : list string) : list string := ops ≫= fun op => [String.append op "/success"; String.append op "/error"].
Lemma dom_registered labels : dom (registered labels) = list_to_set (C := gset string) labels.
Proof.
  unfold registered. rewrite dom_list_to_map_L. f_equal. rewrite <- list_fmap_compose. by apply list_fmap_id.
Qed.

Section Closed.
Context {W : Type} `{Counters W} (family : gmap string Z).
(** The series are those of the family, whatever they count. *)
Definition within (w : W) : Prop := dom (counters w) = dom family.
Definition closed {A} (m : M W A) : Prop := forall w, within w -> within (m w).2.
Lemma closed_ret {A} (a : A) : closed (ret a).
Proof. by intros w. Qed.
Lemma closed_bind {A B} (m : M W A) (k : A -> M W B) : closed m -> (forall a, closed (k a)) -> closed (bind m k).
Proof. intros Hm Hk w Hw. by apply Hk, Hm. Qed.
Lemma closed_quiet {A} (m : M W A) : (forall w, counters (m w).2 = counters w) -> closed m.
Proof. intros Hm w. unfold within. by rewrite Hm. Qed.
Lemma closed_inc {A} (m : M W A) l : is_Some (family !! l) -> (forall w, counters (m w).2 = inc l (counters w)) -> closed m.
Proof.
  intros Hl%elem_of_dom Hm w Hw. unfold within in *. rewrite Hm. unfold inc. rewrite dom_insert_L, Hw. set_solver.
Qed.
End Closed.
Create HintDb series.
#[export] Hint Resolve closed_ret : series.
(** Walk through an operation; its counters are dealt with by the hints. *)
Ltac series := repeat first [progress intros | solve [eauto with series] | apply closed_bind | case_match].
(** A label that is written out is looked up. *)
Ltac listed := apply (bool_decide_unpack _); vm_compute; exact I.

(** * The memory service: tatara_memory_op_total *)

Definition serviceOps : list string :=
  ["create"; "delete"; "delete_by_source"; "patch_entity"; "create_edge"; "delete_edge"; "delete_by_sources"; "get";
   "query"; "query_data"; "describe"; "get_entity"; "search_entities"; "list_edges"].
Definition newServiceOps : gmap string Z :=
  registered (serviceOps ≫= fun op => [op_label op "success"; op_label op "error"]).

Inductive service_call :=
| SCreateMemory (m : Memory) | SGetMemory (id : string) | SDeleteMemory (id : string)
| SDeleteMemoriesBySource (repo file : string) | SDeleteMemoriesBySources (repo : string) (files : list string)
| SQuery (q : Query) | SDescribe (q : Query) | SQueryData (q : Query)
| SGetEntity (name : string) | SSearchEntities (q : string) | SPatchEntity (name : string) (patch : Entity)
| SListEdges | SCreateEdge (e : Edge) | SDeleteEdge (id : string).

Section ServiceSeries.
Context {L T S : Type} `{Client L} `{Tombstoner T} `{SourceIndex S} `{TimeParse}.
Context (has_tomb has_sources : bool) (now : Z).
Abbreviation W := (svc L T S).
#[local] Instance service_counters : Counters W := sv_ops.
Abbreviation closed := (closed (W := W) newServiceOps).

Lemma service_incOp op e : op ∈ serviceOps -> closed (incOp op e).
Proof.
  intros Hop. apply closed_inc with (op_label op (match e with None => "success" | Some _ => "error" end)); [|done].
  apply elem_of_dom. unfold newServiceOps. rewrite dom_registered, elem_of_list_to_set, list_elem_of_bind.
  exists op. split; [|done]. destruct e; set_solver.
Qed.
Lemma service_on_lr {A} (m : M L A) : closed (on_lr m).
Proof. by apply closed_quiet. Qed.
Lemma service_on_tomb {A} (m : M T A) : closed (on_tomb m).
Proof. by apply closed_quiet. Qed.
Lemma service_on_src {A} (m : M S A) : closed (on_src m).
Proof. by apply closed_quiet. Qed.
Lemma service_log msg e : closed (logPurgeErr msg e).
Proof. by apply closed_quiet. Qed.
#[local] Hint Resolve service_on_lr service_on_tomb service_on_src service_log : series.
#[local] Hint Extern 2 (Metrics.closed _ (incOp _ _)) => apply service_incOp; listed : series.
Lemma service_fail {A} op e : op ∈ serviceOps -> closed (fail_op (A := A) op e).
Proof. intros Hop. apply closed_bind; [by apply service_incOp|]. intros _. apply closed_ret. Qed.
Lemma upstream_metric {A B} op (m : M L (result err A)) (k : A -> M W (result err B)) :
  op ∈ serviceOps -> (forall a, closed (k a)) -> closed (upstream op m k).
Proof. intros Hop Hk. apply closed_bind; [apply service_on_lr|]. intros [a|e]; [apply Hk|by apply service_fail]. Qed.
#[local] Hint Extern 2 (Metrics.closed _ (fail_op _ _)) => apply service_fail; listed : series.
#[local] Hint Extern 2 (Metrics.closed _ (upstream _ _ _)) => apply upstream_metric; [listed|series] : series.

Lemma service_raw id : closed (deleteMemoryRaw has_tomb now id).
Proof. unfold deleteMemoryRaw, rollback. series. Qed.
#[local] Hint Resolve service_raw : series.
Lemma service_purge_ids ids n : closed (purge_ids has_tomb now ids n).
Proof. revert n. induction ids as [|id ids IH]; intros n; cbn [purge_ids]; unfold purge_failed; series. Qed.
#[local] Hint Resolve service_purge_ids : series.
Lemma service_purge_files repo files n : closed (purge_files has_tomb has_sources now repo files n).
Proof.
  revert n. induction files as [|f files IH]; intros n; cbn [purge_files]; unfold DeleteMemoriesBySource, purge_failed; series.
Qed.
Lemma service_filter {A} (key : A -> string) l : closed (filter_deleted key l).
Proof. induction l as [|x l IH]; cbn [filter_deleted]; series. Qed.
Lemma service_scan labels seen out : closed (scan_labels labels seen out).
Proof. revert seen out. induction labels as [|l labels IH]; intros seen out; cbn [scan_labels]; series. Qed.
#[local] Hint Resolve service_purge_files service_filter service_scan : series.

Definition run_service (c : service_call) : M W unit :=
  match c with
  | SCreateMemory m => Service.CreateMemory now m ;; ret tt
  | SGetMemory id => Service.GetMemory has_tomb id ;; ret tt
  | SDeleteMemory id => Service.DeleteMemory has_tomb now id ;; ret tt
  | SDeleteMemoriesBySource r f => Service.DeleteMemoriesBySource has_tomb has_sources now r f ;; ret tt
  | SDeleteMemoriesBySources r fs => Service.DeleteMemoriesBySources has_tomb has_sources now r fs ;; ret tt
  | SQuery q => Service.Query_ has_tomb q ;; ret tt
  | SDescribe q => Service.Describe has_tomb q ;; ret tt
  | SQueryData q => Service.QueryData has_tomb q ;; ret tt
  | SGetEntity n => Service.GetEntity n ;; ret tt
  | SSearchEntities q => Service.SearchEntities q ;; ret tt
  | SPatchEntity n p => Service.PatchEntity n p ;; ret tt
  | SListEdges => Service.ListEdges ;; ret tt
  | SCreateEdge e => Service.CreateEdge e ;; ret tt
  | SDeleteEdge id => Service.DeleteEdge id ;; ret tt
  end.
Lemma service_closed c : closed (run_service c).
Proof.
  destruct c; cbn [run_service]; unfold Service.CreateMemory, Service.GetMemory, Service.DeleteMemory, Service.DeleteMemoriesBySource, Service.DeleteMemoriesBySources,
    Service.Query_, Service.Describe, Service.QueryData, Service.GetEntity, Service.SearchEntities, Service.PatchEntity, Service.ListEdges, Service.CreateEdge, Service.DeleteEdge, if_tomb,
    filterTombstonedRefs, filterTombstonedChunks, purge_failed; series.
Qed.
End ServiceSeries.

(** * The LightRAG client: lightrag_calls_total *)

Definition allOps : list string :=
  ["insert_text"; "track_status"; "delete_docs"; "query"; "query_data"; "entity_exists"; "create_entity"; "update_entity";
   "delete_entity"; "label_search"; "graph"; "create_relation"; "delete_relation"; "health"].
Definition client_newMetrics : gmap string Z := registered (by_result allOps).
Inductive client_call :=
| CInsertText (r : InsertTextRequest) | CTrackStatus (id : string) | CDeleteDocs (ids : list string)
| CQuery (r : QueryRequest) | CQueryData (r : QueryRequest) | CEntityExists (name : string)
| CCreateEntity (r : EntityCreateRequest) | CUpdateEntity (r : EntityUpdateRequest) | CDeleteEntity (name : string)
| CLabelSearch (q : string) | CGraph (label : string) (maxDepth maxNodes : Z) | CCreateRelation (r : RelationCreateRequest)
| CDeleteRelation (from to : string) | CHealth.

Section ClientSeries.
Context (ParseTime : string -> option Z) (ctx : context) `{Codec}.
#[local] Instance client_counters : Counters net := n_calls.
Abbreviation closed := (closed (W := net) client_newMetrics).

Lemma client_observe op e : op ∈ allOps -> closed (observe op e).
Proof.
  intros Hop. apply closed_inc with (String.append op (match e with None => "/success" | Some _ => "/error" end)); [|done].
  apply elem_of_dom. unfold client_newMetrics. rewrite dom_registered, elem_of_list_to_set. unfold by_result.
  rewrite list_elem_of_bind. exists op. split; [|done]. destruct e; set_solver.
Qed.
Lemma client_roundTrip {A} rq (decode : Z -> result err string -> result err A) : closed (roundTrip ParseTime ctx rq decode).
Proof.
  apply closed_quiet. intros n. destruct (roundTrip _ _ _ _ n) as [r n'] eqn:E.
  by apply roundTrip_extends in E as (k & sl & _ & _ & (_ & _ & Hc & _) & _).
Qed.
Lemma client_sleep d : closed (sleep ctx d).
Proof. apply closed_quiet. intros n. unfold sleep. by repeat case_match. Qed.
Lemma client_gets {A} (f : net -> A) : closed (gets f).
Proof. by apply closed_quiet. Qed.
#[local] Hint Resolve client_roundTrip client_sleep client_gets : series.
#[local] Hint Extern 2 (Metrics.closed _ (observe _ _)) => apply client_observe; listed : series.
Lemma client_do {A} op rq (decode : Z -> result err string -> result err A) : op ∈ allOps -> closed (LightragHttp.do_ ParseTime ctx op rq decode).
Proof. intros Hop. apply closed_bind; [series|]. intros r. apply closed_bind; [by apply client_observe|series]. Qed.
#[local] Hint Extern 2 (Metrics.closed _ (LightragHttp.do_ _ _ _ _ _)) => apply client_do; listed : series.
Lemma client_busy fuel attempt delay start deadline rq um : closed (busy_loop ParseTime ctx fuel attempt delay start deadline rq um).
Proof. revert attempt delay. induction fuel as [|fuel IH]; intros attempt delay; cbn [busy_loop]; series. Qed.
#[local] Hint Resolve client_busy : series.
#[local] Instance counted_client : Client net := HTTPClient_Client ParseTime ctx.
Definition run_client (c : client_call) : M net unit :=
  match c with
  | CInsertText r => InsertText r ;; ret tt | CTrackStatus id => TrackStatus id ;; ret tt
  | CDeleteDocs ids => DeleteDocs ids ;; ret tt | CQuery r => lr_Query r ;; ret tt | CQueryData r => lr_QueryData r ;; ret tt
  | CEntityExists n => EntityExists n ;; ret tt | CCreateEntity r => CreateEntity r ;; ret tt
  | CUpdateEntity r => UpdateEntity r ;; ret tt | CDeleteEntity n => DeleteEntity n ;; ret tt
  | CLabelSearch q => LabelSearch q ;; ret tt | CGraph l d n => Graph l d n ;; ret tt
  | CCreateRelation r => CreateRelation r ;; ret tt | CDeleteRelation f t => DeleteRelation f t ;; ret tt | CHealth => Health ;; ret tt
  end.
Lemma client_closed c : closed (run_client c).
Proof.
  destruct c; cbn [run_client InsertText TrackStatus DeleteDocs lr_Query lr_QueryData EntityExists CreateEntity UpdateEntity
      DeleteEntity LabelSearch Graph CreateRelation DeleteRelation Health counted_client HTTPClient_Client];
    unfold HTTP_InsertText, HTTP_TrackStatus, DeleteDocs_enough, HTTP_DeleteDocs, HTTP_Query, HTTP_QueryData, HTTP_EntityExists,
      HTTP_CreateEntity, HTTP_UpdateEntity, HTTP_DeleteEntity, HTTP_LabelSearch, HTTP_Graph, HTTP_CreateRelation,
      HTTP_DeleteRelation, HTTP_Health; cbv zeta; series.
Qed.
End ClientSeries.

(** * The ingest pool: the families of [ingest/metrics.go] *)

Definition ingest_newMetrics : gmap string Z :=
  registered (((String.append "items/") <$> ["success"; "error"; "timeout"]) ++
              ((String.append "jobs/") <$> ["succeeded"; "failed"; "partial"]) ++
              ["in_flight/inc"; "in_flight/dec"; "notify_dropped"; "source_index_errors"; "store_op_errors"]).
Section PoolSeries.
Context {S U : Type} `{JobStore S} `{GoError} (up : Upstream U) (cfg : PoolConfig) (now : Z).
#[local] Instance pool_counters : Counters (pool S U) := p_metrics.
Abbreviation closed := (closed (W := pool S U) ingest_newMetrics).
Lemma pool_metric l : is_Some (ingest_newMetrics !! l) -> closed (metric l).
Proof. intros Hl. by apply closed_inc with l. Qed.
Lemma pool_on_store {A} (m : M S A) : closed (on_store m).
Proof. by apply closed_quiet. Qed.
Lemma pool_on_up {A} (m : M U A) : closed (on_up m).
Proof. by apply closed_quiet. Qed.
#[local] Hint Resolve pool_on_store pool_on_up : series.
#[local] Hint Extern 2 (Metrics.closed _ (metric _)) => apply pool_metric; eexists; vm_compute; reflexivity : series.
Lemma pool_metric_if {A} (r : result err A) l : is_Some (ingest_newMetrics !! l) -> closed (metric_if r l).
Proof. intros Hl. destruct r; [apply closed_ret|by apply pool_metric]. Qed.
#[local] Hint Extern 2 (Metrics.closed _ (metric_if _ _)) => apply pool_metric_if; eexists; vm_compute; reflexivity : series.
Lemma pool_item e : closed (metric (String.append "items/" (itemResult e))).
Proof. apply pool_metric. unfold itemResult. repeat case_match; eexists; vm_compute; reflexivity. Qed.
Lemma pool_job j : closed (metric (job_class (final_status j))).
Proof. apply pool_metric. unfold final_status. repeat case_bool_decide; eexists; vm_compute; reflexivity. Qed.
#[local] Hint Resolve pool_item pool_job : series.
Lemma pool_closed w : closed (worker_step up cfg now w).
Proof.
  destruct w; cbn [worker_step]; unfold runJob_start, runJob_mark_running, runJob_claim, processItem_create, processItem_track,
    processItem_index, runJob_mark, runJob_finalize, runJob_write_final; cbv zeta; series.
Qed.
Lemma pool_notify id : closed (Notify cfg id).
Proof. intros p Hp. unfold Notify. case_bool_decide; [done|]. assert (closed (metric "notify_dropped")) as Hm by series. by apply Hm. Qed.
Lemma pool_resume : closed (Resume cfg).
Proof.
  assert (Hr : forall ids, closed (requeue cfg ids)).
  { intros ids. apply closed_quiet. induction ids as [|id ids IH]; intros p; simpl; [done|]. case_bool_decide; [|done]. simpl. by rewrite IH. }
  unfold Resume. series.
Qed.
End PoolSeries.

(** * The reaper: tatara_memory_tombstone_total *)

Definition reaperOps : list string := ["reaped"; "forced"; "force_skipped_still_present"; "created"; "check_error"].
Definition NewReaper_metric : gmap string Z := registered reaperOps.
Section ReaperSeries.
Context {W : Type} `{TrackStatuser W} `{ReapStore W} `{Deadline W} (now maxAge : Z).
#[local] Instance reaper_counters : Counters (rw (W := W)) := rw_metric.
Abbreviation closed := (closed (W := rw (W := W)) NewReaper_metric).
Lemma reaper_count op : is_Some (NewReaper_metric !! op) -> closed (count_op op).
Proof. intros Hop. by apply closed_inc with op. Qed.
Lemma reaper_on_world {A} (m : M W A) : closed (on_world m).
Proof. by apply closed_quiet. Qed.
#[local] Hint Resolve reaper_on_world : series.
#[local] Hint Extern 2 (Metrics.closed _ (count_op _)) => apply reaper_count; eexists; vm_compute; reflexivity : series.
Lemma reaper_until {A} (body : A -> M rw unit) l : (forall x, closed (body x)) -> closed (until_expired body l).
Proof. intros Hb. induction l as [|x l IH]; cbn [until_expired]; series. Qed.
Lemma reaper_closed : closed (tick now maxAge).
Proof.
  unfold tick, forceTick. series; apply reaper_until; intros x;
    unfold force_one, check_one, reapConfirmed, reapConfirmedForced, reap; series.
Qed.
End ReaperSeries.

(** * The code graph: code_graph_query_total *)

Definition queryOps : list string :=
  ["neighbors"; "shortest_path"; "stats"; "bridges"; "related"; "entity_explain"; "important_by"; "ambiguous"; "search"; "entity";
   "file_imports"; "cross_repo"; "important_entities"; "semantic_misses"; "hyperedges"; "hyperedge"; "communities"; "community"].
Definition codegraph_NewMetrics : gmap string Z := registered (by_result queryOps).
Inductive code_call :=
| KPush (p : GraphPush) | KSearch (repo q typ : string) (limit : Z) | KEntity (repo id : string)
| KNeighbors (repo id : string) (relations : list string) (dir : string) (depth limit : Z) (cf : ConfidenceFilter)
| KFileImports (repo path : string) (limit : Z) | KCrossRepo (repo id : string) (limit : Z)
| KShortestPath (repo from to : string) (relations : list string) (depth : Z) | KImportantEntities (repo : string) (limit : Z)
| KStats (repo : string) | KAmbiguous (repo : string) (limit : Z) | KExplain (repo id : string)
| KSemanticMisses (repo : string) (files : list FileSHA)
| KRelated (repo id : string) (relations : list string) (minConfidence : float64) (limit : Z)
| KHyperedges (repo entityID : string) (limit : Z) | KHyperedge (repo id : string) | KCommunities (repo : string) (limit : Z)
| KCommunity (repo : string) (community limit : Z) | KBridges (repo : string) (limit : Z)
| KImportantBy (repo by_ : string) (limit : Z).
Section CodeSeries.
Context {S : Type} `{Store S}.
Abbreviation W := (code_svc S).
#[local] Instance code_counters : Counters W := cs_queries.
Abbreviation closed := (closed (W := W) codegraph_NewMetrics).
Lemma code_on_store {A} (m : M S A) : closed (on_cstore m).
Proof. by apply closed_quiet. Qed.
Lemma code_push repo n m : closed (observePush repo n m).
Proof. by apply closed_quiet. Qed.
Lemma code_query {A} op (m : M S (result err A)) : op ∈ queryOps -> closed (query op m).
Proof.
  intros Hop. apply closed_bind; [apply code_on_store|]. intros r. apply closed_bind; [|intros _; apply closed_ret].
  apply closed_inc with (String.append op (if is_ok r then "/success" else "/error")); [|done].
  apply elem_of_dom. unfold codegraph_NewMetrics. rewrite dom_registered, elem_of_list_to_set. unfold by_result.
  rewrite list_elem_of_bind. exists op. split; [|done]. destruct (is_ok r); set_solver.
Qed.
#[local] Hint Resolve code_on_store code_push : series.
#[local] Hint Extern 2 (Metrics.closed _ (query _ _)) => apply code_query; listed : series.
Definition run_code (c : code_call) : M W unit :=
  match c with
  | KPush p => Push p ;; ret tt | KSearch r q t l => Search r q t l ;; ret tt | KEntity r i => GetCodeEntity r i ;; ret tt
  | KNeighbors r i rs d k l cf => svc_Neighbors r i rs d k l cf ;; ret tt | KFileImports r p l => CodeService.FileImports r p l ;; ret tt
  | KCrossRepo r i l => CodeService.CrossRepo r i l ;; ret tt | KShortestPath r f t rs k => CodeService.ShortestPath r f t rs k ;; ret tt
  | KImportantEntities r l => CodeService.ImportantEntities r l ;; ret tt | KStats r => CodeService.Stats r ;; ret tt
  | KAmbiguous r l => CodeService.AmbiguousEdges r l ;; ret tt | KExplain r i => Explain r i ;; ret tt
  | KSemanticMisses r f => svc_SemanticMisses r f ;; ret tt | KRelated r i rs m l => CodeService.Related r i rs m l ;; ret tt
  | KHyperedges r e l => CodeService.Hyperedges r e l ;; ret tt | KHyperedge r i => GetHyperedge r i ;; ret tt
  | KCommunities r l => CodeService.Communities r l ;; ret tt | KCommunity r c l => CodeService.Community r c l ;; ret tt
  | KBridges r l => CodeService.Bridges r l ;; ret tt | KImportantBy r b l => CodeService.ImportantEntitiesBy r b l ;; ret tt
  end.
Lemma code_closed c : closed (run_code c).
Proof.
  destruct c; cbn [run_code]; unfold Push, Search, GetCodeEntity, svc_Neighbors, CodeService.FileImports, CodeService.CrossRepo,
    CodeService.ShortestPath, CodeService.ImportantEntities, CodeService.Stats, CodeService.AmbiguousEdges, Explain, svc_SemanticMisses,
    CodeService.Related, CodeService.Hyperedges, GetHyperedge, CodeService.Communities, CodeService.Community, CodeService.Bridges,
    CodeService.ImportantEntitiesBy; series.
Qed.
End CodeSeries.

(** * No operation adds a series *)

(** Every family is complete from the start and stays so: whatever an operation of the
    service, of the client, of the pool, of the reaper or of the code graph is called with,
    and whatever its environment answers, it counts only under labels that were registered
    at zero. *)
Theorem series_fixed :
  (forall L T S `{Client L} `{Tombstoner T} `{SourceIndex S} `{TimeParse} has_tomb has_sources now c (w : svc L T S),
     dom (sv_ops w) = dom newServiceOps -> dom (sv_ops (run_service has_tomb has_sources now c w).2) = dom newServiceOps) /\
  (forall ParseTime ctx `{Codec} c n,
     dom (n_calls n) = dom client_newMetrics -> dom (n_calls (run_client ParseTime ctx c n).2) = dom client_newMetrics) /\
  (forall S U `{JobStore S} `{GoError} (up : Upstream U) cfg now s id (p : pool S U),
     dom (p_metrics p) = dom ingest_newMetrics ->
     dom (p_metrics (worker_step up cfg now s p).2) = dom ingest_newMetrics /\
     dom (p_metrics (Notify cfg id p).2) = dom ingest_newMetrics /\ dom (p_metrics (Resume cfg p).2) = dom ingest_newMetrics) /\
  (forall W `{TrackStatuser W} `{ReapStore W} `{Deadline W} now maxAge (w : rw),
     dom (rw_metric w) = dom NewReaper_metric -> dom (rw_metric (tick now maxAge w).2) = dom NewReaper_metric) /\
  (forall S `{Store S} c (w : code_svc S),
     dom (cs_queries w) = dom codegraph_NewMetrics -> dom (cs_queries (run_code c w).2) = dom codegraph_NewMetrics).
Proof.
  split; [|split; [|split; [|split]]].
  - intros L T S ? ? ? ? has_tomb has_sources now c w. apply service_closed.
  - intros ParseTime ctx ? c n. apply client_closed.
  - intros S U ? ? up cfg now s id p Hp. split; [by apply pool_closed|]. split; [by apply pool_notify|by apply pool_resume].
  - intros W ? ? ? now maxAge w. apply reaper_closed.
  - intros S ? c w. apply code_closed.
Qed.
(** One series per operation and result. *)
Lemma series_counts :
  (size newServiceOps, size client_newMetrics, size ingest_newMetrics, size NewReaper_metric, size codegraph_NewMetrics)
  = (28, 28, 11, 5, 36)%nat.
Proof. by vm_compute. Qed.
